(** * dvom: snapshot storage and encryption engine

    A shallow embedding of the encryption codec (package [crypto]), the
    filesystem backend and the snapshot versioning layer (package
    [storage]) and the decryption gate of the restore pipeline (package
    [backup]), followed by the properties proved about them.

    Conventions.
    - A byte is an integer in [0, 256); a byte slice is a [list Z].
    - A Go [string] is a [string]; comparison is byte-wise.
    - A [uint64] is an integer in [0, 2^64) with the wrap-around written out.
    - A Go [error] is a value of the inductive type [error]; [%w] wrapping
      is the constructor [ErrWrap].
    - Everything the code obtains from outside (random bytes, the clock,
      the results of system calls) is an explicit input. *)

From Stdlib Require Import ZArith String Ascii List Bool Lia.
From stdpp Require Import base option list gmap strings sorting.

Local Open Scope Z_scope.

(** ** Errors and byte streams (Go packages [errors], [io], [bytes]) *)

Inductive error : Type :=
| EOF                                  (* io.EOF *)
| ErrUnexpectedEOF                     (* io.ErrUnexpectedEOF *)
| ErrOpen                              (* cipher: message authentication failed *)
| ErrNew (msg : string)                (* fmt.Errorf without a wrapped error *)
| ErrWrap (msg : string) (e : error).  (* fmt.Errorf("msg: %w", e) *)

Global Instance error_eq_dec : EqDecision error.
Proof. solve_decision. Defined.

(** [err == io.EOF] *)
Definition is_EOF (e : option error) : bool :=
  match e with Some EOF => true | _ => false end.

(** [err != nil && err != io.EOF] *)
Definition is_failure (e : option error) : bool :=
  match e with None | Some EOF => false | Some _ => true end.

(** An [io.Reader] is described by what its successive [Read] calls
    return: each event is the bytes handed out together with the error
    value of that call.  After the last event every call returns
    [(0, io.EOF)].  When the caller's buffer is smaller than the bytes an
    event holds, the call fills the buffer and the rest stays for the next
    call. *)
Record event : Type := Ret { ev_data : list Z; ev_err : option error }.

Definition Reader : Type := list event.

Definition Read (r : Reader) (cap : nat) : (list Z * option error) * Reader :=
  match r with
  | [] => (([], Some EOF), [])
  | Ret bs e :: r' =>
      if bool_decide (length bs ≤ cap)%nat
      then ((bs, e), r')
      else ((take cap bs, None), Ret (drop cap bs) e :: r')
  end.

(** [bytes.NewReader(data)], and equally a regular file holding [data]:
    every call returns as much as the buffer takes. *)
Definition bytes_NewReader (data : list Z) : Reader :=
  match data with
  | [] => []
  | _ => [Ret data None]
  end.

(** [io.MultiReader(r1, r2)]: the events of [r1], then those of [r2]. *)
Definition MultiReader (r1 r2 : Reader) : Reader := r1 ++ r2.

(** All the bytes held by the events of a reader, in order. *)
Definition stream_bytes (r : Reader) : list Z := concat (map ev_data r).

(** A reader none of whose calls returns an error before its end. *)
Definition error_free (r : Reader) : Prop := Forall (λ ev, ev_err ev = None) r.

(** [io.ReadFull(r, buf)] with [len(buf) = got + n]: the loop of
    [io.ReadAtLeast], [n] being the number of bytes still missing. *)
Fixpoint ReadFull_loop (r : Reader) (got : list Z) (n : nat) {struct r}
  : (list Z * option error) * Reader :=
  match n with
  | O => ((got, None), r)
  | S _ =>
      match r with
      | [] =>
          ((got, Some (match got with [] => EOF | _ => ErrUnexpectedEOF end)), [])
      | Ret bs e :: r' =>
          if bool_decide (length bs ≤ n)%nat then
            match e with
            | None => ReadFull_loop r' (got ++ bs) (n - length bs)
            | Some err =>
                if bool_decide (length bs = n) then ((got ++ bs, None), r')
                else ((got ++ bs,
                       Some (match got ++ bs, err with
                             | _ :: _, EOF => ErrUnexpectedEOF
                             | _, _ => err
                             end)), r')
            end
          else ((got ++ take n bs, None), Ret (drop n bs) e :: r')
      end
  end.

Definition ReadFull (r : Reader) (n : nat) : (list Z * option error) * Reader :=
  ReadFull_loop r [] n.

(** An [io.Writer]: the bytes written so far and, for each coming [Write]
    call, the error it will return ([None], or no entry, for success).
    A [bytes.Buffer] is a writer without faults. *)
Record Writer : Type := MkWriter { w_buf : list Z; w_faults : list (option error) }.

Definition bytes_Buffer : Writer := MkWriter [] [].

Definition Write (w : Writer) (p : list Z) : option error * Writer :=
  match w_faults w with
  | Some e :: fs => (Some e, MkWriter (w_buf w) fs)
  | None :: fs => (None, MkWriter (w_buf w ++ p) fs)
  | [] => (None, MkWriter (w_buf w ++ p) [])
  end.

(** [io.Copy] into a writer that does not fail, with a transfer buffer of
    [plen] bytes: the bytes transferred and the error, [None] when the
    source ended with [io.EOF].  The loop runs until the source returns an
    error; [fuel] bounds the number of [Read] calls and [None] is returned
    only when it is used up. *)
Fixpoint io_Copy {St : Type} (read : St → nat → (list Z * option error) * St)
    (fuel : nat) (s : St) (plen : nat) : option (list Z * option error) :=
  match fuel with
  | O => None
  | S fuel' =>
      let '((bs, er), s') := read s plen in
      match er with
      | Some EOF => Some (bs, None)
      | Some e => Some (bs, Some e)
      | None =>
          match io_Copy read fuel' s' plen with
          | Some (rest, e) => Some (bs ++ rest, e)
          | None => None
          end
      end
  end.

(** [io.Copy] from [s] returns, having transferred [out], with result
    [err]: every sufficient bound on the number of [Read] calls gives this
    result. *)
Definition io_Copy_returns {St : Type} (read : St → nat → (list Z * option error) * St)
    (s : St) (plen : nat) (out : list Z) (err : option error) : Prop :=
  ∃ fuel0 : nat, ∀ fuel : nat, (fuel0 ≤ fuel)%nat → io_Copy read fuel s plen = Some (out, err).

(** ** Package crypto *)

Module crypto.

Definition SaltSize : nat := 32.
Definition KeySize : nat := 32.
Definition NonceSize : nat := 12.
Definition Iterations : nat := 100 * 1000.

(** [gcm.Overhead()]: the size of the GCM authentication tag. *)
Definition Overhead : nat := 16.

(** [64*1024], the size of the plaintext buffer. *)
Definition ChunkSize : nat := 64 * 1024.
Global Opaque ChunkSize.

(** The magic bytes "DVOM-ENC". *)
Definition magic : list Z := [68; 86; 79; 77; 45; 69; 78; 67].

(** The primitives taken from outside the repository: PBKDF2
    ([golang.org/x/crypto/pbkdf2]) and AES-256-GCM ([crypto/aes],
    [crypto/cipher]).  A [cipher.AEAD] value is represented by its key.
    The three laws are functional facts of GCM with a 12-byte nonce:
    opening a sealed message returns it; [Seal] is deterministic and
    [Open] recomputes the tag and inverts the counter-mode encryption, so
    whatever opens is the sealing of what it opens to; the tag adds
    [Overhead] bytes. *)
Class Primitives : Type := {
  pbkdf2_Key : string → list Z → nat → nat → list Z;
  Seal : list Z → list Z → list Z → list Z;
  Open : list Z → list Z → list Z → option (list Z);
  Open_Seal : ∀ key nonce p,
    length nonce = NonceSize → Open key nonce (Seal key nonce p) = Some p;
  Open_Some : ∀ key nonce c p,
    length nonce = NonceSize → Open key nonce c = Some p → c = Seal key nonce p;
  Seal_length : ∀ key nonce p,
    length nonce = NonceSize → length (Seal key nonce p) = (length p + Overhead)%nat
}.

Record EncryptionHeader : Type := MkHeader { Salt : list Z; Nonce : list Z }.

(** [byte(x)]: conversion of an unsigned integer to [byte]. *)
Definition byte (x : Z) : Z := x mod 256.

(** [er.counter++] on a [uint64]. *)
Definition incr64 (c : Z) : Z := (c + 1) mod 2 ^ 64.

(** The loop
    [for i := 0; i < 8 && i < len(chunkNonce); i++ {
       chunkNonce[len(chunkNonce)-1-i] ^= byte(counter >> (8 * i)) }]
    of [EncryptReader.Read]; [fuel] bounds the iterations. *)
Fixpoint er_nonce_loop (fuel i : nat) (counter : Z) (chunkNonce : list Z) : list Z :=
  match fuel with
  | O => chunkNonce
  | S fuel' =>
      if bool_decide (i < 8 ∧ i < length chunkNonce)%nat then
        er_nonce_loop fuel' (S i) counter
          (alter (λ b, Z.lxor b (byte (Z.shiftr counter (8 * Z.of_nat i))))
                 (length chunkNonce - 1 - i)%nat chunkNonce)
      else chunkNonce
  end.

(** The per-chunk nonce of [EncryptReader.Read]: a copy of the base nonce
    with the counter combined in. *)
Definition er_chunkNonce (baseNonce : list Z) (counter : Z) : list Z :=
  er_nonce_loop 8 0 counter baseNonce.

(** The same loop as it is written in [DecryptReader.Read]. *)
Fixpoint dr_nonce_loop (fuel i : nat) (counter : Z) (chunkNonce : list Z) : list Z :=
  match fuel with
  | O => chunkNonce
  | S fuel' =>
      if bool_decide (i < 8 ∧ i < length chunkNonce)%nat then
        dr_nonce_loop fuel' (S i) counter
          (alter (λ b, Z.lxor b (byte (Z.shiftr counter (8 * Z.of_nat i))))
                 (length chunkNonce - 1 - i)%nat chunkNonce)
      else chunkNonce
  end.

Definition dr_chunkNonce (baseNonce : list Z) (counter : Z) : list Z :=
  dr_nonce_loop 8 0 counter baseNonce.

Section Codec.
Context `{Primitives}.

Definition DeriveKey (password : string) (salt : list Z) : list Z :=
  pbkdf2_Key password salt Iterations KeySize.

(** [GenerateSalt] and [GenerateNonce] read from [rand.Reader], which is
    an input here. *)
Definition GenerateSalt (rand : Reader) : (list Z + error) * Reader :=
  match ReadFull rand SaltSize with
  | ((salt, None), rand') => (inl salt, rand')
  | ((_, Some err), rand') => (inr (ErrWrap "failed to generate salt" err), rand')
  end.

Definition GenerateNonce (rand : Reader) : (list Z + error) * Reader :=
  match ReadFull rand NonceSize with
  | ((nonce, None), rand') => (inl nonce, rand')
  | ((_, Some err), rand') => (inr (ErrWrap "failed to generate nonce" err), rand')
  end.

Record EncryptReader : Type := MkEncryptReader {
  er_reader : Reader;
  er_cipher : list Z;
  er_baseNonce : list Z;
  er_counter : Z;
  er_encrypted : list Z;
  er_eof : bool
}.

(** [aes.NewCipher] fails only for a key that is not 16, 24 or 32 bytes
    long and [cipher.NewGCM] only for a block size other than 16; the key
    comes from [DeriveKey] with [KeySize] and is an AES key, so neither
    error branch is taken. *)
Definition NewEncryptReader (r : Reader) (password : string) (rand : Reader)
  : (EncryptReader * EncryptionHeader + error) * Reader :=
  match GenerateSalt rand with
  | (inr err, rand') => (inr err, rand')
  | (inl salt, rand') =>
      let key := DeriveKey password salt in
      match GenerateNonce rand' with
      | (inr err, rand'') => (inr err, rand'')
      | (inl nonce, rand'') =>
          (inl (MkEncryptReader r key nonce 0 [] false, MkHeader salt nonce), rand'')
      end
  end.

(** [EncryptReader.Read(p)] with [len(p) = plen]: the bytes copied into
    [p], the error, and the reader afterwards. *)
Definition er_Read (er : EncryptReader) (plen : nat)
  : (list Z * option error) * EncryptReader :=
  if er_eof er && bool_decide (length (er_encrypted er) = 0%nat) then
    (([], Some EOF), er)
  else if bool_decide (0 < length (er_encrypted er))%nat then
    ((take plen (er_encrypted er), None),
     MkEncryptReader (er_reader er) (er_cipher er) (er_baseNonce er) (er_counter er)
       (drop plen (er_encrypted er)) (er_eof er))
  else
    let '((buf, err), rd) := Read (er_reader er) ChunkSize in
    if is_failure err then
      (([], err),
       MkEncryptReader rd (er_cipher er) (er_baseNonce er) (er_counter er)
         (er_encrypted er) (er_eof er))
    else if bool_decide (0 < length buf)%nat then
      let chunkNonce := er_chunkNonce (er_baseNonce er) (er_counter er) in
      let encrypted := Seal (er_cipher er) chunkNonce buf in
      ((take plen encrypted, None),
       MkEncryptReader rd (er_cipher er) (er_baseNonce er) (incr64 (er_counter er))
         (drop plen encrypted) (er_eof er))
    else if is_EOF err then
      if bool_decide (0 < length (er_encrypted er))%nat then
        ((take plen (er_encrypted er), None),
         MkEncryptReader rd (er_cipher er) (er_baseNonce er) (er_counter er)
           (drop plen (er_encrypted er)) true)
      else
        (([], Some EOF),
         MkEncryptReader rd (er_cipher er) (er_baseNonce er) (er_counter er)
           (er_encrypted er) true)
    else
      (([], None),
       MkEncryptReader rd (er_cipher er) (er_baseNonce er) (er_counter er)
         (er_encrypted er) (er_eof er)).

Record DecryptReader : Type := MkDecryptReader {
  dr_reader : Reader;
  dr_cipher : list Z;
  dr_baseNonce : list Z;
  dr_counter : Z;
  dr_decrypted : list Z;
  dr_eof : bool
}.

Definition NewDecryptReader (r : Reader) (password : string) (header : EncryptionHeader)
  : DecryptReader :=
  let key := DeriveKey password (Salt header) in
  MkDecryptReader r key (Nonce header) 0 [] false.

(** [DecryptReader.Read(p)] with [len(p) = plen]. *)
Definition dr_Read (dr : DecryptReader) (plen : nat)
  : (list Z * option error) * DecryptReader :=
  if dr_eof dr && bool_decide (length (dr_decrypted dr) = 0%nat) then
    (([], Some EOF), dr)
  else if bool_decide (0 < length (dr_decrypted dr))%nat then
    ((take plen (dr_decrypted dr), None),
     MkDecryptReader (dr_reader dr) (dr_cipher dr) (dr_baseNonce dr) (dr_counter dr)
       (drop plen (dr_decrypted dr)) (dr_eof dr))
  else
    let '((buf, err), rd) := Read (dr_reader dr) (ChunkSize + Overhead) in
    if is_failure err then
      (([], err),
       MkDecryptReader rd (dr_cipher dr) (dr_baseNonce dr) (dr_counter dr)
         (dr_decrypted dr) (dr_eof dr))
    else if bool_decide (0 < length buf)%nat then
      let chunkNonce := dr_chunkNonce (dr_baseNonce dr) (dr_counter dr) in
      match Open (dr_cipher dr) chunkNonce buf with
      | None =>
          (([], Some (ErrWrap "decryption failed" ErrOpen)),
           MkDecryptReader rd (dr_cipher dr) (dr_baseNonce dr) (dr_counter dr)
             (dr_decrypted dr) (dr_eof dr))
      | Some decrypted =>
          ((take plen decrypted, None),
           MkDecryptReader rd (dr_cipher dr) (dr_baseNonce dr) (incr64 (dr_counter dr))
             (drop plen decrypted) (dr_eof dr))
      end
    else if is_EOF err then
      if bool_decide (0 < length (dr_decrypted dr))%nat then
        ((take plen (dr_decrypted dr), None),
         MkDecryptReader rd (dr_cipher dr) (dr_baseNonce dr) (dr_counter dr)
           (drop plen (dr_decrypted dr)) true)
      else
        (([], Some EOF),
         MkDecryptReader rd (dr_cipher dr) (dr_baseNonce dr) (dr_counter dr)
           (dr_decrypted dr) true)
    else
      (([], None),
       MkDecryptReader rd (dr_cipher dr) (dr_baseNonce dr) (dr_counter dr)
         (dr_decrypted dr) (dr_eof dr)).

End Codec.

(** [WriteEncryptionHeader(w, header)] *)
Definition WriteEncryptionHeader (w : Writer) (header : EncryptionHeader)
  : option error * Writer :=
  match Write w magic with
  | (Some err, w1) => (Some (ErrWrap "failed to write magic bytes" err), w1)
  | (None, w1) =>
      match Write w1 [1] with
      | (Some err, w2) => (Some (ErrWrap "failed to write version" err), w2)
      | (None, w2) =>
          match Write w2 (Salt header) with
          | (Some err, w3) => (Some (ErrWrap "failed to write salt" err), w3)
          | (None, w3) =>
              match Write w3 (Nonce header) with
              | (Some err, w4) => (Some (ErrWrap "failed to write nonce" err), w4)
              | (None, w4) => (None, w4)
              end
          end
      end
  end.

(** [ReadEncryptionHeader(r)]: the header or the error, and the reader
    positioned after what was consumed. *)
Definition ReadEncryptionHeader (r : Reader) : (EncryptionHeader + error) * Reader :=
  match ReadFull r 8 with
  | ((_, Some err), r1) => (inr (ErrWrap "failed to read magic bytes" err), r1)
  | ((magic', None), r1) =>
      if negb (bool_decide (magic' = magic)) then
        (inr (ErrNew "not an encrypted DVOM backup"), r1)
      else
        match ReadFull r1 1 with
        | ((_, Some err), r2) => (inr (ErrWrap "failed to read version" err), r2)
        | ((version, None), r2) =>
            if negb (bool_decide (version !! 0%nat = Some 1)) then
              (inr (ErrNew "unsupported encryption version"), r2)
            else
              match ReadFull r2 SaltSize with
              | ((_, Some err), r3) => (inr (ErrWrap "failed to read salt" err), r3)
              | ((salt, None), r3) =>
                  match ReadFull r3 NonceSize with
                  | ((_, Some err), r4) => (inr (ErrWrap "failed to read nonce" err), r4)
                  | ((nonce, None), r4) => (inl (MkHeader salt nonce), r4)
                  end
              end
        end
  end.

(** [IsEncrypted(data)] *)
Definition IsEncrypted (data : list Z) : bool :=
  bool_decide (8 ≤ length data)%nat && bool_decide (take 8 data = magic).

Section Pipeline.
Context `{Primitives}.

(** The chunks of [data], [ChunkSize] bytes each but for the last, sealed
    one after the other under the nonces of the counters from [counter]
    on; [n] bounds the number of chunks. *)
Fixpoint sealed_chunks (n : nat) (key baseNonce : list Z) (counter : Z) (data : list Z)
  : list Z :=
  match n, data with
  | O, _ => []
  | _, [] => []
  | S n', _ =>
      Seal key (er_chunkNonce baseNonce counter) (take ChunkSize data) ++
      sealed_chunks n' key baseNonce (incr64 counter) (drop ChunkSize data)
  end.

(** Encryption as [BackupDirectVolume] composes it: [NewEncryptReader] on
    the plaintext, [WriteEncryptionHeader] into a [bytes.Buffer], and
    [io.Copy] of [io.MultiReader(&headerBuf, encryptReader)]; the bytes
    that reach the store, and the error. *)
Definition encrypt_pipe (fuel plen : nat) (plain : Reader) (password : string)
    (rand : Reader) : option (list Z * option error) :=
  match NewEncryptReader plain password rand with
  | (inr err, _) => Some ([], Some err)
  | (inl (encryptReader, header), _) =>
      match WriteEncryptionHeader bytes_Buffer header with
      | (Some err, _) => Some ([], Some err)
      | (None, headerBuf) =>
          match io_Copy er_Read fuel encryptReader plen with
          | None => None
          | Some (encrypted, err) => Some (w_buf headerBuf ++ encrypted, err)
          end
      end
  end.

(** Decryption of a stored stream: [ReadEncryptionHeader], then
    [NewDecryptReader] on the same reader with the parsed header, and
    [io.Copy] of the result. *)
Definition decrypt_pipe (fuel plen : nat) (stored : Reader) (password : string)
  : option (list Z * option error) :=
  match ReadEncryptionHeader stored with
  | (inr err, _) => Some ([], Some err)
  | (inl header, rest) =>
      io_Copy dr_Read fuel (NewDecryptReader rest password header) plen
  end.

(** An [EncryptReader] as the reader it is for its consumer: the results
    of its successive [Read] calls with a buffer of [plen] bytes, up to
    the first call that returns an error ([io.Copy] and [io.ReadAll] stop
    there).  [None] when [fuel] calls do not reach that point. *)
Fixpoint er_events (fuel plen : nat) (er : EncryptReader) : option Reader :=
  match fuel with
  | O => None
  | S fuel' =>
      let '((bs, err), er') := er_Read er plen in
      match err with
      | Some e => Some [Ret bs (Some e)]
      | None =>
          match er_events fuel' plen er' with
          | Some events => Some (Ret bs None :: events)
          | None => None
          end
      end
  end.

End Pipeline.

End crypto.

(** ** Go package [strings] and [path/filepath], as far as they are used *)

Module strings.

(** [strings.HasPrefix(s, prefix)] *)
Definition HasPrefix (s prefix : string) : bool := String.prefix prefix s.

(** [strings.HasSuffix(s, suffix)]:
    [len(s) >= len(suffix) && s[len(s)-len(suffix):] == suffix] *)
Definition HasSuffix (s suffix : string) : bool :=
  bool_decide (String.length suffix ≤ String.length s)%nat &&
  String.eqb
    (substring (String.length s - String.length suffix) (String.length suffix) s)
    suffix.

(** [strings.TrimSuffix(s, suffix)] *)
Definition TrimSuffix (s suffix : string) : string :=
  if HasSuffix s suffix
  then substring 0 (String.length s - String.length suffix) s
  else s.

(** [strings.Contains(s, substr)] *)
Fixpoint Contains (s substr : string) : bool :=
  String.prefix substr s ||
  match s with
  | EmptyString => false
  | String _ s' => Contains s' substr
  end.

(** [strings.ReplaceAll(s, old, new)] for a one-byte [old]. *)
Fixpoint ReplaceAll (s : string) (old : ascii) (new : string) : string :=
  match s with
  | EmptyString => EmptyString
  | String c s' =>
      if Ascii.eqb c old then new +:+ ReplaceAll s' old new
      else String c (ReplaceAll s' old new)
  end.

(** [strings.Cut(s, sep)]: the text before and after the first [sep]. *)
Fixpoint Cut (s sep : string) : option (string * string) :=
  if String.prefix sep s then
    Some (EmptyString, substring (String.length sep) (String.length s) s)
  else
    match s with
    | EmptyString => None
    | String c s' =>
        match Cut s' sep with
        | Some (before, after) => Some (String c before, after)
        | None => None
        end
    end.

(** [strings.SplitN(s, sep, 2)] for a non-empty [sep]. *)
Definition SplitN2 (s sep : string) : list string :=
  match Cut s sep with
  | Some (before, after) => [before; after]
  | None => [s]
  end.

(** [strings.Split(s, sep)] for a one-byte [sep]: the pieces between the
    separators, one piece (the empty string) for the empty string. *)
Fixpoint Split (s : string) (sep : ascii) : list string :=
  match s with
  | EmptyString => [EmptyString]
  | String c s' =>
      if Ascii.eqb c sep then EmptyString :: Split s' sep
      else
        match Split s' sep with
        | piece :: pieces => String c piece :: pieces
        | [] => [String c EmptyString]
        end
  end.

(** [strings.ToLower(s)] on the bytes of ASCII: the letters A to Z are
    mapped to a to z.  (On a rune outside ASCII the library uses the
    Unicode tables; no such rune is mapped to the letter y, the one result
    the code compares with.) *)
Definition lower (c : ascii) : ascii :=
  let n := nat_of_ascii c in
  if (65 <=? n)%nat && (n <=? 90)%nat then ascii_of_nat (n + 32) else c.

Fixpoint ToLower (s : string) : string :=
  match s with
  | EmptyString => EmptyString
  | String c s' => String (lower c) (ToLower s')
  end.

(** [strings.TrimPrefix(s, prefix)] *)
Definition TrimPrefix (s prefix : string) : string :=
  if HasPrefix s prefix
  then substring (String.length prefix) (String.length s - String.length prefix) s
  else s.

End strings.

Module filepath.

(** The loop of [filepath.Ext], scanning the name from its end. *)
Fixpoint Ext_scan (reversed : list ascii) (acc : list ascii) : string :=
  match reversed with
  | [] => EmptyString
  | c :: rest =>
      if Ascii.eqb c "/" then EmptyString
      else if Ascii.eqb c "." then string_of_list_ascii (c :: acc)
      else Ext_scan rest (c :: acc)
  end.

Definition Ext (path : string) : string :=
  Ext_scan (rev (list_ascii_of_string path)) [].

(** The ids that name an entry of the base directory: for them
    [filepath.Join(basePath, id)] is the file [id] inside [basePath].
    [Join] drops an empty element and cleans the path it has joined, so
    the empty id, ".", ".." and an id with a separator name another
    file. *)
Definition names_entry (id : string) : bool :=
  negb (String.eqb id "") && negb (String.eqb id ".") && negb (String.eqb id "..") &&
  negb (strings.Contains id "/").

End filepath.

(** ** Go packages [unicode/utf8] and [encoding/json], as far as they are used *)

Module utf8.

Definition between (lo hi : N) (b : ascii) : bool :=
  (lo <=? N_of_ascii b)%N && (N_of_ascii b <=? hi)%N.

(** The number of bytes of the encoded rune at the beginning of [s], as
    [utf8.DecodeRuneInString] finds it; 0 stands for its answer
    [(RuneError, 1)] on bytes that do not begin a valid encoding, and for
    the empty string.  The cases are those of the table [first] and of
    [acceptRanges]: a lead byte C2..DF takes one continuation byte, E0..EF
    two and F0..F4 three; the second byte is restricted after E0, ED, F0
    and F4 (no overlong forms, no surrogates, nothing above U+10FFFF). *)
Definition rune_size (s : string) : nat :=
  match s with
  | EmptyString => 0
  | String b0 rest =>
      let x := N_of_ascii b0 in
      if (x <? 128)%N then 1
      else if (x <? 194)%N then 0
      else if (x <? 224)%N then
        match rest with
        | String b1 _ => if between 128 191 b1 then 2 else 0
        | _ => 0
        end
      else if (x <? 240)%N then
        match rest with
        | String b1 (String b2 _) =>
            if between (if (x =? 224)%N then 160 else 128)
                       (if (x =? 237)%N then 159 else 191) b1 &&
               between 128 191 b2
            then 3 else 0
        | _ => 0
        end
      else if (x <? 245)%N then
        match rest with
        | String b1 (String b2 (String b3 _)) =>
            if between (if (x =? 240)%N then 144 else 128)
                       (if (x =? 244)%N then 143 else 191) b1 &&
               between 128 191 b2 && between 128 191 b3
            then 4 else 0
        | _ => 0
        end
      else 0
  end.

Global Arguments rune_size : simpl never.

(** The loop of [utf8.ValidString]; [skip] counts the bytes still to pass
    of a rune that was found valid. *)
Fixpoint valid_from (skip : nat) (s : string) : bool :=
  match s with
  | EmptyString => true
  | String _ rest =>
      match skip with
      | S k => valid_from k rest
      | O =>
          match rune_size s with
          | O => false
          | S k => valid_from k rest
          end
      end
  end.

Definition ValidString (s : string) : bool := valid_from 0 s.

End utf8.

Module json.

(** The encoding of U+FFFD, the replacement rune. *)
Definition replacement : string :=
  String (ascii_of_N 239) (String (ascii_of_N 191) (String (ascii_of_N 189) EmptyString)).

(** A string after [Encode] and [Decode]: the encoder writes every byte
    that does not begin a valid encoding as the escape of U+FFFD and
    passes on the bytes of every valid rune, and the decoder reads back
    what was written. *)
Fixpoint coerce_from (skip : nat) (s : string) : string :=
  match s with
  | EmptyString => EmptyString
  | String b rest =>
      match skip with
      | S k => String b (coerce_from k rest)
      | O =>
          match utf8.rune_size s with
          | O => replacement +:+ coerce_from 0 rest
          | S k => String b (coerce_from k rest)
          end
      end
  end.

Definition coerce (s : string) : string := coerce_from 0 s.

End json.

(** ** Package storage *)

Module storage.

(** [time.Time] values are instants, counted in nanoseconds. *)
Record BackupMetadata : Type := MkMetadata {
  ID : string;
  Name : string;
  Type_ : string;
  Size : Z;
  CreatedAt : Z;
  ContainerID : string;
  VolumeName : string;
  ImageName : string;
  ImageTag : string;
  Description : string;
  Version : string;
  Encrypted : bool
}.

Record Backup : Type := MkBackup {
  b_ID : string;
  b_Metadata : BackupMetadata;
  b_DataReader : Reader
}.

(** The interface [Backend].  A backend value is the state of the store;
    the operations that change it return the new state. *)
Class Backend (B : Type) : Type := {
  Store : B → Backup → option error * B;
  Retrieve : B → string → Backup + error;
  ListAll : B → list BackupMetadata + error;
  Delete : B → string → option error * B;
  Exists : B → string → bool + error
}.

(** *** The filesystem backend, [LocalStorage] *)

(** The content of a file: raw bytes, or a JSON document, given by the
    metadata record it decodes to.  Only the latter decodes. *)
Inductive content : Type :=
| Bytes (bs : list Z)
| Json (m : BackupMetadata).

(** The record that the document [json.Encoder.Encode] (or
    [json.Marshal]) writes for [m] decodes to: the strings coerced to
    valid UTF-8, the numbers, the instant and the flag as they are. *)
Definition json_roundtrip (m : BackupMetadata) : BackupMetadata :=
  MkMetadata (json.coerce (ID m)) (json.coerce (Name m)) (json.coerce (Type_ m))
    (Size m) (CreatedAt m) (json.coerce (ContainerID m)) (json.coerce (VolumeName m))
    (json.coerce (ImageName m)) (json.coerce (ImageTag m))
    (json.coerce (Description m)) (json.coerce (Version m)) (Encrypted m).

(** The records all of whose strings are valid UTF-8. *)
Definition valid_metadata (m : BackupMetadata) : bool :=
  utf8.ValidString (ID m) && utf8.ValidString (Name m) && utf8.ValidString (Type_ m) &&
  utf8.ValidString (ContainerID m) && utf8.ValidString (VolumeName m) &&
  utf8.ValidString (ImageName m) && utf8.ValidString (ImageTag m) &&
  utf8.ValidString (Description m) && utf8.ValidString (Version m).

Definition json_Decode (c : content) : option BackupMetadata :=
  match c with
  | Json m => Some m
  | Bytes _ => None
  end.

Definition content_bytes (c : content) : list Z :=
  match c with
  | Bytes bs => bs
  | Json _ => []
  end.

(** The base directory: its regular files by name.  For an id that names
    an entry of the directory ([filepath.names_entry]) the path
    [filepath.Join(basePath, id) + ext] is the entry [id ++ ext]; the ids
    of the snapshot layer, a cleaned name, "@" and a time stamp, are such
    ids.  For any other id [Join] gives a path that is not an entry of the
    directory; what is stated of single ids is stated of ids that name an
    entry. *)
Abbreviation LocalStorage := (gmap string content).

(** The results of the system calls of one [Store] call that can fail for
    reasons outside the model. *)
Record StoreFaults : Type := MkFaults {
  create_data_err : option error;   (* os.Create of the data file *)
  write_data_err : option error;    (* writing to the data file *)
  create_meta_err : option error;   (* os.Create of the metadata file *)
  encode_err : option error;        (* json Encode into the metadata file *)
  remove_data_err : option error;   (* os.Remove of the data file *)
  remove_meta_err : option error    (* os.Remove of the metadata file *)
}.

Definition no_faults : StoreFaults := MkFaults None None None None None None.

(** All the bytes a reader delivers before it ends, and the error it ends
    with if that is not [io.EOF]. *)
Fixpoint read_all (r : Reader) : list Z * option error :=
  match r with
  | [] => ([], None)
  | Ret bs None :: r' => let '(rest, err) := read_all r' in (bs ++ rest, err)
  | Ret bs (Some EOF) :: _ => (bs, None)
  | Ret bs (Some err) :: _ => (bs, Some err)
  end.

(** [io.Copy(dataFile, reader)] *)
Definition copy_to_file (flt : StoreFaults) (r : Reader) : list Z * option error :=
  match write_data_err flt with
  | Some err => ([], Some err)
  | None => read_all r
  end.

(** [os.Remove(path)] inside [Store]: on failure a warning is printed and
    the file stays. *)
Definition os_Remove (fault : option error) (path : string) (l : LocalStorage)
  : LocalStorage :=
  match fault with
  | Some _ => l
  | None => delete path l
  end.

Definition LocalStorage_Store (flt : StoreFaults) (l : LocalStorage) (backup : Backup)
  : option error * LocalStorage :=
  let dataPath := b_ID backup +:+ ".tar.gz" in
  let metaPath := b_ID backup +:+ ".json" in
  match create_data_err flt with
  | Some err => (Some (ErrWrap "failed to create backup file" err), l)
  | None =>
      let '(written, copyErr) := copy_to_file flt (b_DataReader backup) in
      let l1 := <[dataPath := Bytes written]> l in
      match copyErr with
      | Some err =>
          (Some (ErrWrap "failed to write backup data" err),
           os_Remove (remove_data_err flt) dataPath l1)
      | None =>
          match create_meta_err flt with
          | Some err =>
              (Some (ErrWrap "failed to create metadata file" err),
               os_Remove (remove_data_err flt) dataPath l1)
          | None =>
              let l2 := <[metaPath := Bytes []]> l1 in
              match encode_err flt with
              | Some err =>
                  (Some (ErrWrap "failed to write metadata" err),
                   os_Remove (remove_meta_err flt) metaPath
                     (os_Remove (remove_data_err flt) dataPath l2))
              | None => (None, <[metaPath := Json (json_roundtrip (b_Metadata backup))]> l2)
              end
          end
      end
  end.

Definition LocalStorage_Retrieve (l : LocalStorage) (id : string) : Backup + error :=
  match l !! (id +:+ ".json") with
  | None => inr (ErrNew "backup not found")
  | Some metadataFile =>
      match json_Decode metadataFile with
      | None => inr (ErrNew "failed to decode metadata")
      | Some metadata =>
          match l !! (id +:+ ".tar.gz") with
          | None => inr (ErrNew "failed to open backup file")
          | Some dataFile =>
              inl (MkBackup id metadata (bytes_NewReader (content_bytes dataFile)))
          end
      end
  end.

(** The order of directory entries: byte-wise by file name. *)
Definition name_le (a b : string * content) : Prop := String.le a.1 b.1.

Global Instance name_le_dec : RelDecision name_le.
Proof. intros a b. unfold name_le. apply _. Defined.

(** [os.ReadDir(basePath)]: the entries sorted by file name. *)
Definition os_ReadDir (l : LocalStorage) : list (string * content) :=
  merge_sort name_le (map_to_list l).

(** What the loop of [List] appends for one directory entry, if anything. *)
Definition entry_metadata (entry : string * content) : option BackupMetadata :=
  if String.eqb (filepath.Ext entry.1) ".json" then json_Decode entry.2 else None.

Definition LocalStorage_List (l : LocalStorage) : list BackupMetadata + error :=
  inl (foldl
         (λ backups entry,
            if String.eqb (filepath.Ext entry.1) ".json" then
              match json_Decode entry.2 with
              | None => backups
              | Some metadata => backups ++ [metadata]
              end
            else backups)
         [] (os_ReadDir l)).

(** The two [os.Remove] calls of one [Delete]: the error each returns when
    it fails for another reason than that the file does not exist (a file
    name the system refuses, a missing permission). *)
Record DeleteFaults : Type := MkDeleteFaults {
  delete_data_err : option error;   (* os.Remove of the data file *)
  delete_meta_err : option error    (* os.Remove of the metadata file *)
}.

Definition no_delete_faults : DeleteFaults := MkDeleteFaults None None.

(** [os.Remove] of a file that does not exist is not an error here. *)
Definition LocalStorage_Delete (flt : DeleteFaults) (l : LocalStorage) (id : string)
  : option error * LocalStorage :=
  match delete_data_err flt with
  | Some err => (Some (ErrWrap "failed to remove backup file" err), l)
  | None =>
      let l1 := delete (id +:+ ".tar.gz") l in
      match delete_meta_err flt with
      | Some err => (Some (ErrWrap "failed to remove metadata file" err), l1)
      | None => (None, delete (id +:+ ".json") l1)
      end
  end.

Definition LocalStorage_Exists (l : LocalStorage) (id : string) : bool + error :=
  inl (bool_decide (is_Some (l !! (id +:+ ".json")))).

(** A directory as [Store] leaves it when every backup is stored under the
    id its metadata carries (as [StoreSnapshot] does): a metadata document
    lies in the file named after its id, next to the data file. *)
Definition wf_entry (l : LocalStorage) (entry : string * content) : bool :=
  match entry.2 with
  | Json m =>
      String.eqb entry.1 (ID m +:+ ".json") &&
      bool_decide (is_Some (l !! (ID m +:+ ".tar.gz")))
  | Bytes _ => true
  end.

Definition wf_store (l : LocalStorage) : bool := forallb (wf_entry l) (map_to_list l).

Definition data_present (l : LocalStorage) (id : string) : Prop :=
  is_Some (l !! (id +:+ ".tar.gz")).

Definition metadata_present (l : LocalStorage) (id : string) : Prop :=
  is_Some (l !! (id +:+ ".json")).

Definition only_one_present (l : LocalStorage) (id : string) : Prop :=
  (data_present l id ∧ ¬ metadata_present l id) ∨
  (¬ data_present l id ∧ metadata_present l id).

(** The claim that a failed [Store] never leaves exactly one of the two
    objects of its id. *)
Definition failed_Store_never_leaves_one : Prop :=
  ∀ (flt : StoreFaults) (l : LocalStorage) (backup : Backup) (err : error)
    (l' : LocalStorage),
    LocalStorage_Store flt l backup = (Some err, l') →
    ¬ only_one_present l' (b_ID backup).

(** The filesystem backend whose system calls fail as [flt] and [dflt]
    say. *)
Definition LocalStorage_Backend_with (flt : StoreFaults) (dflt : DeleteFaults)
  : Backend LocalStorage := {|
  Store := LocalStorage_Store flt;
  Retrieve := LocalStorage_Retrieve;
  ListAll := LocalStorage_List;
  Delete := LocalStorage_Delete dflt;
  Exists := LocalStorage_Exists
|}.

(** The filesystem backend on a system none of whose calls fails. *)
Global Instance LocalStorage_Backend : Backend LocalStorage :=
  LocalStorage_Backend_with no_faults no_delete_faults.

(** *** The S3 backend, [S3Storage] *)

(** The bucket: its objects by key, and the way the body of a [GetObject]
    response delivers the bytes of an object (a network stream hands them
    out in pieces of its own choosing). *)
Record S3Storage : Type := MkS3Storage {
  s3_objects : gmap string content;
  s3_body : list Z → Reader
}.

(** The calls of one [Store] that can fail for reasons outside the model. *)
Record S3Faults : Type := MkS3Faults {
  put_data_err : option error;     (* PutObject of the data *)
  marshal_err : option error;      (* json.Marshal of the metadata *)
  put_meta_err : option error      (* PutObject of the metadata *)
}.

Definition no_s3_faults : S3Faults := MkS3Faults None None None.

Definition PutObject (s : S3Storage) (key : string) (body : content) : S3Storage :=
  MkS3Storage (<[key := body]> (s3_objects s)) (s3_body s).

Definition S3Storage_Store (flt : S3Faults) (s : S3Storage) (backup : Backup)
  : option error * S3Storage :=
  match read_all (b_DataReader backup) with
  | (_, Some err) => (Some (ErrWrap "failed to read backup data" err), s)
  | (data, None) =>
      match put_data_err flt with
      | Some err => (Some (ErrWrap "failed to upload backup data" err), s)
      | None =>
          let s1 := PutObject s (b_ID backup +:+ ".tar.gz") (Bytes data) in
          match marshal_err flt with
          | Some err => (Some (ErrWrap "failed to marshal metadata" err), s1)
          | None =>
              match put_meta_err flt with
              | Some err => (Some (ErrWrap "failed to upload metadata" err), s1)
              | None =>
                  (None,
                   PutObject s1 (b_ID backup +:+ ".json")
                     (Json (json_roundtrip (b_Metadata backup))))
              end
          end
      end
  end.

Definition S3Storage_Retrieve (s : S3Storage) (id : string) : Backup + error :=
  match s3_objects s !! (id +:+ ".json") with
  | None => inr (ErrNew "failed to retrieve metadata")
  | Some metadataResult =>
      match json_Decode metadataResult with
      | None => inr (ErrNew "failed to decode metadata")
      | Some metadata =>
          match s3_objects s !! (id +:+ ".tar.gz") with
          | None => inr (ErrNew "failed to retrieve backup data")
          | Some dataResult =>
              inl (MkBackup id metadata (s3_body s (content_bytes dataResult)))
          end
      end
  end.

(** [ListObjectsV2] returns the keys in ascending byte order, page after
    page. *)
Definition S3Storage_List (s : S3Storage) : list BackupMetadata + error :=
  inl (foldl
         (λ backups obj,
            if bool_decide (5 < String.length obj.1)%nat &&
               String.eqb (substring (String.length obj.1 - 5) 5 obj.1) ".json" then
              match json_Decode obj.2 with
              | None => backups
              | Some metadata => backups ++ [metadata]
              end
            else backups)
         [] (merge_sort name_le (map_to_list (s3_objects s)))).

(** [DeleteObject] of a key that does not exist is not an error. *)
Definition S3Storage_Delete (s : S3Storage) (id : string) : option error * S3Storage :=
  (None,
   MkS3Storage (delete (id +:+ ".json") (delete (id +:+ ".tar.gz") (s3_objects s)))
     (s3_body s)).

(** Whatever error [HeadObject] returns, the answer is false. *)
Definition S3Storage_Exists (s : S3Storage) (id : string) : bool + error :=
  inl (bool_decide (is_Some (s3_objects s !! (id +:+ ".json")))).

Global Instance S3Storage_Backend : Backend S3Storage := {
  Store := S3Storage_Store no_s3_faults;
  Retrieve := S3Storage_Retrieve;
  ListAll := S3Storage_List;
  Delete := S3Storage_Delete;
  Exists := S3Storage_Exists
}.

(** *** The snapshot versioning layer, [SnapshotStorage] *)

Record VersionInfo : Type := MkVersionInfo {
  vi_Version : string;
  vi_Size : Z;
  vi_CreatedAt : Z;
  vi_Description : string
}.

Record SnapshotInfo : Type := MkSnapshotInfo {
  si_Name : string;
  si_Size : Z;
  si_CreatedAt : Z;
  si_Description : string;
  si_Volumes : list string;
  si_SourceContainer : string;
  si_Version : string;
  si_VersionCount : Z;
  si_Encrypted : bool
}.

Definition cleanSnapshotName (name : string) : string :=
  let name := strings.TrimSuffix name ".tar.gz" in
  let name := strings.TrimSuffix name ".zip" in
  let name := strings.ReplaceAll name "/" "-" in
  let name := strings.ReplaceAll name "\" "-" in
  name.

(** [fmt.Sprintf("%s@%s", name, version)] *)
Definition versionedID (name version : string) : string :=
  name +:+ "@" +:+ version.

Section SnapshotStorage.
Context {B : Type} `{Backend B}.

(** [StoreSnapshot]; [timestamp] is [time.Now().Format("20060102-150405")]
    and [now] the value of the second call of [time.Now()]. *)
Definition StoreSnapshot (s : B) (name : string) (backup : Backup)
    (timestamp : string) (now : Z) : option error * B :=
  if String.eqb name "" then (Some (ErrNew "snapshot name is required"), s)
  else
    let name := cleanSnapshotName name in
    let versionedID := versionedID name timestamp in
    let m := b_Metadata backup in
    let metadata :=
      MkMetadata versionedID name "volume-snapshot" (Size m) now (ContainerID m)
        (VolumeName m) (ImageName m) (ImageTag m) (Description m) timestamp
        (Encrypted m) in
    Store s (MkBackup versionedID metadata (b_DataReader backup)).

(** What the loop of [ListVersions] appends for one listed record, if
    anything. *)
Definition version_of (name : string) (backup : BackupMetadata) : option VersionInfo :=
  if strings.HasPrefix (ID backup) (name +:+ "@") then
    match strings.SplitN2 (ID backup) "@" with
    | [_; version] =>
        Some (MkVersionInfo version (Size backup) (CreatedAt backup) (Description backup))
    | _ => None
    end
  else None.

Definition ListVersions (s : B) (name : string) : list VersionInfo + error :=
  let name := cleanSnapshotName name in
  match ListAll s with
  | inr err => inr err
  | inl backups =>
      inl (foldl
             (λ versions backup,
                if strings.HasPrefix (ID backup) (name +:+ "@") then
                  match strings.SplitN2 (ID backup) "@" with
                  | [_; version] =>
                      versions ++
                      [MkVersionInfo version (Size backup) (CreatedAt backup)
                         (Description backup)]
                  | _ => versions
                  end
                else versions)
             [] backups)
  end.

Definition GetLatestVersion (s : B) (name : string) : string + error :=
  match ListVersions s name with
  | inr err => inr err
  | inl [] => inr (ErrNew "no versions found for snapshot")
  | inl (v0 :: vs) =>
      let latestVersion :=
        foldl (λ latest v,
                 if bool_decide (vi_CreatedAt latest < vi_CreatedAt v) then v else latest)
              v0 (v0 :: vs) in
      inl (vi_Version latestVersion)
  end.

Definition GetSnapshot (s : B) (nameOrVersioned : string) : Backup + error :=
  let nameOrVersioned := cleanSnapshotName nameOrVersioned in
  if strings.Contains nameOrVersioned "@" then Retrieve s nameOrVersioned
  else
    match GetLatestVersion s nameOrVersioned with
    | inr err => inr err
    | inl latestVersion => Retrieve s (versionedID nameOrVersioned latestVersion)
    end.

(** The loop of [DeleteSnapshot] over the versions. *)
Fixpoint delete_versions (s : B) (name : string) (versions : list VersionInfo)
  : option error * B :=
  match versions with
  | [] => (None, s)
  | version :: rest =>
      match Delete s (versionedID name (vi_Version version)) with
      | (Some err, s') => (Some (ErrWrap "failed to delete version" err), s')
      | (None, s') => delete_versions s' name rest
      end
  end.

Definition DeleteSnapshot (s : B) (nameOrVersioned : string) : option error * B :=
  let nameOrVersioned := cleanSnapshotName nameOrVersioned in
  if strings.Contains nameOrVersioned "@" then Delete s nameOrVersioned
  else
    match ListVersions s nameOrVersioned with
    | inr err => (Some (ErrWrap "failed to list versions for deletion" err), s)
    | inl [] => (Some (ErrNew "no snapshots found with name"), s)
    | inl versions => delete_versions s nameOrVersioned versions
    end.

(** The first loop of [ListSnapshots]: the listed records grouped by the
    text before the first "@" of their id. *)
Definition snapshotGroups (backups : list BackupMetadata)
  : gmap string (list BackupMetadata) :=
  foldl (λ groups backup,
           if negb (strings.Contains (ID backup) "@") then groups
           else
             match strings.SplitN2 (ID backup) "@" with
             | [name; _] => <[name := default [] (groups !! name) ++ [backup]]> groups
             | _ => groups
             end)
        ∅ backups.

(** The body of the second loop: the entry for one group.  [None] stands
    for the run-time panic of [versions[0]] on an empty slice. *)
Definition snapshot_of (name : string) (versions : list BackupMetadata)
  : option SnapshotInfo :=
  match versions with
  | [] => None
  | v0 :: _ =>
      let latestBackup :=
        foldl (λ latest v,
                 if bool_decide (CreatedAt latest < CreatedAt v) then v else latest)
              v0 versions in
      Some (MkSnapshotInfo name (Size latestBackup) (CreatedAt latestBackup)
              (Description latestBackup)
              (if String.eqb (VolumeName latestBackup) "" then []
               else strings.Split (VolumeName latestBackup) ",")
              "" (Version latestBackup) (Z.of_nat (length versions))
              (Encrypted latestBackup))
  end.

(** [ListSnapshots].  The order in which [range] visits a Go map is not
    specified; [range] is the order of this call. *)
Definition ListSnapshots
    (range : gmap string (list BackupMetadata) → list (string * list BackupMetadata))
    (s : B) : option (list SnapshotInfo + error) :=
  match ListAll s with
  | inr err => Some (inr err)
  | inl backups =>
      match mapM (λ group, snapshot_of group.1 group.2) (range (snapshotGroups backups)) with
      | Some snapshots => Some (inl snapshots)
      | None => None
      end
  end.

Definition SnapshotExists (s : B) (nameOrVersioned : string) : bool + error :=
  let nameOrVersioned := cleanSnapshotName nameOrVersioned in
  if strings.Contains nameOrVersioned "@" then Exists s nameOrVersioned
  else
    match ListVersions s nameOrVersioned with
    | inr err => inr err
    | inl versions => inl (bool_decide (0 < length versions)%nat)
    end.

End SnapshotStorage.

(** The metadata record that [StoreSnapshot] hands to the backend. *)
Definition stored_metadata (name : string) (backup : Backup) (timestamp : string)
    (now : Z) : BackupMetadata :=
  MkMetadata (versionedID (cleanSnapshotName name) timestamp)
    (cleanSnapshotName name) "volume-snapshot" (Size (b_Metadata backup)) now
    (ContainerID (b_Metadata backup)) (VolumeName (b_Metadata backup))
    (ImageName (b_Metadata backup)) (ImageTag (b_Metadata backup))
    (Description (b_Metadata backup)) timestamp (Encrypted (b_Metadata backup)).

(** The group that the first loop of [ListSnapshots] puts a listed record
    in, if any: the text before the first "@" of its id. *)
Definition group_of (backup : BackupMetadata) : option string :=
  if negb (strings.Contains (ID backup) "@") then None
  else
    match strings.SplitN2 (ID backup) "@" with
    | [name; _] => Some name
    | _ => None
    end.

(** Versions listed in the order of their creation times, oldest first or
    newest first. *)
Definition in_timestamp_order (versions : list VersionInfo) : Prop :=
  StronglySorted (λ a b, vi_CreatedAt a ≤ vi_CreatedAt b) versions ∨
  StronglySorted (λ a b, vi_CreatedAt b ≤ vi_CreatedAt a) versions.

(** The claim that [ListVersions] always lists in that order, stated for
    the filesystem backend. *)
Definition ListVersions_always_in_timestamp_order : Prop :=
  ∀ (l : LocalStorage) (name : string) (versions : list VersionInfo),
    wf_store l = true →
    ListVersions l name = inl versions →
    in_timestamp_order versions.

End storage.

(** ** Package docker: the containers *)

Module docker.

(** [types.Container], as far as it is used. *)
Record Container : Type := MkContainer { c_ID : string; c_Names : list string }.

(** The container engine as the client sees it: the containers it lists
    (all of them, running or not), which of them run, and the calls that
    fail. *)
Record Engine : Type := MkEngine {
  containers : list Container;          (* ContainerList with All *)
  list_err : option error;              (* the failure of ContainerList *)
  running : gmap string bool;           (* State.Running of ContainerInspect, by id *)
  inspect_err : string → option error;  (* the failure of ContainerInspect *)
  stop_err : string → option error;     (* the failure of ContainerStop *)
  start_err : string → option error     (* the failure of ContainerStart *)
}.

Definition set_running (e : Engine) (containerID : string) (state : bool) : Engine :=
  MkEngine (containers e) (list_err e) (<[containerID := state]> (running e))
    (inspect_err e) (stop_err e) (start_err e).

(** The test of the loop of [GetContainer] for one container. *)
Definition matches (name : string) (container : Container) : bool :=
  String.eqb (c_ID container) name || strings.HasPrefix (c_ID container) name ||
  existsb (λ containerName, String.eqb (strings.TrimPrefix containerName "/") name)
    (c_Names container).

Definition GetContainer (e : Engine) (name : string) : Container + error :=
  match list_err e with
  | Some err => inr (ErrWrap "failed to list containers" err)
  | None =>
      match List.find (matches name) (containers e) with
      | Some container => inl container
      | None => inr (ErrNew "container not found")
      end
  end.

(** [ContainerInspect] of an id the engine does not know fails. *)
Definition IsContainerRunning (e : Engine) (containerID : string) : bool + error :=
  match inspect_err e containerID with
  | Some err => inr err
  | None =>
      match running e !! containerID with
      | Some state => inl state
      | None => inr (ErrNew "No such container")
      end
  end.

Definition StopContainer (e : Engine) (containerID : string)
  : (bool * option error) * Engine :=
  match IsContainerRunning e containerID with
  | inr err => ((false, Some err), e)
  | inl wasRunning =>
      if wasRunning then
        match stop_err e containerID with
        | Some err => ((wasRunning, Some (ErrWrap "failed to stop container" err)), e)
        | None => ((wasRunning, None), set_running e containerID false)
        end
      else ((wasRunning, None), e)
  end.

Definition StartContainer (e : Engine) (containerID : string) : option error * Engine :=
  match start_err e containerID with
  | Some err => (Some (ErrWrap "failed to start container" err), e)
  | None => (None, set_running e containerID true)
  end.

(** An engine none of whose calls fails. *)
Definition calm (e : Engine) : Prop :=
  list_err e = None ∧
  (∀ id, inspect_err e id = None) ∧ (∀ id, stop_err e id = None) ∧
  (∀ id, start_err e id = None).

End docker.

(** ** Package backup: [RestoreDirectVolume] *)

Module backup.
Import crypto storage.

(** [models.VolumeInfo] *)
Record VolumeInfo : Type := MkVolumeInfo {
  vol_Name : string;
  vol_Source : string;
  vol_Destination : string;
  vol_Size : Z;
  vol_Driver : string;
  vol_CreatedAt : string
}.

(** What one call of [RestoreDirectVolume] obtains from the container
    engine, the terminal and the operating system. *)
Record Env : Type := MkEnv {
  volume_exists : bool + error;            (* c.docker.VolumeExists *)
  get_volume : VolumeInfo + error;         (* c.docker.GetVolume *)
  scan_response : string + error;          (* fmt.Scanln(&response) *)
  create_temp_err : option error;          (* os.CreateTemp *)
  client_password : string;                (* c.password *)
  prompt_password : string;                (* c.promptPassword *)
  close_temp_err : option error;           (* tempFile.Close *)
  restore_volume : list Z → option error   (* c.restoreDirectVolume *)
}.

(** How a call ends.  [Failed], [DryRun] and [Cancelled] return before any
    byte of the backup is written to the temporary file; [CopyFailed] and
    [CloseFailed] return after [written] was written to it; [Extracted]
    has run the extraction of [archive] into the volume. *)
Inductive outcome : Type :=
| Failed (err : error)
| DryRun
| Cancelled
| CopyFailed (written : list Z) (err : error)
| CloseFailed (written : list Z) (err : error)
| Extracted (archive : list Z) (result : option error).

(** [make([]byte, 512)] after [Read] has put [read] at its start. *)
Definition headerBytes (read : list Z) : list Z :=
  read ++ replicate (512 - length read) 0.

Section Restore.
Context `{Primitives} {B : Type} `{Backend B}.

(** The block "Handle decryption if the backup is encrypted": the reader
    the backup data is then copied from, or the error returned. *)
Definition finalReader (env : Env) (backup : Backup)
  : (Reader + DecryptReader) + error :=
  if Encrypted (b_Metadata backup) then
    let '((read, err), rd) := Read (b_DataReader backup) 512 in
    match err with
    | Some err => inr (ErrWrap "failed to read backup header" err)
    | None =>
        if negb (IsEncrypted (headerBytes read)) then
          inr (ErrNew "backup marked as encrypted but no encryption header found")
        else
          let password :=
            if String.eqb (client_password env) "" then prompt_password env
            else client_password env in
          if String.eqb password "" then
            inr (ErrNew "decryption password is required")
          else
            let remainingReader :=
              MultiReader (bytes_NewReader (take (length read) (headerBytes read))) rd in
            match ReadEncryptionHeader remainingReader with
            | (inr err, _) => inr (ErrWrap "failed to read encryption header" err)
            | (inl header, remainingReader') =>
                inl (inr (NewDecryptReader remainingReader' password header))
            end
    end
  else inl (inl (b_DataReader backup)).

(** [RestoreDirectVolume(volumeName, snapshotName, dryRun, force)];
    [storage] is [c.storage], [plen] the size of the transfer buffer of
    [io.Copy] and [fuel] the bound on its [Read] calls. *)
Definition RestoreDirectVolume (fuel : nat) (storage : option B) (env : Env)
    (volumeName snapshotName : string) (dryRun force : bool) (plen : nat)
  : option outcome :=
  match storage with
  | None => Some (Failed (ErrNew "storage backend is required for volume operations"))
  | Some s =>
  match volume_exists env with
  | inr err => Some (Failed (ErrWrap "failed to check target volume" err))
  | inl false => Some (Failed (ErrNew "target volume not found"))
  | inl true =>
  match get_volume env with
  | inr err => Some (Failed err)
  | inl volumeInfo =>
  match GetSnapshot s snapshotName with
  | inr err => Some (Failed (ErrWrap "failed to retrieve volume backup" err))
  | inl backup =>
  if dryRun then Some DryRun
  else if negb force &&
          negb (match scan_response env with
                | inl response => String.eqb response "y" || String.eqb response "Y"
                | inr _ => false
                end)
  then Some Cancelled
  else
  match create_temp_err env with
  | Some err => Some (Failed (ErrWrap "failed to create temp file" err))
  | None =>
  match finalReader env backup with
  | inr err => Some (Failed err)
  | inl reader =>
      let copied :=
        match reader with
        | inl plain => io_Copy Read fuel plain plen
        | inr decryptReader => io_Copy dr_Read fuel decryptReader plen
        end in
      match copied with
      | None => None
      | Some (written, Some err) =>
          Some (CopyFailed written (ErrWrap "failed to write backup data" err))
      | Some (written, None) =>
          match close_temp_err env with
          | Some err => Some (CloseFailed written (ErrWrap "failed to close temp file" err))
          | None =>
              Some (Extracted written
                      (match restore_volume env written with
                       | Some err => Some (ErrWrap "failed to restore volume" err)
                       | None => None
                       end))
          end
      end
  end end end end end end.

End Restore.

(** Conversion to [int64]. *)
Definition int64 (x : Z) : Z := (x + 2 ^ 63) mod 2 ^ 64 - 2 ^ 63.

(** What one call of [BackupDirectVolume] obtains from the container
    engine, the terminal, the operating system and the clock. *)
Record BackupEnv : Type := MkBackupEnv {
  bk_volume_exists : bool + error;       (* c.docker.VolumeExists *)
  bk_get_volume : VolumeInfo + error;    (* c.docker.GetVolume *)
  bk_create_temp_err : option error;     (* os.CreateTemp *)
  bk_archive : list Z + error;           (* c.backupDirectVolume: the archive
                                            it writes to the temporary file *)
  bk_seek_err : option error;            (* tempFile.Seek *)
  bk_stat_err : option error;            (* tempFile.Stat *)
  bk_encryptEnabled : bool;              (* c.encryptEnabled *)
  bk_password : string;                  (* c.password *)
  bk_prompt_password : string;           (* c.promptPassword(..., true) *)
  bk_rand : Reader;                      (* crypto/rand.Reader *)
  bk_created : Z;                        (* time.Now() for the metadata *)
  bk_timestamp : string;                 (* the version token of StoreSnapshot *)
  bk_now : Z                             (* time.Now() of StoreSnapshot *)
}.

Section Backup.
Context `{Primitives} {B : Type} `{Backend B}.

(** [BackupDirectVolume(volumeName, snapshotName)]: the error returned and
    the store afterwards.  [plen] is the size of the buffer the backend
    reads the data with and [fuel] the bound on the [Read] calls of the
    [EncryptReader]; the progress reader hands every [Read] on to the
    reader it wraps and is left out. *)
Definition BackupDirectVolume (fuel plen : nat) (storage : option B) (env : BackupEnv)
    (volumeName snapshotName : string) : option (option error * option B) :=
  match storage with
  | None =>
      Some (Some (ErrNew "storage backend is required for volume operations"), storage)
  | Some s =>
  match bk_volume_exists env with
  | inr err => Some (Some (ErrWrap "failed to check volume" err), storage)
  | inl false => Some (Some (ErrNew "volume not found"), storage)
  | inl true =>
  match bk_get_volume env with
  | inr err => Some (Some err, storage)
  | inl volumeInfo =>
  match bk_create_temp_err env with
  | Some err => Some (Some (ErrWrap "failed to create temp file" err), storage)
  | None =>
  match bk_archive env with
  | inr err => Some (Some err, storage)
  | inl archive =>
  match bk_seek_err env with
  | Some err => Some (Some (ErrWrap "failed to seek temp file" err), storage)
  | None =>
  match bk_stat_err env with
  | Some err => Some (Some (ErrWrap "failed to stat backup file" err), storage)
  | None =>
      let tempFile := bytes_NewReader archive in
      let size := Z.of_nat (length archive) in
      let prepared : option ((Reader * Z * bool) + error) :=
        if bk_encryptEnabled env then
          let password :=
            if String.eqb (bk_password env) "" then bk_prompt_password env
            else bk_password env in
          if String.eqb password "" then
            Some (inr (ErrNew "encryption password is required"))
          else
            match NewEncryptReader tempFile password (bk_rand env) with
            | (inr err, _) => Some (inr (ErrWrap "failed to create encryption" err))
            | (inl (encryptReader, header), _) =>
                match WriteEncryptionHeader bytes_Buffer header with
                | (Some err, _) =>
                    Some (inr (ErrWrap "failed to write encryption header" err))
                | (None, headerBuf) =>
                    match er_events fuel plen encryptReader with
                    | None => None
                    | Some encrypted =>
                        Some (inl (MultiReader (bytes_NewReader (w_buf headerBuf)) encrypted,
                                   int64 (int64 (Z.of_nat (length (w_buf headerBuf))) + size +
                                          int64 (size ÷ 64 ÷ 1024 * 16)),
                                   true))
                    end
                end
            end
        else Some (inl (tempFile, size, false)) in
      match prepared with
      | None => None
      | Some (inr err) => Some (Some err, storage)
      | Some (inl (finalReader, encryptedSize, isEncrypted)) =>
          let backup :=
            MkBackup snapshotName
              (MkMetadata "" snapshotName "direct-volume-backup" encryptedSize
                 (bk_created env) "" (vol_Name volumeInfo) "" ""
                 ("Direct volume backup of " +:+ volumeName) "" isEncrypted)
              finalReader in
          match StoreSnapshot s snapshotName backup (bk_timestamp env) (bk_now env) with
          | (Some err, s') =>
              Some (Some (ErrWrap "failed to store volume backup" err), Some s')
          | (None, s') => Some (None, Some s')
          end
      end
  end end end end end end end.

(** [Client.DeleteSnapshot(nameOrVersioned, force)]; [scan_response] is
    the result of [fmt.Scanln(&response)]. *)
Definition DeleteSnapshot (storage : option B) (scan_response : string + error)
    (nameOrVersioned : string) (force : bool) : option error * option B :=
  match storage with
  | None => (Some (ErrNew "storage backend is required for snapshot operations"), storage)
  | Some s =>
      let isVersioned := strings.Contains nameOrVersioned "@" in
      let checked : option error :=
        if negb force && negb isVersioned then
          match ListVersions s nameOrVersioned with
          | inr err => Some (ErrWrap "failed to check versions" err)
          | inl [] => Some (ErrNew "no snapshots found with name")
          | inl _ => None
          end
        else None in
      match checked with
      | Some err => (Some err, storage)
      | None =>
          if negb force &&
             negb (String.eqb
                     (strings.ToLower (match scan_response with
                                       | inl response => response
                                       | inr _ => "N"
                                       end)) "y")
          then (None, storage)
          else
            match storage.DeleteSnapshot s nameOrVersioned with
            | (Some err, s') => (Some (ErrWrap "failed to delete snapshot" err), Some s')
            | (None, s') => (None, Some s')
            end
      end
  end.

(** The loop of [stopContainers]. *)
Fixpoint stop_loop (e : docker.Engine) (stoppedContainers : gmap string bool)
    (containerNames : list string) : (gmap string bool * option error) * docker.Engine :=
  match containerNames with
  | [] => ((stoppedContainers, None), e)
  | name :: rest =>
      match docker.GetContainer e name with
      | inr err => ((stoppedContainers, Some (ErrWrap "container not found" err)), e)
      | inl container =>
          match docker.StopContainer e (docker.c_ID container) with
          | ((_, Some err), e') =>
              ((stoppedContainers, Some (ErrWrap "failed to stop container" err)), e')
          | ((wasRunning, None), e') =>
              stop_loop e' (<[docker.c_ID container := wasRunning]> stoppedContainers) rest
          end
      end
  end.

Definition stopContainers (e : docker.Engine) (containerNames : list string)
  : (gmap string bool * option error) * docker.Engine :=
  match containerNames with
  | [] => ((∅, None), e)
  | _ => stop_loop e ∅ containerNames
  end.

(** [restartContainers]; [range] is the order in which this call visits
    the map, and the error lists the ids that did not start. *)
Definition restartContainers (range : gmap string bool → list (string * bool))
    (e : docker.Engine) (stoppedContainers : gmap string bool)
  : option (list string) * docker.Engine :=
  if bool_decide (stoppedContainers = ∅) then (None, e)
  else
    let '(errors, e') :=
      foldl (λ (acc : list string * docker.Engine) (entry : string * bool),
               if entry.2 then
                 match docker.StartContainer acc.2 entry.1 with
                 | (Some _, e') => (acc.1 ++ [entry.1], e')
                 | (None, e') => (acc.1, e')
                 end
               else acc)
            ([], e) (range stoppedContainers) in
    match errors with
    | [] => (None, e')
    | _ => (Some errors, e')
    end.

(** [BackupDirectVolumeWithContainers]: the result of the backup, and the
    container engine afterwards. *)
Definition BackupDirectVolumeWithContainers
    (range : gmap string bool → list (string * bool)) (fuel plen : nat)
    (storage : option B) (env : BackupEnv) (e : docker.Engine)
    (volumeName snapshotName : string) (stopContainersNames : list string)
  : option (option error * option B) * docker.Engine :=
  match stopContainers e stopContainersNames with
  | ((_, Some err), e') => (Some (Some (ErrWrap "failed to stop containers" err), storage), e')
  | ((stoppedContainers, None), e') =>
      (BackupDirectVolume fuel plen storage env volumeName snapshotName,
       (restartContainers range e' stoppedContainers).2)
  end.

(** [RestoreDirectVolumeWithContainers] *)
Definition RestoreDirectVolumeWithContainers
    (range : gmap string bool → list (string * bool)) (fuel : nat)
    (storage : option B) (env : Env) (e : docker.Engine)
    (volumeName snapshotName : string) (dryRun force : bool) (plen : nat)
    (stopContainersNames : list string) : option outcome * docker.Engine :=
  match stopContainers e stopContainersNames with
  | ((_, Some err), e') => (Some (Failed (ErrWrap "failed to stop containers" err)), e')
  | ((stoppedContainers, None), e') =>
      (RestoreDirectVolume fuel storage env volumeName snapshotName dryRun force plen,
       (restartContainers range e' stoppedContainers).2)
  end.

End Backup.

(** The error of the check "marked as encrypted, but no header". *)
Definition ErrNoHeader : error :=
  ErrNew "backup marked as encrypted but no encryption header found".

(** The outcomes that leave the backup data untouched: nothing was written
    to the temporary file and the extraction did not run. *)
Definition stops_before_copy (o : outcome) : Prop :=
  match o with
  | Failed _ | DryRun | Cancelled => True
  | CopyFailed _ _ | CloseFailed _ _ | Extracted _ _ => False
  end.

(** The claim that a restore of a backup flagged as encrypted whose data
    does not begin with the magic tag always ends with [ErrNoHeader]. *)
Definition missing_header_always_ErrNoHeader : Prop :=
  ∀ (P : Primitives) (B : Type) (BE : Backend B)
    (fuel : nat) (s : B) (env : Env) (volumeName snapshotName : string)
    (dryRun force : bool) (plen : nat) (backup : Backup),
    GetSnapshot s snapshotName = inl backup →
    Encrypted (b_Metadata backup) = true →
    take 8 (stream_bytes (b_DataReader backup)) ≠ magic →
    RestoreDirectVolume fuel (Some s) env volumeName snapshotName dryRun force plen =
      Some (Failed ErrNoHeader).

End backup.

(** ** A small instance of the primitives

    A key derivation and an authenticated cipher that can be run: the
    sealed message is the plaintext followed by a 16-byte tag computed
    from key, nonce and plaintext.  It satisfies the laws of
    [crypto.Primitives] and serves to evaluate the codec on concrete
    inputs. *)

Module reference.

Definition checksum (bs : list Z) : Z :=
  foldl (λ acc b, (31 * acc + b + 7) mod 251) 1 bs.

Definition tag (key nonce p : list Z) : list Z :=
  replicate crypto.Overhead (checksum (key ++ 255 :: nonce ++ 255 :: p)).

Definition Seal (key nonce p : list Z) : list Z := p ++ tag key nonce p.

Definition Open (key nonce c : list Z) : option (list Z) :=
  if bool_decide (length c < crypto.Overhead)%nat then None
  else
    let p := take (length c - crypto.Overhead) c in
    if bool_decide (drop (length c - crypto.Overhead) c = tag key nonce p)
    then Some p else None.

Definition pbkdf2_Key (password : string) (salt : list Z) (iter keyLen : nat) : list Z :=
  replicate keyLen
    (checksum (map (λ a, Z.of_N (N_of_ascii a)) (list_ascii_of_string password) ++ salt)).

End reference.

(** * Properties *)

(** ** The reference primitives satisfy the laws *)

Lemma reference_Open_Seal key nonce p :
  reference.Open key nonce (reference.Seal key nonce p) = Some p.
Proof.
  unfold reference.Open, reference.Seal.
  assert (Hlen : length (reference.tag key nonce p) = crypto.Overhead)
    by apply length_replicate.
  rewrite length_app, Hlen.
  rewrite bool_decide_eq_false_2 by lia.
  replace (length p + crypto.Overhead - crypto.Overhead)%nat with (length p) by lia.
  rewrite take_app_length, drop_app_length.
  by rewrite bool_decide_eq_true_2.
Qed.

Lemma reference_Open_Some key nonce c p :
  reference.Open key nonce c = Some p → c = reference.Seal key nonce p.
Proof.
  unfold reference.Open, reference.Seal. intros Hopen.
  case_bool_decide; [done |]. case_bool_decide as Htag; [| done].
  injection Hopen as <-. rewrite <- Htag. by rewrite take_drop.
Qed.

Lemma reference_Seal_length key nonce p :
  length (reference.Seal key nonce p) = (length p + crypto.Overhead)%nat.
Proof. unfold reference.Seal, reference.tag. by rewrite length_app, length_replicate. Qed.

Global Instance reference_Primitives : crypto.Primitives := {|
  crypto.pbkdf2_Key := reference.pbkdf2_Key;
  crypto.Seal := reference.Seal;
  crypto.Open := reference.Open;
  crypto.Open_Seal := λ key nonce p _, reference_Open_Seal key nonce p;
  crypto.Open_Some := λ key nonce c p _, reference_Open_Some key nonce c p;
  crypto.Seal_length := λ key nonce p _, reference_Seal_length key nonce p
|}.

(** ** The per-chunk nonce *)

Section NonceFacts.
Import crypto.

Lemma lxor_cancel_l b x y : Z.lxor b x = Z.lxor b y → x = y.
Proof.
  intros E. apply (f_equal (Z.lxor b)) in E.
  by rewrite <- !Z.lxor_assoc, !Z.lxor_nilpotent, !Z.lxor_0_l in E.
Qed.

Lemma testbit_above_64 c n : 0 ≤ c < 2 ^ 64 → 64 ≤ n → Z.testbit c n = false.
Proof.
  intros Hc Hn. destruct (Z.eq_dec c 0) as [-> | Hne].
  - apply Z.bits_0.
  - apply Z.bits_above_log2; [lia |].
    assert (Z.log2 c < 64) by (apply Z.log2_lt_pow2; lia). lia.
Qed.

(** A 64-bit counter is determined by its eight bytes. *)
Lemma counter_bytes_inj c1 c2 :
  0 ≤ c1 < 2 ^ 64 → 0 ≤ c2 < 2 ^ 64 →
  (∀ i, 0 ≤ i < 8 → byte (Z.shiftr c1 (8 * i)) = byte (Z.shiftr c2 (8 * i))) →
  c1 = c2.
Proof.
  intros H1 H2 Hb. apply Z.bits_inj'. intros n Hn.
  destruct (Z_lt_ge_dec n 64) as [Hlt | Hge].
  - assert (Hi : 0 ≤ n / 8 < 8)
      by (split; [apply Z.div_pos; lia | apply Z.div_lt_upper_bound; lia]).
    pose proof (Hb (n / 8) Hi) as E.
    apply (f_equal (λ z, Z.testbit z (n mod 8))) in E.
    unfold byte in E. change 256 with (2 ^ 8) in E.
    rewrite !Z.mod_pow2_bits_low in E by (apply Z.mod_pos_bound; lia).
    rewrite !Z.shiftr_spec in E by (apply Z.mod_pos_bound; lia).
    replace (n mod 8 + 8 * (n / 8)) with n in E by (pose proof (Z.div_mod n 8); lia).
    exact E.
  - by rewrite !testbit_above_64 by lia.
Qed.

(** The loop on a 12-byte nonce: the counter goes, most significant byte
    first, into the last eight bytes. *)
Lemma er_chunkNonce_12 b0 b1 b2 b3 b4 b5 b6 b7 b8 b9 b10 b11 c :
  er_chunkNonce [b0; b1; b2; b3; b4; b5; b6; b7; b8; b9; b10; b11] c =
  [b0; b1; b2; b3;
   Z.lxor b4 (byte (Z.shiftr c 56)); Z.lxor b5 (byte (Z.shiftr c 48));
   Z.lxor b6 (byte (Z.shiftr c 40)); Z.lxor b7 (byte (Z.shiftr c 32));
   Z.lxor b8 (byte (Z.shiftr c 24)); Z.lxor b9 (byte (Z.shiftr c 16));
   Z.lxor b10 (byte (Z.shiftr c 8)); Z.lxor b11 (byte (Z.shiftr c 0))].
Proof. reflexivity. Qed.

Lemma er_chunkNonce_inj baseNonce i j :
  length baseNonce = NonceSize → 0 ≤ i < 2 ^ 64 → 0 ≤ j < 2 ^ 64 →
  er_chunkNonce baseNonce i = er_chunkNonce baseNonce j → i = j.
Proof.
  intros Hlen Hi Hj E.
  do 12 (destruct baseNonce as [| ? baseNonce]; [discriminate Hlen |]).
  destruct baseNonce; [| discriminate Hlen].
  rewrite !er_chunkNonce_12 in E.
  injection E as E7 E6 E5 E4 E3 E2 E1 E0.
  apply lxor_cancel_l in E0, E1, E2, E3, E4, E5, E6, E7.
  apply counter_bytes_inj; [done | done |].
  intros k Hk.
  assert (k = 0 ∨ k = 1 ∨ k = 2 ∨ k = 3 ∨ k = 4 ∨ k = 5 ∨ k = 6 ∨ k = 7)
    as [-> | [-> | [-> | [-> | [-> | [-> | [-> | ->]]]]]]] by lia; assumption.
Qed.

Lemma nonce_loops_agree fuel i counter chunkNonce :
  dr_nonce_loop fuel i counter chunkNonce = er_nonce_loop fuel i counter chunkNonce.
Proof.
  revert i chunkNonce. induction fuel as [| fuel IH]; intros i chunkNonce; simpl.
  - reflexivity.
  - case_bool_decide; [apply IH | reflexivity].
Qed.

Lemma er_nonce_loop_length fuel i counter chunkNonce :
  length (er_nonce_loop fuel i counter chunkNonce) = length chunkNonce.
Proof.
  revert i chunkNonce. induction fuel as [| fuel IH]; intros i chunkNonce; simpl.
  - reflexivity.
  - case_bool_decide; [| reflexivity]. by rewrite IH, length_alter.
Qed.

Lemma er_chunkNonce_length baseNonce counter :
  length (er_chunkNonce baseNonce counter) = length baseNonce.
Proof. apply er_nonce_loop_length. Qed.

Lemma dr_chunkNonce_eq baseNonce counter :
  dr_chunkNonce baseNonce counter = er_chunkNonce baseNonce counter.
Proof. apply nonce_loops_agree. Qed.

Lemma incr64_iter (k : nat) : Z.of_nat k < 2 ^ 64 → Nat.iter k incr64 0 = Z.of_nat k.
Proof.
  induction k as [| k IH]; intros Hk; [reflexivity |].
  simpl Nat.iter. rewrite IH by lia. unfold incr64.
  rewrite Z.mod_small by lia. lia.
Qed.

End NonceFacts.

(** ** One call of [Read] on the two readers *)

Section ReadSteps.
Import crypto.
Context `{Primitives}.

Lemma length_pos_nonempty (bs : list Z) : (0 < length bs)%nat ↔ bs ≠ [].
Proof. destruct bs; simpl; split; (done || lia). Qed.

(** With nothing pending, [EncryptReader.Read] takes what one [Read] of
    the source returns, seals it as one chunk under the nonce of the
    current counter and advances the counter. *)
Lemma er_Read_seals er plen buf err rd :
  er_encrypted er = [] → er_eof er = false →
  Read (er_reader er) ChunkSize = ((buf, err), rd) →
  is_failure err = false → buf ≠ [] →
  let encrypted :=
    Seal (er_cipher er) (er_chunkNonce (er_baseNonce er) (er_counter er)) buf in
  er_Read er plen =
    ((take plen encrypted, None),
     MkEncryptReader rd (er_cipher er) (er_baseNonce er) (incr64 (er_counter er))
       (drop plen encrypted) false).
Proof.
  intros Hpend Heof Hread Hfail Hbuf. unfold er_Read.
  rewrite Hpend, Heof, Hread, Hfail. simpl.
  rewrite bool_decide_eq_true_2 by (by apply length_pos_nonempty).
  reflexivity.
Qed.

(** With nothing pending, [DecryptReader.Read] hands what one [Read] of
    the source returns to [Open] as one sealed chunk, under the nonce of
    the current counter. *)
Lemma dr_Read_opens dr plen buf err rd :
  dr_decrypted dr = [] → dr_eof dr = false →
  Read (dr_reader dr) (ChunkSize + Overhead) = ((buf, err), rd) →
  is_failure err = false → buf ≠ [] →
  dr_Read dr plen =
    match Open (dr_cipher dr) (dr_chunkNonce (dr_baseNonce dr) (dr_counter dr)) buf with
    | None =>
        (([], Some (ErrWrap "decryption failed" ErrOpen)),
         MkDecryptReader rd (dr_cipher dr) (dr_baseNonce dr) (dr_counter dr) [] false)
    | Some decrypted =>
        ((take plen decrypted, None),
         MkDecryptReader rd (dr_cipher dr) (dr_baseNonce dr) (incr64 (dr_counter dr))
           (drop plen decrypted) false)
    end.
Proof.
  intros Hpend Heof Hread Hfail Hbuf. unfold dr_Read.
  rewrite Hpend, Heof, Hread, Hfail. simpl.
  rewrite bool_decide_eq_true_2 by (by apply length_pos_nonempty).
  reflexivity.
Qed.

(** Pending output is handed out first, without touching the source. *)
Lemma er_Read_pending er plen :
  er_encrypted er ≠ [] →
  er_Read er plen =
    ((take plen (er_encrypted er), None),
     MkEncryptReader (er_reader er) (er_cipher er) (er_baseNonce er) (er_counter er)
       (drop plen (er_encrypted er)) (er_eof er)).
Proof.
  intros Hpend. unfold er_Read.
  rewrite (bool_decide_eq_false_2 (length (er_encrypted er) = 0%nat))
    by (destruct (er_encrypted er); simpl; [done | lia]).
  rewrite andb_false_r.
  by rewrite bool_decide_eq_true_2 by (by apply length_pos_nonempty).
Qed.

Lemma dr_Read_pending dr plen :
  dr_decrypted dr ≠ [] →
  dr_Read dr plen =
    ((take plen (dr_decrypted dr), None),
     MkDecryptReader (dr_reader dr) (dr_cipher dr) (dr_baseNonce dr) (dr_counter dr)
       (drop plen (dr_decrypted dr)) (dr_eof dr)).
Proof.
  intros Hpend. unfold dr_Read.
  rewrite (bool_decide_eq_false_2 (length (dr_decrypted dr) = 0%nat))
    by (destruct (dr_decrypted dr); simpl; [done | lia]).
  rewrite andb_false_r.
  by rewrite bool_decide_eq_true_2 by (by apply length_pos_nonempty).
Qed.

(** At the end of the source both readers report [io.EOF]. *)
Lemma er_Read_end er plen :
  er_encrypted er = [] → er_reader er = [] →
  (er_Read er plen).1 = ([], Some EOF).
Proof.
  intros Hpend Hrd. unfold er_Read. rewrite Hpend, Hrd. simpl.
  by destruct (er_eof er).
Qed.

Lemma dr_Read_end dr plen :
  dr_decrypted dr = [] → dr_reader dr = [] →
  (dr_Read dr plen).1 = ([], Some EOF).
Proof.
  intros Hpend Hrd. unfold dr_Read. rewrite Hpend, Hrd. simpl.
  by destruct (dr_eof dr).
Qed.

(** A chunk shorter than the tag never opens. *)
Lemma Open_short key nonce c :
  length nonce = NonceSize → (length c < Overhead)%nat → Open key nonce c = None.
Proof.
  intros Hn Hc. destruct (Open key nonce c) as [p |] eqn:Hopen; [| done].
  apply Open_Some in Hopen; [| done].
  apply (f_equal length) in Hopen. rewrite Seal_length in Hopen by done. lia.
Qed.

End ReadSteps.

(** ** [io.ReadFull] on readers that do not fail *)

Lemma ReadFull_loop_enough r got n :
  error_free r → (n ≤ length (stream_bytes r))%nat →
  ∃ r', ReadFull_loop r got n = ((got ++ take n (stream_bytes r), None), r') ∧
        error_free r' ∧ stream_bytes r' = drop n (stream_bytes r).
Proof.
  intros Hfree. revert got n.
  induction Hfree as [| [bs e] r He Hfree IH]; intros got n Hn.
  - destruct n; [| simpl in Hn; lia].
    exists []. simpl. rewrite app_nil_r. split; [done |]. split; [constructor | done].
  - simpl in He. subst e. destruct n as [| n].
    + exists (Ret bs None :: r). simpl. rewrite app_nil_r.
      split; [done |]. split; [by constructor | done].
    + unfold stream_bytes in *. simpl in *. rewrite length_app in Hn.
      case_bool_decide as Hle.
      * destruct (IH (got ++ bs) (S n - length bs)%nat) as (r' & Heq & Hf' & Hs');
          [lia |].
        exists r'. rewrite Heq. split; [| split; [done |]].
        -- rewrite take_app, (take_ge bs) by lia. by rewrite app_assoc.
        -- rewrite Hs', drop_app, (drop_ge bs) by lia. done.
      * exists (Ret (drop (S n) bs) None :: r). split; [| split].
        -- rewrite take_app. replace (S n - length bs)%nat with 0%nat by lia.
           by rewrite take_0, app_nil_r.
        -- by constructor.
        -- simpl. rewrite drop_app.
           replace (S n - length bs)%nat with 0%nat by lia. by rewrite drop_0.
Qed.

Lemma ReadFull_loop_short r got n :
  error_free r → (length (stream_bytes r) < n)%nat →
  ∃ e r', ReadFull_loop r got n = ((got ++ stream_bytes r, Some e), r') ∧
          (e = EOF ∨ e = ErrUnexpectedEOF).
Proof.
  intros Hfree. revert got n.
  induction Hfree as [| [bs e] r He Hfree IH]; intros got n Hn.
  - destruct n; [simpl in Hn; lia |]. simpl. rewrite app_nil_r.
    destruct got; eauto.
  - simpl in He. subst e. destruct n as [| n]; [simpl in Hn; lia |].
    unfold stream_bytes in *. simpl in *. rewrite length_app in Hn.
    rewrite bool_decide_eq_true_2 by lia.
    destruct (IH (got ++ bs) (S n - length bs)%nat) as (e & r' & Heq & He); [lia |].
    exists e, r'. rewrite Heq. by rewrite app_assoc.
Qed.

(** Whatever the reader does, [ReadFull] without error has filled the
    buffer. *)
Lemma ReadFull_loop_length r got n bs r' :
  ReadFull_loop r got n = ((bs, None), r') → length bs = (length got + n)%nat.
Proof.
  revert got n. induction r as [| [data e] r IH]; intros got n Hread.
  - destruct n; simpl in Hread; [simplify_eq; lia | discriminate].
  - destruct n as [| n]; simpl in Hread; [simplify_eq; lia |].
    case_bool_decide as Hle.
    + destruct e as [err |].
      * case_bool_decide as Heq; simplify_eq. rewrite length_app. lia.
      * apply IH in Hread. rewrite length_app in Hread. lia.
    + simplify_eq. rewrite length_app, length_take. lia.
Qed.

Lemma ReadFull_length r n bs r' :
  ReadFull r n = ((bs, None), r') → length bs = n.
Proof. intros Hread. by apply ReadFull_loop_length in Hread. Qed.

Lemma ReadFull_inv r n bs r' :
  error_free r → ReadFull r n = ((bs, None), r') →
  (n ≤ length (stream_bytes r))%nat ∧ bs = take n (stream_bytes r) ∧
  stream_bytes r' = drop n (stream_bytes r) ∧ error_free r'.
Proof.
  intros Hfree Hread. unfold ReadFull in Hread.
  destruct (decide (n ≤ length (stream_bytes r))%nat) as [Hle | Hgt].
  - destruct (ReadFull_loop_enough r [] n Hfree Hle) as (r1 & Heq & Hf & Hs).
    rewrite Heq in Hread. by simplify_eq.
  - destruct (ReadFull_loop_short r [] n Hfree) as (e & r1 & Heq & _); [lia |].
    rewrite Heq in Hread. discriminate.
Qed.

Lemma ReadFull_enough r n :
  error_free r → (n ≤ length (stream_bytes r))%nat →
  ∃ r', ReadFull r n = ((take n (stream_bytes r), None), r') ∧
        error_free r' ∧ stream_bytes r' = drop n (stream_bytes r).
Proof. intros Hfree Hn. apply (ReadFull_loop_enough r [] n Hfree Hn). Qed.

(** On a flat reader [ReadFull] leaves a flat reader. *)
Lemma ReadFull_flat a b :
  a ≠ [] → ReadFull (bytes_NewReader (a ++ b)) (length a) = ((a, None), bytes_NewReader b).
Proof.
  intros Ha. unfold ReadFull, bytes_NewReader.
  destruct (a ++ b) as [| z ab] eqn:Hab.
  { destruct a; [done | discriminate]. }
  rewrite <- Hab. clear z ab Hab.
  destruct (length a) as [| n] eqn:Hn; [by destruct a |].
  cbn [ReadFull_loop]. rewrite length_app, Hn.
  destruct b as [| y b].
  - rewrite bool_decide_eq_true_2 by (simpl; lia).
    simpl length. rewrite Nat.add_0_r, Nat.sub_diag, app_nil_r. reflexivity.
  - rewrite bool_decide_eq_false_2 by (simpl; lia).
    rewrite <- Hn. by rewrite take_app_length, drop_app_length.
Qed.

Lemma error_free_flat data : error_free (bytes_NewReader data).
Proof. destruct data; [constructor | by repeat constructor]. Qed.

Lemma stream_bytes_flat data : stream_bytes (bytes_NewReader data) = data.
Proof. destruct data; [done |]. unfold stream_bytes. simpl. by rewrite app_nil_r. Qed.

(** ** C4: the encryption header *)

Section HeaderFacts.
Import crypto.

Lemma ReadEncryptionHeader_accepts r salt nonce rest :
  error_free r → length salt = SaltSize → length nonce = NonceSize →
  stream_bytes r = magic ++ [1] ++ salt ++ nonce ++ rest →
  ∃ r', ReadEncryptionHeader r = (inl (MkHeader salt nonce), r') ∧
        stream_bytes r' = rest ∧ error_free r'.
Proof.
  intros Hfree Hsalt Hnonce Hs. unfold ReadEncryptionHeader.
  destruct (ReadFull_enough r 8 Hfree) as (r1 & E1 & F1 & S1).
  { rewrite Hs, length_app. simpl. lia. }
  rewrite Hs in E1, S1.
  assert (T1 : take 8 (magic ++ [1] ++ salt ++ nonce ++ rest) = magic) by reflexivity.
  assert (D1 : drop 8 (magic ++ [1] ++ salt ++ nonce ++ rest) = [1] ++ salt ++ nonce ++ rest)
    by reflexivity.
  rewrite T1 in E1. rewrite D1 in S1. rewrite E1.
  case_bool_decide; [| done]. simpl negb. cbv iota.
  destruct (ReadFull_enough r1 1 F1) as (r2 & E2 & F2 & S2).
  { rewrite S1. simpl. lia. }
  rewrite S1 in E2, S2.
  change (take 1 ([1] ++ salt ++ nonce ++ rest)) with [1] in E2.
  change (drop 1 ([1] ++ salt ++ nonce ++ rest)) with (salt ++ nonce ++ rest) in S2.
  rewrite E2.
  case_bool_decide; [| done]. simpl negb. cbv iota.
  destruct (ReadFull_enough r2 SaltSize F2) as (r3 & E3 & F3 & S3).
  { rewrite S2, length_app. lia. }
  rewrite S2 in E3, S3. rewrite <- Hsalt in E3, S3.
  rewrite (take_app_length salt) in E3. rewrite (drop_app_length salt) in S3.
  rewrite Hsalt in E3. rewrite E3.
  destruct (ReadFull_enough r3 NonceSize F3) as (r4 & E4 & F4 & S4).
  { rewrite S3, length_app. lia. }
  rewrite S3 in E4, S4. rewrite <- Hnonce in E4, S4.
  rewrite (take_app_length nonce) in E4. rewrite (drop_app_length nonce) in S4.
  rewrite Hnonce in E4. rewrite E4.
  by exists r4.
Qed.

Lemma ReadEncryptionHeader_inv r header r' :
  error_free r → ReadEncryptionHeader r = (inl header, r') →
  length (Salt header) = SaltSize ∧ length (Nonce header) = NonceSize ∧
  stream_bytes r = magic ++ [1] ++ Salt header ++ Nonce header ++ stream_bytes r' ∧
  error_free r'.
Proof.
  intros Hfree Hread. unfold ReadEncryptionHeader in Hread.
  destruct (ReadFull r 8) as [[m [e1 |]] r1] eqn:E1; [discriminate |].
  apply ReadFull_inv in E1 as (L1 & -> & S1 & F1); [| done].
  case_bool_decide as Hmagic; simpl in Hread; [| discriminate].
  destruct (ReadFull r1 1) as [[v [e2 |]] r2] eqn:E2; [discriminate |].
  apply ReadFull_inv in E2 as (L2 & -> & S2 & F2); [| done].
  case_bool_decide as Hversion; simpl in Hread; [| discriminate].
  destruct (ReadFull r2 SaltSize) as [[salt [e3 |]] r3] eqn:E3; [discriminate |].
  apply ReadFull_inv in E3 as (L3 & -> & S3 & F3); [| done].
  destruct (ReadFull r3 NonceSize) as [[nonce [e4 |]] r4] eqn:E4; [discriminate |].
  apply ReadFull_inv in E4 as (L4 & -> & S4 & F4); [| done].
  simplify_eq. simpl.
  split; [rewrite length_take; lia |]. split; [rewrite length_take; lia |].
  split; [| done].
  assert (Hv : take 1 (stream_bytes r1) = [1]).
  { destruct (stream_bytes r1) as [| b bs]; simpl in *; [lia |]. by simplify_eq. }
  rewrite <- (take_drop 8 (stream_bytes r)) at 1. rewrite Hmagic, <- S1. f_equal.
  rewrite <- (take_drop 1 (stream_bytes r1)) at 1. rewrite Hv, <- S2. f_equal.
  rewrite <- (take_drop SaltSize (stream_bytes r2)) at 1. rewrite <- S3. f_equal.
  rewrite <- (take_drop NonceSize (stream_bytes r3)) at 1. by rewrite <- S4.
Qed.

Lemma ReadEncryptionHeader_wrong_magic r :
  error_free r → (8 ≤ length (stream_bytes r))%nat → take 8 (stream_bytes r) ≠ magic →
  (ReadEncryptionHeader r).1 = inr (ErrNew "not an encrypted DVOM backup").
Proof.
  intros Hfree Hlen Hmagic. unfold ReadEncryptionHeader.
  destruct (ReadFull_enough r 8 Hfree Hlen) as (r1 & E1 & _).
  rewrite E1. by rewrite bool_decide_eq_false_2.
Qed.

Lemma ReadEncryptionHeader_wrong_version r :
  error_free r → take 8 (stream_bytes r) = magic →
  (9 ≤ length (stream_bytes r))%nat → stream_bytes r !! 8%nat ≠ Some 1 →
  (ReadEncryptionHeader r).1 = inr (ErrNew "unsupported encryption version").
Proof.
  intros Hfree Hmagic Hlen Hversion. unfold ReadEncryptionHeader.
  destruct (ReadFull_enough r 8 Hfree) as (r1 & E1 & F1 & S1); [lia |].
  rewrite E1, bool_decide_eq_true_2 by done. simpl negb. cbv iota.
  destruct (ReadFull_enough r1 1 F1) as (r2 & E2 & _).
  { rewrite S1, length_drop. lia. }
  rewrite E2, S1. rewrite bool_decide_eq_false_2; [done |].
  rewrite lookup_take_lt by lia. rewrite lookup_drop. by rewrite Nat.add_0_r.
Qed.

Lemma WriteEncryptionHeader_buffer header :
  WriteEncryptionHeader bytes_Buffer header =
    (None, MkWriter (magic ++ [1] ++ Salt header ++ Nonce header) []).
Proof. reflexivity. Qed.

Lemma ReadEncryptionHeader_flat salt nonce rest :
  length salt = SaltSize → length nonce = NonceSize →
  ReadEncryptionHeader (bytes_NewReader ((magic ++ [1] ++ salt ++ nonce) ++ rest)) =
    (inl (MkHeader salt nonce), bytes_NewReader rest).
Proof.
  intros Hsalt Hnonce. unfold ReadEncryptionHeader.
  rewrite <- !app_assoc.
  change 8%nat with (length magic).
  rewrite ReadFull_flat by done.
  rewrite bool_decide_eq_true_2 by done. simpl negb. cbv iota.
  change 1%nat with (length [1]).
  rewrite ReadFull_flat by done.
  rewrite bool_decide_eq_true_2 by done. simpl negb. cbv iota.
  rewrite <- Hsalt. rewrite ReadFull_flat by (by destruct salt).
  rewrite <- Hnonce. rewrite ReadFull_flat by (by destruct nonce).
  reflexivity.
Qed.

(** The header that [NewEncryptReader] generates has a 32-byte salt and a
    12-byte nonce. *)
Lemma NewEncryptReader_header `{Primitives} plain password rand er header rand' :
  NewEncryptReader plain password rand = (inl (er, header), rand') →
  length (Salt header) = SaltSize ∧ length (Nonce header) = NonceSize.
Proof.
  unfold NewEncryptReader, GenerateSalt, GenerateNonce. intros Hnew.
  destruct (ReadFull rand SaltSize) as [[salt [e1 |]] rand1] eqn:E1; [discriminate |].
  destruct (ReadFull rand1 NonceSize) as [[nonce [e2 |]] rand2] eqn:E2; [discriminate |].
  simplify_eq. simpl. split; by eapply ReadFull_length.
Qed.

End HeaderFacts.

(** C4.  On a reader that does not fail, [ReadEncryptionHeader] succeeds
    exactly when the stream is the magic tag "DVOM-ENC", the version byte
    1, 32 bytes and 12 bytes followed by the rest, and then returns the 32
    bytes as salt and the 12 bytes as nonce and leaves the rest to be read;
    a stream with another first eight bytes, or with another version byte
    after the magic tag, is answered with an error (the codec needs the
    returned header to build a [DecryptReader], so nothing is decrypted).
    [WriteEncryptionHeader] writes magic tag, version byte 1, salt and
    nonce in this order, 53 bytes for a 32-byte salt and a 12-byte nonce
    (the sizes of every header that [NewEncryptReader] generates), and
    reading back what it wrote returns the header. *)
Theorem encryption_header_format `{crypto.Primitives} (r : Reader) :
  error_free r →
  (∀ salt nonce rest,
     length salt = crypto.SaltSize → length nonce = crypto.NonceSize →
     stream_bytes r = crypto.magic ++ [1] ++ salt ++ nonce ++ rest →
     ∃ r', crypto.ReadEncryptionHeader r = (inl (crypto.MkHeader salt nonce), r') ∧
           stream_bytes r' = rest) ∧
  (∀ header r',
     crypto.ReadEncryptionHeader r = (inl header, r') →
     length (crypto.Salt header) = crypto.SaltSize ∧
     length (crypto.Nonce header) = crypto.NonceSize ∧
     stream_bytes r =
       crypto.magic ++ [1] ++ crypto.Salt header ++ crypto.Nonce header ++
       stream_bytes r') ∧
  ((8 ≤ length (stream_bytes r))%nat → take 8 (stream_bytes r) ≠ crypto.magic →
     (crypto.ReadEncryptionHeader r).1 = inr (ErrNew "not an encrypted DVOM backup")) ∧
  (take 8 (stream_bytes r) = crypto.magic → (9 ≤ length (stream_bytes r))%nat →
     stream_bytes r !! 8%nat ≠ Some 1 →
     (crypto.ReadEncryptionHeader r).1 = inr (ErrNew "unsupported encryption version")) ∧
  (∀ header,
     length (crypto.Salt header) = crypto.SaltSize →
     length (crypto.Nonce header) = crypto.NonceSize →
     ∃ w, crypto.WriteEncryptionHeader bytes_Buffer header = (None, w) ∧
          w_buf w = crypto.magic ++ [1] ++ crypto.Salt header ++ crypto.Nonce header ∧
          length (w_buf w) = 53%nat ∧
          ∀ rest, crypto.ReadEncryptionHeader (bytes_NewReader (w_buf w ++ rest)) =
                    (inl header, bytes_NewReader rest)) ∧
  (∀ plain password rand er header rand',
     crypto.NewEncryptReader plain password rand = (inl (er, header), rand') →
     length (crypto.Salt header) = crypto.SaltSize ∧
     length (crypto.Nonce header) = crypto.NonceSize).
Proof.
  intros Hfree. split_and!.
  - intros salt nonce rest Hsalt Hnonce Hs.
    destruct (ReadEncryptionHeader_accepts r salt nonce rest) as (r' & ? & ? & _); eauto.
  - intros header r' Hread.
    destruct (ReadEncryptionHeader_inv r header r') as (? & ? & ? & _); eauto.
  - by apply ReadEncryptionHeader_wrong_magic.
  - by apply ReadEncryptionHeader_wrong_version.
  - intros [salt nonce] Hsalt Hnonce. simpl in *.
    eexists. split; [apply WriteEncryptionHeader_buffer |]. simpl.
    split; [done |]. split.
    + rewrite !length_app, Hsalt, Hnonce. reflexivity.
    + intros rest. by apply ReadEncryptionHeader_flat.
  - intros plain password rand er header rand'. apply NewEncryptReader_header.
Qed.

(** The statement at a stream delivered in three pieces. *)
Lemma encryption_header_format_witness :
  ∃ r', crypto.ReadEncryptionHeader
          [Ret [68; 86; 79] None; Ret [77; 45; 69; 78; 67; 1] None;
           Ret (replicate 32 5 ++ replicate 12 9 ++ [42; 43]) None] =
        (inl (crypto.MkHeader (replicate 32 5) (replicate 12 9)), r') ∧
        stream_bytes r' = [42; 43].
Proof.
  apply (encryption_header_format (H := reference_Primitives)
           [Ret [68; 86; 79] None; Ret [77; 45; 69; 78; 67; 1] None;
            Ret (replicate 32 5 ++ replicate 12 9 ++ [42; 43]) None]);
    [repeat constructor | reflexivity | reflexivity | reflexivity].
Defined.

(** ** [io.Copy] runs to the end *)

Section CopyFacts.
Context {St : Type} (read : St → nat → (list Z * option error) * St).

Lemma io_Copy_returns_step s plen bs s' out err :
  read s plen = ((bs, None), s') →
  io_Copy_returns read s' plen out err →
  io_Copy_returns read s plen (bs ++ out) err.
Proof.
  intros Hread [fuel0 Hcopy]. exists (S fuel0). intros fuel Hfuel.
  destruct fuel as [| fuel]; [lia |]. simpl. rewrite Hread.
  by rewrite Hcopy by lia.
Qed.

Lemma io_Copy_returns_EOF s plen bs :
  (read s plen).1 = (bs, Some EOF) → io_Copy_returns read s plen bs None.
Proof.
  intros Hread. exists 1%nat. intros fuel Hfuel.
  destruct fuel as [| fuel]; [lia |]. simpl.
  destruct (read s plen) as [[bs' e] s']. simpl in Hread. by simplify_eq.
Qed.

Lemma io_Copy_returns_error s plen bs e :
  (read s plen).1 = (bs, Some e) → e ≠ EOF → io_Copy_returns read s plen bs (Some e).
Proof.
  intros Hread Hne. exists 1%nat. intros fuel Hfuel.
  destruct fuel as [| fuel]; [lia |]. simpl.
  destruct (read s plen) as [[bs' e'] s']. simpl in Hread. simplify_eq.
  by destruct e.
Qed.

(** The result does not depend on the bound, once it suffices. *)
Lemma io_Copy_returns_unique s plen out err out' err' :
  io_Copy_returns read s plen out err → io_Copy_returns read s plen out' err' →
  out = out' ∧ err = err'.
Proof.
  intros [f1 H1] [f2 H2].
  specialize (H1 (f1 `max` f2)%nat ltac:(lia)).
  specialize (H2 (f1 `max` f2)%nat ltac:(lia)).
  rewrite H1 in H2. by simplify_eq.
Qed.

End CopyFacts.

(** [io.Copy] from a reader transfers all its bytes up to its first error:
    the function [storage.read_all], which [Store] is modelled with, is
    what the loop computes, whatever the size of the transfer buffer. *)
Lemma io_Copy_Read_small plen bs e r out err :
  (length bs ≤ plen)%nat →
  io_Copy_returns Read r plen out err →
  io_Copy_returns Read (Ret bs e :: r) plen
    (bs ++ match e with None => out | Some _ => [] end)
    (match e with None => err | Some EOF => None | Some x => Some x end).
Proof.
  intros Hsmall Hrest.
  assert (Hread : Read (Ret bs e :: r) plen = ((bs, e), r)).
  { unfold Read. by rewrite bool_decide_eq_true_2. }
  destruct e as [x |].
  - rewrite app_nil_r. destruct (decide (x = EOF)) as [-> | Hx].
    + apply io_Copy_returns_EOF. by rewrite Hread.
    + replace (match x with EOF => None | _ => Some x end) with (Some x)
        by (by destruct x).
      apply io_Copy_returns_error; [by rewrite Hread | done].
  - by eapply io_Copy_returns_step.
Qed.

Lemma io_Copy_Read_event plen bs e r out err :
  (0 < plen)%nat →
  io_Copy_returns Read r plen out err →
  io_Copy_returns Read (Ret bs e :: r) plen
    (bs ++ match e with None => out | Some _ => [] end)
    (match e with None => err | Some EOF => None | Some x => Some x end).
Proof.
  intros Hplen Hrest.
  remember (length bs) as n eqn:Hn.
  assert (Hle : (length bs ≤ n)%nat) by lia. clear Hn.
  revert bs Hle. induction n as [| n IH]; intros bs Hle.
  - apply io_Copy_Read_small; [lia | done].
  - destruct (decide (length bs ≤ plen)%nat) as [Hsmall | Hbig].
    + by apply io_Copy_Read_small.
    + assert (Hread : Read (Ret bs e :: r) plen =
                      ((take plen bs, None), Ret (drop plen bs) e :: r)).
      { unfold Read. by rewrite bool_decide_eq_false_2. }
      set (tl := match e with None => out | Some _ => [] end).
      assert (Hout : bs ++ tl = take plen bs ++ drop plen bs ++ tl)
        by (by rewrite app_assoc, take_drop).
      rewrite Hout.
      eapply io_Copy_returns_step; [exact Hread |].
      apply IH. rewrite length_drop. lia.
Qed.

Lemma io_Copy_Read_read_all plen r :
  (0 < plen)%nat →
  io_Copy_returns Read r plen (storage.read_all r).1 (storage.read_all r).2.
Proof.
  intros Hplen. induction r as [| [bs e] r IH].
  - by apply io_Copy_returns_EOF.
  - pose proof (io_Copy_Read_event plen bs e r _ _ Hplen IH) as Hev.
    simpl. destruct e as [[| | | |] |]; simpl; rewrite ?app_nil_r in Hev; try done.
    by destruct (storage.read_all r).
Qed.

(** ** C1: round trip *)

Section RoundTrip.
Import crypto.
Context `{Primitives}.

Lemma ChunkSize_pos : (0 < ChunkSize)%nat.
Proof. apply Nat.ltb_lt. vm_compute. reflexivity. Qed.

Lemma Read_flat data cap :
  data ≠ [] →
  Read (bytes_NewReader data) cap =
    ((take cap data, None), bytes_NewReader (drop cap data)).
Proof.
  intros Hdata. destruct data as [| b data]; [done |]. unfold bytes_NewReader, Read.
  case_bool_decide as Hle.
  - by rewrite take_ge, drop_ge by done.
  - destruct (drop cap (b :: data)) eqn:Hdrop; [| done].
    apply (f_equal length) in Hdrop. rewrite length_drop in Hdrop. simpl in *. lia.
Qed.

Lemma sealed_chunks_nil n key baseNonce counter :
  sealed_chunks n key baseNonce counter [] = [].
Proof. by destruct n. Qed.

Lemma sealed_chunks_cons n key baseNonce counter data :
  data ≠ [] →
  sealed_chunks (S n) key baseNonce counter data =
    Seal key (er_chunkNonce baseNonce counter) (take ChunkSize data) ++
    sealed_chunks n key baseNonce (incr64 counter) (drop ChunkSize data).
Proof. by destruct data. Qed.

Lemma take_ChunkSize_nonempty (data : list Z) : data ≠ [] → take ChunkSize data ≠ [].
Proof.
  intros Hdata Htake. apply (f_equal length) in Htake.
  rewrite length_take in Htake. pose proof ChunkSize_pos.
  destruct data; simpl in *; [done | lia].
Qed.

(** Pending ciphertext is handed out before anything else. *)
Lemma er_flush plen rd key baseNonce counter eof out err pending :
  (0 < plen)%nat →
  io_Copy_returns er_Read (MkEncryptReader rd key baseNonce counter [] eof) plen out err →
  io_Copy_returns er_Read (MkEncryptReader rd key baseNonce counter pending eof) plen
    (pending ++ out) err.
Proof.
  intros Hplen Hrest.
  remember (length pending) as n eqn:Hn.
  assert (Hle : (length pending ≤ n)%nat) by lia. clear Hn.
  revert pending Hle. induction n as [| n IH]; intros pending Hle.
  - destruct pending; [done | simpl in Hle; lia].
  - destruct (decide (pending = [])) as [-> | Hne]; [done |].
    rewrite <- (take_drop plen pending) at 2. rewrite <- app_assoc.
    eapply io_Copy_returns_step.
    + by apply er_Read_pending.
    + apply IH. rewrite length_drop. destruct pending; simpl in *; [done | lia].
Qed.

Lemma dr_flush plen rd key baseNonce counter eof out err pending :
  (0 < plen)%nat →
  io_Copy_returns dr_Read (MkDecryptReader rd key baseNonce counter [] eof) plen out err →
  io_Copy_returns dr_Read (MkDecryptReader rd key baseNonce counter pending eof) plen
    (pending ++ out) err.
Proof.
  intros Hplen Hrest.
  remember (length pending) as n eqn:Hn.
  assert (Hle : (length pending ≤ n)%nat) by lia. clear Hn.
  revert pending Hle. induction n as [| n IH]; intros pending Hle.
  - destruct pending; [done | simpl in Hle; lia].
  - destruct (decide (pending = [])) as [-> | Hne]; [done |].
    rewrite <- (take_drop plen pending) at 2. rewrite <- app_assoc.
    eapply io_Copy_returns_step.
    + by apply dr_Read_pending.
    + apply IH. rewrite length_drop. destruct pending; simpl in *; [done | lia].
Qed.

(** [EncryptReader] on a flat plaintext produces the sealed chunks. *)
Lemma er_copy_flat plen key baseNonce n :
  (0 < plen)%nat →
  ∀ data counter, (length data ≤ n)%nat →
  io_Copy_returns er_Read
    (MkEncryptReader (bytes_NewReader data) key baseNonce counter [] false) plen
    (sealed_chunks n key baseNonce counter data) None.
Proof.
  intros Hplen. induction n as [| n IH]; intros data counter Hlen.
  - destruct data; [| simpl in Hlen; lia].
    by apply io_Copy_returns_EOF, er_Read_end.
  - destruct (decide (data = [])) as [-> | Hne].
    { rewrite sealed_chunks_nil. by apply io_Copy_returns_EOF, er_Read_end. }
    rewrite sealed_chunks_cons by done.
    set (enc := Seal key (er_chunkNonce baseNonce counter) (take ChunkSize data)).
    rewrite <- (take_drop plen enc), <- app_assoc.
    pose proof (er_Read_seals
                  (MkEncryptReader (bytes_NewReader data) key baseNonce counter [] false)
                  plen (take ChunkSize data) None (bytes_NewReader (drop ChunkSize data))
                  eq_refl eq_refl (Read_flat data ChunkSize Hne) eq_refl
                  (take_ChunkSize_nonempty data Hne)) as Hstep.
    simpl in Hstep. fold enc in Hstep.
    eapply io_Copy_returns_step; [exact Hstep |].
    apply er_flush; [done |]. apply IH.
      rewrite length_drop. pose proof ChunkSize_pos.
      destruct data; simpl in *; [done | lia].
Qed.

(** [DecryptReader] on the flat sealed chunks gives the plaintext back. *)
Lemma dr_copy_flat plen key baseNonce n :
  (0 < plen)%nat → length baseNonce = NonceSize →
  ∀ data counter, (length data ≤ n)%nat →
  io_Copy_returns dr_Read
    (MkDecryptReader (bytes_NewReader (sealed_chunks n key baseNonce counter data))
       key baseNonce counter [] false) plen
    data None.
Proof.
  intros Hplen Hbase. induction n as [| n IH]; intros data counter Hlen.
  - destruct data; [| simpl in Hlen; lia].
    by apply io_Copy_returns_EOF, dr_Read_end.
  - destruct (decide (data = [])) as [-> | Hne].
    { rewrite sealed_chunks_nil. by apply io_Copy_returns_EOF, dr_Read_end. }
    rewrite sealed_chunks_cons by done.
    set (nonce := er_chunkNonce baseNonce counter).
    set (chunk := take ChunkSize data).
    set (rest := sealed_chunks n key baseNonce (incr64 counter) (drop ChunkSize data)).
    assert (Hnonce : length nonce = NonceSize) by (unfold nonce; by rewrite er_chunkNonce_length).
    assert (Henc : length (Seal key nonce chunk) = (length chunk + Overhead)%nat)
      by (by apply Seal_length).
    assert (Hsplit : take (ChunkSize + Overhead) (Seal key nonce chunk ++ rest) =
                       Seal key nonce chunk ∧
                     drop (ChunkSize + Overhead) (Seal key nonce chunk ++ rest) = rest).
    { destruct (decide (length data ≤ ChunkSize)%nat) as [Hsmall | Hbig].
      - assert (Hrest : rest = []).
        { unfold rest. rewrite drop_ge by done. apply sealed_chunks_nil. }
        rewrite Hrest, app_nil_r.
        assert (length chunk ≤ ChunkSize)%nat by (unfold chunk; rewrite length_take; lia).
        split; [apply take_ge | apply drop_ge]; lia.
      - assert (length chunk = ChunkSize) by (unfold chunk; rewrite length_take; lia).
        split; [apply take_app_length' | apply drop_app_length']; lia. }
    destruct Hsplit as [Htake Hdrop].
    assert (Hdata : take plen chunk ++ drop plen chunk ++ drop ChunkSize data = data).
    { rewrite app_assoc, take_drop. unfold chunk. apply take_drop. }
    rewrite <- Hdata at 1. clear Hdata.
    assert (Hencne : Seal key nonce chunk ≠ []).
    { intros Hnil. apply (f_equal length) in Hnil. rewrite Henc in Hnil.
      unfold Overhead in Hnil. simpl in Hnil. lia. }
    assert (Hread : Read (bytes_NewReader (Seal key nonce chunk ++ rest))
                      (ChunkSize + Overhead) =
                    ((Seal key nonce chunk, None), bytes_NewReader rest)).
    { rewrite Read_flat, Htake, Hdrop; [done |].
      intros Hnil. apply app_eq_nil in Hnil. by destruct Hnil. }
    pose proof (dr_Read_opens
                  (MkDecryptReader (bytes_NewReader (Seal key nonce chunk ++ rest))
                     key baseNonce counter [] false)
                  plen (Seal key nonce chunk) None (bytes_NewReader rest)
                  eq_refl eq_refl Hread eq_refl Hencne) as Hstep.
    simpl in Hstep. rewrite dr_chunkNonce_eq in Hstep. fold nonce in Hstep.
    rewrite Open_Seal in Hstep by done.
    eapply io_Copy_returns_step; [exact Hstep |].
    apply dr_flush; [done |]. apply IH.
      rewrite length_drop. pose proof ChunkSize_pos.
      destruct data; simpl in *; [done | lia].
Qed.

Lemma NewEncryptReader_ok plain password rand :
  error_free rand → (SaltSize + NonceSize ≤ length (stream_bytes rand))%nat →
  ∃ salt nonce rand',
    NewEncryptReader plain password rand =
      (inl (MkEncryptReader plain (DeriveKey password salt) nonce 0 [] false,
            MkHeader salt nonce), rand') ∧
    length salt = SaltSize ∧ length nonce = NonceSize.
Proof.
  intros Hfree Hlen. unfold NewEncryptReader, GenerateSalt, GenerateNonce.
  destruct (ReadFull_enough rand SaltSize Hfree) as (r1 & E1 & F1 & S1); [lia |].
  rewrite E1.
  destruct (ReadFull_enough r1 NonceSize F1) as (r2 & E2 & F2 & S2).
  { rewrite S1, length_drop. lia. }
  rewrite E2. eexists _, _, _. split; [done |].
  rewrite !length_take, S1, length_drop. lia.
Qed.

End RoundTrip.



(** ** C10: no chunk framing *)

Section Framing.
Import crypto.
Context `{Primitives}.

Lemma ReadFull_head a b r :
  a ≠ [] → b ≠ [] →
  ReadFull (Ret (a ++ b) None :: r) (length a) = ((a, None), Ret b None :: r).
Proof.
  intros Ha Hb. unfold ReadFull.
  destruct (length a) as [| n] eqn:Hn; [by destruct a |].
  cbn [ReadFull_loop]. rewrite length_app, Hn.
  rewrite bool_decide_eq_false_2 by (destruct b; simpl; [done | lia]).
  rewrite <- Hn. by rewrite take_app_length, drop_app_length.
Qed.

Lemma ReadEncryptionHeader_head salt nonce rest r :
  length salt = SaltSize → length nonce = NonceSize → rest ≠ [] →
  ReadEncryptionHeader (Ret ((magic ++ [1] ++ salt ++ nonce) ++ rest) None :: r) =
    (inl (MkHeader salt nonce), Ret rest None :: r).
Proof.
  intros Hsalt Hnonce Hrest. unfold ReadEncryptionHeader.
  assert (Hne : ∀ (a b : list Z), b ≠ [] → a ++ b ≠ []).
  { intros a b Hb Hnil. apply app_eq_nil in Hnil. by destruct Hnil. }
  rewrite <- !app_assoc.
  change 8%nat with (length magic).
  rewrite ReadFull_head by auto.
  rewrite bool_decide_eq_true_2 by done. simpl negb. cbv iota.
  change 1%nat with (length [1]).
  rewrite ReadFull_head by auto.
  rewrite bool_decide_eq_true_2 by done. simpl negb. cbv iota.
  rewrite <- Hsalt. rewrite ReadFull_head by (try (by destruct salt); auto).
  rewrite <- Hnonce. rewrite ReadFull_head by (try (by destruct nonce); auto).
  reflexivity.
Qed.

End Framing.

(** C10.  [DecryptReader.Read] hands the bytes of one [Read] of its source
    to [Open] as one chunk, so a call with nothing pending yields
    plaintext only if those bytes are exactly the sealing of that
    plaintext under the nonce of the current counter.  And there is a
    valid stored stream, the encryption of a one-byte plaintext, which
    decrypts to the plaintext when read flat, but for which a source that
    delivers the same bytes in two reads, the second starting one byte
    into the sealed chunk, makes decryption with the right password end
    with the authentication error and no output. *)
Theorem decrypt_needs_chunk_boundaries `{crypto.Primitives}
    (b : Z) (password : string) (rand : Reader) (plen1 plen2 : nat) :
  (0 < plen1)%nat → (0 < plen2)%nat →
  error_free rand →
  (crypto.SaltSize + crypto.NonceSize ≤ length (stream_bytes rand))%nat →
  (∀ (dr : crypto.DecryptReader) (plen : nat) buf err rd out dr',
     crypto.dr_decrypted dr = [] → crypto.dr_eof dr = false →
     length (crypto.dr_baseNonce dr) = crypto.NonceSize →
     Read (crypto.dr_reader dr) (crypto.ChunkSize + crypto.Overhead) = ((buf, err), rd) →
     is_failure err = false → buf ≠ [] →
     crypto.dr_Read dr plen = ((out, None), dr') →
     buf = crypto.Seal (crypto.dr_cipher dr)
             (crypto.dr_chunkNonce (crypto.dr_baseNonce dr) (crypto.dr_counter dr))
             (out ++ crypto.dr_decrypted dr')) ∧
  ∃ (stored : list Z) (rechunked : Reader) (fuel0 : nat),
    (∀ fuel, (fuel0 ≤ fuel)%nat →
       crypto.encrypt_pipe fuel plen1 (bytes_NewReader [b]) password rand =
         Some (stored, None)) ∧
    (∀ fuel, (fuel0 ≤ fuel)%nat →
       crypto.decrypt_pipe fuel plen2 (bytes_NewReader stored) password =
         Some ([b], None)) ∧
    stream_bytes rechunked = stored ∧ error_free rechunked ∧
    (∀ fuel, (fuel0 ≤ fuel)%nat →
       crypto.decrypt_pipe fuel plen2 rechunked password =
         Some ([], Some (ErrWrap "decryption failed" ErrOpen))).
Proof.
  intros Hp1 Hp2 Hfree Hrand. split.
  - intros dr plen buf err rd out dr' Hpend Heof Hbase Hread Hfail Hbuf Hout.
    rewrite (dr_Read_opens dr plen buf err rd) in Hout by done.
    destruct (crypto.Open _ _ buf) as [p |] eqn:Hopen; [| discriminate].
    injection Hout as <- <-. simpl. rewrite take_drop.
    apply crypto.Open_Some in Hopen; [done |].
    by rewrite dr_chunkNonce_eq, er_chunkNonce_length.
  - destruct (NewEncryptReader_ok (bytes_NewReader [b]) password rand Hfree Hrand)
      as (salt & nonce & rand' & Hnew & Hsalt & Hnonce).
    set (key := crypto.DeriveKey password salt).
    set (ct := crypto.Seal key (crypto.er_chunkNonce nonce 0) [b]).
    assert (Hnlen : length (crypto.er_chunkNonce nonce 0) = crypto.NonceSize)
      by (by rewrite er_chunkNonce_length).
    assert (Hct : length ct = 17%nat) by (unfold ct; by rewrite crypto.Seal_length).
    assert (Hsealed : crypto.sealed_chunks 1 key nonce 0 [b] = ct).
    { rewrite sealed_chunks_cons by done. simpl. rewrite app_nil_r. unfold ct.
      rewrite take_ge; [done |]. simpl. pose proof ChunkSize_pos. lia. }
    destruct (er_copy_flat plen1 key nonce 1 Hp1 [b] 0 (le_n _)) as [f1 Henc].
    destruct (dr_copy_flat plen2 key nonce 1 Hp2 Hnonce [b] 0 (le_n _)) as [f2 Hdec].
    rewrite Hsealed in Henc, Hdec.
    set (header := crypto.magic ++ [1] ++ salt ++ nonce).
    exists (header ++ ct), [Ret (header ++ take 1 ct) None; Ret (drop 1 ct) None],
      (1 `max` (f1 `max` f2))%nat.
    split_and!.
    + intros fuel Hfuel. unfold crypto.encrypt_pipe.
      rewrite Hnew, WriteEncryptionHeader_buffer. fold key. by rewrite Henc by lia.
    + intros fuel Hfuel. unfold crypto.decrypt_pipe.
      unfold header. rewrite ReadEncryptionHeader_flat by done.
      unfold crypto.NewDecryptReader. simpl. fold key. by rewrite Hdec by lia.
    + unfold stream_bytes. simpl. rewrite app_nil_r, <- app_assoc. by rewrite take_drop.
    + by repeat constructor.
    + intros fuel Hfuel. unfold crypto.decrypt_pipe.
      assert (Hhead : take 1 ct ≠ []).
      { intros Hnil. apply (f_equal length) in Hnil. rewrite length_take in Hnil.
        change (length []) with 0%nat in Hnil. lia. }
      unfold header. rewrite ReadEncryptionHeader_head by done.
      unfold crypto.NewDecryptReader. simpl. fold key.
      destruct fuel as [| fuel]; [lia |]. simpl.
      assert (Hread : Read [Ret (take 1 ct) None; Ret (drop 1 ct) None]
                        (crypto.ChunkSize + crypto.Overhead) =
                      ((take 1 ct, None), [Ret (drop 1 ct) None])).
      { unfold Read. rewrite bool_decide_eq_true_2; [done |].
        rewrite length_take. pose proof ChunkSize_pos. lia. }
      rewrite (dr_Read_opens _ plen2 (take 1 ct) None [Ret (drop 1 ct) None])
        by done.
      simpl. rewrite Open_short; [done | |].
      * by rewrite dr_chunkNonce_eq, er_chunkNonce_length.
      * rewrite length_take. unfold crypto.Overhead. lia.
Qed.

(** The statement at the plaintext byte 42. *)
Lemma decrypt_needs_chunk_boundaries_witness :
  ∃ (stored : list Z) (rechunked : Reader) (fuel0 : nat),
    (∀ fuel, (fuel0 ≤ fuel)%nat →
       crypto.encrypt_pipe fuel 8 (bytes_NewReader [42]) "secret"
         (bytes_NewReader (replicate 44 7)) = Some (stored, None)) ∧
    (∀ fuel, (fuel0 ≤ fuel)%nat →
       crypto.decrypt_pipe fuel 8 (bytes_NewReader stored) "secret" =
         Some ([42], None)) ∧
    stream_bytes rechunked = stored ∧ error_free rechunked ∧
    (∀ fuel, (fuel0 ≤ fuel)%nat →
       crypto.decrypt_pipe fuel 8 rechunked "secret" =
         Some ([], Some (ErrWrap "decryption failed" ErrOpen))).
Proof.
  apply (decrypt_needs_chunk_boundaries (H := reference_Primitives)
           42 "secret" (bytes_NewReader (replicate 44 7)) 8 8).
  - lia.
  - lia.
  - repeat constructor.
  - vm_compute. lia.
Defined.

(** ** Runs of the decrypting reader over a flat stream *)

Section ChunkRuns.
Import crypto.
Context `{Primitives}.

Lemma ChunkSize_Overhead_pos : (0 < ChunkSize + Overhead)%nat.
Proof. pose proof ChunkSize_pos. lia. Qed.

(** One sealed chunk at the head of a flat stream is opened under the
    nonce of the current counter, which then advances; the chunk is full
    or the stream ends with it. *)
Lemma dr_copy_chunk plen key baseNonce counter chunk rest out err :
  (0 < plen)%nat → length baseNonce = NonceSize →
  chunk ≠ [] → (length chunk = ChunkSize ∨ (length chunk ≤ ChunkSize)%nat ∧ rest = []) →
  io_Copy_returns dr_Read
    (MkDecryptReader (bytes_NewReader rest) key baseNonce (incr64 counter) [] false)
    plen out err →
  io_Copy_returns dr_Read
    (MkDecryptReader
       (bytes_NewReader (Seal key (er_chunkNonce baseNonce counter) chunk ++ rest))
       key baseNonce counter [] false)
    plen (chunk ++ out) err.
Proof.
  intros Hplen Hbase Hchunk Hfull Hrest.
  set (nonce := er_chunkNonce baseNonce counter).
  assert (Hnonce : length nonce = NonceSize)
    by (unfold nonce; by rewrite er_chunkNonce_length).
  assert (Henc : length (Seal key nonce chunk) = (length chunk + Overhead)%nat)
    by (by apply Seal_length).
  assert (Hsplit : take (ChunkSize + Overhead) (Seal key nonce chunk ++ rest) =
                     Seal key nonce chunk ∧
                   drop (ChunkSize + Overhead) (Seal key nonce chunk ++ rest) = rest).
  { destruct Hfull as [Hfull | [Hle ->]].
    - split; [apply take_app_length' | apply drop_app_length']; lia.
    - rewrite app_nil_r. split; [apply take_ge | apply drop_ge]; lia. }
  destruct Hsplit as [Htake Hdrop].
  assert (Hencne : Seal key nonce chunk ≠ []).
  { intros Hnil. apply (f_equal length) in Hnil. rewrite Henc in Hnil.
    unfold Overhead in Hnil. simpl in Hnil. lia. }
  assert (Hread : Read (bytes_NewReader (Seal key nonce chunk ++ rest))
                    (ChunkSize + Overhead) =
                  ((Seal key nonce chunk, None), bytes_NewReader rest)).
  { rewrite Read_flat, Htake, Hdrop; [done |].
    intros Hnil. apply app_eq_nil in Hnil. by destruct Hnil. }
  pose proof (dr_Read_opens
                (MkDecryptReader (bytes_NewReader (Seal key nonce chunk ++ rest))
                   key baseNonce counter [] false)
                plen (Seal key nonce chunk) None (bytes_NewReader rest)
                eq_refl eq_refl Hread eq_refl Hencne) as Hstep.
  simpl in Hstep. rewrite dr_chunkNonce_eq in Hstep. fold nonce in Hstep.
  rewrite Open_Seal in Hstep by done.
  replace (chunk ++ out) with (take plen chunk ++ drop plen chunk ++ out)
    by (by rewrite app_assoc, take_drop).
  eapply io_Copy_returns_step; [exact Hstep |].
  by apply dr_flush.
Qed.

Lemma iter_incr64_shift k counter :
  Nat.iter k incr64 (incr64 counter) = incr64 (Nat.iter k incr64 counter).
Proof. induction k as [| k IH]; [done |]. simpl. by rewrite IH. Qed.

(** [k] full sealed chunks at the head of a flat stream are opened one
    after the other; what follows them is met with the counter advanced
    [k] times. *)
Lemma dr_copy_chunks plen key baseNonce :
  (0 < plen)%nat → length baseNonce = NonceSize →
  ∀ (k : nat) (data : list Z) counter tail out err,
  length data = (k * ChunkSize)%nat →
  io_Copy_returns dr_Read
    (MkDecryptReader (bytes_NewReader tail) key baseNonce (Nat.iter k incr64 counter)
       [] false)
    plen out err →
  io_Copy_returns dr_Read
    (MkDecryptReader
       (bytes_NewReader (sealed_chunks k key baseNonce counter data ++ tail))
       key baseNonce counter [] false)
    plen (data ++ out) err.
Proof.
  intros Hplen Hbase. induction k as [| k IH]; intros data counter tail out err Hlen Htail.
  - destruct data; [| done]. exact Htail.
  - pose proof ChunkSize_pos as Hpos.
    assert (Hne : data ≠ []) by (intros ->; simpl in Hlen; lia).
    assert (Hsplit : data ++ out = take ChunkSize data ++ drop ChunkSize data ++ out)
      by (by rewrite app_assoc, take_drop).
    rewrite sealed_chunks_cons by done. rewrite <- app_assoc, Hsplit.
    apply dr_copy_chunk; [done | done | by apply take_ChunkSize_nonempty | |].
    + left. rewrite length_take. lia.
    + apply IH.
      * rewrite length_drop. lia.
      * by rewrite iter_incr64_shift.
Qed.

(** A piece that does not open ends the run with the error and no
    further output. *)
Lemma dr_copy_reject plen key baseNonce counter tail :
  tail ≠ [] →
  Open key (dr_chunkNonce baseNonce counter) (take (ChunkSize + Overhead) tail) = None →
  io_Copy_returns dr_Read
    (MkDecryptReader (bytes_NewReader tail) key baseNonce counter [] false)
    plen [] (Some (ErrWrap "decryption failed" ErrOpen)).
Proof.
  intros Htail Hopen. apply io_Copy_returns_error; [| done].
  assert (Htake : take (ChunkSize + Overhead) tail ≠ []).
  { intros Hnil. apply (f_equal length) in Hnil. rewrite length_take in Hnil.
    pose proof ChunkSize_Overhead_pos. destruct tail; simpl in *; [done | lia]. }
  rewrite (dr_Read_opens _ plen (take (ChunkSize + Overhead) tail) None
             (bytes_NewReader (drop (ChunkSize + Overhead) tail)));
    [| done | done | by apply Read_flat | done | done].
  simpl. by rewrite Hopen.
Qed.

(** A last piece that opens is handed out, and the run ends. *)
Lemma dr_copy_last plen key baseNonce counter c p :
  (0 < plen)%nat →
  c ≠ [] → (length c ≤ ChunkSize + Overhead)%nat →
  Open key (dr_chunkNonce baseNonce counter) c = Some p →
  io_Copy_returns dr_Read
    (MkDecryptReader (bytes_NewReader c) key baseNonce counter [] false) plen p None.
Proof.
  intros Hplen Hc Hlen Hopen.
  assert (Hread : Read (bytes_NewReader c) (ChunkSize + Overhead) = ((c, None), [])).
  { rewrite Read_flat by done. by rewrite take_ge, drop_ge by done. }
  pose proof (dr_Read_opens (MkDecryptReader (bytes_NewReader c) key baseNonce counter
                               [] false)
                plen c None [] eq_refl eq_refl Hread eq_refl Hc) as Hstep.
  simpl in Hstep. rewrite Hopen in Hstep.
  rewrite <- (take_drop plen p), <- (app_nil_r (drop plen p)).
  eapply io_Copy_returns_step; [exact Hstep |].
  apply dr_flush; [done |]. by apply io_Copy_returns_EOF, dr_Read_end.
Qed.

(** The first read of a flat stream of sealed chunks takes the first
    sealed chunk. *)
Lemma sealed_chunks_first n key baseNonce counter data :
  length baseNonce = NonceSize → data ≠ [] →
  take (ChunkSize + Overhead) (sealed_chunks (S n) key baseNonce counter data) =
    Seal key (er_chunkNonce baseNonce counter) (take ChunkSize data).
Proof.
  intros Hbase Hne. rewrite sealed_chunks_cons by done.
  set (nonce := er_chunkNonce baseNonce counter).
  assert (Henc : length (Seal key nonce (take ChunkSize data)) =
                 (length (take ChunkSize data) + Overhead)%nat).
  { apply Seal_length. unfold nonce. by rewrite er_chunkNonce_length. }
  destruct (decide (length data ≤ ChunkSize)%nat) as [Hsmall | Hbig].
  - rewrite (drop_ge data) by done. rewrite sealed_chunks_nil, app_nil_r.
    apply take_ge. rewrite Henc, length_take. lia.
  - apply take_app_length'. rewrite Henc, length_take. lia.
Qed.

(** The [k]-th chunk of a flat plaintext is sealed under the nonce of the
    counter after [k] increments. *)
Lemma sealed_chunks_nth key baseNonce :
  ∀ (k n : nat) (data : list Z) counter,
  (k * ChunkSize < length data)%nat → (length data ≤ n)%nat →
  ∃ after,
    sealed_chunks n key baseNonce counter data =
      sealed_chunks k key baseNonce counter (take (k * ChunkSize) data) ++
      Seal key (er_chunkNonce baseNonce (Nat.iter k incr64 counter))
        (take ChunkSize (drop (k * ChunkSize) data)) ++ after.
Proof.
  pose proof ChunkSize_pos as Hpos.
  induction k as [| k IH]; intros n data counter Hk Hn.
  - destruct n as [| n]; [lia |].
    assert (Hne : data ≠ []) by (intros ->; simpl in Hk; lia).
    rewrite sealed_chunks_cons by done. simpl. eauto.
  - destruct n as [| n]; [lia |].
    assert (Hne : data ≠ []) by (intros ->; simpl in Hk; lia).
    assert (Hne' : take (S k * ChunkSize) data ≠ []).
    { intros Hnil. apply (f_equal length) in Hnil. rewrite length_take in Hnil.
      destruct data; simpl in *; [done | lia]. }
    rewrite !sealed_chunks_cons by done.
    destruct (IH n (drop ChunkSize data) (incr64 counter)) as [after Hafter].
    { rewrite length_drop. lia. }
    { rewrite length_drop. lia. }
    exists after. rewrite Hafter, <- app_assoc.
    rewrite iter_incr64_shift. simpl Nat.iter.
    assert (Htake : take ChunkSize (take (S k * ChunkSize) data) = take ChunkSize data).
    { rewrite take_take. f_equal; lia. }
    assert (Hdrop : drop ChunkSize (take (S k * ChunkSize) data) =
                    take (k * ChunkSize) (drop ChunkSize data)).
    { rewrite skipn_firstn_comm. f_equal; lia. }
    rewrite Htake, Hdrop, drop_drop.
    replace (ChunkSize + k * ChunkSize)%nat with (S k * ChunkSize)%nat by lia.
    done.
Qed.

(** Salt and nonce are the first 32 and the next 12 bytes of the random
    source. *)
Lemma NewEncryptReader_values plain password rand :
  error_free rand → (SaltSize + NonceSize ≤ length (stream_bytes rand))%nat →
  ∃ rand',
    NewEncryptReader plain password rand =
      (inl (MkEncryptReader plain
              (DeriveKey password (take SaltSize (stream_bytes rand)))
              (take NonceSize (drop SaltSize (stream_bytes rand))) 0 [] false,
            MkHeader (take SaltSize (stream_bytes rand))
              (take NonceSize (drop SaltSize (stream_bytes rand)))), rand').
Proof.
  intros Hfree Hlen. unfold NewEncryptReader, GenerateSalt, GenerateNonce.
  destruct (ReadFull_enough rand SaltSize Hfree) as (r1 & E1 & F1 & S1); [lia |].
  rewrite E1.
  destruct (ReadFull_enough r1 NonceSize F1) as (r2 & E2 & F2 & S2).
  { rewrite S1, length_drop. lia. }
  rewrite E2, S1. by eexists.
Qed.

(** One chunk at the head of a flat plaintext is sealed under the nonce
    of the current counter, which then advances; the chunk is full or the
    plaintext ends with it. *)
Lemma er_copy_chunk plen key baseNonce counter chunk rest out err :
  (0 < plen)%nat →
  chunk ≠ [] → (length chunk = ChunkSize ∨ (length chunk ≤ ChunkSize)%nat ∧ rest = []) →
  io_Copy_returns er_Read
    (MkEncryptReader (bytes_NewReader rest) key baseNonce (incr64 counter) [] false)
    plen out err →
  io_Copy_returns er_Read
    (MkEncryptReader (bytes_NewReader (chunk ++ rest)) key baseNonce counter [] false)
    plen (Seal key (er_chunkNonce baseNonce counter) chunk ++ out) err.
Proof.
  intros Hplen Hchunk Hfull Hrest.
  assert (Hsplit : take ChunkSize (chunk ++ rest) = chunk ∧
                   drop ChunkSize (chunk ++ rest) = rest).
  { destruct Hfull as [Hfull | [Hle ->]].
    - split; [apply take_app_length' | apply drop_app_length']; lia.
    - rewrite app_nil_r. split; [apply take_ge | apply drop_ge]; lia. }
  destruct Hsplit as [Htake Hdrop].
  assert (Hread : Read (bytes_NewReader (chunk ++ rest)) ChunkSize =
                  ((chunk, None), bytes_NewReader rest)).
  { rewrite Read_flat, Htake, Hdrop; [done |].
    intros Hnil. apply app_eq_nil in Hnil. by destruct Hnil. }
  pose proof (er_Read_seals
                (MkEncryptReader (bytes_NewReader (chunk ++ rest)) key baseNonce counter
                   [] false)
                plen chunk None (bytes_NewReader rest)
                eq_refl eq_refl Hread eq_refl Hchunk) as Hstep.
  simpl in Hstep.
  set (enc := Seal key (er_chunkNonce baseNonce counter) chunk) in *.
  replace (enc ++ out) with (take plen enc ++ drop plen enc ++ out)
    by (by rewrite app_assoc, take_drop).
  eapply io_Copy_returns_step; [exact Hstep |].
  by apply er_flush.
Qed.

End ChunkRuns.

(** ** C3: the per-chunk nonces *)

Section CounterSteps.
Import crypto.
Context `{Primitives}.

(** A call of [EncryptReader.Read] either leaves the counter alone and
    hands out pending bytes only, or seals what it has just read under
    the nonce of the counter and advances the counter by one. *)
Lemma er_Read_counter er plen :
  (er_counter (er_Read er plen).2 = er_counter er ∧
   (er_Read er plen).1.1 ++ er_encrypted (er_Read er plen).2 = er_encrypted er) ∨
  (er_encrypted er = [] ∧
   (Read (er_reader er) ChunkSize).1.1 ≠ [] ∧
   er_counter (er_Read er plen).2 = incr64 (er_counter er) ∧
   (er_Read er plen).1.1 ++ er_encrypted (er_Read er plen).2 =
     Seal (er_cipher er) (er_chunkNonce (er_baseNonce er) (er_counter er))
       (Read (er_reader er) ChunkSize).1.1).
Proof.
  destruct (decide (er_encrypted er = [])) as [Hnil | Hne].
  - unfold er_Read. rewrite Hnil. simpl.
    destruct (er_eof er); simpl; [by left |].
    destruct (Read (er_reader er) ChunkSize) as [[buf err] rd]. simpl.
    destruct (is_failure err); simpl; [by left |].
    case_bool_decide as Hbuf; simpl.
    + right. split_and!; [done | by apply length_pos_nonempty | done | apply take_drop].
    + destruct (is_EOF err); simpl; by left.
  - rewrite er_Read_pending by done. simpl. left. split; [done | apply take_drop].
Qed.

(** The same for [DecryptReader.Read], which advances only when the
    chunk has opened. *)
Lemma dr_Read_counter dr plen :
  (dr_counter (dr_Read dr plen).2 = dr_counter dr ∧
   (dr_Read dr plen).1.1 ++ dr_decrypted (dr_Read dr plen).2 = dr_decrypted dr) ∨
  (dr_decrypted dr = [] ∧
   (Read (dr_reader dr) (ChunkSize + Overhead)).1.1 ≠ [] ∧
   dr_counter (dr_Read dr plen).2 = incr64 (dr_counter dr) ∧
   Open (dr_cipher dr) (dr_chunkNonce (dr_baseNonce dr) (dr_counter dr))
     (Read (dr_reader dr) (ChunkSize + Overhead)).1.1 =
     Some ((dr_Read dr plen).1.1 ++ dr_decrypted (dr_Read dr plen).2)).
Proof.
  destruct (decide (dr_decrypted dr = [])) as [Hnil | Hne].
  - unfold dr_Read. rewrite Hnil. simpl.
    destruct (dr_eof dr); simpl; [by left |].
    destruct (Read (dr_reader dr) (ChunkSize + Overhead)) as [[buf err] rd]. simpl.
    destruct (is_failure err); simpl; [by left |].
    case_bool_decide as Hbuf; simpl.
    + destruct (Open _ _ buf) as [p |] eqn:Hp; simpl; [| by left].
      right. split_and!; [done | by apply length_pos_nonempty | done |].
      by rewrite take_drop.
    + destruct (is_EOF err); simpl; by left.
  - rewrite dr_Read_pending by done. simpl. left. split; [done | apply take_drop].
Qed.

End CounterSteps.

(** C3.  For a 12-byte base nonce the per-chunk nonces of any two distinct
    counters below 2^64 differ, so the nonces of the counters 0..N-1 are
    pairwise distinct for every N up to 2^32 (and beyond), and the
    decrypting side derives the nonce of a counter exactly as the
    encrypting side does.  Both readers are created with counter 0 and
    the header's nonce as base.  [EncryptReader.Read] seals every chunk it
    reads under the nonce of its counter and then advances the counter by
    one, and it does not touch the counter otherwise; [DecryptReader.Read]
    hands every chunk it reads to [Open] under the nonce of its counter
    and advances the counter by one when the chunk has opened.  So chunk
    [k] of a plaintext read from a flat source is sealed under the nonce
    of counter [k], and the piece that follows [k] full sealed chunks of
    a flat stored stream is opened under the nonce of counter [k]. *)
Theorem chunk_nonces_distinct_and_shared `{crypto.Primitives} (baseNonce : list Z) :
  length baseNonce = crypto.NonceSize →
  (∀ i j, 0 ≤ i < 2 ^ 64 → 0 ≤ j < 2 ^ 64 → i ≠ j →
     crypto.er_chunkNonce baseNonce i ≠ crypto.er_chunkNonce baseNonce j) ∧
  (∀ N, 0 ≤ N ≤ 2 ^ 32 → ∀ i j, 0 ≤ i < N → 0 ≤ j < N → i ≠ j →
     crypto.er_chunkNonce baseNonce i ≠ crypto.er_chunkNonce baseNonce j) ∧
  (∀ i, crypto.dr_chunkNonce baseNonce i = crypto.er_chunkNonce baseNonce i) ∧
  (∀ k : nat, Z.of_nat k < 2 ^ 64 → Nat.iter k crypto.incr64 0 = Z.of_nat k) ∧
  (∀ r password rand er header rand',
     crypto.NewEncryptReader r password rand = (inl (er, header), rand') →
     crypto.er_counter er = 0 ∧ crypto.er_baseNonce er = crypto.Nonce header) ∧
  (∀ r password header,
     crypto.dr_counter (crypto.NewDecryptReader r password header) = 0 ∧
     crypto.dr_baseNonce (crypto.NewDecryptReader r password header) =
       crypto.Nonce header) ∧
  (∀ er plen buf err rd,
     crypto.er_baseNonce er = baseNonce →
     crypto.er_encrypted er = [] → crypto.er_eof er = false →
     Read (crypto.er_reader er) crypto.ChunkSize = ((buf, err), rd) →
     is_failure err = false → buf ≠ [] →
     crypto.er_Read er plen =
       ((take plen
           (crypto.Seal (crypto.er_cipher er)
              (crypto.er_chunkNonce baseNonce (crypto.er_counter er)) buf), None),
        crypto.MkEncryptReader rd (crypto.er_cipher er) baseNonce
          (crypto.incr64 (crypto.er_counter er))
          (drop plen
             (crypto.Seal (crypto.er_cipher er)
                (crypto.er_chunkNonce baseNonce (crypto.er_counter er)) buf))
          false)) ∧
  (∀ er plen,
     (crypto.er_counter (crypto.er_Read er plen).2 = crypto.er_counter er ∧
      (crypto.er_Read er plen).1.1 ++ crypto.er_encrypted (crypto.er_Read er plen).2 =
        crypto.er_encrypted er) ∨
     (crypto.er_encrypted er = [] ∧
      (Read (crypto.er_reader er) crypto.ChunkSize).1.1 ≠ [] ∧
      crypto.er_counter (crypto.er_Read er plen).2 =
        crypto.incr64 (crypto.er_counter er) ∧
      (crypto.er_Read er plen).1.1 ++ crypto.er_encrypted (crypto.er_Read er plen).2 =
        crypto.Seal (crypto.er_cipher er)
          (crypto.er_chunkNonce (crypto.er_baseNonce er) (crypto.er_counter er))
          (Read (crypto.er_reader er) crypto.ChunkSize).1.1)) ∧
  (∀ dr plen buf err rd,
     crypto.dr_baseNonce dr = baseNonce →
     crypto.dr_decrypted dr = [] → crypto.dr_eof dr = false →
     Read (crypto.dr_reader dr) (crypto.ChunkSize + crypto.Overhead) = ((buf, err), rd) →
     is_failure err = false → buf ≠ [] →
     crypto.dr_Read dr plen =
       match crypto.Open (crypto.dr_cipher dr)
               (crypto.dr_chunkNonce baseNonce (crypto.dr_counter dr)) buf with
       | None =>
           (([], Some (ErrWrap "decryption failed" ErrOpen)),
            crypto.MkDecryptReader rd (crypto.dr_cipher dr) baseNonce
              (crypto.dr_counter dr) [] false)
       | Some decrypted =>
           ((take plen decrypted, None),
            crypto.MkDecryptReader rd (crypto.dr_cipher dr) baseNonce
              (crypto.incr64 (crypto.dr_counter dr)) (drop plen decrypted) false)
       end) ∧
  (∀ dr plen,
     (crypto.dr_counter (crypto.dr_Read dr plen).2 = crypto.dr_counter dr ∧
      (crypto.dr_Read dr plen).1.1 ++ crypto.dr_decrypted (crypto.dr_Read dr plen).2 =
        crypto.dr_decrypted dr) ∨
     (crypto.dr_decrypted dr = [] ∧
      (Read (crypto.dr_reader dr) (crypto.ChunkSize + crypto.Overhead)).1.1 ≠ [] ∧
      crypto.dr_counter (crypto.dr_Read dr plen).2 =
        crypto.incr64 (crypto.dr_counter dr) ∧
      crypto.Open (crypto.dr_cipher dr)
        (crypto.dr_chunkNonce (crypto.dr_baseNonce dr) (crypto.dr_counter dr))
        (Read (crypto.dr_reader dr) (crypto.ChunkSize + crypto.Overhead)).1.1 =
        Some ((crypto.dr_Read dr plen).1.1 ++
              crypto.dr_decrypted (crypto.dr_Read dr plen).2))) ∧
  (∀ key data plen, (0 < plen)%nat →
     io_Copy_returns crypto.er_Read
       (crypto.MkEncryptReader (bytes_NewReader data) key baseNonce 0 [] false) plen
       (crypto.sealed_chunks (length data) key baseNonce 0 data) None) ∧
  (∀ key data (k : nat),
     (k * crypto.ChunkSize < length data)%nat → Z.of_nat k < 2 ^ 64 →
     ∃ after,
       crypto.sealed_chunks (length data) key baseNonce 0 data =
         crypto.sealed_chunks k key baseNonce 0 (take (k * crypto.ChunkSize) data) ++
         crypto.Seal key (crypto.er_chunkNonce baseNonce (Z.of_nat k))
           (take crypto.ChunkSize (drop (k * crypto.ChunkSize) data)) ++ after) ∧
  (∀ key data (k : nat) c plen,
     (0 < plen)%nat → length data = (k * crypto.ChunkSize)%nat → Z.of_nat k < 2 ^ 64 →
     c ≠ [] → (length c ≤ crypto.ChunkSize + crypto.Overhead)%nat →
     io_Copy_returns crypto.dr_Read
       (crypto.MkDecryptReader
          (bytes_NewReader (crypto.sealed_chunks k key baseNonce 0 data ++ c))
          key baseNonce 0 [] false) plen
       (data ++
        default [] (crypto.Open key (crypto.dr_chunkNonce baseNonce (Z.of_nat k)) c))
       (match crypto.Open key (crypto.dr_chunkNonce baseNonce (Z.of_nat k)) c with
        | Some _ => None
        | None => Some (ErrWrap "decryption failed" ErrOpen)
        end)).
Proof.
  intros Hlen. split_and!.
  - intros i j Hi Hj Hne E. apply Hne. by apply (er_chunkNonce_inj baseNonce).
  - intros N HN i j Hi Hj Hne E. apply Hne.
    apply (er_chunkNonce_inj baseNonce); [done | lia | lia | done].
  - intros i. apply dr_chunkNonce_eq.
  - apply incr64_iter.
  - intros r password rand er header rand' Hnew.
    unfold crypto.NewEncryptReader in Hnew.
    destruct (crypto.GenerateSalt rand) as [[salt | e] rand1]; [| discriminate].
    destruct (crypto.GenerateNonce rand1) as [[nonce | e] rand2]; [| discriminate].
    by simplify_eq.
  - done.
  - intros er plen buf err rd <- Hpend Heof Hread Hfail Hbuf.
    exact (er_Read_seals er plen buf err rd Hpend Heof Hread Hfail Hbuf).
  - apply er_Read_counter.
  - intros dr plen buf err rd <- Hpend Heof Hread Hfail Hbuf.
    exact (dr_Read_opens dr plen buf err rd Hpend Heof Hread Hfail Hbuf).
  - apply dr_Read_counter.
  - intros key data plen Hplen. by apply er_copy_flat.
  - intros key data k Hk Hk64.
    destruct (sealed_chunks_nth key baseNonce k (length data) data 0 Hk (le_n _))
      as [after Hafter].
    exists after. by rewrite Hafter, incr64_iter.
  - intros key data k c plen Hplen Hdata Hk64 Hc Hclen.
    apply dr_copy_chunks; [done | done | done |].
    rewrite incr64_iter by done.
    destruct (crypto.Open key (crypto.dr_chunkNonce baseNonce (Z.of_nat k)) c)
      as [p |] eqn:Hopen.
    + by apply dr_copy_last.
    + apply dr_copy_reject; [done |]. by rewrite take_ge.
Qed.

(** The statement at a concrete base nonce: the nonces of the first and
    of the last of 2^32 chunks differ, and a reader at counter 5 that
    reads three bytes seals them under the nonce of 5 and goes on to 6. *)
Lemma chunk_nonces_distinct_and_shared_witness :
  crypto.er_chunkNonce [1; 2; 3; 4; 5; 6; 7; 8; 9; 10; 11; 12] 0 ≠
  crypto.er_chunkNonce [1; 2; 3; 4; 5; 6; 7; 8; 9; 10; 11; 12] (2 ^ 32 - 1) ∧
  crypto.er_Read (H := reference_Primitives)
    (crypto.MkEncryptReader [Ret [1; 2; 3] None] [7]
       [1; 2; 3; 4; 5; 6; 7; 8; 9; 10; 11; 12] 5 [] false) 100 =
    ((crypto.Seal (Primitives := reference_Primitives) [7]
        [1; 2; 3; 4; 5; 6; 7; 8; 9; 10; 11; 9] [1; 2; 3], None),
     crypto.MkEncryptReader [] [7] [1; 2; 3; 4; 5; 6; 7; 8; 9; 10; 11; 12] 6 [] false).
Proof.
  destruct (chunk_nonces_distinct_and_shared (H := reference_Primitives)
              [1; 2; 3; 4; 5; 6; 7; 8; 9; 10; 11; 12] eq_refl)
    as (Hdistinct & _ & _ & _ & _ & _ & Hseal & _).
  split.
  - apply Hdistinct; lia.
  - rewrite (Hseal (crypto.MkEncryptReader [Ret [1; 2; 3] None] [7]
                      [1; 2; 3; 4; 5; 6; 7; 8; 9; 10; 11; 12] 5 [] false)
               100%nat [1; 2; 3] None []);
      try reflexivity; try done.
Defined.

(** ** C2: a chunk that does not open *)

Section RejectedChunks.
Import crypto.
Context `{Primitives}.

(** Decryption of a flat stored stream whose first [k] chunks are sealed
    under the key in use and whose next piece does not open. *)
Lemma decrypt_pipe_reject plen password salt nonce (k : nat) data tail :
  (0 < plen)%nat → length salt = SaltSize → length nonce = NonceSize →
  length data = (k * ChunkSize)%nat → Z.of_nat k < 2 ^ 64 → tail ≠ [] →
  Open (DeriveKey password salt) (dr_chunkNonce nonce (Z.of_nat k))
    (take (ChunkSize + Overhead) tail) = None →
  ∃ fuel0, ∀ fuel, (fuel0 ≤ fuel)%nat →
    decrypt_pipe fuel plen
      (bytes_NewReader
         ((magic ++ [1] ++ salt ++ nonce) ++
          sealed_chunks k (DeriveKey password salt) nonce 0 data ++ tail))
      password =
    Some (data, Some (ErrWrap "decryption failed" ErrOpen)).
Proof.
  intros Hplen Hsalt Hnonce Hdata Hk Htail Hopen.
  assert (Hrun : io_Copy_returns dr_Read
            (MkDecryptReader
               (bytes_NewReader
                  (sealed_chunks k (DeriveKey password salt) nonce 0 data ++ tail))
               (DeriveKey password salt) nonce 0 [] false)
            plen (data ++ []) (Some (ErrWrap "decryption failed" ErrOpen))).
  { apply dr_copy_chunks; [done | done | done |].
    rewrite incr64_iter by done. by apply dr_copy_reject. }
  rewrite app_nil_r in Hrun. destruct Hrun as [fuel0 Hrun].
  exists fuel0. intros fuel Hfuel. unfold decrypt_pipe.
  rewrite ReadEncryptionHeader_flat by done.
  unfold NewDecryptReader. simpl. by apply Hrun.
Qed.

End RejectedChunks.




(** ** C1: sources that return short reads *)


(** ** C5: a backup flagged as encrypted without the header *)

Section RestoreGate.
Import crypto storage backup.

Lemma Read_prefix r cap read err rd :
  Read r cap = ((read, err), rd) → ∃ tl, stream_bytes r = read ++ tl.
Proof.
  unfold Read, stream_bytes. destruct r as [| [bs e] r]; simpl.
  - intros ?. simplify_eq. by exists [].
  - case_bool_decide; intros ?; simplify_eq.
    + by eexists.
    + exists (drop cap bs ++ concat (map ev_data r)).
      by rewrite app_assoc, take_drop.
Qed.

(** The zero-filled 512-byte buffer begins with the magic tag only if the
    stream does. *)
Lemma IsEncrypted_headerBytes r read err rd :
  Read r 512 = ((read, err), rd) →
  take 8 (stream_bytes r) ≠ magic →
  IsEncrypted (headerBytes read) = false.
Proof.
  intros Hread Hmagic. apply Read_prefix in Hread as [tl Htl].
  unfold IsEncrypted. apply andb_false_iff. right.
  apply bool_decide_eq_false_2. intros Hhb. apply Hmagic. rewrite Htl.
  unfold headerBytes in Hhb.
  do 8 (destruct read as [| ? read]; [discriminate Hhb |]).
  exact Hhb.
Qed.

Context `{Primitives}.

Lemma finalReader_missing_header env backup :
  Encrypted (b_Metadata backup) = true →
  take 8 (stream_bytes (b_DataReader backup)) ≠ magic →
  finalReader env backup =
    inr (match (Read (b_DataReader backup) 512).1.2 with
         | Some err => ErrWrap "failed to read backup header" err
         | None => ErrNoHeader
         end).
Proof.
  intros Henc Hmagic. unfold finalReader. rewrite Henc.
  destruct (Read (b_DataReader backup) 512) as [[read err] rd] eqn:Hread. simpl.
  destruct err as [err |]; [done |].
  by rewrite (IsEncrypted_headerBytes _ _ _ _ Hread Hmagic).
Qed.

End RestoreGate.

(** C5 as it stands fails: for a backup flagged as encrypted whose data
    file is empty, the first read returns [io.EOF] and the restore ends
    with "failed to read backup header", not with the corruption error
    (and a dry run of any such backup returns without an error). *)
Lemma missing_header_empty_stream_counterexample :
  ¬ backup.missing_header_always_ErrNoHeader.
Proof.
  intros Hclaim.
  set (meta := storage.MkMetadata "" "b1" "" 0 0 "" "v1" "" "" "" "" true).
  set (s := (storage.StoreSnapshot (∅ : gmap string storage.content) "b1"
               (storage.MkBackup "b1" meta []) "20240101-000000" 1).2).
  set (env := backup.MkEnv (inl true) (inl (backup.MkVolumeInfo "v1" "" "" 0 "local" ""))
                (inl "y") None "pw" "" None (λ _, None)).
  destruct (storage.GetSnapshot s "b1") as [bk | e] eqn:Hget; [| by vm_compute in Hget].
  specialize (Hclaim reference_Primitives _ _ 10%nat s env "v1" "b1" false true
                (32 * 1024)%nat bk Hget).
  vm_compute in Hget. injection Hget as <-.
  specialize (Hclaim eq_refl ltac:(by vm_compute)).
  vm_compute in Hclaim. discriminate Hclaim.
Qed.

(** C5, amended.  For a retrieved backup flagged as encrypted whose data
    does not begin with the magic tag, [RestoreDirectVolume] always
    returns before a byte of the data is written to the temporary file and
    before the extraction: the data is never treated as plaintext.  When
    the call passes the dry-run and confirmation gates and creates its
    temporary file, it fails with the corruption error "backup marked as
    encrypted but no encryption header found" if the first read of the
    data returns without error, and with "failed to read backup header"
    wrapping the error of that read otherwise. *)
Theorem restore_rejects_missing_header `{crypto.Primitives} {B : Type} `{storage.Backend B}
    (fuel : nat) (s : B) (env : backup.Env) (volumeName snapshotName : string)
    (dryRun force : bool) (plen : nat) (bk : storage.Backup) :
  storage.GetSnapshot s snapshotName = inl bk →
  storage.Encrypted (storage.b_Metadata bk) = true →
  take 8 (stream_bytes (storage.b_DataReader bk)) ≠ crypto.magic →
  ∃ o : backup.outcome,
    backup.RestoreDirectVolume fuel (Some s) env volumeName snapshotName dryRun force plen
      = Some o ∧
    backup.stops_before_copy o ∧
    (backup.volume_exists env = inl true →
     (∃ v, backup.get_volume env = inl v) →
     dryRun = false →
     (force = true ∨ backup.scan_response env = inl "y" ∨
      backup.scan_response env = inl "Y") →
     backup.create_temp_err env = None →
     o = backup.Failed
           (match (Read (storage.b_DataReader bk) 512).1.2 with
            | Some err => ErrWrap "failed to read backup header" err
            | None => backup.ErrNoHeader
            end)).
Proof.
  intros Hget Henc Hmagic. unfold backup.RestoreDirectVolume.
  rewrite Hget, (finalReader_missing_header env bk Henc Hmagic).
  destruct (backup.volume_exists env) as [[|] | e1];
    [| eexists; split; [done |]; split; [done | intros; congruence] ..].
  destruct (backup.get_volume env) as [v | e2];
    [| eexists; split; [done |]; split; [done | intros _ [? ?]; congruence]].
  destruct dryRun;
    [eexists; split; [done |]; split; [done | intros; congruence] |].
  destruct (backup.create_temp_err env) as [e3 |] eqn:Htemp.
  - destruct (negb force && _);
      (eexists; split; [done |]; split; [done | intros; congruence]).
  - destruct force; simpl.
    + eexists; split; [done |]; split; [done | by intros].
    + destruct (backup.scan_response env) as [response | e4]; simpl.
      * destruct (String.eqb response "y" || String.eqb response "Y") eqn:Hresp; simpl.
        -- eexists; split; [done |]; split; [done | by intros].
        -- eexists; split; [done |]; split; [done |].
           intros _ _ _ [? | [? | ?]] _; [done | |]; simplify_eq; done.
      * eexists; split; [done |]; split; [done |].
        intros _ _ _ [? | [? | ?]] _; done.
Qed.

(** The statement at a backup whose data is the plain bytes 1, 2, 3. *)
Lemma restore_rejects_missing_header_witness :
  ∃ o : backup.outcome,
    backup.RestoreDirectVolume 10
      (Some (storage.StoreSnapshot (∅ : gmap string storage.content) "b1"
               (storage.MkBackup "b1"
                  (storage.MkMetadata "" "b1" "" 3 0 "" "v1" "" "" "" "" true)
                  [Ret [1; 2; 3] None]) "20240101-000000" 1).2)
      (backup.MkEnv (inl true) (inl (backup.MkVolumeInfo "v1" "" "" 0 "local" ""))
         (inl "y") None "pw" "" None (λ _, None))
      "v1" "b1" false true (32 * 1024) = Some o ∧
    backup.stops_before_copy o ∧ o = backup.Failed backup.ErrNoHeader.
Proof.
  destruct (restore_rejects_missing_header (H := reference_Primitives) 10
              (storage.StoreSnapshot (∅ : gmap string storage.content) "b1"
                 (storage.MkBackup "b1"
                    (storage.MkMetadata "" "b1" "" 3 0 "" "v1" "" "" "" "" true)
                    [Ret [1; 2; 3] None]) "20240101-000000" 1).2
              (backup.MkEnv (inl true) (inl (backup.MkVolumeInfo "v1" "" "" 0 "local" ""))
                 (inl "y") None "pw" "" None (λ _, None))
              "v1" "b1" false true (32 * 1024)
              (storage.MkBackup "b1@20240101-000000"
                 (storage.MkMetadata "b1@20240101-000000" "b1" "volume-snapshot" 3 1 ""
                    "v1" "" "" "" "20240101-000000" true)
                 [Ret [1; 2; 3] None]))
    as (o & Hrun & Hstop & Hgate).
  - vm_compute. reflexivity.
  - reflexivity.
  - vm_compute. discriminate.
  - exists o. split; [exact Hrun |]. split; [exact Hstop |].
    apply Hgate; [reflexivity | by eexists | reflexivity | by left | reflexivity].
Defined.

(** ** Strings *)

Section StringFacts.
Import strings.

Lemma append_cons c a b : String c a +:+ b = String c (a +:+ b).
Proof. reflexivity. Qed.

Lemma list_ascii_app a b :
  list_ascii_of_string (a +:+ b) = list_ascii_of_string a ++ list_ascii_of_string b.
Proof. induction a as [| c a IH]; simpl; [done | by rewrite IH]. Qed.

Lemma list_ascii_inj a b : list_ascii_of_string a = list_ascii_of_string b → a = b.
Proof.
  intros E. apply (f_equal string_of_list_ascii) in E.
  by rewrite !string_of_list_ascii_of_string in E.
Qed.

Lemma string_length_list s : String.length s = length (list_ascii_of_string s).
Proof. induction s as [| c s IH]; simpl; [done | by rewrite IH]. Qed.

Lemma string_length_app a b :
  String.length (a +:+ b) = (String.length a + String.length b)%nat.
Proof. by rewrite !string_length_list, list_ascii_app, length_app. Qed.

Lemma append_nil_r s : s +:+ "" = s.
Proof. induction s as [| c s IH]; [done |]. by rewrite append_cons, IH. Qed.

Lemma append_assoc a b c : (a +:+ b) +:+ c = a +:+ (b +:+ c).
Proof. induction a as [| x a IH]; [done |]. by rewrite !append_cons, IH. Qed.

Lemma append_inj_l p a b : p +:+ a = p +:+ b → a = b.
Proof.
  induction p as [| c p IH]; intros E; [done |].
  rewrite !append_cons in E. injection E as E. auto.
Qed.

Lemma append_inj_r a b s : a +:+ s = b +:+ s → a = b.
Proof.
  intros E. apply list_ascii_inj. apply (f_equal list_ascii_of_string) in E.
  rewrite !list_ascii_app in E. by apply app_inv_tail in E.
Qed.

(** File names of the two objects of a backup never coincide. *)
Lemma json_ne_targz a b : a +:+ ".json" ≠ b +:+ ".tar.gz".
Proof.
  intros E. apply (f_equal list_ascii_of_string) in E.
  rewrite !list_ascii_app in E. apply (f_equal (@rev ascii)) in E.
  rewrite !rev_app_distr in E. simpl in E. discriminate E.
Qed.

Lemma Ext_json id : filepath.Ext (id +:+ ".json") = ".json".
Proof. unfold filepath.Ext. by rewrite list_ascii_app, rev_app_distr. Qed.

Lemma Ext_targz id : filepath.Ext (id +:+ ".tar.gz") = ".gz".
Proof. unfold filepath.Ext. by rewrite list_ascii_app, rev_app_distr. Qed.

Lemma prefix_app p r : String.prefix p (p +:+ r) = true.
Proof.
  induction p as [| c p IH]; simpl; [by destruct r |].
  by destruct (ascii_dec c c).
Qed.

Lemma prefix_inv p s : String.prefix p s = true → ∃ r, s = p +:+ r.
Proof.
  revert s. induction p as [| c p IH]; intros s Hp.
  - by exists s.
  - destruct s as [| d s]; simpl in Hp; [done |].
    destruct (ascii_dec c d) as [-> | ?]; [| done].
    destruct (IH s Hp) as [r ->]. by exists r.
Qed.

Lemma HasPrefix_iff s p : HasPrefix s p = true ↔ ∃ r, s = p +:+ r.
Proof.
  unfold HasPrefix. split; [apply prefix_inv |]. intros [r ->]. apply prefix_app.
Qed.

Lemma substring_0_all s n : (String.length s ≤ n)%nat → substring 0 n s = s.
Proof.
  revert n. induction s as [| c s IH]; intros n Hn; destruct n; simpl in *;
    try done; try lia.
  rewrite IH; [done | lia].
Qed.

Lemma substring_split s k :
  (k ≤ String.length s)%nat →
  s = substring 0 k s +:+ substring k (String.length s - k) s.
Proof.
  revert k. induction s as [| c s IH]; intros k Hk.
  - by destruct k.
  - destruct k as [| k].
    + rewrite Nat.sub_0_r, (substring_0_all (String c s) _ (le_n _)). reflexivity.
    + simpl in Hk. simpl String.length. simpl Nat.sub. simpl substring.
      rewrite append_cons. f_equal. apply IH. lia.
Qed.

Lemma HasSuffix_inv s suffix :
  HasSuffix s suffix = true → s = TrimSuffix s suffix +:+ suffix.
Proof.
  intros Hs. unfold TrimSuffix. rewrite Hs. unfold HasSuffix in Hs.
  apply andb_true_iff in Hs as [Hlen Heq].
  apply bool_decide_eq_true_1 in Hlen. apply String.eqb_eq in Heq.
  rewrite (substring_split s (String.length s - String.length suffix)) at 1 by lia.
  replace (String.length s - (String.length s - String.length suffix))%nat
    with (String.length suffix) by lia.
  by rewrite Heq.
Qed.

Lemma Contains_at_cons c s :
  Contains (String c s) "@" = Ascii.eqb "@" c || Contains s "@".
Proof.
  change (Contains (String c s) "@")
    with (String.prefix "@" (String c s) || Contains s "@").
  f_equal. cbn [String.prefix]. destruct (ascii_dec "@" c) as [<- | Hne].
  - by destruct s.
  - symmetry. by apply Ascii.eqb_neq.
Qed.

Lemma Contains_at_app a b :
  Contains (a +:+ b) "@" = Contains a "@" || Contains b "@".
Proof.
  induction a as [| c a IH].
  - simpl. by destruct b.
  - change (String c a +:+ b) with (String c (a +:+ b)).
    rewrite !Contains_at_cons, IH. by rewrite orb_assoc.
Qed.

Lemma Contains_at_TrimSuffix s suffix :
  Contains suffix "@" = false →
  Contains (TrimSuffix s suffix) "@" = Contains s "@".
Proof.
  intros Hsuf. destruct (HasSuffix s suffix) eqn:Hs.
  - rewrite (HasSuffix_inv s suffix Hs) at 2.
    by rewrite Contains_at_app, Hsuf, orb_false_r.
  - unfold TrimSuffix. by rewrite Hs.
Qed.

Lemma Contains_at_ReplaceAll s old :
  old ≠ "@"%char →
  Contains (ReplaceAll s old "-") "@" = Contains s "@".
Proof.
  intros Hold. induction s as [| c s IH]; [done |].
  simpl ReplaceAll. destruct (Ascii.eqb c old) eqn:Hc.
  - apply Ascii.eqb_eq in Hc as ->.
    change ("-" +:+ ReplaceAll s old "-") with (String "-" (ReplaceAll s old "-")).
    rewrite !Contains_at_cons, IH.
    rewrite (proj2 (Ascii.eqb_neq "@" old)) by done. done.
  - by rewrite !Contains_at_cons, IH.
Qed.

Lemma cleanSnapshotName_at name :
  Contains (storage.cleanSnapshotName name) "@" = Contains name "@".
Proof.
  unfold storage.cleanSnapshotName.
  rewrite !Contains_at_ReplaceAll by done.
  by rewrite !Contains_at_TrimSuffix by done.
Qed.

(** Cutting a versioned id at the first "@" gives back name and version. *)
Lemma Cut_versionedID name version :
  Contains name "@" = false →
  Cut (storage.versionedID name version) "@" = Some (name, version).
Proof.
  unfold storage.versionedID. induction name as [| c name IH]; intros Hname.
  - change ("" +:+ "@" +:+ version) with (String "@" version).
    assert (Hp : String.prefix "@" (String "@" version) = true) by (by destruct version).
    unfold Cut. rewrite Hp.
    change (substring (String.length "@") (String.length (String "@" version))
              (String "@" version))
      with (substring 0 (S (String.length version)) version).
    rewrite substring_0_all by lia. done.
  - rewrite Contains_at_cons in Hname. apply orb_false_iff in Hname as [Hc Hname].
    apply Ascii.eqb_neq in Hc.
    change (String c name +:+ "@" +:+ version)
      with (String c (name +:+ "@" +:+ version)).
    cbn [Cut String.prefix]. destruct (ascii_dec "@" c) as [? | _]; [done |].
    by rewrite (IH Hname).
Qed.

Lemma SplitN2_versionedID name version :
  Contains name "@" = false →
  SplitN2 (storage.versionedID name version) "@" = [name; version].
Proof. intros Hname. unfold SplitN2. by rewrite Cut_versionedID. Qed.

End StringFacts.

(** ** Strings and records that the JSON encoding leaves as they are *)

Section JsonFacts.
Import storage.

Lemma coerce_from_valid skip s :
  utf8.valid_from skip s = true → json.coerce_from skip s = s.
Proof.
  revert skip. induction s as [| b s IH]; intros skip Hvalid; [done |].
  simpl in *. destruct skip as [| k].
  - destruct (utf8.rune_size (String b s)); [done |]. by rewrite IH.
  - by rewrite IH.
Qed.

Lemma coerce_valid s : utf8.ValidString s = true → json.coerce s = s.
Proof. apply coerce_from_valid. Qed.

Lemma json_roundtrip_valid m : valid_metadata m = true → json_roundtrip m = m.
Proof.
  unfold valid_metadata, json_roundtrip. rewrite !andb_true_iff.
  intros [[[[[[[[H1 H2] H3] H4] H5] H6] H7] H8] H9].
  rewrite !coerce_valid by done. by destruct m.
Qed.

End JsonFacts.

(** ** C8: a failed [Store] on the filesystem backend *)

Section StoreFacts.
Import storage.

Lemma targz_ne_json id : id +:+ ".tar.gz" ≠ id +:+ ".json".
Proof. intros E. by apply (json_ne_targz id id). Qed.

Lemma LocalStorage_Store_failed flt (l : gmap string content) backup err l' :
  LocalStorage_Store flt l backup = (Some err, l') →
  remove_data_err flt = None → remove_meta_err flt = None →
  (∀ path, path ≠ b_ID backup +:+ ".tar.gz" → path ≠ b_ID backup +:+ ".json" →
     l' !! path = l !! path) ∧
  (create_data_err flt = None → l' !! (b_ID backup +:+ ".tar.gz") = None) ∧
  (l' !! (b_ID backup +:+ ".json") = None ∨
   l' !! (b_ID backup +:+ ".json") = l !! (b_ID backup +:+ ".json")).
Proof.
  intros Hstore Hrd Hrm. unfold LocalStorage_Store in Hstore.
  pose proof (targz_ne_json (b_ID backup)) as Hne.
  destruct (create_data_err flt) as [e0 |] eqn:Hcd.
  { simplify_eq. split_and!; [done | done | by right]. }
  destruct (copy_to_file flt (b_DataReader backup)) as [written copyErr].
  rewrite Hrd, Hrm in Hstore. unfold os_Remove in Hstore.
  destruct copyErr as [e1 |]; [| destruct (create_meta_err flt) as [e2 |];
    [| destruct (encode_err flt) as [e3 |]; [| discriminate]]];
    simplify_eq; split_and!.
  all: try (intros path Hp1 Hp2;
            by rewrite ?lookup_delete_ne, ?lookup_insert_ne by done).
  all: try (intros _; by rewrite ?lookup_delete_eq, ?lookup_delete_ne,
                               ?lookup_delete_eq by done).
  - right. by rewrite lookup_delete_ne, lookup_insert_ne by done.
  - right. by rewrite lookup_delete_ne, lookup_insert_ne by done.
  - left. by rewrite lookup_delete_eq.
Qed.

End StoreFacts.

(** C8 as it stands fails: when the id already holds a backup and the
    data stream of a second [Store] to it breaks off, the data file, which
    the call had truncated and rewritten, is removed and the metadata file
    of the earlier backup stays behind alone. *)
Lemma failed_Store_over_existing_counterexample :
  ¬ storage.failed_Store_never_leaves_one.
Proof.
  intros Hclaim.
  set (meta := storage.MkMetadata "b1@20240101-000000" "b1" "volume-snapshot" 3 1 ""
                 "v1" "" "" "" "20240101-000000" false).
  set (l0 := (storage.LocalStorage_Store storage.no_faults
                (∅ : gmap string storage.content)
                (storage.MkBackup "b1@20240101-000000" meta [Ret [1; 2; 3] None])).2).
  set (again := storage.MkBackup "b1@20240101-000000" meta
                  [Ret [4] (Some (ErrNew "connection reset"))]).
  destruct (storage.LocalStorage_Store storage.no_faults l0 again) as [res l1] eqn:Hstore.
  assert (Hres : res = Some (ErrWrap "failed to write backup data"
                               (ErrNew "connection reset")))
    by (by vm_compute in Hstore; simplify_eq).
  subst res. apply (Hclaim _ _ _ _ _ Hstore). right.
  assert (Hl1 : l1 = (storage.LocalStorage_Store storage.no_faults l0 again).2)
    by (by rewrite Hstore).
  unfold storage.data_present, storage.metadata_present. rewrite Hl1. split.
  - intros [c Hc]. vm_compute in Hc. discriminate Hc.
  - eexists. vm_compute. reflexivity.
Qed.

(** C8, amended.  When [Store] of the filesystem backend fails, in
    creating or writing the data file, in creating the metadata file or in
    encoding the metadata, and the removals it attempts succeed, then no
    file other than the two of its id has changed, the data file it had
    created is gone, and the metadata file is gone or as it was before the
    call.  For an id that had no file before the call the directory is
    then exactly as before: neither the data object nor the metadata
    object is present, and [Retrieve] reports that the backup is not
    found. *)
Theorem failed_Store_rolls_back (flt : storage.StoreFaults)
    (l : gmap string storage.content) (bk : storage.Backup) (err : error)
    (l' : gmap string storage.content) :
  storage.LocalStorage_Store flt l bk = (Some err, l') →
  storage.remove_data_err flt = None → storage.remove_meta_err flt = None →
  (∀ path, path ≠ storage.b_ID bk +:+ ".tar.gz" → path ≠ storage.b_ID bk +:+ ".json" →
     l' !! path = l !! path) ∧
  (storage.create_data_err flt = None → ¬ storage.data_present l' (storage.b_ID bk)) ∧
  (¬ storage.metadata_present l' (storage.b_ID bk) ∨
   l' !! (storage.b_ID bk +:+ ".json") = l !! (storage.b_ID bk +:+ ".json")) ∧
  (¬ storage.data_present l (storage.b_ID bk) →
   ¬ storage.metadata_present l (storage.b_ID bk) →
   l' = l ∧
   ¬ storage.data_present l' (storage.b_ID bk) ∧
   ¬ storage.metadata_present l' (storage.b_ID bk) ∧
   storage.LocalStorage_Retrieve l' (storage.b_ID bk) = inr (ErrNew "backup not found")).
Proof.
  intros Hstore Hrd Hrm.
  destruct (LocalStorage_Store_failed flt l bk err l' Hstore Hrd Hrm)
    as (Hother & Hdata & Hmeta).
  unfold storage.data_present, storage.metadata_present.
  split_and!.
  - exact Hother.
  - intros Hcd [c Hc]. rewrite Hdata in Hc by done. discriminate.
  - destruct Hmeta as [Hm | Hm]; [left | by right].
    intros [c Hc]. rewrite Hm in Hc. discriminate.
  - intros Hnd Hnm.
    assert (Hd0 : l !! (storage.b_ID bk +:+ ".tar.gz") = None)
      by (by apply eq_None_not_Some).
    assert (Hm0 : l !! (storage.b_ID bk +:+ ".json") = None)
      by (by apply eq_None_not_Some).
    assert (Heq : l' = l).
    { apply map_eq. intros path.
      destruct (decide (path = storage.b_ID bk +:+ ".tar.gz")) as [-> | Hp1].
      - rewrite Hd0. destruct (storage.create_data_err flt) eqn:Hcd.
        + unfold storage.LocalStorage_Store in Hstore. rewrite Hcd in Hstore.
          by simplify_eq.
        + by apply Hdata.
      - destruct (decide (path = storage.b_ID bk +:+ ".json")) as [-> | Hp2].
        + rewrite Hm0. destruct Hmeta as [Hm | Hm]; [done | by rewrite Hm].
        + by apply Hother. }
    subst l'. split_and!; [done | done | done |].
    unfold storage.LocalStorage_Retrieve. by rewrite Hm0.
Qed.

(** The statement at a [Store] to an empty directory whose data stream
    breaks off. *)
Lemma failed_Store_rolls_back_witness :
  (storage.LocalStorage_Store storage.no_faults (∅ : gmap string storage.content)
     (storage.MkBackup "b1@20240101-000000"
        (storage.MkMetadata "b1@20240101-000000" "b1" "volume-snapshot" 3 1 ""
           "v1" "" "" "" "20240101-000000" false)
        [Ret [4] (Some (ErrNew "connection reset"))])).2 = ∅.
Proof.
  refine (proj1 (proj2 (proj2 (proj2
    (failed_Store_rolls_back storage.no_faults ∅
       (storage.MkBackup "b1@20240101-000000"
          (storage.MkMetadata "b1@20240101-000000" "b1" "volume-snapshot" 3 1 ""
             "v1" "" "" "" "20240101-000000" false)
          [Ret [4] (Some (ErrNew "connection reset"))])
       (ErrWrap "failed to write backup data" (ErrNew "connection reset"))
       _ _ _ _))) _ _)).
  - vm_compute. reflexivity.
  - reflexivity.
  - reflexivity.
  - intros [c Hc]. vm_compute in Hc. discriminate Hc.
  - intros [c Hc]. vm_compute in Hc. discriminate Hc.
Defined.

(** ** The filesystem backend and the versions of a name *)

Section VersionFacts.
Import strings storage.

Lemma LocalStorage_List_omap (l : gmap string content) :
  LocalStorage_List l = inl (omap entry_metadata (os_ReadDir l)).
Proof.
  unfold LocalStorage_List. f_equal.
  assert (Hgen : ∀ entries acc,
    foldl (λ backups entry,
             if String.eqb (filepath.Ext entry.1) ".json" then
               match json_Decode entry.2 with
               | None => backups
               | Some metadata => backups ++ [metadata]
               end
             else backups) acc entries = acc ++ omap entry_metadata entries).
  { induction entries as [| entry entries IH]; intros acc; simpl.
    - by rewrite app_nil_r.
    - rewrite IH. unfold entry_metadata at 2.
      destruct (String.eqb _ _); [| done].
      destruct (json_Decode entry.2); [| done]. by rewrite <- app_assoc. }
  apply (Hgen _ []).
Qed.

Lemma ListVersions_omap {B : Type} `{Backend B} (s : B) name :
  ListVersions s name =
    match ListAll s with
    | inr err => inr err
    | inl backups => inl (omap (version_of (cleanSnapshotName name)) backups)
    end.
Proof.
  unfold ListVersions. destruct (ListAll s) as [backups | err]; [| done]. f_equal.
  set (n := cleanSnapshotName name).
  assert (Hgen : ∀ metas acc,
    foldl (λ versions backup,
             if HasPrefix (ID backup) (n +:+ "@") then
               match SplitN2 (ID backup) "@" with
               | [_; version] =>
                   versions ++
                   [MkVersionInfo version (Size backup) (CreatedAt backup)
                      (Description backup)]
               | _ => versions
               end
             else versions) acc metas = acc ++ omap (version_of n) metas).
  { induction metas as [| m metas IH]; intros acc; simpl.
    - by rewrite app_nil_r.
    - rewrite IH. unfold version_of at 2.
      destruct (HasPrefix _ _); [| done].
      destruct (SplitN2 (ID m) "@") as [| ? [| ? [| ? ?]]]; try done.
      by rewrite <- app_assoc. }
  apply (Hgen _ []).
Qed.

Lemma elem_of_os_ReadDir (l : gmap string content) f c :
  (f, c) ∈ os_ReadDir l ↔ l !! f = Some c.
Proof.
  unfold os_ReadDir. rewrite merge_sort_Permutation. apply elem_of_map_to_list.
Qed.

Lemma elem_of_local_list (l : gmap string content) m :
  m ∈ omap entry_metadata (os_ReadDir l) ↔
  ∃ f, l !! f = Some (Json m) ∧ filepath.Ext f = ".json".
Proof.
  rewrite list_elem_of_omap. split.
  - intros ([f c] & Hin & Hmeta). apply elem_of_os_ReadDir in Hin.
    unfold entry_metadata in Hmeta. simpl in Hmeta.
    destruct (String.eqb_spec (filepath.Ext f) ".json") as [Hext | ?]; [| done].
    destruct c as [bs | m']; simpl in Hmeta; [done |]. simplify_eq. eauto.
  - intros (f & Hf & Hext). exists (f, Json m). split.
    + by apply elem_of_os_ReadDir.
    + unfold entry_metadata. simpl. by rewrite Hext.
Qed.

Lemma wf_store_lookup (l : gmap string content) f m :
  wf_store l = true → l !! f = Some (Json m) →
  f = ID m +:+ ".json" ∧ is_Some (l !! (ID m +:+ ".tar.gz")).
Proof.
  intros Hwf Hf. unfold wf_store in Hwf.
  rewrite forallb_forall in Hwf.
  specialize (Hwf (f, Json m)). unfold wf_entry in Hwf. simpl in Hwf.
  assert (Hin : In (f, Json m) (map_to_list l)).
  { apply list_elem_of_In. by apply elem_of_map_to_list. }
  apply Hwf in Hin. apply andb_true_iff in Hin as [Hname Hdata].
  apply String.eqb_eq in Hname. by apply bool_decide_eq_true_1 in Hdata.
Qed.

Lemma version_of_Some n m v :
  Contains n "@" = false →
  version_of n m = Some v ↔
  ∃ ver, ID m = versionedID n ver ∧
         v = MkVersionInfo ver (Size m) (CreatedAt m) (Description m).
Proof.
  intros Hn. unfold version_of. split.
  - destruct (HasPrefix (ID m) (n +:+ "@")) eqn:Hp; [| done].
    apply HasPrefix_iff in Hp as [r Hr]. rewrite append_assoc in Hr.
    change (n +:+ "@" +:+ r) with (versionedID n r) in Hr.
    rewrite Hr, SplitN2_versionedID by done. intros ?. simplify_eq. eauto.
  - intros (ver & Hid & ->). rewrite Hid, SplitN2_versionedID by done.
    unfold versionedID. rewrite <- append_assoc.
    by rewrite (proj2 (HasPrefix_iff _ _)) by eauto.
Qed.

(** The loop of [GetLatestVersion] ends on a version of greatest
    creation time. *)
Lemma latest_fold (vs : list VersionInfo) (v0 : VersionInfo) :
  let latest :=
    foldl (λ latest v,
             if bool_decide (vi_CreatedAt latest < vi_CreatedAt v) then v else latest)
          v0 vs in
  (latest = v0 ∨ latest ∈ vs) ∧
  vi_CreatedAt v0 ≤ vi_CreatedAt latest ∧
  ∀ v, v ∈ vs → vi_CreatedAt v ≤ vi_CreatedAt latest.
Proof.
  revert v0. induction vs as [| v vs IH]; intros v0; simpl.
  - split; [by left |]. split; [lia |]. intros v Hv. by apply elem_of_nil in Hv.
  - case_bool_decide as Hlt.
    + destruct (IH v) as (Hin & Hge & Hall). split_and!.
      * right. destruct Hin as [-> | Hin]; [left | by right].
      * lia.
      * intros v' Hv'. apply elem_of_cons in Hv' as [-> | Hv']; [done | by apply Hall].
    + destruct (IH v0) as (Hin & Hge & Hall). split_and!.
      * destruct Hin as [-> | Hin]; [by left | right; by right].
      * done.
      * intros v' Hv'. apply elem_of_cons in Hv' as [-> | Hv']; [lia | by apply Hall].
Qed.

(** A listed version of a well-formed directory can be retrieved. *)
Lemma listed_version_retrievable (l : gmap string content) name v vs :
  wf_store l = true → Contains name "@" = false →
  ListVersions l name = inl vs → v ∈ vs →
  ∃ m d,
    ID m = versionedID (cleanSnapshotName name) (vi_Version v) ∧
    vi_CreatedAt v = CreatedAt m ∧
    l !! (ID m +:+ ".json") = Some (Json m) ∧
    l !! (ID m +:+ ".tar.gz") = Some d ∧
    LocalStorage_Retrieve l (ID m) =
      inl (MkBackup (ID m) m (bytes_NewReader (content_bytes d))).
Proof.
  intros Hwf Hname Hlist Hv.
  rewrite ListVersions_omap in Hlist.
  change (ListAll l) with (LocalStorage_List l) in Hlist.
  rewrite LocalStorage_List_omap in Hlist. simplify_eq.
  apply list_elem_of_omap in Hv as (m & Hm & Hver).
  apply elem_of_local_list in Hm as (f & Hf & Hext).
  destruct (wf_store_lookup l f m Hwf Hf) as [-> [d Hd]].
  apply version_of_Some in Hver as (ver & Hid & ->);
    [| by rewrite cleanSnapshotName_at].
  exists m, d. simpl. split_and!; try done.
  unfold LocalStorage_Retrieve. by rewrite Hf, Hd.
Qed.

(** [ListVersions] cleans the name it is given once more. *)
Lemma ListVersions_cleaned {B : Type} `{Backend B} (s : B) name :
  cleanSnapshotName (cleanSnapshotName name) = cleanSnapshotName name →
  ListVersions s (cleanSnapshotName name) = ListVersions s name.
Proof. intros Hstable. by rewrite !ListVersions_omap, Hstable. Qed.

(** For a name whose cleaned form is not changed by cleaning it again,
    [GetSnapshot] returns the stored backup of a version of that name
    whose creation time is the greatest among all its versions. *)
Lemma GetSnapshot_latest_of_stable_name (l : gmap string content) (name : string)
    (v0 : VersionInfo) (vs : list VersionInfo) :
  wf_store l = true →
  Contains name "@" = false →
  cleanSnapshotName (cleanSnapshotName name) = cleanSnapshotName name →
  ListVersions l name = inl (v0 :: vs) →
  ∃ bk latest,
    GetSnapshot l name = inl bk ∧
    latest ∈ v0 :: vs ∧
    b_ID bk = versionedID (cleanSnapshotName name) (vi_Version latest) ∧
    ID (b_Metadata bk) = b_ID bk ∧
    CreatedAt (b_Metadata bk) = vi_CreatedAt latest ∧
    l !! (b_ID bk +:+ ".json") = Some (Json (b_Metadata bk)) ∧
    (∀ v, v ∈ v0 :: vs → vi_CreatedAt v ≤ CreatedAt (b_Metadata bk)).
Proof.
  intros Hwf Hname Hstable Hlist.
  pose proof (latest_fold (v0 :: vs) v0) as Hlatest. simpl in Hlatest.
  set (latest := foldl _ _ _) in Hlatest.
  destruct Hlatest as (Hin & _ & Hmax).
  assert (Hlatest_in : latest ∈ v0 :: vs).
  { destruct Hin as [-> | Hin]; [by left | done]. }
  destruct (listed_version_retrievable l name latest (v0 :: vs) Hwf Hname Hlist
              Hlatest_in) as (m & d & Hid & Hcreated & Hm & Hd & Hret).
  exists (MkBackup (ID m) m (bytes_NewReader (content_bytes d))), latest.
  simpl. split_and!; try done.
  - unfold GetSnapshot, GetLatestVersion.
    rewrite cleanSnapshotName_at, Hname, ListVersions_cleaned, Hlist by done.
    simpl foldl. fold latest. cbv beta iota. rewrite <- Hid. exact Hret.
  - intros v Hv. rewrite <- Hcreated. by apply Hmax.
Qed.

(** With a versioned id, [GetSnapshot] retrieves the cleaned id. *)
Lemma GetSnapshot_versioned {B : Type} `{Backend B} (s : B) key :
  Contains key "@" = true →
  GetSnapshot s key = Retrieve s (cleanSnapshotName key).
Proof. intros Hkey. unfold GetSnapshot. by rewrite cleanSnapshotName_at, Hkey. Qed.

End VersionFacts.


(** ** C6: [GetSnapshot] *)

(** C6 at a name with a doubled archive extension.  [StoreSnapshot]
    stores "a.zip.zip" under the cleaned name "a.zip" and [ListVersions]
    of "a.zip.zip" lists that version; [GetSnapshot] of "a.zip.zip" cleans
    the name to "a.zip" and passes it to [GetLatestVersion], where
    [ListVersions] cleans it a second time, to "a", finds no version and
    reports that none exists: the one stored version is not retrieved.
    For names whose cleaned form is stable under cleaning the latest
    version by creation time is retrieved
    ([GetSnapshot_latest_of_stable_name]). *)
Theorem GetSnapshot_doubled_extension :
  let stored :=
    storage.StoreSnapshot (∅ : gmap string storage.content) "a.zip.zip"
      (storage.MkBackup "" (storage.MkMetadata "" "" "" 3 0 "" "v1" "" "" "" "" false)
         [Ret [1; 2; 3] None])
      "20240101-000000" 100 in
  stored.1 = None ∧
  storage.wf_store stored.2 = true ∧
  strings.Contains "a.zip.zip" "@" = false ∧
  storage.ListVersions stored.2 "a.zip.zip" =
    inl [storage.MkVersionInfo "20240101-000000" 3 100 ""] ∧
  storage.GetSnapshot stored.2 "a.zip.zip" =
    inr (ErrNew "no versions found for snapshot") ∧
  storage.cleanSnapshotName "a.zip.zip" = "a.zip" ∧
  storage.cleanSnapshotName "a.zip" = "a".
Proof. vm_compute. repeat split; reflexivity. Qed.

(** The latest version is chosen by creation time, not by token: of two
    backups of "b1", the one created later carries the smaller token (the
    clock went back in between) and is the one [GetSnapshot] returns. *)
Example GetSnapshot_latest_not_lexical :
  let bk := storage.MkBackup ""
              (storage.MkMetadata "" "" "" 3 0 "" "v1" "" "" "" "" false)
              [Ret [1; 2; 3] None] in
  let l1 := (storage.StoreSnapshot (∅ : gmap string storage.content) "b1" bk
               "20241027-013000" 100).2 in
  let l2 := (storage.StoreSnapshot l1 "b1" bk "20241027-011000" 200).2 in
  match storage.GetSnapshot l2 "b1" with
  | inl found => storage.b_ID found = "b1@20241027-011000"
  | inr _ => False
  end ∧
  String.ltb "20241027-011000" "20241027-013000" = true.
Proof. vm_compute. split; reflexivity. Qed.

(** ** C7: [DeleteSnapshot] *)

Section DeleteFacts.
Import strings storage.

Lemma delete_versions_local (n : string) (vs : list VersionInfo) :
  ∀ l : gmap string content,
  ∃ l' : gmap string content,
    delete_versions l n vs = (None, l') ∧
    (∀ v, v ∈ vs →
       l' !! (versionedID n (vi_Version v) +:+ ".json") = None ∧
       l' !! (versionedID n (vi_Version v) +:+ ".tar.gz") = None) ∧
    (∀ path, l' !! path = None ∨ l' !! path = l !! path) ∧
    (∀ path,
       (∀ v, v ∈ vs →
          path ≠ versionedID n (vi_Version v) +:+ ".json" ∧
          path ≠ versionedID n (vi_Version v) +:+ ".tar.gz") →
       l' !! path = l !! path).
Proof.
  induction vs as [| v vs IH]; intros l.
  - exists l. split_and!; try done.
    + intros v Hv. by apply elem_of_nil in Hv.
    + by right.
  - cbn [delete_versions].
    change (Delete l ?id) with (LocalStorage_Delete no_delete_faults l id).
    unfold LocalStorage_Delete. cbn [delete_data_err delete_meta_err no_delete_faults].
    set (l1 := delete (versionedID n (vi_Version v) +:+ ".json")
                 (delete (versionedID n (vi_Version v) +:+ ".tar.gz") l)).
    destruct (IH l1) as (l' & Hdel & Hgone & Hsub & Hother).
    assert (Hsub1 : ∀ path, l1 !! path = None ∨ l1 !! path = l !! path).
    { intros path. unfold l1.
      destruct (decide (path = versionedID n (vi_Version v) +:+ ".json")) as [-> | ?];
        [left; apply lookup_delete_eq |].
      rewrite lookup_delete_ne by done.
      destruct (decide (path = versionedID n (vi_Version v) +:+ ".tar.gz")) as [-> | ?];
        [left; apply lookup_delete_eq |].
      right. by rewrite lookup_delete_ne. }
    exists l'. split_and!.
    + exact Hdel.
    + intros v' Hv'. apply elem_of_cons in Hv' as [-> | Hv']; [| by apply Hgone].
      split.
      * destruct (Hsub (versionedID n (vi_Version v) +:+ ".json")) as [? | Heq];
          [done |]. rewrite Heq. unfold l1. apply lookup_delete_eq.
      * destruct (Hsub (versionedID n (vi_Version v) +:+ ".tar.gz")) as [? | Heq];
          [done |]. rewrite Heq. unfold l1.
        rewrite lookup_delete_ne by apply json_ne_targz. apply lookup_delete_eq.
    + intros path. destruct (Hsub path) as [? | Heq]; [by left |].
      rewrite Heq. apply Hsub1.
    + intros path Hpath. rewrite Hother.
      * destruct (Hpath v) as [? ?]; [by left |].
        unfold l1. by rewrite !lookup_delete_ne.
      * intros v' Hv'. apply Hpath. by right.
Qed.

(** For a bare name whose cleaned form is stable under cleaning,
    [DeleteSnapshot] removes the files of every listed version, so that
    [ListVersions] of the name is empty afterwards, and leaves every other
    file; with no listed version it fails and changes nothing. *)
Lemma DeleteSnapshot_of_stable_name (l : gmap string content) (name : string)
    (vs : list VersionInfo) :
  wf_store l = true →
  Contains name "@" = false →
  cleanSnapshotName (cleanSnapshotName name) = cleanSnapshotName name →
  ListVersions l name = inl vs →
  (vs = [] →
   DeleteSnapshot l name = (Some (ErrNew "no snapshots found with name"), l)) ∧
  (vs ≠ [] →
   ∃ l' : gmap string content,
     DeleteSnapshot l name = (None, l') ∧
     ListVersions l' name = inl [] ∧
     (∀ v, v ∈ vs →
        l' !! (versionedID (cleanSnapshotName name) (vi_Version v) +:+ ".json") = None ∧
        l' !! (versionedID (cleanSnapshotName name) (vi_Version v) +:+ ".tar.gz") = None) ∧
     (∀ path,
        (∀ v, v ∈ vs →
           path ≠ versionedID (cleanSnapshotName name) (vi_Version v) +:+ ".json" ∧
           path ≠ versionedID (cleanSnapshotName name) (vi_Version v) +:+ ".tar.gz") →
        l' !! path = l !! path)).
Proof.
  intros Hwf Hname Hstable Hlist.
  assert (Hhead : DeleteSnapshot l name =
                  match vs with
                  | [] => (Some (ErrNew "no snapshots found with name"), l)
                  | _ => delete_versions l (cleanSnapshotName name) vs
                  end).
  { unfold DeleteSnapshot.
    rewrite cleanSnapshotName_at, Hname, ListVersions_cleaned, Hlist by done.
    by destruct vs. }
  split.
  - intros ->. exact Hhead.
  - intros Hne.
    destruct (delete_versions_local (cleanSnapshotName name) vs l)
      as (l' & Hdel & Hgone & Hsub & Hother).
    exists l'. split_and!; try done.
    + rewrite Hhead, <- Hdel. by destruct vs.
    + rewrite ListVersions_omap.
      change (ListAll l') with (LocalStorage_List l').
      rewrite LocalStorage_List_omap. f_equal.
      apply elem_of_nil_inv. intros v Hv.
      apply list_elem_of_omap in Hv as (m & Hm & Hver).
      apply elem_of_local_list in Hm as (f & Hf' & Hext).
      assert (Hf : l !! f = Some (Json m)).
      { destruct (Hsub f) as [Hnone | Heq]; [by rewrite Hnone in Hf' | by rewrite <- Heq]. }
      destruct (wf_store_lookup l f m Hwf Hf) as [-> _].
      assert (Hv : v ∈ vs).
      { rewrite ListVersions_omap in Hlist.
        change (ListAll l) with (LocalStorage_List l) in Hlist.
        rewrite LocalStorage_List_omap in Hlist. simplify_eq.
        apply list_elem_of_omap. exists m. split; [| done].
        apply elem_of_local_list. eauto. }
      apply version_of_Some in Hver as (ver & Hid & ->);
        [| by rewrite cleanSnapshotName_at].
      destruct (Hgone _ Hv) as [Hgone_json _]. simpl in Hgone_json.
      rewrite <- Hid, Hf' in Hgone_json. discriminate.
Qed.

(** With a versioned id, [DeleteSnapshot] removes the two files of the
    cleaned id and nothing else. *)
Lemma DeleteSnapshot_versioned (l : gmap string content) (key : string) :
  Contains key "@" = true →
  DeleteSnapshot l key =
    (None, delete (cleanSnapshotName key +:+ ".json")
             (delete (cleanSnapshotName key +:+ ".tar.gz") l)).
Proof. intros Hkey. unfold DeleteSnapshot. by rewrite cleanSnapshotName_at, Hkey. Qed.

End DeleteFacts.

(** C7 at a name with a doubled archive extension.  The directory holds
    one version of "a.zip.zip" (stored under "a.zip") and one version of
    "a".  [DeleteSnapshot] of "a.zip.zip" cleans the name to "a.zip" and
    lists its versions with [ListVersions], which cleans the name a second
    time and lists the versions of "a"; it then deletes the id made of
    "a.zip" and the version token of "a", which does not exist, and
    returns without error: nothing is removed and [ListVersions] of
    "a.zip.zip" still lists its version.  With the version of "a" absent,
    the call reports that no snapshot was found although one version of
    "a.zip.zip" is stored.  For names whose cleaned form is stable under
    cleaning all versions are removed
    ([DeleteSnapshot_of_stable_name]). *)
Theorem DeleteSnapshot_doubled_extension :
  let bk := storage.MkBackup ""
              (storage.MkMetadata "" "" "" 3 0 "" "v1" "" "" "" "" false)
              [Ret [1; 2; 3] None] in
  let l1 := (storage.StoreSnapshot (∅ : gmap string storage.content) "a.zip.zip" bk
               "20240101-000000" 100).2 in
  let l2 := (storage.StoreSnapshot l1 "a" bk "20240202-000000" 200).2 in
  storage.wf_store l2 = true ∧
  storage.ListVersions l2 "a.zip.zip" =
    inl [storage.MkVersionInfo "20240101-000000" 3 100 ""] ∧
  storage.DeleteSnapshot l2 "a.zip.zip" = (None, l2) ∧
  storage.ListVersions (storage.DeleteSnapshot l2 "a.zip.zip").2 "a.zip.zip" =
    inl [storage.MkVersionInfo "20240101-000000" 3 100 ""] ∧
  storage.ListVersions l1 "a.zip.zip" =
    inl [storage.MkVersionInfo "20240101-000000" 3 100 ""] ∧
  storage.DeleteSnapshot l1 "a.zip.zip" =
    (Some (ErrNew "no snapshots found with name"), l1).
Proof. vm_compute. repeat split; reflexivity. Qed.

(** ** C9: the order of [ListVersions] *)

Section OrderFacts.
Import strings storage.

Lemma string_compare_refl s : String.compare s s = Eq.
Proof.
  induction s as [| c s IH]; [done |]. simpl.
  unfold Ascii.compare. by rewrite N.compare_refl.
Qed.

Lemma string_compare_app_l p a b :
  String.compare (p +:+ a) (p +:+ b) = String.compare a b.
Proof.
  induction p as [| c p IH]; [done |]. rewrite !append_cons. simpl.
  unfold Ascii.compare. by rewrite N.compare_refl.
Qed.

Lemma string_compare_app_r a b s :
  String.length a = String.length b →
  String.compare (a +:+ s) (b +:+ s) = String.compare a b.
Proof.
  revert b. induction a as [| c a IH]; intros [| d b] Hlen; try discriminate Hlen.
  - apply string_compare_refl.
  - rewrite !append_cons. simpl. rewrite IH by (simpl in Hlen; lia). done.
Qed.

Lemma String_le_app_l p a b : String.le (p +:+ a) (p +:+ b) ↔ String.le a b.
Proof. unfold String.le, String.leb. by rewrite string_compare_app_l. Qed.

Lemma String_le_app_r a b s :
  String.length a = String.length b →
  String.le (a +:+ s) (b +:+ s) ↔ String.le a b.
Proof. intros Hlen. unfold String.le, String.leb. by rewrite string_compare_app_r. Qed.

Global Instance name_le_trans : Transitive name_le.
Proof. intros a b c. unfold name_le. apply transitivity. Qed.

Global Instance name_le_total : Total name_le.
Proof. intros a b. unfold name_le. apply total, _. Qed.

Lemma os_ReadDir_sorted (l : gmap string content) : StronglySorted name_le (os_ReadDir l).
Proof. unfold os_ReadDir. apply StronglySorted_merge_sort; apply _. Qed.

(** Filtering and projecting a sorted list keeps it sorted. *)
Lemma StronglySorted_omap {A C : Type} (R : relation A) (R' : relation C)
    (f : A → option C) (xs : list A) :
  (∀ x y x' y', x ∈ xs → y ∈ xs → f x = Some x' → f y = Some y' → R x y → R' x' y') →
  StronglySorted R xs → StronglySorted R' (omap f xs).
Proof.
  intros Hmono Hsorted. induction Hsorted as [| x xs Hsorted IH Hall]; simpl.
  - constructor.
  - assert (IH' : StronglySorted R' (omap f xs)).
    { apply IH. intros a b a' b' Ha Hb. apply Hmono; by right. }
    destruct (f x) as [x' |] eqn:Hx; [| done].
    constructor; [done |].
    apply Forall_forall. intros y' Hy'.
    apply list_elem_of_omap in Hy' as (y & Hy & Hfy).
    apply (Hmono x y); [by left | by right | done | done |].
    rewrite Forall_forall in Hall. by apply Hall.
Qed.

Lemma StronglySorted_weaken {A : Type} (R R' : relation A) (xs : list A) :
  (∀ x y, x ∈ xs → y ∈ xs → R x y → R' x y) →
  StronglySorted R xs → StronglySorted R' xs.
Proof.
  intros Himpl Hsorted. induction Hsorted as [| x xs Hsorted IH Hall].
  - constructor.
  - constructor.
    + apply IH. intros a b Ha Hb. apply Himpl; by right.
    + apply Forall_forall. intros y Hy. rewrite Forall_forall in Hall.
      apply Himpl; [by left | by right | by apply Hall].
Qed.

(** The filesystem backend lists the metadata in ascending order of the
    metadata file names. *)
Lemma LocalStorage_List_sorted (l : gmap string content) :
  wf_store l = true →
  StronglySorted (λ m1 m2, String.le (ID m1 +:+ ".json") (ID m2 +:+ ".json"))
    (omap entry_metadata (os_ReadDir l)).
Proof.
  intros Hwf. apply (StronglySorted_omap name_le); [| apply os_ReadDir_sorted].
  intros [f1 c1] [f2 c2] m1 m2 H1 H2 Hm1 Hm2 Hle.
  apply elem_of_os_ReadDir in H1, H2. unfold entry_metadata in Hm1, Hm2. simpl in *.
  destruct (String.eqb _ _); [| done]. destruct (String.eqb _ _); [| done].
  destruct c1 as [| m1']; [done |]. destruct c2 as [| m2']; [done |].
  simpl in *. simplify_eq.
  destruct (wf_store_lookup l f1 m1 Hwf H1) as [-> _].
  destruct (wf_store_lookup l f2 m2 Hwf H2) as [-> _].
  exact Hle.
Qed.

End OrderFacts.




(** ** The restore path and the chunk boundaries *)

(** [RestoreDirectVolume] reads up to 512 bytes to look for the magic tag
    and puts them back in front of the rest with [io.MultiReader]; the
    [DecryptReader] then receives, as its first chunk, what is left of
    those 512 bytes after the header.  Evaluated with the reference
    primitives on a stored backup of 500 plaintext bytes (569 bytes with
    header and tag): the codec decrypts the stored bytes when it reads
    them flat, and the restore ends with "decryption failed". *)
Remark RestoreDirectVolume_splits_first_chunk :
  let plain := replicate 500 7 in
  let rand := bytes_NewReader (replicate 44 9) in
  ∃ stored : list Z,
    crypto.encrypt_pipe 8 (32 * 1024) (bytes_NewReader plain) "pw" rand =
      Some (stored, None) ∧
    length stored = 569%nat ∧
    crypto.decrypt_pipe 8 (32 * 1024) (bytes_NewReader stored) "pw" = Some (plain, None) ∧
    backup.RestoreDirectVolume 8
      (Some (storage.StoreSnapshot (∅ : gmap string storage.content) "b2"
               (storage.MkBackup ""
                  (storage.MkMetadata "" "" "" 569 0 "" "v1" "" "" "" "" true)
                  (bytes_NewReader stored)) "20240101-000000" 1).2)
      (backup.MkEnv (inl true) (inl (backup.MkVolumeInfo "v2" "" "" 0 "local" ""))
         (inl "y") None "pw" "" None (λ _, None))
      "v2" "b2" false true (32 * 1024) =
    Some (backup.CopyFailed []
            (ErrWrap "failed to write backup data"
               (ErrWrap "decryption failed" ErrOpen))).
Proof.
  eexists. split; [vm_compute; reflexivity |]. split; [vm_compute; reflexivity |].
  split; vm_compute; reflexivity.
Qed.
(** ** The filesystem backend: store, retrieve, delete *)

Section LocalFacts.
Import strings storage.

Lemma json_inj a b : a +:+ ".json" = b +:+ ".json" → a = b.
Proof. apply append_inj_r. Qed.

Lemma targz_inj a b : a +:+ ".tar.gz" = b +:+ ".tar.gz" → a = b.
Proof. apply append_inj_r. Qed.

(** [Store] touches the two files of its id only. *)
Lemma LocalStorage_Store_frame flt (l : gmap string content) backup err l' path :
  LocalStorage_Store flt l backup = (err, l') →
  path ≠ b_ID backup +:+ ".tar.gz" → path ≠ b_ID backup +:+ ".json" →
  l' !! path = l !! path.
Proof.
  intros Hstore Hp1 Hp2. unfold LocalStorage_Store in Hstore.
  destruct (create_data_err flt); [by simplify_eq |].
  destruct (copy_to_file flt (b_DataReader backup)) as [written copyErr].
  unfold os_Remove in Hstore.
  destruct copyErr; [| destruct (create_meta_err flt); [| destruct (encode_err flt)]];
    destruct (remove_data_err flt); destruct (remove_meta_err flt); simplify_eq;
    by rewrite ?lookup_delete_ne, ?lookup_insert_ne by done.
Qed.

(** What a [Store] that returns [nil] leaves in the two files. *)
Lemma LocalStorage_Store_ok flt (l : gmap string content) backup l' :
  LocalStorage_Store flt l backup = (None, l') →
  (read_all (b_DataReader backup)).2 = None ∧
  l' !! (b_ID backup +:+ ".json") = Some (Json (json_roundtrip (b_Metadata backup))) ∧
  l' !! (b_ID backup +:+ ".tar.gz") = Some (Bytes (read_all (b_DataReader backup)).1).
Proof.
  intros Hstore. unfold LocalStorage_Store, copy_to_file in Hstore.
  pose proof (targz_ne_json (b_ID backup)) as Hne.
  destruct (create_data_err flt); [discriminate |].
  destruct (write_data_err flt); [discriminate |].
  destruct (read_all (b_DataReader backup)) as [written copyErr].
  destruct copyErr; [discriminate |].
  destruct (create_meta_err flt); [discriminate |].
  destruct (encode_err flt); [discriminate |]. simplify_eq. simpl.
  split; [done |]. split.
  - by rewrite lookup_insert_eq.
  - by rewrite !lookup_insert_ne, lookup_insert_eq by done.
Qed.

(** When none of its system calls fails, [Store] returns [nil] if the data
    reader ends without an error. *)
Lemma LocalStorage_Store_succeeds flt (l : gmap string content) backup :
  create_data_err flt = None → write_data_err flt = None →
  create_meta_err flt = None → encode_err flt = None →
  (read_all (b_DataReader backup)).2 = None →
  ∃ l', LocalStorage_Store flt l backup = (None, l').
Proof.
  intros H1 H2 H3 H4 Hread. unfold LocalStorage_Store, copy_to_file.
  rewrite H1, H2, H3, H4.
  destruct (read_all (b_DataReader backup)) as [written copyErr]. simpl in Hread.
  subst copyErr. by eexists.
Qed.

Lemma LocalStorage_Store_no_faults (l : gmap string content) backup :
  (read_all (b_DataReader backup)).2 = None →
  ∃ l', LocalStorage_Store no_faults l backup = (None, l').
Proof. by apply LocalStorage_Store_succeeds. Qed.

(** [Delete] touches the two files of its id only. *)
Lemma LocalStorage_Delete_frame dflt (l : gmap string content) id err l' path :
  LocalStorage_Delete dflt l id = (err, l') →
  path ≠ id +:+ ".tar.gz" → path ≠ id +:+ ".json" →
  l' !! path = l !! path.
Proof.
  intros Hdel H1 H2. unfold LocalStorage_Delete in Hdel.
  destruct (delete_data_err dflt); [by simplify_eq |].
  destruct (delete_meta_err dflt); simplify_eq;
    by rewrite ?lookup_delete_ne by done.
Qed.

(** A [Delete] that returns [nil] has removed both files. *)
Lemma LocalStorage_Delete_ok dflt (l : gmap string content) id l' :
  LocalStorage_Delete dflt l id = (None, l') →
  l' = delete (id +:+ ".json") (delete (id +:+ ".tar.gz") l).
Proof.
  unfold LocalStorage_Delete. intros Hdel.
  destruct (delete_data_err dflt); [discriminate |].
  destruct (delete_meta_err dflt); [discriminate |]. by simplify_eq.
Qed.

Lemma LocalStorage_Retrieve_other (l l' : gmap string content) id :
  l' !! (id +:+ ".json") = l !! (id +:+ ".json") →
  l' !! (id +:+ ".tar.gz") = l !! (id +:+ ".tar.gz") →
  LocalStorage_Retrieve l' id = LocalStorage_Retrieve l id ∧
  LocalStorage_Exists l' id = LocalStorage_Exists l id.
Proof.
  intros Hj Hd. unfold LocalStorage_Retrieve, LocalStorage_Exists. by rewrite Hj, Hd.
Qed.

Lemma other_id_paths id id' :
  id' ≠ id →
  id' +:+ ".json" ≠ id +:+ ".tar.gz" ∧ id' +:+ ".json" ≠ id +:+ ".json" ∧
  id' +:+ ".tar.gz" ≠ id +:+ ".tar.gz" ∧ id' +:+ ".tar.gz" ≠ id +:+ ".json".
Proof.
  intros Hne. split_and!.
  - apply json_ne_targz.
  - intros E. by apply json_inj in E.
  - intros E. by apply targz_inj in E.
  - intros E. symmetry in E. by apply json_ne_targz in E.
Qed.

(** The well-formedness test, as a statement about the files. *)
Lemma wf_store_iff (l : gmap string content) :
  wf_store l = true ↔
  ∀ f m, l !! f = Some (Json m) →
    f = ID m +:+ ".json" ∧ is_Some (l !! (ID m +:+ ".tar.gz")).
Proof.
  unfold wf_store. rewrite forallb_forall. split.
  - intros Hall f m Hf.
    specialize (Hall (f, Json m)). unfold wf_entry in Hall. simpl in Hall.
    assert (Hin : In (f, Json m) (map_to_list l)).
    { apply list_elem_of_In. by apply elem_of_map_to_list. }
    apply Hall in Hin. apply andb_true_iff in Hin as [Hname Hdata].
    apply String.eqb_eq in Hname. by apply bool_decide_eq_true in Hdata.
  - intros Hall [f c] Hin. apply list_elem_of_In, elem_of_map_to_list in Hin.
    unfold wf_entry. simpl. destruct c as [bs | m]; [done |].
    destruct (Hall f m Hin) as [-> Hdata].
    apply andb_true_iff. split; [apply String.eqb_refl | by apply bool_decide_eq_true].
Qed.

Lemma wf_store_insert (l : gmap string content) backup l' flt :
  wf_store l = true →
  json.coerce (ID (b_Metadata backup)) = b_ID backup →
  LocalStorage_Store flt l backup = (None, l') →
  wf_store l' = true.
Proof.
  intros Hwf Hid Hstore. apply wf_store_iff. intros f m Hf.
  destruct (LocalStorage_Store_ok flt l backup l' Hstore) as (_ & Hmeta & Hdata).
  destruct (decide (f = b_ID backup +:+ ".json")) as [-> | Hf1].
  { rewrite Hmeta in Hf. simplify_eq. simpl. rewrite Hid. split; [done |].
    by rewrite Hdata. }
  destruct (decide (f = b_ID backup +:+ ".tar.gz")) as [-> | Hf2].
  { rewrite Hdata in Hf. discriminate. }
  rewrite (LocalStorage_Store_frame _ _ _ _ _ _ Hstore) in Hf by done.
  destruct (proj1 (wf_store_iff l) Hwf f m Hf) as [-> Hd]. split; [done |].
  destruct (decide (ID m +:+ ".tar.gz" = b_ID backup +:+ ".tar.gz")) as [E | Hne].
  - rewrite E. by rewrite Hdata.
  - rewrite (LocalStorage_Store_frame _ _ _ _ _ _ Hstore); [done | done |].
    intros E. symmetry in E. by apply json_ne_targz in E.
Qed.

End LocalFacts.

(** X1.  Whenever [Store] of the filesystem backend returns [nil], the
    data reader has ended without an error, and [Retrieve] of the same id
    returns a reader over exactly the bytes the data reader delivered
    ([io.Copy] from it, with any buffer, transfers these bytes and ends
    without error) together with the metadata as the JSON encoding keeps
    it: every string coerced to valid UTF-8, so the metadata that was
    stored when all its strings are valid UTF-8.  [Exists] then reports
    the id, and when the id names an entry of the base directory [List]
    includes that metadata. *)
Theorem LocalStorage_Store_then_Retrieve (flt : storage.StoreFaults)
    (l l' : gmap string storage.content) (bk : storage.Backup) :
  storage.LocalStorage_Store flt l bk = (None, l') →
  ∃ data,
    storage.read_all (storage.b_DataReader bk) = (data, None) ∧
    storage.LocalStorage_Retrieve l' (storage.b_ID bk) =
      inl (storage.MkBackup (storage.b_ID bk)
             (storage.json_roundtrip (storage.b_Metadata bk))
             (bytes_NewReader data)) ∧
    (storage.valid_metadata (storage.b_Metadata bk) = true →
     storage.LocalStorage_Retrieve l' (storage.b_ID bk) =
       inl (storage.MkBackup (storage.b_ID bk) (storage.b_Metadata bk)
              (bytes_NewReader data))) ∧
    (∀ plen, (0 < plen)%nat → io_Copy_returns Read (bytes_NewReader data) plen data None) ∧
    storage.LocalStorage_Exists l' (storage.b_ID bk) = inl true ∧
    (filepath.names_entry (storage.b_ID bk) = true →
     ∃ listed, storage.LocalStorage_List l' = inl listed ∧
               storage.json_roundtrip (storage.b_Metadata bk) ∈ listed).
Proof.
  intros Hstore.
  destruct (LocalStorage_Store_ok flt l bk l' Hstore) as (Herr & Hmeta & Hdata).
  destruct (storage.read_all (storage.b_DataReader bk)) as [data e] eqn:Hread.
  simpl in Herr, Hdata. subst e. exists data.
  assert (Hget : storage.LocalStorage_Retrieve l' (storage.b_ID bk) =
                 inl (storage.MkBackup (storage.b_ID bk)
                        (storage.json_roundtrip (storage.b_Metadata bk))
                        (bytes_NewReader data))).
  { unfold storage.LocalStorage_Retrieve. by rewrite Hmeta, Hdata. }
  split_and!.
  - done.
  - exact Hget.
  - intros Hvalid. by rewrite Hget, json_roundtrip_valid.
  - intros plen Hplen.
    pose proof (io_Copy_Read_read_all plen (bytes_NewReader data) Hplen) as Hcopy.
    destruct data as [| b data]; [exact Hcopy |].
    simpl in Hcopy. by rewrite app_nil_r in Hcopy.
  - unfold storage.LocalStorage_Exists. by rewrite Hmeta.
  - intros _. eexists. split; [apply LocalStorage_List_omap |].
    apply elem_of_local_list. exists (storage.b_ID bk +:+ ".json").
    split; [done | apply Ext_json].
Qed.

(** The statement at a backup of three bytes delivered in two pieces,
    whose description holds the byte FF, which is not valid UTF-8: it
    comes back as the three bytes of U+FFFD. *)
Lemma LocalStorage_Store_then_Retrieve_witness :
  ∃ data,
    storage.read_all [Ret [1; 2] None; Ret [3] (Some EOF)] = (data, None) ∧
    storage.LocalStorage_Retrieve
      (storage.LocalStorage_Store storage.no_faults ∅
         (storage.MkBackup "b1"
            (storage.MkMetadata "b1" "b1" "t" 3 0 "" "" "" ""
               (String (ascii_of_N 255) EmptyString) "" false)
            [Ret [1; 2] None; Ret [3] (Some EOF)])).2 "b1" =
      inl (storage.MkBackup "b1"
             (storage.MkMetadata "b1" "b1" "t" 3 0 "" "" "" "" json.replacement "" false)
             (bytes_NewReader data)).
Proof.
  destruct (LocalStorage_Store_then_Retrieve storage.no_faults ∅
              (storage.LocalStorage_Store storage.no_faults ∅
                 (storage.MkBackup "b1"
                    (storage.MkMetadata "b1" "b1" "t" 3 0 "" "" "" ""
                       (String (ascii_of_N 255) EmptyString) "" false)
                    [Ret [1; 2] None; Ret [3] (Some EOF)])).2
              (storage.MkBackup "b1"
                 (storage.MkMetadata "b1" "b1" "t" 3 0 "" "" "" ""
                    (String (ascii_of_N 255) EmptyString) "" false)
                 [Ret [1; 2] None; Ret [3] (Some EOF)]))
    as (data & Hread & Hret & _).
  - reflexivity.
  - exists data. split; [exact Hread | exact Hret].
Defined.

(** X2.  [Store] and [Delete] of the filesystem backend change nothing
    for any other id, among the ids that name an entry of the base
    directory (not empty, not "." or "..", without a separator): whatever
    they return, also when a system call fails, [Retrieve] and [Exists]
    of such an id other than the one they were called with answer as
    before. *)
Theorem LocalStorage_other_ids_untouched (flt : storage.StoreFaults)
    (dflt : storage.DeleteFaults) (l : gmap string storage.content)
    (bk : storage.Backup) (id id' : string) :
  filepath.names_entry id' = true →
  (filepath.names_entry (storage.b_ID bk) = true → id' ≠ storage.b_ID bk →
   storage.LocalStorage_Retrieve (storage.LocalStorage_Store flt l bk).2 id' =
     storage.LocalStorage_Retrieve l id' ∧
   storage.LocalStorage_Exists (storage.LocalStorage_Store flt l bk).2 id' =
     storage.LocalStorage_Exists l id') ∧
  (filepath.names_entry id = true → id' ≠ id →
   storage.LocalStorage_Retrieve (storage.LocalStorage_Delete dflt l id).2 id' =
     storage.LocalStorage_Retrieve l id' ∧
   storage.LocalStorage_Exists (storage.LocalStorage_Delete dflt l id).2 id' =
     storage.LocalStorage_Exists l id').
Proof.
  intros _. split; intros _ Hne.
  - destruct (other_id_paths _ _ Hne) as (H1 & H2 & H3 & H4).
    destruct (storage.LocalStorage_Store flt l bk) as [err l'] eqn:Hstore. simpl.
    apply LocalStorage_Retrieve_other;
      by apply (LocalStorage_Store_frame _ _ _ _ _ _ Hstore).
  - destruct (other_id_paths _ _ Hne) as (H1 & H2 & H3 & H4).
    destruct (storage.LocalStorage_Delete dflt l id) as [err l'] eqn:Hdel. simpl.
    apply LocalStorage_Retrieve_other;
      by apply (LocalStorage_Delete_frame _ _ _ _ _ _ Hdel).
Qed.

(** The statement at a directory that holds the backup "a": a [Store] of
    "b" whose metadata file cannot be created, and a [Delete] of "b". *)
Lemma LocalStorage_other_ids_untouched_witness :
  storage.LocalStorage_Exists
    (storage.LocalStorage_Store
       (storage.MkFaults None None (Some (ErrNew "disk full")) None None None)
       (<["a.json" := storage.Json
            (storage.MkMetadata "a" "a" "t" 1 0 "" "" "" "" "" "" false)]>
          (<["a.tar.gz" := storage.Bytes [9]]> ∅))
       (storage.MkBackup "b"
          (storage.MkMetadata "b" "b" "t" 3 0 "" "" "" "" "" "" false)
          [Ret [1; 2; 3] None])).2 "a" = inl true ∧
  storage.LocalStorage_Exists
    (storage.LocalStorage_Delete storage.no_delete_faults
       (<["a.json" := storage.Json
            (storage.MkMetadata "a" "a" "t" 1 0 "" "" "" "" "" "" false)]>
          (<["a.tar.gz" := storage.Bytes [9]]> ∅)) "b").2 "a" = inl true.
Proof.
  destruct (LocalStorage_other_ids_untouched
              (storage.MkFaults None None (Some (ErrNew "disk full")) None None None)
              storage.no_delete_faults
              (<["a.json" := storage.Json
                   (storage.MkMetadata "a" "a" "t" 1 0 "" "" "" "" "" "" false)]>
                 (<["a.tar.gz" := storage.Bytes [9]]> ∅))
              (storage.MkBackup "b"
                 (storage.MkMetadata "b" "b" "t" 3 0 "" "" "" "" "" "" false)
                 [Ret [1; 2; 3] None])
              "b" "a" eq_refl) as [Hstore Hdelete].
  destruct (Hstore eq_refl ltac:(discriminate)) as [_ Hs].
  destruct (Hdelete eq_refl ltac:(discriminate)) as [_ Hd].
  split.
  - rewrite Hs. reflexivity.
  - rewrite Hd. reflexivity.
Defined.

(** X3.  [Delete] of the filesystem backend, for an id that names an
    entry of the base directory.  It returns [nil] exactly when neither
    removal fails for another reason than that the file does not exist,
    whether or not the id is stored.  When the removal of the data file
    fails it returns "failed to remove backup file" and has changed
    nothing; when the removal of the metadata file fails it returns
    "failed to remove metadata file" with the data file already gone.
    After a [Delete] that returned [nil], [Exists] answers false and
    [Retrieve] "backup not found" for the id, a second [Delete] changes
    nothing, and when neither file of the id existed the directory is as
    before; in a directory in which every metadata document lies in the
    file of its id, [List] no longer shows a record with the deleted
    id. *)
Theorem LocalStorage_Delete_removes (dflt : storage.DeleteFaults)
    (l : gmap string storage.content) (id : string) :
  filepath.names_entry id = true →
  ((∃ l', storage.LocalStorage_Delete dflt l id = (None, l')) ↔
   storage.delete_data_err dflt = None ∧ storage.delete_meta_err dflt = None) ∧
  (∀ err, storage.delete_data_err dflt = Some err →
     storage.LocalStorage_Delete dflt l id =
       (Some (ErrWrap "failed to remove backup file" err), l)) ∧
  (∀ err, storage.delete_data_err dflt = None → storage.delete_meta_err dflt = Some err →
     ∃ l',
       storage.LocalStorage_Delete dflt l id =
         (Some (ErrWrap "failed to remove metadata file" err), l') ∧
       l' !! (id +:+ ".tar.gz") = None ∧
       l' !! (id +:+ ".json") = l !! (id +:+ ".json") ∧
       storage.LocalStorage_Exists l' id = storage.LocalStorage_Exists l id) ∧
  (∀ l', storage.LocalStorage_Delete dflt l id = (None, l') →
     storage.LocalStorage_Exists l' id = inl false ∧
     storage.LocalStorage_Retrieve l' id = inr (ErrNew "backup not found") ∧
     storage.LocalStorage_Delete dflt l' id = (None, l') ∧
     (l !! (id +:+ ".json") = None → l !! (id +:+ ".tar.gz") = None → l' = l) ∧
     (storage.wf_store l = true →
      ∃ listed, storage.LocalStorage_List l' = inl listed ∧
                ∀ m, m ∈ listed → storage.ID m ≠ id)).
Proof.
  intros _. split_and!.
  - unfold storage.LocalStorage_Delete. split.
    + intros [l' Hdel].
      destruct (storage.delete_data_err dflt); [discriminate |].
      by destruct (storage.delete_meta_err dflt).
    + intros [-> ->]. by eexists.
  - intros err Herr. unfold storage.LocalStorage_Delete. by rewrite Herr.
  - intros err Hdata Hmeta. unfold storage.LocalStorage_Delete.
    rewrite Hdata, Hmeta. eexists. split; [reflexivity |].
    assert (Hkeep : delete (id +:+ ".tar.gz") l !! (id +:+ ".json") =
                    l !! (id +:+ ".json")).
    { apply lookup_delete_ne. intros E. symmetry in E. by apply json_ne_targz in E. }
    split_and!.
    + apply lookup_delete_eq.
    + exact Hkeep.
    + unfold storage.LocalStorage_Exists. by rewrite Hkeep.
  - intros l' Hdel. pose proof (LocalStorage_Delete_ok dflt l id l' Hdel) as ->.
    assert (Hnone : storage.delete_data_err dflt = None ∧
                    storage.delete_meta_err dflt = None).
    { unfold storage.LocalStorage_Delete in Hdel.
      destruct (storage.delete_data_err dflt); [discriminate |].
      by destruct (storage.delete_meta_err dflt). }
    destruct Hnone as [Hd Hm]. split_and!.
    + unfold storage.LocalStorage_Exists. by rewrite lookup_delete_eq.
    + unfold storage.LocalStorage_Retrieve. by rewrite lookup_delete_eq.
    + unfold storage.LocalStorage_Delete. rewrite Hd, Hm. f_equal.
      rewrite (delete_id (delete _ (delete _ l))).
      * apply delete_id. by rewrite lookup_delete_eq.
      * rewrite lookup_delete_ne by (intros E; by apply json_ne_targz in E).
        by rewrite lookup_delete_eq.
    + intros Hj Hdt. rewrite delete_id; [by apply delete_id |].
      rewrite lookup_delete_ne; [done |].
      intros E. symmetry in E. by apply json_ne_targz in E.
    + intros Hwf. eexists. split; [apply LocalStorage_List_omap |].
      intros m Hm' Hid. apply elem_of_local_list in Hm' as (f & Hf & _).
      assert (Hl : l !! f = Some (storage.Json m)).
      { destruct (decide (f = id +:+ ".json")) as [-> | H1];
          [by rewrite lookup_delete_eq in Hf |].
        rewrite lookup_delete_ne in Hf by done.
        destruct (decide (f = id +:+ ".tar.gz")) as [-> | H2];
          [by rewrite lookup_delete_eq in Hf |].
        by rewrite lookup_delete_ne in Hf. }
      destruct (wf_store_lookup l f m Hwf Hl) as [-> _]. subst id.
      by rewrite lookup_delete_eq in Hf.
Qed.

(** The statement at a directory that holds the backup "a", when the
    removal of the metadata file is refused: the backup is still reported
    to exist, and can no longer be retrieved. *)
Lemma LocalStorage_Delete_removes_witness :
  ∃ l',
    storage.LocalStorage_Delete
      (storage.MkDeleteFaults None (Some (ErrNew "permission denied")))
      (<["a.json" := storage.Json
           (storage.MkMetadata "a" "a" "t" 1 0 "" "" "" "" "" "" false)]>
         (<["a.tar.gz" := storage.Bytes [9]]> ∅)) "a" =
      (Some (ErrWrap "failed to remove metadata file" (ErrNew "permission denied")), l') ∧
    storage.LocalStorage_Exists l' "a" = inl true ∧
    storage.LocalStorage_Retrieve l' "a" = inr (ErrNew "failed to open backup file").
Proof.
  destruct (LocalStorage_Delete_removes
              (storage.MkDeleteFaults None (Some (ErrNew "permission denied")))
              (<["a.json" := storage.Json
                   (storage.MkMetadata "a" "a" "t" 1 0 "" "" "" "" "" "" false)]>
                 (<["a.tar.gz" := storage.Bytes [9]]> ∅)) "a" eq_refl)
    as (_ & _ & Hmeta & _).
  destruct (Hmeta (ErrNew "permission denied") eq_refl eq_refl)
    as (l' & Hdel & Hgone & Hkept & Hexists).
  exists l'. split; [exact Hdel |]. split.
  - rewrite Hexists. reflexivity.
  - unfold storage.LocalStorage_Retrieve. rewrite Hkept, Hgone. reflexivity.
Defined.
(** ** The directories the snapshot layer builds *)

Section Invariant.
Import strings storage.

Lemma wf_store_delete dflt (l l' : gmap string content) id :
  wf_store l = true → LocalStorage_Delete dflt l id = (None, l') → wf_store l' = true.
Proof.
  intros Hwf Hdel. apply LocalStorage_Delete_ok in Hdel as ->.
  apply wf_store_iff. intros f m Hf.
  destruct (decide (f = id +:+ ".json")) as [-> | H1];
    [by rewrite lookup_delete_eq in Hf |].
  rewrite lookup_delete_ne in Hf by done.
  destruct (decide (f = id +:+ ".tar.gz")) as [-> | H2];
    [by rewrite lookup_delete_eq in Hf |].
  rewrite lookup_delete_ne in Hf by done.
  destruct (wf_store_lookup l f m Hwf Hf) as [-> Hd]. split; [done |].
  rewrite lookup_delete_ne by (intros E; by apply json_ne_targz in E).
  rewrite lookup_delete_ne; [done |].
  intros E. apply targz_inj in E. by rewrite E in H1.
Qed.

Lemma wf_store_delete_versions flt dflt (n : string) (vs : list VersionInfo) :
  ∀ l l' : gmap string content,
  wf_store l = true →
  @delete_versions _ (LocalStorage_Backend_with flt dflt) l n vs = (None, l') →
  wf_store l' = true.
Proof.
  induction vs as [| v vs IH]; intros l l' Hwf Hdel.
  - simpl in Hdel. by simplify_eq.
  - cbn [delete_versions] in Hdel.
    change (@Delete _ (LocalStorage_Backend_with flt dflt) l ?id)
      with (LocalStorage_Delete dflt l id) in Hdel.
    destruct (LocalStorage_Delete dflt l (versionedID n (vi_Version v)))
      as [[e |] l1] eqn:Hd; [discriminate |].
    apply (IH l1); [by eapply wf_store_delete | done].
Qed.

Lemma wf_store_empty : wf_store (∅ : gmap string content) = true.
Proof. apply wf_store_iff. intros f m Hf. by rewrite lookup_empty in Hf. Qed.

Lemma StoreSnapshot_unfold flt dflt (l : gmap string content) name backup timestamp now :
  name ≠ "" →
  @StoreSnapshot _ (LocalStorage_Backend_with flt dflt) l name backup timestamp now =
    LocalStorage_Store flt l
      (MkBackup (versionedID (cleanSnapshotName name) timestamp)
         (stored_metadata name backup timestamp now) (b_DataReader backup)).
Proof.
  intros Hname. unfold StoreSnapshot.
  destruct (String.eqb_spec name "") as [-> | _]; done.
Qed.

Lemma StoreSnapshot_empty_name {B : Type} `{Backend B} (s : B) backup timestamp now :
  StoreSnapshot s "" backup timestamp now = (Some (ErrNew "snapshot name is required"), s).
Proof. done. Qed.

End Invariant.


(** ** Storing a snapshot and reading it back *)

Section SnapshotRoundTrip.
Import strings storage.

Lemma Contains_versionedID name version :
  Contains (versionedID name version) "@" = true.
Proof.
  unfold versionedID. rewrite !Contains_at_app.
  change (Contains "@" "@") with true. by rewrite orb_true_r.
Qed.

Lemma versionedID_inj name v1 v2 : versionedID name v1 = versionedID name v2 → v1 = v2.
Proof. unfold versionedID. intros E. by do 2 apply append_inj_l in E. Qed.

(** The versions [ListVersions] reports from a directory. *)
Lemma elem_of_ListVersions (l : gmap string content) name :
  ∃ vs, ListVersions l name = inl vs ∧
    ∀ v, v ∈ vs ↔
      ∃ f m, l !! f = Some (Json m) ∧ filepath.Ext f = ".json" ∧
             version_of (cleanSnapshotName name) m = Some v.
Proof.
  eexists. split.
  { rewrite ListVersions_omap. change (ListAll l) with (LocalStorage_List l).
    by rewrite LocalStorage_List_omap. }
  intros v. rewrite list_elem_of_omap. split.
  - intros (m & Hm & Hv). apply elem_of_local_list in Hm as (f & Hf & Hext). eauto.
  - intros (f & m & Hf & Hext & Hv). exists m. split; [| done].
    apply elem_of_local_list. eauto.
Qed.

(** For a bare name, [GetSnapshot] retrieves the version that the loop of
    [GetLatestVersion] ends on. *)
Lemma GetSnapshot_bare (l : gmap string content) name v0 vs :
  Contains name "@" = false →
  cleanSnapshotName (cleanSnapshotName name) = cleanSnapshotName name →
  ListVersions l name = inl (v0 :: vs) →
  ∃ latest,
    latest ∈ v0 :: vs ∧
    (∀ v, v ∈ v0 :: vs → vi_CreatedAt v ≤ vi_CreatedAt latest) ∧
    GetSnapshot l name =
      LocalStorage_Retrieve l (versionedID (cleanSnapshotName name) (vi_Version latest)).
Proof.
  intros Hname Hstable Hlist.
  pose proof (latest_fold (v0 :: vs) v0) as Hlatest. simpl in Hlatest.
  set (latest := foldl _ _ _) in Hlatest.
  destruct Hlatest as (Hin & _ & Hmax).
  exists latest. split_and!.
  - destruct Hin as [-> | Hin]; [by left | done].
  - exact Hmax.
  - unfold GetSnapshot, GetLatestVersion.
    rewrite cleanSnapshotName_at, Hname, ListVersions_cleaned, Hlist by done.
    simpl foldl. fold latest. done.
Qed.

(** The files that a [StoreSnapshot] that returns [nil] has written. *)
Lemma StoreSnapshot_stored flt dflt (l l' : gmap string content) name backup timestamp
    now :
  @StoreSnapshot _ (LocalStorage_Backend_with flt dflt) l name backup timestamp now =
    (None, l') →
  ∃ data,
    name ≠ "" ∧
    read_all (b_DataReader backup) = (data, None) ∧
    l' !! (versionedID (cleanSnapshotName name) timestamp +:+ ".json") =
      Some (Json (json_roundtrip (stored_metadata name backup timestamp now))) ∧
    l' !! (versionedID (cleanSnapshotName name) timestamp +:+ ".tar.gz") =
      Some (Bytes data) ∧
    (∀ path,
       path ≠ versionedID (cleanSnapshotName name) timestamp +:+ ".tar.gz" →
       path ≠ versionedID (cleanSnapshotName name) timestamp +:+ ".json" →
       l' !! path = l !! path) ∧
    (wf_store l = true →
     utf8.ValidString (versionedID (cleanSnapshotName name) timestamp) = true →
     wf_store l' = true).
Proof.
  intros Hstore.
  destruct (decide (name = "")) as [-> | Hname].
  { by rewrite StoreSnapshot_empty_name in Hstore. }
  rewrite StoreSnapshot_unfold in Hstore by done.
  destruct (LocalStorage_Store_ok _ _ _ _ Hstore) as (Herr & Hmeta & Hdata).
  simpl in Herr, Hmeta, Hdata.
  destruct (read_all (b_DataReader backup)) as [data e] eqn:Hread.
  simpl in Herr, Hdata. subst e. exists data. split_and!; try done.
  - intros path H1 H2. by apply (LocalStorage_Store_frame _ _ _ _ _ _ Hstore).
  - intros Hwf Hvalid. eapply wf_store_insert; [exact Hwf | | exact Hstore].
    simpl. by apply coerce_valid.
Qed.

(** When no system call of [Store] fails, [StoreSnapshot] of a name that
    is not empty returns [nil] if the data reader ends without error. *)
Lemma StoreSnapshot_succeeds flt dflt (l : gmap string content) name backup timestamp
    now data :
  create_data_err flt = None → write_data_err flt = None →
  create_meta_err flt = None → encode_err flt = None →
  name ≠ "" →
  read_all (b_DataReader backup) = (data, None) →
  ∃ l',
    @StoreSnapshot _ (LocalStorage_Backend_with flt dflt) l name backup timestamp now =
      (None, l').
Proof.
  intros H1 H2 H3 H4 Hname Hread. rewrite StoreSnapshot_unfold by done.
  apply LocalStorage_Store_succeeds; try done. simpl. by rewrite Hread.
Qed.

End SnapshotRoundTrip.

(** After a store under a bare name with the clock ahead, the new version
    is the one fetched by name. *)
Lemma StoreSnapshot_latest_run (flt : storage.StoreFaults) (dflt : storage.DeleteFaults)
    (l l' : gmap string storage.content)
    (name : string) (bk : storage.Backup) (timestamp : string) (now : Z)
    (vs : list storage.VersionInfo) :
  @storage.StoreSnapshot _ (storage.LocalStorage_Backend_with flt dflt)
    l name bk timestamp now = (None, l') →
  storage.wf_store l = true →
  strings.Contains name "@" = false →
  storage.cleanSnapshotName (storage.cleanSnapshotName name) =
    storage.cleanSnapshotName name →
  utf8.ValidString (storage.versionedID (storage.cleanSnapshotName name) timestamp) =
    true →
  storage.ListVersions l name = inl vs →
  (∀ v, v ∈ vs → storage.vi_CreatedAt v < now) →
  ∃ data,
    storage.read_all (storage.b_DataReader bk) = (data, None) ∧
    storage.GetSnapshot l' name =
      inl (storage.MkBackup
             (storage.versionedID (storage.cleanSnapshotName name) timestamp)
             (storage.json_roundtrip (storage.stored_metadata name bk timestamp now))
             (bytes_NewReader data)).
Proof.
  intros Hstore Hwf Hbare Hstable Hvalid Hlist Hclock.
  destruct (StoreSnapshot_stored flt dflt l l' name bk timestamp now Hstore)
    as (data & Hname & Hread & Hmeta & Hdata & Hframe & Hwf').
  exists data. split; [exact Hread |].
  set (cn := storage.cleanSnapshotName name) in *.
  set (id := storage.versionedID cn timestamp) in *.
  set (meta := storage.json_roundtrip (storage.stored_metadata name bk timestamp now))
    in *.
  assert (Hid : storage.ID meta = id) by (by apply coerce_valid).
  assert (Hcn : strings.Contains cn "@" = false)
    by (unfold cn; by rewrite cleanSnapshotName_at).
  destruct (elem_of_ListVersions l name) as (vs0 & Hlist0 & Hin).
  assert (vs0 = vs) as -> by congruence. clear Hlist0.
  destruct (elem_of_ListVersions l' name) as (vs' & Hlist' & Hin').
  set (vnew := storage.MkVersionInfo timestamp (storage.Size meta)
                 (storage.CreatedAt meta) (storage.Description meta)).
  assert (Hvnew : vnew ∈ vs').
  { apply Hin'. exists (id +:+ ".json"), meta. split_and!; [done | apply Ext_json |].
    apply version_of_Some; [done |]. by exists timestamp. }
  destruct vs' as [| v0 vs']; [by apply elem_of_nil in Hvnew |].
  destruct (GetSnapshot_bare l' name v0 vs' Hbare Hstable Hlist')
    as (latest & Hlatest & Hmax & Hget).
  rewrite Hget. clear Hget.
  assert (Hver : storage.vi_Version latest = timestamp).
  { apply Hin' in Hlatest as (f & m & Hf & Hext & Hv).
    destruct (decide (f = id +:+ ".json")) as [-> | Hf1].
    { rewrite Hmeta in Hf. simplify_eq.
      apply version_of_Some in Hv as (ver & Hid' & ->); [| done].
      rewrite Hid in Hid'. apply versionedID_inj in Hid'. by subst ver. }
    destruct (decide (f = id +:+ ".tar.gz")) as [-> | Hf2].
    { rewrite Hdata in Hf. discriminate. }
    rewrite Hframe in Hf by done.
    assert (Hold : latest ∈ vs) by (apply Hin; eauto).
    specialize (Hclock latest Hold). specialize (Hmax vnew Hvnew). simpl in Hmax. lia. }
  rewrite Hver. fold cn id.
  unfold storage.LocalStorage_Retrieve. by rewrite Hmeta, Hdata.
Qed.

(** X5.  A snapshot stored under a name can be fetched by name and version
    token.  When no system call of [Store] fails, the name is not empty
    and the data reader ends without error, [StoreSnapshot] returns
    [nil].  Whenever it returns [nil], whatever the system calls did,
    [GetSnapshot] of "name@token" returns the id "cleaned name@token", a
    reader over exactly the bytes stored, and the metadata as
    [StoreSnapshot] completed it and the JSON encoding keeps it (every
    string coerced to valid UTF-8), provided that cleaning "name@token"
    gives "cleaned name@token" (the name has no archive extension left to
    trim and the token none at all). *)
Theorem StoreSnapshot_then_GetSnapshot_version (flt : storage.StoreFaults)
    (dflt : storage.DeleteFaults) (l : gmap string storage.content)
    (name : string) (bk : storage.Backup) (timestamp : string) (now : Z) :
  storage.cleanSnapshotName (storage.versionedID name timestamp) =
    storage.versionedID (storage.cleanSnapshotName name) timestamp →
  (∀ data,
     storage.create_data_err flt = None → storage.write_data_err flt = None →
     storage.create_meta_err flt = None → storage.encode_err flt = None →
     name ≠ "" → storage.read_all (storage.b_DataReader bk) = (data, None) →
     ∃ l',
       @storage.StoreSnapshot _ (storage.LocalStorage_Backend_with flt dflt)
         l name bk timestamp now = (None, l')) ∧
  (∀ l',
     @storage.StoreSnapshot _ (storage.LocalStorage_Backend_with flt dflt)
       l name bk timestamp now = (None, l') →
     ∃ data,
       storage.read_all (storage.b_DataReader bk) = (data, None) ∧
       storage.GetSnapshot l' (storage.versionedID name timestamp) =
         inl (storage.MkBackup
                (storage.versionedID (storage.cleanSnapshotName name) timestamp)
                (storage.json_roundtrip (storage.stored_metadata name bk timestamp now))
                (bytes_NewReader data)) ∧
       (storage.valid_metadata (storage.stored_metadata name bk timestamp now) = true →
        storage.GetSnapshot l' (storage.versionedID name timestamp) =
          inl (storage.MkBackup
                 (storage.versionedID (storage.cleanSnapshotName name) timestamp)
                 (storage.stored_metadata name bk timestamp now)
                 (bytes_NewReader data)))).
Proof.
  intros Hclean. split.
  - intros data H1 H2 H3 H4 Hname Hread. by eapply StoreSnapshot_succeeds.
  - intros l' Hstore.
    destruct (StoreSnapshot_stored flt dflt l l' name bk timestamp now Hstore)
      as (data & Hname & Hread & Hmeta & Hdata & _).
    exists data.
    assert (Hget : storage.GetSnapshot l' (storage.versionedID name timestamp) =
              inl (storage.MkBackup
                     (storage.versionedID (storage.cleanSnapshotName name) timestamp)
                     (storage.json_roundtrip
                        (storage.stored_metadata name bk timestamp now))
                     (bytes_NewReader data))).
    { rewrite GetSnapshot_versioned by apply Contains_versionedID.
      rewrite Hclean. change (storage.Retrieve l') with (storage.LocalStorage_Retrieve l').
      unfold storage.LocalStorage_Retrieve. by rewrite Hmeta, Hdata. }
    split_and!; [exact Hread | exact Hget |].
    intros Hvalid. by rewrite Hget, json_roundtrip_valid.
Qed.

(** The statement at a name with a path separator, on a system whose
    calls do not fail. *)
Lemma StoreSnapshot_then_GetSnapshot_version_witness :
  ∃ l',
    storage.StoreSnapshot (∅ : gmap string storage.content) "db/prod"
      (storage.MkBackup "x" (storage.MkMetadata "" "" "" 3 0 "" "v1" "" "" "" "" false)
         [Ret [1; 2; 3] None]) "20240101-000000" 7 = (None, l') ∧
    storage.GetSnapshot l' (storage.versionedID "db/prod" "20240101-000000") =
      inl (storage.MkBackup "db-prod@20240101-000000"
             (storage.MkMetadata "db-prod@20240101-000000" "db-prod" "volume-snapshot"
                3 7 "" "v1" "" "" "" "20240101-000000" false)
             (bytes_NewReader [1; 2; 3])).
Proof.
  destruct (StoreSnapshot_then_GetSnapshot_version storage.no_faults
              storage.no_delete_faults ∅ "db/prod"
              (storage.MkBackup "x"
                 (storage.MkMetadata "" "" "" 3 0 "" "v1" "" "" "" "" false)
                 [Ret [1; 2; 3] None]) "20240101-000000" 7)
    as [Hreturns Hfetch].
  - vm_compute. reflexivity.
  - destruct (Hreturns [1; 2; 3] eq_refl eq_refl eq_refl eq_refl) as [l' Hstore].
    + discriminate.
    + reflexivity.
    + exists l'. split; [exact Hstore |].
      destruct (Hfetch l' Hstore) as (data & Hread & _ & Hget).
      assert (data = [1; 2; 3]) as -> by (vm_compute in Hread; congruence).
      apply Hget. reflexivity.
Defined.

(** X6.  A snapshot stored under a bare name is the one a later fetch by
    that name returns, when the clock is ahead of the creation times of
    the versions already stored and the id "cleaned name@token" is valid
    UTF-8: in a well-formed directory, for a name without "@" whose
    cleaned form cleaning leaves unchanged, after a [StoreSnapshot] that
    returned [nil] (whatever the system calls did) [GetSnapshot] of the
    name returns the new version, with the bytes just stored and the
    metadata as the JSON encoding keeps it. *)
Theorem StoreSnapshot_then_GetSnapshot_latest (flt : storage.StoreFaults)
    (dflt : storage.DeleteFaults) (l l' : gmap string storage.content)
    (name : string) (bk : storage.Backup) (timestamp : string) (now : Z)
    (vs : list storage.VersionInfo) :
  @storage.StoreSnapshot _ (storage.LocalStorage_Backend_with flt dflt)
    l name bk timestamp now = (None, l') →
  storage.wf_store l = true →
  strings.Contains name "@" = false →
  storage.cleanSnapshotName (storage.cleanSnapshotName name) =
    storage.cleanSnapshotName name →
  utf8.ValidString (storage.versionedID (storage.cleanSnapshotName name) timestamp) =
    true →
  storage.ListVersions l name = inl vs →
  (∀ v, v ∈ vs → storage.vi_CreatedAt v < now) →
  ∃ data,
    storage.read_all (storage.b_DataReader bk) = (data, None) ∧
    storage.GetSnapshot l' name =
      inl (storage.MkBackup
             (storage.versionedID (storage.cleanSnapshotName name) timestamp)
             (storage.json_roundtrip (storage.stored_metadata name bk timestamp now))
             (bytes_NewReader data)).
Proof. apply StoreSnapshot_latest_run. Qed.

(** The statement at a second backup of a name, three time units after
    the first. *)
Lemma StoreSnapshot_then_GetSnapshot_latest_witness :
  storage.GetSnapshot
    (storage.StoreSnapshot
       (storage.StoreSnapshot (∅ : gmap string storage.content) "b1"
          (storage.MkBackup "" (storage.MkMetadata "" "" "" 1 0 "" "v1" "" "" "" "" false)
             [Ret [9] None]) "20240101-000000" 4).2
       "b1"
       (storage.MkBackup "" (storage.MkMetadata "" "" "" 3 0 "" "v1" "" "" "" "" false)
          [Ret [1; 2; 3] None]) "20240101-000003" 7).2 "b1" =
    inl (storage.MkBackup "b1@20240101-000003"
           (storage.MkMetadata "b1@20240101-000003" "b1" "volume-snapshot"
              3 7 "" "v1" "" "" "" "20240101-000003" false)
           (bytes_NewReader [1; 2; 3])).
Proof.
  destruct (StoreSnapshot_then_GetSnapshot_latest storage.no_faults
              storage.no_delete_faults
              (storage.StoreSnapshot (∅ : gmap string storage.content) "b1"
                 (storage.MkBackup ""
                    (storage.MkMetadata "" "" "" 1 0 "" "v1" "" "" "" "" false)
                    [Ret [9] None]) "20240101-000000" 4).2
              (storage.StoreSnapshot
                 (storage.StoreSnapshot (∅ : gmap string storage.content) "b1"
                    (storage.MkBackup ""
                       (storage.MkMetadata "" "" "" 1 0 "" "v1" "" "" "" "" false)
                       [Ret [9] None]) "20240101-000000" 4).2
                 "b1"
                 (storage.MkBackup ""
                    (storage.MkMetadata "" "" "" 3 0 "" "v1" "" "" "" "" false)
                    [Ret [1; 2; 3] None]) "20240101-000003" 7).2
              "b1"
              (storage.MkBackup ""
                 (storage.MkMetadata "" "" "" 3 0 "" "v1" "" "" "" "" false)
                 [Ret [1; 2; 3] None]) "20240101-000003" 7
              [storage.MkVersionInfo "20240101-000000" 1 4 ""])
    as (data & Hread & Hget).
  - reflexivity.
  - vm_compute. reflexivity.
  - reflexivity.
  - reflexivity.
  - reflexivity.
  - vm_compute. reflexivity.
  - intros v Hv. apply list_elem_of_singleton in Hv as ->. simpl. lia.
  - assert (data = [1; 2; 3]) as -> by (vm_compute in Hread; congruence).
    exact Hget.
Defined.

(** X7.  What [ListVersions] reports after a [StoreSnapshot] that returned
    [nil] (whatever the system calls did): in a well-formed directory,
    for a name without "@", when the id "cleaned name@token" is valid
    UTF-8, the versions listed are the new version (its token, the size
    handed in, the creation time of the call, the description as the JSON
    encoding keeps it) and the versions listed before under another
    token; a version that had the same token is replaced. *)
Theorem StoreSnapshot_then_ListVersions (flt : storage.StoreFaults)
    (dflt : storage.DeleteFaults) (l l' : gmap string storage.content)
    (name : string) (bk : storage.Backup) (timestamp : string) (now : Z)
    (vs : list storage.VersionInfo) :
  @storage.StoreSnapshot _ (storage.LocalStorage_Backend_with flt dflt)
    l name bk timestamp now = (None, l') →
  storage.wf_store l = true →
  strings.Contains name "@" = false →
  utf8.ValidString (storage.versionedID (storage.cleanSnapshotName name) timestamp) =
    true →
  storage.ListVersions l name = inl vs →
  ∃ vs',
    storage.ListVersions l' name = inl vs' ∧
    ∀ v, v ∈ vs' ↔
      v = storage.MkVersionInfo timestamp (storage.Size (storage.b_Metadata bk)) now
            (json.coerce (storage.Description (storage.b_Metadata bk))) ∨
      (v ∈ vs ∧ storage.vi_Version v ≠ timestamp).
Proof.
  intros Hstore Hwf Hbare Hvalid Hlist.
  destruct (StoreSnapshot_stored flt dflt l l' name bk timestamp now Hstore)
    as (data & Hname & Hread & Hmeta & Hdata & Hframe & _).
  set (cn := storage.cleanSnapshotName name) in *.
  set (id := storage.versionedID cn timestamp) in *.
  set (meta := storage.json_roundtrip (storage.stored_metadata name bk timestamp now))
    in *.
  assert (Hid : storage.ID meta = id) by (by apply coerce_valid).
  assert (Hcn : strings.Contains cn "@" = false)
    by (unfold cn; by rewrite cleanSnapshotName_at).
  destruct (elem_of_ListVersions l name) as (vs0 & Hlist0 & Hin).
  assert (vs0 = vs) as -> by congruence. clear Hlist0.
  destruct (elem_of_ListVersions l' name) as (vs' & Hlist' & Hin').
  exists vs'. split; [exact Hlist' |].
  intros v. rewrite Hin'. fold cn. split.
  - intros (f & m & Hf & Hext & Hv).
    destruct (decide (f = id +:+ ".json")) as [-> | Hf1].
    { left. rewrite Hmeta in Hf. simplify_eq.
      apply version_of_Some in Hv as (ver & Hid' & ->); [| done].
      rewrite Hid in Hid'. apply versionedID_inj in Hid'. by subst ver. }
    destruct (decide (f = id +:+ ".tar.gz")) as [-> | Hf2].
    { rewrite Hdata in Hf. discriminate. }
    rewrite Hframe in Hf by done. right. split; [apply Hin; eauto |].
    destruct (wf_store_lookup l f m Hwf Hf) as [-> _].
    apply version_of_Some in Hv as (ver & Hid' & ->); [| done]. simpl.
    intros ->. apply Hf1. by rewrite Hid'.
  - intros [-> | [Hv Hne]].
    + exists (id +:+ ".json"), meta. split_and!; [done | apply Ext_json |].
      apply version_of_Some; [done |]. by exists timestamp.
    + apply Hin in Hv as (f & m & Hf & Hext & Hv). exists f, m.
      split_and!; [| done | done].
      destruct (wf_store_lookup l f m Hwf Hf) as [-> _].
      apply version_of_Some in Hv as (ver & Hid' & ->); [| done]. simpl in Hne.
      rewrite Hframe; [done | |].
      * intros E. by apply json_ne_targz in E.
      * intros E. apply json_inj in E. rewrite Hid' in E.
        by apply versionedID_inj in E.
Qed.

(** The statement at a first backup into the empty directory. *)
Lemma StoreSnapshot_then_ListVersions_witness :
  ∃ vs',
    storage.ListVersions
      (storage.StoreSnapshot (∅ : gmap string storage.content) "b1"
         (storage.MkBackup "" (storage.MkMetadata "" "" "" 3 0 "" "v1" "" "" "d" "" false)
            [Ret [1; 2; 3] None]) "20240101-000000" 7).2 "b1" = inl vs' ∧
    ∀ v, v ∈ vs' ↔
      v = storage.MkVersionInfo "20240101-000000" 3 7 "d" ∨
      (v ∈ [] ∧ storage.vi_Version v ≠ "20240101-000000").
Proof.
  apply (StoreSnapshot_then_ListVersions storage.no_faults storage.no_delete_faults ∅
           (storage.StoreSnapshot (∅ : gmap string storage.content) "b1"
              (storage.MkBackup ""
                 (storage.MkMetadata "" "" "" 3 0 "" "v1" "" "" "d" "" false)
                 [Ret [1; 2; 3] None]) "20240101-000000" 7).2
           "b1"
           (storage.MkBackup ""
              (storage.MkMetadata "" "" "" 3 0 "" "v1" "" "" "d" "" false)
              [Ret [1; 2; 3] None]) "20240101-000000" 7 []).
  - reflexivity.
  - reflexivity.
  - reflexivity.
  - reflexivity.
  - vm_compute. reflexivity.
Defined.

(** ** [SnapshotExists], [GetSnapshot] and [DeleteSnapshot] on stored names *)

(** X8.  On the filesystem backend [SnapshotExists] agrees with
    [GetSnapshot]: whenever [GetSnapshot] of a name or versioned id
    returns a backup, [SnapshotExists] of it returns true; and for a name
    without "@" whose cleaned form cleaning leaves unchanged, in a
    well-formed directory, [SnapshotExists] returns true only if
    [GetSnapshot] returns a backup. *)
Theorem SnapshotExists_agrees_with_GetSnapshot (l : gmap string storage.content)
    (name : string) :
  ((∃ bk, storage.GetSnapshot l name = inl bk) →
   storage.SnapshotExists l name = inl true) ∧
  (storage.wf_store l = true →
   strings.Contains name "@" = false →
   storage.cleanSnapshotName (storage.cleanSnapshotName name) =
     storage.cleanSnapshotName name →
   storage.SnapshotExists l name = inl true →
   ∃ bk, storage.GetSnapshot l name = inl bk).
Proof.
  split.
  - intros [bk Hget]. unfold storage.GetSnapshot in Hget. unfold storage.SnapshotExists.
    destruct (strings.Contains _ _).
    + change (storage.Retrieve l) with (storage.LocalStorage_Retrieve l) in Hget.
      change (storage.Exists l) with (storage.LocalStorage_Exists l).
      unfold storage.LocalStorage_Retrieve in Hget. unfold storage.LocalStorage_Exists.
      by destruct (l !! _).
    + unfold storage.GetLatestVersion in Hget.
      by destruct (storage.ListVersions l _) as [[| v0 vs] | err].
  - intros Hwf Hbare Hstable Hex. unfold storage.SnapshotExists in Hex.
    rewrite cleanSnapshotName_at, Hbare, ListVersions_cleaned in Hex by done.
    destruct (storage.ListVersions l name) as [[| v0 vs] | err] eqn:Hlist;
      [by simplify_eq | | done].
    destruct (GetSnapshot_latest_of_stable_name l name v0 vs Hwf Hbare Hstable Hlist)
      as (bk & _ & Hget & _).
    by exists bk.
Qed.

(** X9.  For a name without "@" whose cleaned form cleaning leaves
    unchanged, in a well-formed directory with at least one version of the
    name, [GetSnapshot] returns the stored backup of a listed version whose
    creation time is the greatest of all versions of the name; its id is
    "cleaned name@version" and its metadata is the document stored under
    that id. *)
Theorem GetSnapshot_returns_latest (l : gmap string storage.content) (name : string)
    (v0 : storage.VersionInfo) (vs : list storage.VersionInfo) :
  storage.wf_store l = true →
  strings.Contains name "@" = false →
  storage.cleanSnapshotName (storage.cleanSnapshotName name) =
    storage.cleanSnapshotName name →
  storage.ListVersions l name = inl (v0 :: vs) →
  ∃ bk latest,
    storage.GetSnapshot l name = inl bk ∧
    latest ∈ v0 :: vs ∧
    storage.b_ID bk =
      storage.versionedID (storage.cleanSnapshotName name) (storage.vi_Version latest) ∧
    storage.ID (storage.b_Metadata bk) = storage.b_ID bk ∧
    storage.CreatedAt (storage.b_Metadata bk) = storage.vi_CreatedAt latest ∧
    l !! (storage.b_ID bk +:+ ".json") = Some (storage.Json (storage.b_Metadata bk)) ∧
    (∀ v, v ∈ v0 :: vs →
       storage.vi_CreatedAt v ≤ storage.CreatedAt (storage.b_Metadata bk)).
Proof. apply GetSnapshot_latest_of_stable_name. Qed.

(** The statement at two versions of a name, the older one stored last. *)
Lemma GetSnapshot_returns_latest_witness :
  ∃ bk latest,
    storage.GetSnapshot
      (storage.StoreSnapshot
         (storage.StoreSnapshot (∅ : gmap string storage.content) "b1"
            (storage.MkBackup ""
               (storage.MkMetadata "" "" "" 1 0 "" "v1" "" "" "" "" false)
               [Ret [9] None]) "20240101-000000" 8).2
         "b1"
         (storage.MkBackup "" (storage.MkMetadata "" "" "" 3 0 "" "v1" "" "" "" "" false)
            [Ret [1; 2; 3] None]) "20240101-000003" 5).2 "b1" = inl bk ∧
    latest ∈ [storage.MkVersionInfo "20240101-000000" 1 8 "";
              storage.MkVersionInfo "20240101-000003" 3 5 ""] ∧
    storage.b_ID bk = storage.versionedID "b1" (storage.vi_Version latest) ∧
    storage.CreatedAt (storage.b_Metadata bk) = 8.
Proof.
  destruct (GetSnapshot_returns_latest
              (storage.StoreSnapshot
                 (storage.StoreSnapshot (∅ : gmap string storage.content) "b1"
                    (storage.MkBackup ""
                       (storage.MkMetadata "" "" "" 1 0 "" "v1" "" "" "" "" false)
                       [Ret [9] None]) "20240101-000000" 8).2
                 "b1"
                 (storage.MkBackup ""
                    (storage.MkMetadata "" "" "" 3 0 "" "v1" "" "" "" "" false)
                    [Ret [1; 2; 3] None]) "20240101-000003" 5).2
              "b1" (storage.MkVersionInfo "20240101-000000" 1 8 "")
              [storage.MkVersionInfo "20240101-000003" 3 5 ""])
    as (bk & latest & Hget & Hin & Hid & _ & Hcreated & _ & Hmax).
  - vm_compute. reflexivity.
  - reflexivity.
  - reflexivity.
  - vm_compute. reflexivity.
  - exists bk, latest. split_and!; [exact Hget | exact Hin | exact Hid |].
    assert (Hge : 8 ≤ storage.CreatedAt (storage.b_Metadata bk)).
    { apply (Hmax (storage.MkVersionInfo "20240101-000000" 1 8 "")). by left. }
    rewrite Hcreated in *.
    apply elem_of_cons in Hin as [-> | Hin]; [done |].
    apply list_elem_of_singleton in Hin as ->. simpl in Hge. lia.
Defined.

(** X10.  For a name without "@" whose cleaned form cleaning leaves
    unchanged, in a well-formed directory: with no version of the name,
    [DeleteSnapshot] fails with "no snapshots found" and changes nothing;
    otherwise it returns [nil], the two files of every listed version are
    gone, [ListVersions] of the name is empty afterwards, and every other
    file is as before. *)
Theorem DeleteSnapshot_removes_all_versions (l : gmap string storage.content)
    (name : string) (vs : list storage.VersionInfo) :
  storage.wf_store l = true →
  strings.Contains name "@" = false →
  storage.cleanSnapshotName (storage.cleanSnapshotName name) =
    storage.cleanSnapshotName name →
  storage.ListVersions l name = inl vs →
  (vs = [] →
   storage.DeleteSnapshot l name = (Some (ErrNew "no snapshots found with name"), l)) ∧
  (vs ≠ [] →
   ∃ l' : gmap string storage.content,
     storage.DeleteSnapshot l name = (None, l') ∧
     storage.ListVersions l' name = inl [] ∧
     (∀ v, v ∈ vs →
        l' !! (storage.versionedID (storage.cleanSnapshotName name) (storage.vi_Version v)
               +:+ ".json") = None ∧
        l' !! (storage.versionedID (storage.cleanSnapshotName name) (storage.vi_Version v)
               +:+ ".tar.gz") = None) ∧
     (∀ path,
        (∀ v, v ∈ vs →
           path ≠ storage.versionedID (storage.cleanSnapshotName name)
                    (storage.vi_Version v) +:+ ".json" ∧
           path ≠ storage.versionedID (storage.cleanSnapshotName name)
                    (storage.vi_Version v) +:+ ".tar.gz") →
        l' !! path = l !! path)).
Proof. apply DeleteSnapshot_of_stable_name. Qed.

(** The statement at a directory with one version each of two names. *)
Lemma DeleteSnapshot_removes_all_versions_witness :
  ∃ l' : gmap string storage.content,
    storage.DeleteSnapshot
      (storage.StoreSnapshot
         (storage.StoreSnapshot (∅ : gmap string storage.content) "b1"
            (storage.MkBackup ""
               (storage.MkMetadata "" "" "" 1 0 "" "v1" "" "" "" "" false)
               [Ret [9] None]) "20240101-000000" 8).2
         "b2"
         (storage.MkBackup "" (storage.MkMetadata "" "" "" 3 0 "" "v1" "" "" "" "" false)
            [Ret [1; 2; 3] None]) "20240101-000003" 9).2 "b1" = (None, l') ∧
    storage.ListVersions l' "b1" = inl [] ∧
    l' !! "b2@20240101-000003.json" =
      Some (storage.Json
              (storage.MkMetadata "b2@20240101-000003" "b2" "volume-snapshot" 3 9 ""
                 "v1" "" "" "" "20240101-000003" false)).
Proof.
  destruct (DeleteSnapshot_removes_all_versions
              (storage.StoreSnapshot
                 (storage.StoreSnapshot (∅ : gmap string storage.content) "b1"
                    (storage.MkBackup ""
                       (storage.MkMetadata "" "" "" 1 0 "" "v1" "" "" "" "" false)
                       [Ret [9] None]) "20240101-000000" 8).2
                 "b2"
                 (storage.MkBackup ""
                    (storage.MkMetadata "" "" "" 3 0 "" "v1" "" "" "" "" false)
                    [Ret [1; 2; 3] None]) "20240101-000003" 9).2
              "b1" [storage.MkVersionInfo "20240101-000000" 1 8 ""])
    as [_ Hdel].
  - vm_compute. reflexivity.
  - reflexivity.
  - reflexivity.
  - vm_compute. reflexivity.
  - destruct Hdel as (l' & Hdel & Hlist & _ & Hother); [discriminate |].
    exists l'. split_and!; [exact Hdel | exact Hlist |].
    rewrite Hother; [vm_compute; reflexivity |].
    intros v Hv. apply list_elem_of_singleton in Hv as ->.
    split; vm_compute; discriminate.
Defined.

(** ** Cleaned snapshot names *)

Section CleanFacts.
Import strings storage.

Lemma Contains_char_cons (x c : ascii) s :
  Contains (String c s) (String x "") = Ascii.eqb x c || Contains s (String x "").
Proof.
  change (Contains (String c s) (String x ""))
    with (String.prefix (String x "") (String c s) || Contains s (String x "")).
  f_equal. cbn [String.prefix]. destruct (ascii_dec x c) as [<- | Hne].
  - rewrite Ascii.eqb_refl. by destruct s.
  - symmetry. by apply Ascii.eqb_neq.
Qed.

Lemma Contains_char_ReplaceAll_old s (old : ascii) :
  old ≠ "-"%char → Contains (ReplaceAll s old "-") (String old "") = false.
Proof.
  intros Hold. induction s as [| c s IH]; [done |].
  simpl ReplaceAll. destruct (Ascii.eqb c old) eqn:Hc.
  - change ("-" +:+ ReplaceAll s old "-") with (String "-" (ReplaceAll s old "-")).
    rewrite Contains_char_cons, IH. by rewrite (proj2 (Ascii.eqb_neq old "-")).
  - rewrite Contains_char_cons, IH. rewrite Ascii.eqb_sym, Hc. done.
Qed.

Lemma Contains_char_ReplaceAll_other s (old x : ascii) :
  x ≠ old → x ≠ "-"%char →
  Contains (ReplaceAll s old "-") (String x "") = Contains s (String x "").
Proof.
  intros Hx1 Hx2. induction s as [| c s IH]; [done |].
  simpl ReplaceAll. destruct (Ascii.eqb c old) eqn:Hc.
  - apply Ascii.eqb_eq in Hc as ->.
    change ("-" +:+ ReplaceAll s old "-") with (String "-" (ReplaceAll s old "-")).
    rewrite !Contains_char_cons, IH.
    by rewrite (proj2 (Ascii.eqb_neq x "-")), (proj2 (Ascii.eqb_neq x old)).
  - by rewrite !Contains_char_cons, IH.
Qed.

Lemma ReplaceAll_absent s (old : ascii) new :
  Contains s (String old "") = false → ReplaceAll s old new = s.
Proof.
  induction s as [| c s IH]; [done |]. rewrite Contains_char_cons.
  intros Hc. apply orb_false_iff in Hc as [Hc Hs]. simpl.
  rewrite Ascii.eqb_sym, Hc. by rewrite IH.
Qed.

Lemma ReplaceAll_length s (old : ascii) :
  String.length (ReplaceAll s old "-") = String.length s.
Proof.
  induction s as [| c s IH]; [done |]. simpl ReplaceAll.
  destruct (Ascii.eqb c old).
  - change ("-" +:+ ReplaceAll s old "-") with (String "-" (ReplaceAll s old "-")).
    simpl. by rewrite IH.
  - simpl. by rewrite IH.
Qed.

Lemma TrimSuffix_length s suffix :
  String.length (TrimSuffix s suffix) =
    if HasSuffix s suffix then (String.length s - String.length suffix)%nat
    else String.length s.
Proof.
  destruct (HasSuffix s suffix) eqn:Hs.
  - pose proof (HasSuffix_inv s suffix Hs) as Hinv.
    apply (f_equal String.length) in Hinv. rewrite string_length_app in Hinv. lia.
  - unfold TrimSuffix. by rewrite Hs.
Qed.

Lemma cleanSnapshotName_length name :
  String.length (cleanSnapshotName name) =
    String.length (TrimSuffix (TrimSuffix name ".tar.gz") ".zip").
Proof. unfold cleanSnapshotName. by rewrite !ReplaceAll_length. Qed.

Lemma cleanSnapshotName_no_separator name :
  Contains (cleanSnapshotName name) "/" = false ∧
  Contains (cleanSnapshotName name) "\" = false.
Proof.
  unfold cleanSnapshotName. split.
  - rewrite Contains_char_ReplaceAll_other by done.
    by apply Contains_char_ReplaceAll_old.
  - by apply Contains_char_ReplaceAll_old.
Qed.

Lemma cleanSnapshotName_stable_iff m :
  Contains m "/" = false → Contains m "\" = false →
  cleanSnapshotName m = m ↔
  HasSuffix m ".tar.gz" = false ∧ HasSuffix m ".zip" = false.
Proof.
  intros Hs1 Hs2. split.
  - intros Hclean. apply (f_equal String.length) in Hclean.
    rewrite cleanSnapshotName_length, !TrimSuffix_length in Hclean.
    destruct (HasSuffix m ".tar.gz") eqn:H1.
    + exfalso. unfold HasSuffix in H1. apply andb_true_iff in H1 as [Hlen _].
      apply bool_decide_eq_true_1 in Hlen. simpl in Hlen.
      destruct (HasSuffix (TrimSuffix m ".tar.gz") ".zip"); simpl in Hclean; lia.
    + split; [done |].
      assert (Htrim : TrimSuffix m ".tar.gz" = m) by (unfold TrimSuffix; by rewrite H1).
      rewrite Htrim in Hclean.
      destruct (HasSuffix m ".zip") eqn:H2; [| done].
      exfalso. unfold HasSuffix in H2. apply andb_true_iff in H2 as [Hlen _].
      apply bool_decide_eq_true_1 in Hlen. simpl in Hlen, Hclean. lia.
  - intros [H1 H2]. unfold cleanSnapshotName, TrimSuffix. rewrite H1, H2.
    rewrite (ReplaceAll_absent m "/") by done. by apply ReplaceAll_absent.
Qed.

End CleanFacts.

(** X11.  [cleanSnapshotName] returns a name without "/" and without "\",
    never longer than its argument, that contains "@" exactly if the
    argument does; and it leaves a cleaned name unchanged exactly when the
    cleaned name does not end in ".tar.gz" or ".zip" (one archive extension
    is trimmed per call, so the cleaned form of "a.zip.zip" is cleaned
    again to "a"). *)
Theorem cleanSnapshotName_properties (name : string) :
  strings.Contains (storage.cleanSnapshotName name) "/" = false ∧
  strings.Contains (storage.cleanSnapshotName name) "\" = false ∧
  strings.Contains (storage.cleanSnapshotName name) "@" = strings.Contains name "@" ∧
  (String.length (storage.cleanSnapshotName name) ≤ String.length name)%nat ∧
  (storage.cleanSnapshotName (storage.cleanSnapshotName name) =
     storage.cleanSnapshotName name ↔
   strings.HasSuffix (storage.cleanSnapshotName name) ".tar.gz" = false ∧
   strings.HasSuffix (storage.cleanSnapshotName name) ".zip" = false).
Proof.
  destruct (cleanSnapshotName_no_separator name) as [Hs1 Hs2]. split_and!.
  - exact Hs1.
  - exact Hs2.
  - apply cleanSnapshotName_at.
  - rewrite cleanSnapshotName_length, !TrimSuffix_length.
    destruct (strings.HasSuffix _ ".zip"), (strings.HasSuffix name ".tar.gz"); lia.
  - by apply cleanSnapshotName_stable_iff.
Qed.

(** ** [ListSnapshots] *)

Section ListSnapshotsFacts.
Import strings storage.

Lemma Cut_at_inv s a b :
  Cut s "@" = Some (a, b) → s = a +:+ "@" +:+ b ∧ Contains a "@" = false.
Proof.
  revert a. induction s as [| c s IH]; intros a; [done |].
  cbn [Cut String.prefix]. destruct (ascii_dec "@" c) as [<- | Hne].
  - assert (Hp : String.prefix "" s = true) by (by destruct s). rewrite Hp.
    change (substring (String.length "@") (String.length (String "@" s)) (String "@" s))
      with (substring 0 (S (String.length s)) s).
    rewrite substring_0_all by lia. intros ?. simplify_eq. done.
  - destruct (Cut s "@") as [[a' b'] |] eqn:Hcut; [| done].
    intros ?. simplify_eq. destruct (IH a' eq_refl) as [-> Ha']. split; [done |].
    rewrite Contains_at_cons, Ha'. by rewrite (proj2 (Ascii.eqb_neq "@" c)).
Qed.

Lemma group_of_Some m n :
  group_of m = Some n ↔
  ∃ ver, ID m = versionedID n ver ∧ Contains n "@" = false.
Proof.
  unfold group_of. split.
  - destruct (Contains (ID m) "@"); [| done]. simpl. unfold SplitN2.
    destruct (Cut (ID m) "@") as [[a b] |] eqn:Hcut; [| done].
    intros ?. simplify_eq. apply Cut_at_inv in Hcut as [Hid Ha]. eauto.
  - intros (ver & Hid & Hn). rewrite Hid, Contains_versionedID. simpl.
    by rewrite SplitN2_versionedID.
Qed.

Lemma version_of_group n m :
  Contains n "@" = false → is_Some (version_of n m) ↔ group_of m = Some n.
Proof.
  intros Hn. rewrite group_of_Some. split.
  - intros [v Hv]. apply version_of_Some in Hv as (ver & Hid & _); eauto.
  - intros (ver & Hid & _). eexists. apply version_of_Some; eauto.
Qed.

(** The groups of the first loop. *)
Lemma snapshotGroups_lookup backups n :
  snapshotGroups backups !! n =
    match filter (λ m, group_of m = Some n) backups with
    | [] => None
    | vs => Some vs
    end.
Proof.
  unfold snapshotGroups.
  set (step := λ (groups : gmap string (list BackupMetadata)) (backup : BackupMetadata), _).
  assert (Hstep : ∀ acc m,
    step acc m = match group_of m with
                 | Some k => <[k := default [] (acc !! k) ++ [m]]> acc
                 | None => acc
                 end).
  { intros acc m. unfold step, group_of.
    destruct (negb _); [done |].
    by destruct (SplitN2 (ID m) "@") as [| ? [| ? [| ? ?]]]. }
  assert (Hgen : ∀ ms acc,
    foldl step acc ms !! n =
      match filter (λ m, group_of m = Some n) ms with
      | [] => acc !! n
      | vs => Some (default [] (acc !! n) ++ vs)
      end).
  { induction ms as [| m ms IH]; intros acc; [done |].
    simpl foldl. rewrite IH, Hstep, filter_cons.
    destruct (group_of m) as [k |] eqn:Hk.
    - destruct (decide (k = n)) as [-> | Hne].
      + rewrite decide_True by done. rewrite lookup_insert_eq. simpl.
        destruct (filter _ ms); [done |]. by rewrite <- app_assoc.
      + rewrite decide_False by congruence. by rewrite lookup_insert_ne.
    - by rewrite decide_False. }
  rewrite Hgen, lookup_empty. by destruct (filter _ backups).
Qed.

Lemma snapshotGroups_Some backups n vs :
  snapshotGroups backups !! n = Some vs →
  vs = filter (λ m, group_of m = Some n) backups ∧ vs ≠ [].
Proof.
  rewrite snapshotGroups_lookup.
  destruct (filter _ backups) eqn:Hf; [done |]. intros ?. by simplify_eq.
Qed.

(** The loop over the versions of a group ends on one of greatest
    creation time. *)
Lemma latest_backup_fold (vs : list BackupMetadata) (v0 : BackupMetadata) :
  let latest :=
    foldl (λ latest v,
             if bool_decide (CreatedAt latest < CreatedAt v) then v else latest)
          v0 vs in
  (latest = v0 ∨ latest ∈ vs) ∧
  CreatedAt v0 ≤ CreatedAt latest ∧
  ∀ v, v ∈ vs → CreatedAt v ≤ CreatedAt latest.
Proof.
  revert v0. induction vs as [| v vs IH]; intros v0; simpl.
  - split; [by left |]. split; [lia |]. intros v Hv. by apply elem_of_nil in Hv.
  - case_bool_decide as Hlt.
    + destruct (IH v) as (Hin & Hge & Hall). split_and!.
      * right. destruct Hin as [-> | Hin]; [left | by right].
      * lia.
      * intros v' Hv'. apply elem_of_cons in Hv' as [-> | Hv']; [done | by apply Hall].
    + destruct (IH v0) as (Hin & Hge & Hall). split_and!.
      * destruct Hin as [-> | Hin]; [by left | right; by right].
      * done.
      * intros v' Hv'. apply elem_of_cons in Hv' as [-> | Hv']; [lia | by apply Hall].
Qed.

(** The loops of [ListSnapshots] and of [GetLatestVersion] end on the
    same version. *)
Lemma latest_loops_agree n (ms : list BackupMetadata) (vs : list VersionInfo) m0 v0 :
  Forall2 (λ m v, version_of n m = Some v) ms vs →
  version_of n m0 = Some v0 →
  version_of n
    (foldl (λ latest v,
              if bool_decide (CreatedAt latest < CreatedAt v) then v else latest) m0 ms) =
  Some (foldl (λ latest v,
                 if bool_decide (vi_CreatedAt latest < vi_CreatedAt v) then v else latest)
              v0 vs).
Proof.
  intros Hall. revert m0 v0. induction Hall as [| m v ms vs Hmv Hall IH];
    intros m0 v0 H0; [done |].
  simpl. assert (Hc : ∀ m v, version_of n m = Some v → vi_CreatedAt v = CreatedAt m).
  { intros m' v' Hv. unfold version_of in Hv. destruct (HasPrefix _ _); [| done].
    destruct (SplitN2 _ _) as [| ? [| ? [| ? ?]]]; by simplify_eq. }
  rewrite (Hc _ _ H0), (Hc _ _ Hmv). case_bool_decide; by apply IH.
Qed.

Lemma omap_filter {A C : Type} (f : A → option C) (P : A → Prop)
    `{∀ x, Decision (P x)} (xs : list A) :
  (∀ x, is_Some (f x) → P x) → omap f xs = omap f (filter P xs).
Proof.
  intros HP. induction xs as [| x xs IH]; [done |].
  rewrite filter_cons. destruct (decide (P x)) as [Hx | Hx]; cbn.
  - destruct (f x); by rewrite IH.
  - destruct (f x) as [y |] eqn:Hy; [| exact IH].
    exfalso. apply Hx, HP. by rewrite Hy.
Qed.

Lemma omap_total {A C : Type} (f : A → option C) (xs : list A) :
  Forall (λ x, is_Some (f x)) xs → Forall2 (λ x y, f x = Some y) xs (omap f xs).
Proof.
  induction 1 as [| x xs [y Hy] Hall IH]; [constructor |].
  simpl. rewrite Hy. by constructor.
Qed.

End ListSnapshotsFacts.

Section ListSnapshotsEntries.
Import strings storage.

Lemma version_of_fields n m v :
  version_of n m = Some v →
  vi_CreatedAt v = CreatedAt m ∧ vi_Size v = Size m ∧ vi_Description v = Description m.
Proof.
  unfold version_of. destruct (HasPrefix _ _); [| done].
  destruct (SplitN2 _ _) as [| ? [| ? [| ? ?]]]; try done. intros ?. by simplify_eq.
Qed.

(** The entry of one group. *)
Lemma snapshot_of_group backups n vs info :
  snapshotGroups backups !! n = Some vs →
  snapshot_of n vs = Some info →
  Contains n "@" = false ∧
  ∃ m,
    m ∈ backups ∧ group_of m = Some n ∧
    (∀ m', m' ∈ backups → group_of m' = Some n → CreatedAt m' ≤ CreatedAt m) ∧
    info =
      MkSnapshotInfo n (Size m) (CreatedAt m) (Description m)
        (if String.eqb (VolumeName m) "" then [] else Split (VolumeName m) ",")
        "" (Version m)
        (Z.of_nat (length (filter (λ m', group_of m' = Some n) backups)))
        (Encrypted m).
Proof.
  intros Hgroup Hinfo. apply snapshotGroups_Some in Hgroup as [Hvs Hne].
  destruct vs as [| m0 ms]; [done |]. simpl in Hinfo.
  pose proof (latest_backup_fold (m0 :: ms) m0) as Hlatest. simpl in Hlatest.
  set (latest := foldl _ _ _) in Hlatest, Hinfo.
  destruct Hlatest as (Hin & _ & Hmax).
  assert (Hlatest_in : latest ∈ m0 :: ms).
  { destruct Hin as [-> | Hin]; [by left | done]. }
  assert (Hmem : ∀ m, m ∈ m0 :: ms ↔ group_of m = Some n ∧ m ∈ backups).
  { intros m. by rewrite Hvs, list_elem_of_filter. }
  destruct (proj1 (Hmem latest) Hlatest_in) as [Hgl Hbl]. split.
  - apply group_of_Some in Hgl as (ver & _ & Hn). exact Hn.
  - exists latest. split_and!; [done | done | |].
    + intros m' Hm' Hg'. apply Hmax. apply Hmem. by split.
    + simplify_eq. by rewrite <- Hvs.
Qed.

(** The entry of a group whose name is a cleaned name, and the versions
    of that name. *)
Lemma snapshot_of_versions {B : Type} `{Backend B} (s : B) backups n vs info :
  ListAll s = inl backups →
  snapshotGroups backups !! n = Some vs →
  snapshot_of n vs = Some info →
  cleanSnapshotName n = n →
  ∃ versions latest,
    ListVersions s n = inl versions ∧
    si_VersionCount info = Z.of_nat (length versions) ∧
    latest ∈ versions ∧
    GetLatestVersion s n = inl (vi_Version latest) ∧
    vi_CreatedAt latest = si_CreatedAt info ∧
    vi_Size latest = si_Size info ∧
    vi_Description latest = si_Description info ∧
    ∀ v, v ∈ versions → vi_CreatedAt v ≤ si_CreatedAt info.
Proof.
  intros Hlist Hgroup Hinfo Hclean.
  destruct (snapshot_of_group backups n vs info Hgroup Hinfo) as (Hn & _).
  apply snapshotGroups_Some in Hgroup as [Hvs Hne].
  assert (Hversions : ListVersions s n = inl (omap (version_of n) vs)).
  { rewrite ListVersions_omap, Hlist, Hclean. f_equal. rewrite Hvs.
    apply omap_filter. intros m Hm. by apply version_of_group in Hm. }
  assert (Hall : Forall2 (λ m v, version_of n m = Some v) vs (omap (version_of n) vs)).
  { apply omap_total. rewrite Hvs. apply Forall_forall. intros m Hm.
    apply list_elem_of_filter in Hm as [Hg _]. by apply version_of_group. }
  destruct vs as [| m0 ms]; [done |].
  destruct (omap (version_of n) (m0 :: ms)) as [| v0 vis] eqn:Hvis;
    [by apply Forall2_nil_inv_r in Hall |].
  pose proof Hall as Hall0. apply Forall2_cons_1 in Hall as [H0 Hrest].
  pose proof (latest_loops_agree n (m0 :: ms) (v0 :: vis) m0 v0 Hall0 H0) as Hagree.
  pose proof (latest_fold (v0 :: vis) v0) as Hlatest. simpl in Hlatest.
  simpl in Hinfo, Hagree.
  set (latestM := foldl _ _ ms) in Hinfo, Hagree.
  set (latestV := foldl _ _ vis) in Hlatest, Hagree.
  destruct Hlatest as (Hin & _ & Hmax).
  apply version_of_fields in Hagree as (Hc & Hsz & Hd).
  exists (v0 :: vis), latestV. simplify_eq. simpl. split_and!; try done.
  - apply Forall2_length in Hrest. by rewrite Hrest.
  - destruct Hin as [-> | Hin]; [by left | done].
  - unfold GetLatestVersion. rewrite Hversions. simpl. by fold latestV.
  - intros v Hv. rewrite <- Hc. by apply Hmax.
Qed.

End ListSnapshotsEntries.

(** X12.  [ListSnapshots], whatever the order in which the groups are
    visited and whatever the backend: it returns a list (it does not stop
    on an empty group) with one entry for every text that stands before
    the first "@" of a listed id, each such text once.  An entry carries
    size, creation time, description, version and encryption flag of a
    record of its group whose creation time is the greatest of the group,
    and the number of records of the group.  When cleaning leaves the
    name of an entry unchanged, its count is the number of versions that
    [ListVersions] reports for that name, and its creation time, size and
    description are those of the version that [GetLatestVersion] selects. *)
Theorem ListSnapshots_entries {B : Type} `{storage.Backend B} (s : B)
    (range : gmap string (list storage.BackupMetadata) →
             list (string * list storage.BackupMetadata))
    (backups : list storage.BackupMetadata) :
  (∀ groups, range groups ≡ₚ map_to_list groups) →
  storage.ListAll s = inl backups →
  ∃ snapshots,
    storage.ListSnapshots range s = Some (inl snapshots) ∧
    NoDup (map storage.si_Name snapshots) ∧
    (∀ n, n ∈ map storage.si_Name snapshots ↔
          ∃ m, m ∈ backups ∧ storage.group_of m = Some n) ∧
    ∀ info, info ∈ snapshots →
      strings.Contains (storage.si_Name info) "@" = false ∧
      (∃ m,
         m ∈ backups ∧ storage.group_of m = Some (storage.si_Name info) ∧
         (∀ m', m' ∈ backups → storage.group_of m' = Some (storage.si_Name info) →
                storage.CreatedAt m' ≤ storage.CreatedAt m) ∧
         info =
           storage.MkSnapshotInfo (storage.si_Name info) (storage.Size m)
             (storage.CreatedAt m) (storage.Description m)
             (if String.eqb (storage.VolumeName m) "" then []
              else strings.Split (storage.VolumeName m) ",")
             "" (storage.Version m)
             (Z.of_nat (length (filter (λ m', storage.group_of m' =
                                              Some (storage.si_Name info)) backups)))
             (storage.Encrypted m)) ∧
      (storage.cleanSnapshotName (storage.si_Name info) = storage.si_Name info →
       ∃ versions latest,
         storage.ListVersions s (storage.si_Name info) = inl versions ∧
         storage.si_VersionCount info = Z.of_nat (length versions) ∧
         latest ∈ versions ∧
         storage.GetLatestVersion s (storage.si_Name info) =
           inl (storage.vi_Version latest) ∧
         storage.vi_CreatedAt latest = storage.si_CreatedAt info ∧
         storage.vi_Size latest = storage.si_Size info ∧
         storage.vi_Description latest = storage.si_Description info ∧
         ∀ v, v ∈ versions → storage.vi_CreatedAt v ≤ storage.si_CreatedAt info).
Proof.
  intros Hrange Hlist. unfold storage.ListSnapshots. rewrite Hlist.
  set (groups := storage.snapshotGroups backups).
  assert (Hin : ∀ n vs, (n, vs) ∈ range groups ↔ groups !! n = Some vs).
  { intros n vs. rewrite (Hrange groups). apply elem_of_map_to_list. }
  assert (Hsome : is_Some (mapM (λ group, storage.snapshot_of group.1 group.2)
                             (range groups))).
  { apply mapM_is_Some_2, Forall_forall. intros [n vs] Hg. apply Hin in Hg.
    apply snapshotGroups_Some in Hg as [_ Hne]. simpl. by destruct vs. }
  destruct Hsome as [snapshots Hmap]. rewrite Hmap. exists snapshots.
  split; [done |]. apply mapM_Some_1 in Hmap.
  assert (Hname : ∀ n vs info, storage.snapshot_of n vs = Some info →
                               storage.si_Name info = n).
  { intros n [| v0 vs] info Hinfo; simpl in Hinfo; by simplify_eq. }
  assert (Hnames : map storage.si_Name snapshots = (range groups).*1).
  { clear -Hmap Hname. induction Hmap as [| [n vs] info rg sn Hinfo Hmap IH]; [done |].
    simpl. by rewrite IH, (Hname _ _ _ Hinfo). }
  assert (Hentry : ∀ info, info ∈ snapshots →
                     ∃ vs, groups !! storage.si_Name info = Some vs ∧
                           storage.snapshot_of (storage.si_Name info) vs = Some info).
  { intros info Hinfo. apply list_elem_of_lookup_1 in Hinfo as [i Hi].
    destruct (Forall2_lookup_r _ _ _ _ _ Hmap Hi) as ([n vs] & Hg & Hs).
    simpl in Hs. rewrite (Hname _ _ _ Hs). exists vs. split; [| done].
    apply Hin. by eapply list_elem_of_lookup_2. }
  split_and!.
  - rewrite Hnames, (Hrange groups). apply NoDup_fst_map_to_list.
  - intros n. rewrite Hnames. split.
    + intros Hn. apply list_elem_of_fmap in Hn as ([n' vs] & -> & Hg). simpl.
      apply Hin in Hg. apply snapshotGroups_Some in Hg as [Hvs Hne].
      destruct vs as [| m ms]; [done |].
      assert (Hm : m ∈ m :: ms) by (by left). rewrite Hvs in Hm.
      apply list_elem_of_filter in Hm as [Hg Hm]. eauto.
    + intros (m & Hm & Hg).
      destruct (groups !! n) as [vs |] eqn:Hgn.
      * apply list_elem_of_fmap. exists (n, vs). split; [done | by apply Hin].
      * unfold groups in Hgn. rewrite snapshotGroups_lookup in Hgn.
        destruct (filter _ backups) eqn:Hf; [| done].
        assert (Hmf : m ∈ filter (λ m0, storage.group_of m0 = Some n) backups)
          by (by apply list_elem_of_filter).
        rewrite Hf in Hmf. by apply elem_of_nil in Hmf.
  - intros info Hinfo. destruct (Hentry info Hinfo) as (vs & Hg & Hs).
    destruct (snapshot_of_group backups _ vs info Hg Hs) as (Hn & m & Hm).
    split; [exact Hn |]. split; [by exists m |].
    intros Hclean. by eapply snapshot_of_versions.
Qed.

(** The statement at a directory with one version each of two names. *)
Lemma ListSnapshots_entries_witness :
  ∃ snapshots,
    storage.ListSnapshots map_to_list
      (storage.StoreSnapshot
         (storage.StoreSnapshot (∅ : gmap string storage.content) "b1"
            (storage.MkBackup ""
               (storage.MkMetadata "" "" "" 1 0 "" "v1" "" "" "" "" false)
               [Ret [9] None]) "20240101-000000" 8).2
         "b2"
         (storage.MkBackup "" (storage.MkMetadata "" "" "" 3 0 "" "v1" "" "" "" "" false)
            [Ret [1; 2; 3] None]) "20240101-000003" 9).2 = Some (inl snapshots) ∧
    NoDup (map storage.si_Name snapshots) ∧
    (∀ n, n ∈ map storage.si_Name snapshots ↔
          ∃ m, m ∈ [storage.MkMetadata "b1@20240101-000000" "b1" "volume-snapshot" 1 8 ""
                      "v1" "" "" "" "20240101-000000" false;
                    storage.MkMetadata "b2@20240101-000003" "b2" "volume-snapshot" 3 9 ""
                      "v1" "" "" "" "20240101-000003" false] ∧
               storage.group_of m = Some n).
Proof.
  destruct (ListSnapshots_entries
              (storage.StoreSnapshot
                 (storage.StoreSnapshot (∅ : gmap string storage.content) "b1"
                    (storage.MkBackup ""
                       (storage.MkMetadata "" "" "" 1 0 "" "v1" "" "" "" "" false)
                       [Ret [9] None]) "20240101-000000" 8).2
                 "b2"
                 (storage.MkBackup ""
                    (storage.MkMetadata "" "" "" 3 0 "" "v1" "" "" "" "" false)
                    [Ret [1; 2; 3] None]) "20240101-000003" 9).2
              map_to_list
              [storage.MkMetadata "b1@20240101-000000" "b1" "volume-snapshot" 1 8 ""
                 "v1" "" "" "" "20240101-000000" false;
               storage.MkMetadata "b2@20240101-000003" "b2" "volume-snapshot" 3 9 ""
                 "v1" "" "" "" "20240101-000003" false])
    as (snapshots & Hlist & Hnodup & Hnames & _).
  - intros groups. reflexivity.
  - vm_compute. reflexivity.
  - exists snapshots. split_and!; [exact Hlist | exact Hnodup | exact Hnames].
Defined.

(** ** A stored stream cut at a chunk boundary *)

Section Truncation.
Import crypto.
Context `{Primitives}.

(** The sealed chunks of the first [k] plaintext chunks are the beginning
    of the sealed chunks of the whole plaintext. *)
Lemma sealed_chunks_take n key baseNonce :
  ∀ (k : nat) (data : list Z) counter,
  sealed_chunks n key baseNonce counter (take (k * ChunkSize) data)
    `prefix_of` sealed_chunks n key baseNonce counter data.
Proof.
  induction n as [| n IH]; intros k data counter.
  - done.
  - destruct k as [| k].
    { rewrite Nat.mul_0_l, take_0, sealed_chunks_nil. apply prefix_nil. }
    destruct (decide (data = [])) as [-> | Hne].
    { rewrite take_nil. done. }
    assert (Hne' : take (S k * ChunkSize) data ≠ []).
    { intros Hnil. apply (f_equal length) in Hnil. rewrite length_take in Hnil.
      pose proof ChunkSize_pos. destruct data; simpl in *; [done | lia]. }
    rewrite !sealed_chunks_cons by done.
    assert (Htake : take ChunkSize (take (S k * ChunkSize) data) = take ChunkSize data).
    { rewrite take_take. f_equal; lia. }
    assert (Hdrop : drop ChunkSize (take (S k * ChunkSize) data) =
                    take (k * ChunkSize) (drop ChunkSize data)).
    { rewrite skipn_firstn_comm. f_equal; lia. }
    rewrite Htake, Hdrop. apply (prefix_app_alt _ _ _ _ eq_refl), IH.
Qed.

End Truncation.

(** X13.  The codec does not notice a stored stream that was cut at a
    chunk boundary.  For every plaintext, password and number [k]: the
    header followed by the first [k] sealed chunks is a beginning of the
    stored stream, and decrypting that beginning with the same password
    runs to the end without error and yields the first [k] chunks of the
    plaintext ([k] times 64 KiB), nothing telling that the rest is
    missing. *)
Theorem truncation_at_chunk_boundary_undetected `{crypto.Primitives}
    (data : list Z) (password : string) (rand : Reader) (plen1 plen2 k : nat) :
  (0 < plen1)%nat → (0 < plen2)%nat →
  error_free rand →
  (crypto.SaltSize + crypto.NonceSize ≤ length (stream_bytes rand))%nat →
  ∃ (stored cut : list Z) (fuel0 : nat),
    (∀ fuel, (fuel0 ≤ fuel)%nat →
       crypto.encrypt_pipe fuel plen1 (bytes_NewReader data) password rand =
         Some (stored, None)) ∧
    cut `prefix_of` stored ∧
    (∀ fuel, (fuel0 ≤ fuel)%nat →
       crypto.decrypt_pipe fuel plen2 (bytes_NewReader cut) password =
         Some (take (k * crypto.ChunkSize) data, None)).
Proof.
  intros Hp1 Hp2 Hfree Hrand.
  destruct (NewEncryptReader_ok (bytes_NewReader data) password rand Hfree Hrand)
    as (salt & nonce & rand' & Hnew & Hsalt & Hnonce).
  set (key := crypto.DeriveKey password salt).
  set (part := take (k * crypto.ChunkSize) data).
  set (sealed := crypto.sealed_chunks (length data) key nonce 0 data).
  set (sealed' := crypto.sealed_chunks (length data) key nonce 0 part).
  assert (Hpart : (length part ≤ length data)%nat).
  { unfold part. rewrite length_take. lia. }
  destruct (er_copy_flat plen1 key nonce (length data) Hp1 data 0 (le_n _)) as [f1 Henc].
  destruct (dr_copy_flat plen2 key nonce (length data) Hp2 Hnonce part 0 Hpart)
    as [f2 Hdec].
  exists ((crypto.magic ++ [1] ++ salt ++ nonce) ++ sealed),
         ((crypto.magic ++ [1] ++ salt ++ nonce) ++ sealed'), (f1 `max` f2)%nat.
  split_and!.
  - intros fuel Hfuel.
    unfold crypto.encrypt_pipe. rewrite Hnew, WriteEncryptionHeader_buffer.
    fold key. by rewrite Henc by lia.
  - apply (prefix_app_alt _ _ _ _ eq_refl), sealed_chunks_take.
  - intros fuel Hfuel.
    unfold crypto.decrypt_pipe. rewrite ReadEncryptionHeader_flat by done.
    unfold crypto.NewDecryptReader. simpl. fold key. fold sealed'. by rewrite Hdec by lia.
Qed.

(** The statement at a three-byte plaintext cut before its only chunk:
    the bare header decrypts to the empty plaintext. *)
Lemma truncation_at_chunk_boundary_undetected_witness :
  ∃ (stored cut : list Z) (fuel0 : nat),
    (∀ fuel, (fuel0 ≤ fuel)%nat →
       crypto.encrypt_pipe fuel 4 (bytes_NewReader [10; 20; 30]) "secret"
         (bytes_NewReader (replicate 44 7)) = Some (stored, None)) ∧
    cut `prefix_of` stored ∧
    (∀ fuel, (fuel0 ≤ fuel)%nat →
       crypto.decrypt_pipe fuel 4 (bytes_NewReader cut) "secret" =
         Some (take (0 * crypto.ChunkSize) [10; 20; 30], None)).
Proof.
  apply (truncation_at_chunk_boundary_undetected (H := reference_Primitives)
           [10; 20; 30] "secret" (bytes_NewReader (replicate 44 7)) 4 4 0).
  - lia.
  - lia.
  - repeat constructor.
  - vm_compute. lia.
Defined.

(** ** [RestoreDirectVolume] past its gates *)

Section RestoreRuns.
Import crypto storage backup.
Context `{Primitives} {B : Type} `{Backend B}.

Lemma ChunkSize_large : (512 ≤ ChunkSize)%nat.
Proof. apply Nat.leb_le. vm_compute. reflexivity. Qed.

(** The call up to the point where the backup data is read. *)
Lemma RestoreDirectVolume_confirmed fuel (s : B) volumeInfo response password prompt
    closeErr restore target name force plen bk :
  GetSnapshot s name = inl bk →
  force = true ∨ response = inl "y"%string ∨ response = inl "Y"%string →
  RestoreDirectVolume fuel (Some s)
    (MkEnv (inl true) (inl volumeInfo) response None password prompt closeErr restore)
    target name false force plen =
  match finalReader
          (MkEnv (inl true) (inl volumeInfo) response None password prompt closeErr restore)
          bk with
  | inr err => Some (Failed err)
  | inl reader =>
      match (match reader with
             | inl plain => io_Copy Read fuel plain plen
             | inr decryptReader => io_Copy dr_Read fuel decryptReader plen
             end) with
      | None => None
      | Some (written, Some err) =>
          Some (CopyFailed written (ErrWrap "failed to write backup data" err))
      | Some (written, None) =>
          match closeErr with
          | Some err => Some (CloseFailed written (ErrWrap "failed to close temp file" err))
          | None =>
              Some (Extracted written
                      (match restore written with
                       | Some err => Some (ErrWrap "failed to restore volume" err)
                       | None => None
                       end))
          end
      end
  end.
Proof.
  intros Hget Hconfirm. unfold RestoreDirectVolume. simpl. rewrite Hget.
  assert (Hgate : negb force &&
                  negb (match response with
                        | inl response => String.eqb response "y" || String.eqb response "Y"
                        | inr _ => false
                        end) = false).
  { destruct Hconfirm as [-> | [-> | ->]]; [done | | ]; by destruct force. }
  by rewrite Hgate.
Qed.

(** The first 512 bytes of a stored stream that begins with a header. *)
Lemma headerBytes_magic (stored : list Z) :
  take 8 stored = magic → IsEncrypted (headerBytes (take 512 stored)) = true.
Proof.
  intros Hmagic. unfold IsEncrypted, headerBytes.
  assert (Hlen : (8 ≤ length stored)%nat).
  { apply (f_equal length) in Hmagic. rewrite length_take in Hmagic.
    change (length magic) with 8%nat in Hmagic. lia. }
  apply andb_true_iff. split; apply bool_decide_eq_true_2.
  - rewrite length_app, length_replicate, length_take. lia.
  - rewrite take_app_le by (rewrite length_take; lia).
    rewrite take_take. by replace (8 `min` 512)%nat with 8%nat by lia.
Qed.

Lemma headerBytes_read (read : list Z) :
  take (length read) (headerBytes read) = read.
Proof. unfold headerBytes. by rewrite take_app_length. Qed.

(** A flat stored stream of at most 512 bytes that begins with a header:
    the [DecryptReader] is handed the rest as a flat reader. *)
Lemma finalReader_short env bk salt nonce rest :
  Encrypted (b_Metadata bk) = true →
  b_DataReader bk = bytes_NewReader ((magic ++ [1] ++ salt ++ nonce) ++ rest) →
  length salt = SaltSize → length nonce = NonceSize →
  (length rest ≤ 459)%nat →
  client_password env ≠ ""%string →
  finalReader env bk =
    inl (inr (NewDecryptReader (bytes_NewReader rest) (client_password env)
                (MkHeader salt nonce))).
Proof.
  intros Henc Hrd Hsalt Hnonce Hrest Hpw. unfold finalReader. rewrite Henc, Hrd.
  set (stored := (magic ++ [1] ++ salt ++ nonce) ++ rest).
  assert (Hlen : length stored = (53 + length rest)%nat).
  { unfold stored. rewrite !length_app, Hsalt, Hnonce. reflexivity. }
  assert (Hne : stored ≠ []) by (intros E; by rewrite E in Hlen).
  rewrite Read_flat by done.
  rewrite (take_ge stored) by lia. rewrite (drop_ge stored) by lia.
  assert (H8 : take 8 stored = magic) by reflexivity.
  pose proof (headerBytes_magic stored H8) as Hmagic.
  rewrite (take_ge stored) in Hmagic by lia. rewrite Hmagic. simpl negb. cbv iota.
  destruct (String.eqb_spec (client_password env) "") as [? | _]; [done |].
  destruct (String.eqb_spec (client_password env) "") as [? | _]; [done |].
  rewrite headerBytes_read. unfold MultiReader. simpl bytes_NewReader at 2.
  rewrite app_nil_r. unfold stored.
  by rewrite ReadEncryptionHeader_flat.
Qed.

(** A longer one: the [DecryptReader] is handed, as the first thing to
    read, the 459 bytes that follow the header in the 512-byte buffer. *)
Lemma finalReader_long env bk salt nonce rest :
  Encrypted (b_Metadata bk) = true →
  b_DataReader bk = bytes_NewReader ((magic ++ [1] ++ salt ++ nonce) ++ rest) →
  length salt = SaltSize → length nonce = NonceSize →
  (459 < length rest)%nat →
  client_password env ≠ ""%string →
  finalReader env bk =
    inl (inr (NewDecryptReader [Ret (take 459 rest) None; Ret (drop 459 rest) None]
                (client_password env) (MkHeader salt nonce))).
Proof.
  intros Henc Hrd Hsalt Hnonce Hrest Hpw. unfold finalReader. rewrite Henc, Hrd.
  set (hdr := magic ++ [1] ++ salt ++ nonce).
  set (stored := hdr ++ rest).
  assert (Hhdr : length hdr = 53%nat).
  { unfold hdr. rewrite !length_app, Hsalt, Hnonce. reflexivity. }
  assert (Hne : stored ≠ []).
  { intros E. apply (f_equal length) in E. unfold stored in E.
    rewrite length_app, Hhdr in E. simpl in E. lia. }
  rewrite Read_flat by done.
  assert (H8 : take 8 stored = magic) by reflexivity.
  rewrite (headerBytes_magic stored H8). simpl negb. cbv iota.
  destruct (String.eqb_spec (client_password env) "") as [? | _]; [done |].
  destruct (String.eqb_spec (client_password env) "") as [? | _]; [done |].
  rewrite headerBytes_read.
  assert (Htake : take 512 stored = hdr ++ take 459 rest).
  { unfold stored. rewrite take_app, Hhdr. rewrite (take_ge hdr) by lia. done. }
  assert (Hdrop : drop 512 stored = drop 459 rest).
  { unfold stored. rewrite drop_app, Hhdr. rewrite (drop_ge hdr) by lia. done. }
  rewrite Htake, Hdrop.
  assert (Hfrag : take 459 rest ≠ []).
  { intros E. apply (f_equal length) in E. rewrite length_take in E.
    change (@length Z []) with 0%nat in E. lia. }
  assert (Htail : drop 459 rest ≠ []).
  { intros E. apply (f_equal length) in E. rewrite length_drop in E.
    change (@length Z []) with 0%nat in E. lia. }
  assert (Hflat1 : bytes_NewReader (hdr ++ take 459 rest) =
                   [Ret (hdr ++ take 459 rest) None]).
  { unfold bytes_NewReader. destruct (hdr ++ take 459 rest) eqn:E; [| done].
    apply app_eq_nil in E. by destruct E. }
  assert (Hflat2 : bytes_NewReader (drop 459 rest) = [Ret (drop 459 rest) None]).
  { unfold bytes_NewReader. by destruct (drop 459 rest). }
  rewrite Hflat1, Hflat2.
  change (MultiReader [Ret (hdr ++ take 459 rest) None] [Ret (drop 459 rest) None])
    with [Ret (hdr ++ take 459 rest) None; Ret (drop 459 rest) None].
  unfold hdr. by rewrite ReadEncryptionHeader_head.
Qed.

(** The sealed chunks of a plaintext of at most 443 bytes fit, behind the
    header, into the 512 bytes that the restore reads first. *)
Lemma sealed_chunks_small n key nonce (archive : list Z) :
  length nonce = NonceSize → (length archive ≤ 443)%nat →
  (length (sealed_chunks n key nonce 0 archive) ≤ 459)%nat.
Proof.
  intros Hnonce Hlen. destruct n as [| n]; [simpl; lia |].
  destruct (decide (archive = [])) as [-> | Hne].
  { rewrite sealed_chunks_nil. simpl. lia. }
  rewrite sealed_chunks_cons by done. pose proof ChunkSize_large.
  rewrite (drop_ge archive) by lia. rewrite sealed_chunks_nil, app_nil_r.
  rewrite Seal_length by (by rewrite er_chunkNonce_length).
  rewrite length_take. unfold Overhead. lia.
Qed.

(** Those of a longer plaintext do not: the first 459 bytes are a
    beginning of the first sealed chunk. *)
Lemma sealed_chunks_large n key nonce (archive : list Z) :
  length nonce = NonceSize → (443 < length archive)%nat → (length archive ≤ n)%nat →
  (459 < length (sealed_chunks n key nonce 0 archive))%nat ∧
  take 459 (sealed_chunks n key nonce 0 archive) =
    take 459 (Seal key (er_chunkNonce nonce 0) (take ChunkSize archive)).
Proof.
  intros Hnonce Hlen Hn. destruct n as [| n]; [lia |].
  assert (Hne : archive ≠ []) by (intros ->; simpl in Hlen; lia).
  rewrite sealed_chunks_cons by done. pose proof ChunkSize_large.
  assert (Hseal : (459 < length (Seal key (er_chunkNonce nonce 0)
                                   (take ChunkSize archive)))%nat).
  { rewrite Seal_length by (by rewrite er_chunkNonce_length).
    rewrite length_take. unfold Overhead. lia. }
  split.
  - rewrite length_app. lia.
  - rewrite take_app_le by lia. done.
Qed.

(** A backup that is not flagged as encrypted: the bytes of its data
    reader are copied and handed to the extraction. *)
Lemma RestoreDirectVolume_plain_run (s : B) name target bk volumeInfo response password
    prompt restore force plen :
  GetSnapshot s name = inl bk →
  Encrypted (b_Metadata bk) = false →
  force = true ∨ response = inl "y"%string ∨ response = inl "Y"%string →
  (0 < plen)%nat →
  ∃ fuel0, ∀ fuel, (fuel0 ≤ fuel)%nat →
    RestoreDirectVolume fuel (Some s)
      (MkEnv (inl true) (inl volumeInfo) response None password prompt None restore)
      target name false force plen =
    Some (match read_all (b_DataReader bk) with
          | (written, None) =>
              Extracted written
                (match restore written with
                 | Some err => Some (ErrWrap "failed to restore volume" err)
                 | None => None
                 end)
          | (written, Some err) =>
              CopyFailed written (ErrWrap "failed to write backup data" err)
          end).
Proof.
  intros Hget Henc Hconfirm Hplen.
  destruct (io_Copy_Read_read_all plen (b_DataReader bk) Hplen) as [fuel0 Hcopy].
  exists fuel0. intros fuel Hfuel.
  rewrite (RestoreDirectVolume_confirmed _ _ _ _ _ _ _ _ _ _ _ _ bk Hget Hconfirm).
  unfold finalReader. rewrite Henc. rewrite Hcopy by done.
  by destruct (read_all (b_DataReader bk)) as [written [err |]].
Qed.

(** An encrypted backup of at most 443 plaintext bytes. *)
Lemma RestoreDirectVolume_small_run (s : B) name target bk volumeInfo response password
    prompt restore force plen n (archive salt nonce : list Z) :
  GetSnapshot s name = inl bk →
  Encrypted (b_Metadata bk) = true →
  b_DataReader bk =
    bytes_NewReader
      ((magic ++ [1] ++ salt ++ nonce) ++
       sealed_chunks n (DeriveKey password salt) nonce 0 archive) →
  length salt = SaltSize → length nonce = NonceSize →
  (length archive ≤ n)%nat → (length archive ≤ 443)%nat →
  password ≠ ""%string →
  force = true ∨ response = inl "y"%string ∨ response = inl "Y"%string →
  (0 < plen)%nat →
  ∃ fuel0, ∀ fuel, (fuel0 ≤ fuel)%nat →
    RestoreDirectVolume fuel (Some s)
      (MkEnv (inl true) (inl volumeInfo) response None password prompt None restore)
      target name false force plen =
    Some (Extracted archive
            (match restore archive with
             | Some err => Some (ErrWrap "failed to restore volume" err)
             | None => None
             end)).
Proof.
  intros Hget Henc Hrd Hsalt Hnonce Hn Hsmall Hpw Hconfirm Hplen.
  destruct (dr_copy_flat plen (DeriveKey password salt) nonce n Hplen Hnonce
              archive 0 Hn) as [fuel0 Hcopy].
  exists fuel0. intros fuel Hfuel.
  rewrite (RestoreDirectVolume_confirmed _ _ _ _ _ _ _ _ _ _ _ _ bk Hget Hconfirm).
  rewrite (finalReader_short _ bk salt nonce _ Henc Hrd Hsalt Hnonce);
    [| by apply sealed_chunks_small | done].
  unfold NewDecryptReader. simpl. by rewrite Hcopy.
Qed.

(** An encrypted backup of more than 443 plaintext bytes. *)
Lemma RestoreDirectVolume_large_run (s : B) name target bk volumeInfo response password
    prompt closeErr restore force plen n fuel (archive salt nonce : list Z) :
  GetSnapshot s name = inl bk →
  Encrypted (b_Metadata bk) = true →
  b_DataReader bk =
    bytes_NewReader
      ((magic ++ [1] ++ salt ++ nonce) ++
       sealed_chunks n (DeriveKey password salt) nonce 0 archive) →
  length salt = SaltSize → length nonce = NonceSize →
  (length archive ≤ n)%nat → (443 < length archive)%nat →
  password ≠ ""%string →
  force = true ∨ response = inl "y"%string ∨ response = inl "Y"%string →
  Open (DeriveKey password salt) (er_chunkNonce nonce 0)
    (take 459 (Seal (DeriveKey password salt) (er_chunkNonce nonce 0)
                 (take ChunkSize archive))) = None →
  (0 < fuel)%nat →
  RestoreDirectVolume fuel (Some s)
    (MkEnv (inl true) (inl volumeInfo) response None password prompt closeErr restore)
    target name false force plen =
  Some (CopyFailed []
          (ErrWrap "failed to write backup data"
             (ErrWrap "decryption failed" ErrOpen))).
Proof.
  intros Hget Henc Hrd Hsalt Hnonce Hn Hlarge Hpw Hconfirm Hopen Hfuel.
  destruct (sealed_chunks_large n (DeriveKey password salt) nonce archive
              Hnonce Hlarge Hn) as [Hlen Hfrag].
  rewrite (RestoreDirectVolume_confirmed _ _ _ _ _ _ _ _ _ _ _ _ bk Hget Hconfirm).
  rewrite (finalReader_long _ bk salt nonce _ Henc Hrd Hsalt Hnonce); [| done | done].
  rewrite Hfrag. unfold NewDecryptReader. simpl.
  set (frag := take 459 _) in *. set (tail := drop 459 _).
  destruct fuel as [| fuel]; [lia |]. simpl.
  assert (Hfraglen : length frag = 459%nat).
  { unfold frag. rewrite length_take.
    rewrite Seal_length by (by rewrite er_chunkNonce_length).
    rewrite length_take. pose proof ChunkSize_large. unfold Overhead. lia. }
  assert (Hread : Read [Ret frag None; Ret tail None] (ChunkSize + Overhead) =
                  ((frag, None), [Ret tail None])).
  { unfold Read. rewrite bool_decide_eq_true_2; [done |].
    pose proof ChunkSize_large. lia. }
  assert (Hne : frag ≠ []) by (intros E; by rewrite E in Hfraglen).
  rewrite (dr_Read_opens _ plen frag None [Ret tail None]) by done.
  simpl. rewrite dr_chunkNonce_eq, Hopen. done.
Qed.

End RestoreRuns.


(** X14.  Past its gates (the volume exists, the call is not a dry run
    and is forced or confirmed with "y" or "Y", the temporary file can be
    created and closed), a restore of a backup that is not flagged as
    encrypted hands to the extraction exactly the bytes its data reader
    delivers, whatever the size of the transfer buffer; when the reader
    breaks off with an error, the call fails with "failed to write backup
    data" and nothing is extracted. *)
Theorem RestoreDirectVolume_plain `{crypto.Primitives} {B : Type} `{storage.Backend B}
    (s : B) (name target : string) (bk : storage.Backup) (volumeInfo : backup.VolumeInfo)
    (response : string + error) (password prompt : string)
    (restore : list Z → option error) (force : bool) (plen : nat) :
  storage.GetSnapshot s name = inl bk →
  storage.Encrypted (storage.b_Metadata bk) = false →
  force = true ∨ response = inl "y"%string ∨ response = inl "Y"%string →
  (0 < plen)%nat →
  ∃ fuel0, ∀ fuel, (fuel0 ≤ fuel)%nat →
    backup.RestoreDirectVolume fuel (Some s)
      (backup.MkEnv (inl true) (inl volumeInfo) response None password prompt None restore)
      target name false force plen =
    Some (match storage.read_all (storage.b_DataReader bk) with
          | (written, None) =>
              backup.Extracted written
                (match restore written with
                 | Some err => Some (ErrWrap "failed to restore volume" err)
                 | None => None
                 end)
          | (written, Some err) =>
              backup.CopyFailed written (ErrWrap "failed to write backup data" err)
          end).
Proof. apply RestoreDirectVolume_plain_run. Qed.

(** The statement at a stored backup of three bytes. *)
Lemma RestoreDirectVolume_plain_witness :
  ∃ fuel0, ∀ fuel, (fuel0 ≤ fuel)%nat →
    backup.RestoreDirectVolume fuel
      (Some (storage.StoreSnapshot (∅ : gmap string storage.content) "b1"
               (storage.MkBackup "b1"
                  (storage.MkMetadata "" "b1" "" 3 0 "" "v1" "" "" "" "" false)
                  [Ret [1; 2; 3] None]) "20240101-000000" 1).2)
      (backup.MkEnv (inl true) (inl (backup.MkVolumeInfo "v2" "" "" 0 "local" ""))
         (inl "n"%string) None "" "" None (λ _, None))
      "v2" "b1" false true 4 =
    Some (backup.Extracted [1; 2; 3] None).
Proof.
  apply (RestoreDirectVolume_plain (H := reference_Primitives)
           (storage.StoreSnapshot (∅ : gmap string storage.content) "b1"
              (storage.MkBackup "b1"
                 (storage.MkMetadata "" "b1" "" 3 0 "" "v1" "" "" "" "" false)
                 [Ret [1; 2; 3] None]) "20240101-000000" 1).2
           "b1" "v2"
           (storage.MkBackup "b1@20240101-000000"
              (storage.MkMetadata "b1@20240101-000000" "b1" "volume-snapshot" 3 1 ""
                 "v1" "" "" "" "20240101-000000" false)
              (bytes_NewReader [1; 2; 3]))
           (backup.MkVolumeInfo "v2" "" "" 0 "local" "") (inl "n"%string) "" ""
           (λ _, None) true 4).
  - vm_compute. reflexivity.
  - reflexivity.
  - by left.
  - lia.
Defined.

(** X15.  A restore of an encrypted backup whose plaintext has at most
    443 bytes succeeds: when the stored stream is the header followed by
    the sealed chunks of the plaintext under the key derived from the
    password, the call, past its gates and given that password, extracts
    exactly the plaintext. *)
Theorem RestoreDirectVolume_encrypted_small `{crypto.Primitives} {B : Type}
    `{storage.Backend B}
    (s : B) (name target : string) (bk : storage.Backup) (volumeInfo : backup.VolumeInfo)
    (response : string + error) (password prompt : string)
    (restore : list Z → option error) (force : bool) (plen n : nat)
    (archive salt nonce : list Z) :
  storage.GetSnapshot s name = inl bk →
  storage.Encrypted (storage.b_Metadata bk) = true →
  storage.b_DataReader bk =
    bytes_NewReader
      ((crypto.magic ++ [1] ++ salt ++ nonce) ++
       crypto.sealed_chunks n (crypto.DeriveKey password salt) nonce 0 archive) →
  length salt = crypto.SaltSize → length nonce = crypto.NonceSize →
  (length archive ≤ n)%nat → (length archive ≤ 443)%nat →
  password ≠ ""%string →
  force = true ∨ response = inl "y"%string ∨ response = inl "Y"%string →
  (0 < plen)%nat →
  ∃ fuel0, ∀ fuel, (fuel0 ≤ fuel)%nat →
    backup.RestoreDirectVolume fuel (Some s)
      (backup.MkEnv (inl true) (inl volumeInfo) response None password prompt None restore)
      target name false force plen =
    Some (backup.Extracted archive
            (match restore archive with
             | Some err => Some (ErrWrap "failed to restore volume" err)
             | None => None
             end)).
Proof. apply RestoreDirectVolume_small_run. Qed.

(** The statement at a three-byte plaintext under the reference cipher. *)
Lemma RestoreDirectVolume_encrypted_small_witness :
  ∃ fuel0, ∀ fuel, (fuel0 ≤ fuel)%nat →
    backup.RestoreDirectVolume fuel
      (Some (storage.StoreSnapshot (∅ : gmap string storage.content) "b1"
               (storage.MkBackup "b1"
                  (storage.MkMetadata "" "b1" "" 72 0 "" "v1" "" "" "" "" true)
                  (bytes_NewReader
                     ((crypto.magic ++ [1] ++ replicate 32 7 ++ replicate 12 9) ++
                      crypto.sealed_chunks 3 (crypto.DeriveKey "pw" (replicate 32 7))
                        (replicate 12 9) 0 [10; 20; 30])))
               "20240101-000000" 1).2)
      (backup.MkEnv (inl true) (inl (backup.MkVolumeInfo "v2" "" "" 0 "local" ""))
         (inl "y"%string) None "pw" "" None (λ _, None))
      "v2" "b1" false false 4 =
    Some (backup.Extracted [10; 20; 30] None).
Proof.
  apply (RestoreDirectVolume_encrypted_small (H := reference_Primitives)
           (storage.StoreSnapshot (∅ : gmap string storage.content) "b1"
              (storage.MkBackup "b1"
                 (storage.MkMetadata "" "b1" "" 72 0 "" "v1" "" "" "" "" true)
                 (bytes_NewReader
                    ((crypto.magic ++ [1] ++ replicate 32 7 ++ replicate 12 9) ++
                     crypto.sealed_chunks 3 (crypto.DeriveKey "pw" (replicate 32 7))
                       (replicate 12 9) 0 [10; 20; 30])))
              "20240101-000000" 1).2
           "b1" "v2"
           (storage.MkBackup "b1@20240101-000000"
              (storage.MkMetadata "b1@20240101-000000" "b1" "volume-snapshot" 72 1 ""
                 "v1" "" "" "" "20240101-000000" true)
              (bytes_NewReader
                 ((crypto.magic ++ [1] ++ replicate 32 7 ++ replicate 12 9) ++
                  crypto.sealed_chunks 3 (crypto.DeriveKey "pw" (replicate 32 7))
                    (replicate 12 9) 0 [10; 20; 30])))
           (backup.MkVolumeInfo "v2" "" "" 0 "local" "") (inl "y"%string) "pw" ""
           (λ _, None) false 4 3 [10; 20; 30] (replicate 32 7) (replicate 12 9)).
  - vm_compute. reflexivity.
  - reflexivity.
  - reflexivity.
  - reflexivity.
  - reflexivity.
  - simpl. lia.
  - simpl. lia.
  - discriminate.
  - right. by left.
  - lia.
Defined.

(** X16.  A restore of an encrypted backup whose plaintext has more than
    443 bytes fails whenever the cipher rejects a sealed chunk that was
    cut short.  The call reads 512 bytes to look for the magic tag and
    puts them in front of the rest of the stream; the [DecryptReader]
    then receives, as its first chunk, the 459 bytes that follow the
    header in that buffer, a beginning of the first sealed chunk.  When
    [Open] rejects this fragment, the call ends with "failed to write
    backup data: decryption failed", nothing was written to the temporary
    file, and the volume is not touched. *)
Theorem RestoreDirectVolume_encrypted_large `{crypto.Primitives} {B : Type}
    `{storage.Backend B}
    (s : B) (name target : string) (bk : storage.Backup) (volumeInfo : backup.VolumeInfo)
    (response : string + error) (password prompt : string)
    (closeErr : option error) (restore : list Z → option error) (force : bool)
    (plen n fuel : nat) (archive salt nonce : list Z) :
  storage.GetSnapshot s name = inl bk →
  storage.Encrypted (storage.b_Metadata bk) = true →
  storage.b_DataReader bk =
    bytes_NewReader
      ((crypto.magic ++ [1] ++ salt ++ nonce) ++
       crypto.sealed_chunks n (crypto.DeriveKey password salt) nonce 0 archive) →
  length salt = crypto.SaltSize → length nonce = crypto.NonceSize →
  (length archive ≤ n)%nat → (443 < length archive)%nat →
  password ≠ ""%string →
  force = true ∨ response = inl "y"%string ∨ response = inl "Y"%string →
  crypto.Open (crypto.DeriveKey password salt) (crypto.er_chunkNonce nonce 0)
    (take 459 (crypto.Seal (crypto.DeriveKey password salt) (crypto.er_chunkNonce nonce 0)
                 (take crypto.ChunkSize archive))) = None →
  (0 < fuel)%nat →
  backup.RestoreDirectVolume fuel (Some s)
    (backup.MkEnv (inl true) (inl volumeInfo) response None password prompt closeErr
       restore)
    target name false force plen =
  Some (backup.CopyFailed []
          (ErrWrap "failed to write backup data"
             (ErrWrap "decryption failed" ErrOpen))).
Proof. apply RestoreDirectVolume_large_run. Qed.

(** The statement at a plaintext of 500 bytes under the reference cipher. *)
Lemma RestoreDirectVolume_encrypted_large_witness :
  backup.RestoreDirectVolume 8
    (Some (storage.StoreSnapshot (∅ : gmap string storage.content) "b1"
             (storage.MkBackup "b1"
                (storage.MkMetadata "" "b1" "" 569 0 "" "v1" "" "" "" "" true)
                (bytes_NewReader
                   ((crypto.magic ++ [1] ++ replicate 32 7 ++ replicate 12 9) ++
                    crypto.sealed_chunks 500 (crypto.DeriveKey "pw" (replicate 32 7))
                      (replicate 12 9) 0 (replicate 500 5))))
             "20240101-000000" 1).2)
    (backup.MkEnv (inl true) (inl (backup.MkVolumeInfo "v2" "" "" 0 "local" ""))
       (inl "y"%string) None "pw" "" None (λ _, None))
    "v2" "b1" false true (32 * 1024) =
  Some (backup.CopyFailed []
          (ErrWrap "failed to write backup data"
             (ErrWrap "decryption failed" ErrOpen))).
Proof.
  apply (RestoreDirectVolume_encrypted_large (H := reference_Primitives)
           (storage.StoreSnapshot (∅ : gmap string storage.content) "b1"
              (storage.MkBackup "b1"
                 (storage.MkMetadata "" "b1" "" 569 0 "" "v1" "" "" "" "" true)
                 (bytes_NewReader
                    ((crypto.magic ++ [1] ++ replicate 32 7 ++ replicate 12 9) ++
                     crypto.sealed_chunks 500 (crypto.DeriveKey "pw" (replicate 32 7))
                       (replicate 12 9) 0 (replicate 500 5))))
              "20240101-000000" 1).2
           "b1" "v2"
           (storage.MkBackup "b1@20240101-000000"
              (storage.MkMetadata "b1@20240101-000000" "b1" "volume-snapshot" 569 1 ""
                 "v1" "" "" "" "20240101-000000" true)
              (bytes_NewReader
                 ((crypto.magic ++ [1] ++ replicate 32 7 ++ replicate 12 9) ++
                  crypto.sealed_chunks 500 (crypto.DeriveKey "pw" (replicate 32 7))
                    (replicate 12 9) 0 (replicate 500 5))))
           (backup.MkVolumeInfo "v2" "" "" 0 "local" "") (inl "y"%string) "pw" ""
           None (λ _, None) true (32 * 1024) 500 8 (replicate 500 5)
           (replicate 32 7) (replicate 12 9)).
  - vm_compute. reflexivity.
  - reflexivity.
  - reflexivity.
  - reflexivity.
  - reflexivity.
  - rewrite length_replicate. lia.
  - rewrite length_replicate. lia.
  - discriminate.
  - by left.
  - vm_compute. reflexivity.
  - lia.
Defined.

(** ** [BackupDirectVolume] *)

Section BackupRuns.
Import crypto storage backup.
Context `{Primitives}.

(** The events of an [EncryptReader] hold what [io.Copy] transfers. *)
Lemma er_events_copy fuel plen er out err :
  io_Copy er_Read fuel er plen = Some (out, err) →
  ∃ events, er_events fuel plen er = Some events ∧ read_all events = (out, err).
Proof.
  revert er out err. induction fuel as [| fuel IH]; intros er out err; [done |].
  simpl. destruct (er_Read er plen) as [[bs e] er'].
  destruct e as [e |].
  - intros Hcopy. eexists. split; [done |]. simpl. by destruct e; simplify_eq.
  - destruct (io_Copy er_Read fuel er' plen) as [[rest e] |] eqn:Hrest; [| done].
    intros ?. simplify_eq. destruct (IH _ _ _ Hrest) as (events & -> & Hall).
    eexists. split; [done |]. simpl. by rewrite Hall.
Qed.

Lemma int64_small x : - 2 ^ 63 ≤ x < 2 ^ 63 → int64 x = x.
Proof. intros Hx. unfold int64. rewrite Z.mod_small; lia. Qed.

(** The size recorded for an encrypted backup of [n] plaintext bytes. *)
Lemma encryptedSize_value (n : Z) :
  0 ≤ n < 2 ^ 62 →
  int64 (int64 53 + n + int64 (n ÷ 64 ÷ 1024 * 16)) = 53 + n + n / 65536 * 16.
Proof.
  intros Hn.
  assert (Hq : n ÷ 64 ÷ 1024 = n / 65536).
  { rewrite (Z.quot_div_nonneg n 64) by lia.
    rewrite (Z.quot_div_nonneg (n / 64) 1024) by (try apply Z.div_pos; lia).
    rewrite Z.div_div by lia. done. }
  rewrite Hq.
  assert (Hd : 0 ≤ n / 65536 ∧ 65536 * (n / 65536) ≤ n).
  { split; [apply Z.div_pos; lia | apply Z.mul_div_le; lia]. }
  rewrite (int64_small 53) by lia.
  rewrite (int64_small (n / 65536 * 16)) by lia.
  apply int64_small. lia.
Qed.

Lemma ChunkSize_value : Z.of_nat ChunkSize = 65536.
Proof. vm_compute. reflexivity. Qed.

(** The number of bytes of the sealed chunks of a plaintext. *)
Lemma sealed_chunks_length n key nonce :
  length nonce = NonceSize →
  ∀ (data : list Z) counter, (length data ≤ n)%nat →
  length (sealed_chunks n key nonce counter data) =
    (length data + (length data + (ChunkSize - 1)) / ChunkSize * Overhead)%nat.
Proof.
  intros Hnonce. pose proof ChunkSize_pos as Hpos.
  induction n as [| n IH]; intros data counter Hlen.
  - destruct data; [| simpl in Hlen; lia]. simpl.
    rewrite Nat.div_small by lia. done.
  - destruct (decide (data = [])) as [-> | Hne].
    { rewrite sealed_chunks_nil. simpl. rewrite Nat.div_small by lia. done. }
    rewrite sealed_chunks_cons by done.
    assert (Hpos' : (0 < length data)%nat) by (destruct data; simpl; [done | lia]).
    rewrite length_app, Seal_length by (by rewrite er_chunkNonce_length).
    rewrite IH by (rewrite length_drop; lia).
    rewrite length_take, length_drop.
    destruct (decide (length data ≤ ChunkSize)%nat) as [Hsmall | Hbig].
    + replace (length data - ChunkSize)%nat with 0%nat by lia.
      replace (length data `min` ChunkSize)%nat with (length data) by lia.
      rewrite (Nat.div_small (0 + (ChunkSize - 1))) by lia.
      assert (Hone : ((length data + (ChunkSize - 1)) / ChunkSize = 1)%nat).
      { symmetry. apply (Nat.div_unique _ _ _ (length data - 1)); lia. }
      rewrite Hone. lia.
    + replace (length data `min` ChunkSize)%nat with ChunkSize by lia.
      assert (Hstep : ((length data + (ChunkSize - 1)) / ChunkSize =
                       1 + (length data - ChunkSize + (ChunkSize - 1)) / ChunkSize)%nat).
      { replace (length data + (ChunkSize - 1))%nat
          with (1 * ChunkSize + (length data - ChunkSize + (ChunkSize - 1)))%nat by lia.
        rewrite Nat.div_add_l by lia. done. }
      rewrite Hstep. lia.
Qed.

Context {B : Type} `{Backend B}.

(** The call without encryption, up to the store. *)
Lemma BackupDirectVolume_plain_run fuel plen (s : B) volumeInfo archive password prompt
    rand created timestamp now volumeName snapshotName :
  BackupDirectVolume fuel plen (Some s)
    (MkBackupEnv (inl true) (inl volumeInfo) None (inl archive) None None false password
       prompt rand created timestamp now)
    volumeName snapshotName =
  match StoreSnapshot s snapshotName
          (MkBackup snapshotName
             (MkMetadata "" snapshotName "direct-volume-backup"
                (Z.of_nat (length archive)) created "" (vol_Name volumeInfo) "" ""
                ("Direct volume backup of " +:+ volumeName) "" false)
             (bytes_NewReader archive)) timestamp now with
  | (Some err, s') => Some (Some (ErrWrap "failed to store volume backup" err), Some s')
  | (None, s') => Some (None, Some s')
  end.
Proof. reflexivity. Qed.

(** The call with encryption, up to the store: the reader handed to the
    store delivers the header followed by the sealed chunks. *)
Lemma BackupDirectVolume_encrypted_run plen (s : B) volumeInfo archive password prompt
    rand created timestamp now volumeName snapshotName :
  password ≠ ""%string →
  error_free rand → (SaltSize + NonceSize ≤ length (stream_bytes rand))%nat →
  (0 < plen)%nat →
  ∃ fuel0, ∀ fuel, (fuel0 ≤ fuel)%nat →
    ∃ reader,
      read_all reader =
        ((magic ++ [1] ++ take SaltSize (stream_bytes rand) ++
          take NonceSize (drop SaltSize (stream_bytes rand))) ++
         sealed_chunks (length archive)
           (DeriveKey password (take SaltSize (stream_bytes rand)))
           (take NonceSize (drop SaltSize (stream_bytes rand))) 0 archive, None) ∧
      BackupDirectVolume fuel plen (Some s)
        (MkBackupEnv (inl true) (inl volumeInfo) None (inl archive) None None true
           password prompt rand created timestamp now)
        volumeName snapshotName =
      match StoreSnapshot s snapshotName
              (MkBackup snapshotName
                 (MkMetadata "" snapshotName "direct-volume-backup"
                    (int64 (int64 53 + Z.of_nat (length archive) +
                            int64 (Z.of_nat (length archive) ÷ 64 ÷ 1024 * 16)))
                    created "" (vol_Name volumeInfo) "" ""
                    ("Direct volume backup of " +:+ volumeName) "" true)
                 reader) timestamp now with
      | (Some err, s') => Some (Some (ErrWrap "failed to store volume backup" err), Some s')
      | (None, s') => Some (None, Some s')
      end.
Proof.
  intros Hpw Hfree Hrand Hplen.
  set (salt := take SaltSize (stream_bytes rand)).
  set (nonce := take NonceSize (drop SaltSize (stream_bytes rand))).
  set (key := DeriveKey password salt).
  destruct (NewEncryptReader_values (bytes_NewReader archive) password rand Hfree Hrand)
    as [rand' Hnew]. fold salt nonce key in Hnew.
  destruct (er_copy_flat plen key nonce (length archive) Hplen archive 0 (le_n _))
    as [fuel0 Hcopy].
  exists fuel0. intros fuel Hfuel.
  destruct (er_events_copy fuel plen _ _ _ (Hcopy fuel Hfuel)) as (events & Hev & Hall).
  exists (MultiReader (bytes_NewReader (magic ++ [1] ++ salt ++ nonce)) events). split.
  - change (bytes_NewReader (magic ++ [1] ++ salt ++ nonce))
      with [Ret (magic ++ [1] ++ salt ++ nonce) None].
    unfold MultiReader. simpl. by rewrite Hall.
  - unfold BackupDirectVolume.
    cbn [bk_volume_exists bk_get_volume bk_create_temp_err bk_archive bk_seek_err
         bk_stat_err bk_encryptEnabled bk_password bk_prompt_password bk_rand
         bk_created bk_timestamp bk_now].
    destruct (String.eqb_spec password "") as [? | _]; [done |].
    destruct (String.eqb_spec password "") as [? | _]; [done |].
    rewrite Hnew, WriteEncryptionHeader_buffer, Hev. cbn [w_buf Salt Nonce].
    assert (Hhdr : Z.of_nat (length (magic ++ [1] ++ salt ++ nonce)) = 53).
    { rewrite !length_app. unfold salt, nonce. rewrite !length_take, length_drop.
      change (length magic) with 8%nat. simpl length. unfold SaltSize, NonceSize in *. lia. }
    rewrite Hhdr. reflexivity.
Qed.

End BackupRuns.

(** X17.  What [BackupDirectVolume] stores when encryption is enabled.
    With a password, a random source that delivers 44 bytes, and no
    failure of the container engine or the operating system, the call
    returns [nil]; the backup stored under "cleaned name@token" is flagged
    as encrypted, and its data is the magic tag, the version byte 1, the
    first 32 random bytes as salt, the next 12 as nonce, and then the
    archive in chunks of 64 KiB, each sealed under the key derived from
    password and salt and the nonce of its counter.  The metadata read
    back has gone through the JSON encoding: its name is the cleaned
    snapshot name and its volume name the name the engine reports for the
    volume, each with every byte that is not part of valid UTF-8 replaced
    by U+FFFD, hence unchanged when it is valid UTF-8.  For an archive of
    [n] bytes the size recorded in the metadata is 53 + n + 16 * (n div
    65536), while the data has 53 + n + 16 * ((n + 65535) div 65536)
    bytes: the recorded size is 16 bytes short unless [n] is a multiple
    of 64 KiB. *)
Theorem BackupDirectVolume_encrypted_stores `{crypto.Primitives}
    (l : gmap string storage.content) (archive : list Z)
    (volumeName snapshotName : string) (volumeInfo : backup.VolumeInfo)
    (password prompt : string) (rand : Reader) (created : Z) (timestamp : string)
    (now : Z) (plen : nat) :
  snapshotName ≠ ""%string → password ≠ ""%string →
  error_free rand →
  (crypto.SaltSize + crypto.NonceSize ≤ length (stream_bytes rand))%nat →
  (0 < plen)%nat →
  Z.of_nat (length archive) < 2 ^ 62 →
  ∃ fuel0, ∀ fuel, (fuel0 ≤ fuel)%nat →
    ∃ l' meta data,
      backup.BackupDirectVolume fuel plen (Some l)
        (backup.MkBackupEnv (inl true) (inl volumeInfo) None (inl archive) None None true
           password prompt rand created timestamp now)
        volumeName snapshotName = Some (None, Some l') ∧
      storage.LocalStorage_Retrieve l'
        (storage.versionedID (storage.cleanSnapshotName snapshotName) timestamp) =
        inl (storage.MkBackup
               (storage.versionedID (storage.cleanSnapshotName snapshotName) timestamp)
               meta (bytes_NewReader data)) ∧
      data =
        (crypto.magic ++ [1] ++ take crypto.SaltSize (stream_bytes rand) ++
         take crypto.NonceSize (drop crypto.SaltSize (stream_bytes rand))) ++
        crypto.sealed_chunks (length archive)
          (crypto.DeriveKey password (take crypto.SaltSize (stream_bytes rand)))
          (take crypto.NonceSize (drop crypto.SaltSize (stream_bytes rand))) 0 archive ∧
      crypto.IsEncrypted data = true ∧
      storage.Encrypted meta = true ∧
      storage.Name meta = json.coerce (storage.cleanSnapshotName snapshotName) ∧
      storage.VolumeName meta = json.coerce (backup.vol_Name volumeInfo) ∧
      (utf8.ValidString (storage.cleanSnapshotName snapshotName) = true →
       storage.Name meta = storage.cleanSnapshotName snapshotName) ∧
      (utf8.ValidString (backup.vol_Name volumeInfo) = true →
       storage.VolumeName meta = backup.vol_Name volumeInfo) ∧
      storage.Size meta =
        53 + Z.of_nat (length archive) + Z.of_nat (length archive) / 65536 * 16 ∧
      Z.of_nat (length data) =
        53 + Z.of_nat (length archive) +
        (Z.of_nat (length archive) + 65535) / 65536 * 16.
Proof.
  intros Hname Hpw Hfree Hrand Hplen Hsize.
  destruct (BackupDirectVolume_encrypted_run plen l volumeInfo archive password prompt
              rand created timestamp now volumeName snapshotName Hpw Hfree Hrand Hplen)
    as [fuel0 Hrun].
  exists fuel0. intros fuel Hfuel.
  destruct (Hrun fuel Hfuel) as (reader & Hread & Hbackup). clear Hrun.
  set (salt := take crypto.SaltSize (stream_bytes rand)) in *.
  set (nonce := take crypto.NonceSize (drop crypto.SaltSize (stream_bytes rand))) in *.
  set (key := crypto.DeriveKey password salt) in *.
  set (data := (crypto.magic ++ [1] ++ salt ++ nonce) ++
               crypto.sealed_chunks (length archive) key nonce 0 archive) in *.
  set (bk := storage.MkBackup snapshotName _ reader) in Hbackup.
  destruct (StoreSnapshot_succeeds storage.no_faults storage.no_delete_faults l
              snapshotName bk timestamp now data eq_refl eq_refl eq_refl eq_refl
              Hname Hread) as [l' Hstore].
  destruct (StoreSnapshot_stored _ _ l l' snapshotName bk timestamp now Hstore)
    as (data' & _ & Hread' & Hmeta & Hdata & _).
  assert (data' = data) as ->.
  { unfold bk in Hread'. cbn [storage.b_DataReader] in Hread'.
    rewrite Hread in Hread'. by injection Hread'. }
  assert (Hstore' : storage.StoreSnapshot l snapshotName bk timestamp now = (None, l'))
    by exact Hstore.
  rewrite Hstore' in Hbackup.
  assert (Hsalt : length salt = crypto.SaltSize).
  { unfold salt. rewrite length_take. lia. }
  assert (Hnonce : length nonce = crypto.NonceSize).
  { unfold nonce. rewrite length_take, length_drop. lia. }
  exists l', (storage.json_roundtrip
                (storage.stored_metadata snapshotName bk timestamp now)), data.
  split_and!; try done.
  - unfold storage.LocalStorage_Retrieve. by rewrite Hmeta, Hdata.
  - intros Hvalid. simpl. by apply coerce_valid.
  - intros Hvalid. simpl. by apply coerce_valid.
  - simpl. apply encryptedSize_value. lia.
  - unfold data. rewrite length_app, sealed_chunks_length by done.
    rewrite !length_app, Hsalt, Hnonce. change (length crypto.magic) with 8%nat.
    simpl length. unfold crypto.SaltSize, crypto.NonceSize, crypto.Overhead.
    rewrite !Nat2Z.inj_add, Nat2Z.inj_mul, Nat2Z.inj_div, Nat2Z.inj_add.
    pose proof ChunkSize_pos. rewrite Nat2Z.inj_sub by lia.
    rewrite ChunkSize_value. simpl Z.of_nat.
    replace (65536 - Z.of_nat 1) with 65535 by lia.
    lia.
Qed.

(** The statement at an archive of three bytes under the reference
    cipher. *)
Lemma BackupDirectVolume_encrypted_stores_witness :
  ∃ fuel0, ∀ fuel, (fuel0 ≤ fuel)%nat →
    ∃ l' meta data,
      backup.BackupDirectVolume fuel 4 (Some (∅ : gmap string storage.content))
        (backup.MkBackupEnv (inl true) (inl (backup.MkVolumeInfo "v1" "" "" 0 "local" ""))
           None (inl [10; 20; 30]) None None true "pw" ""
           (bytes_NewReader (replicate 44 7)) 0 "20240101-000000" 5)
        "v1" "b1" = Some (None, Some l') ∧
      storage.LocalStorage_Retrieve l' "b1@20240101-000000" =
        inl (storage.MkBackup "b1@20240101-000000" meta (bytes_NewReader data)) ∧
      storage.Encrypted meta = true ∧
      storage.Size meta = 56 ∧
      Z.of_nat (length data) = 72.
Proof.
  destruct (BackupDirectVolume_encrypted_stores (H := reference_Primitives)
              ∅ [10; 20; 30] "v1" "b1" (backup.MkVolumeInfo "v1" "" "" 0 "local" "")
              "pw" "" (bytes_NewReader (replicate 44 7)) 0 "20240101-000000" 5 4)
    as [fuel0 Hrun].
  - discriminate.
  - discriminate.
  - repeat constructor.
  - vm_compute. lia.
  - lia.
  - simpl. lia.
  - exists fuel0. intros fuel Hfuel.
    destruct (Hrun fuel Hfuel)
      as (l' & meta & data & Hb & Hr & _ & _ & He & _ & _ & _ & _ & Hs & Hl).
    exists l', meta, data. split_and!; [exact Hb | exact Hr | exact He | exact Hs | exact Hl].
Defined.

(** X18.  A backup without encryption can be restored: in a well-formed
    directory, for a name without "@" whose cleaned form cleaning leaves
    unchanged and for which the id "cleaned name@token" is valid UTF-8,
    with the clock ahead of the versions already stored and no
    failure of the container engine or the operating system,
    [BackupDirectVolume] returns [nil], and a following
    [RestoreDirectVolume] of the same name (not a dry run, forced or
    confirmed) hands to the extraction exactly the archive that was
    backed up. *)
Theorem backup_then_restore_plain `{crypto.Primitives}
    (l : gmap string storage.content) (archive : list Z)
    (volumeName snapshotName target : string) (volumeInfo volumeInfo' : backup.VolumeInfo)
    (password prompt password' prompt' : string) (rand : Reader) (created : Z)
    (timestamp : string) (now : Z) (vs : list storage.VersionInfo)
    (response : string + error) (restore : list Z → option error) (force : bool)
    (fuel plen plen' : nat) :
  storage.wf_store l = true →
  snapshotName ≠ ""%string →
  strings.Contains snapshotName "@" = false →
  storage.cleanSnapshotName (storage.cleanSnapshotName snapshotName) =
    storage.cleanSnapshotName snapshotName →
  utf8.ValidString
    (storage.versionedID (storage.cleanSnapshotName snapshotName) timestamp) = true →
  storage.ListVersions l snapshotName = inl vs →
  (∀ v, v ∈ vs → storage.vi_CreatedAt v < now) →
  force = true ∨ response = inl "y"%string ∨ response = inl "Y"%string →
  (0 < plen')%nat →
  ∃ l',
    backup.BackupDirectVolume fuel plen (Some l)
      (backup.MkBackupEnv (inl true) (inl volumeInfo) None (inl archive) None None false
         password prompt rand created timestamp now)
      volumeName snapshotName = Some (None, Some l') ∧
    ∃ fuel0, ∀ fuel', (fuel0 ≤ fuel')%nat →
      backup.RestoreDirectVolume fuel' (Some l')
        (backup.MkEnv (inl true) (inl volumeInfo') response None password' prompt' None
           restore)
        target snapshotName false force plen' =
      Some (backup.Extracted archive
              (match restore archive with
               | Some err => Some (ErrWrap "failed to restore volume" err)
               | None => None
               end)).
Proof.
  intros Hwf Hname Hbare Hstable Hvalid Hlist Hclock Hconfirm Hplen.
  rewrite BackupDirectVolume_plain_run.
  set (bk := storage.MkBackup snapshotName _ (bytes_NewReader archive)).
  assert (Hread : storage.read_all (storage.b_DataReader bk) = (archive, None)).
  { simpl. destruct archive as [| b archive]; [done |]. simpl. by rewrite app_nil_r. }
  destruct (StoreSnapshot_succeeds storage.no_faults storage.no_delete_faults l
              snapshotName bk timestamp now archive eq_refl eq_refl eq_refl eq_refl
              Hname Hread) as [l' Hstore].
  destruct (StoreSnapshot_latest_run _ _ l l' snapshotName bk timestamp now vs
              Hstore Hwf Hbare Hstable Hvalid Hlist Hclock) as (data' & Hread' & Hget).
  assert (data' = archive) as -> by congruence.
  assert (Hstore' : storage.StoreSnapshot l snapshotName bk timestamp now = (None, l'))
    by exact Hstore.
  rewrite Hstore'. exists l'. split; [done |].
  destruct (RestoreDirectVolume_plain_run l' snapshotName target _ volumeInfo' response
              password' prompt' restore force plen' Hget eq_refl Hconfirm Hplen)
    as [fuel0 Hrun].
  exists fuel0. intros fuel' Hfuel'. rewrite (Hrun fuel' Hfuel'). simpl.
  destruct archive as [| b archive]; [done |]. simpl. by rewrite app_nil_r.
Qed.

(** The statement at an archive of three bytes into the empty directory. *)
Lemma backup_then_restore_plain_witness :
  ∃ l',
    backup.BackupDirectVolume 1 4 (Some (∅ : gmap string storage.content))
      (backup.MkBackupEnv (inl true) (inl (backup.MkVolumeInfo "v1" "" "" 0 "local" ""))
         None (inl [10; 20; 30]) None None false "" ""
         [] 0 "20240101-000000" 5)
      "v1" "b1" = Some (None, Some l') ∧
    ∃ fuel0, ∀ fuel', (fuel0 ≤ fuel')%nat →
      backup.RestoreDirectVolume fuel' (Some l')
        (backup.MkEnv (inl true) (inl (backup.MkVolumeInfo "v2" "" "" 0 "local" ""))
           (inl "Y"%string) None "" "" None (λ _, None))
        "v2" "b1" false false 4 =
      Some (backup.Extracted [10; 20; 30] None).
Proof.
  apply (backup_then_restore_plain (H := reference_Primitives)
           ∅ [10; 20; 30] "v1" "b1" "v2" (backup.MkVolumeInfo "v1" "" "" 0 "local" "")
           (backup.MkVolumeInfo "v2" "" "" 0 "local" "") "" "" "" "" [] 0
           "20240101-000000" 5 [] (inl "Y"%string) (λ _, None) false 1 4 4).
  - reflexivity.
  - discriminate.
  - reflexivity.
  - reflexivity.
  - reflexivity.
  - vm_compute. reflexivity.
  - intros v Hv. by apply elem_of_nil in Hv.
  - right. by right.
  - lia.
Defined.

(** X19.  A backup with encryption, and its restore by the same program
    with the same password.  In a well-formed directory, for a name
    without "@" whose cleaned form cleaning leaves unchanged and for
    which the id "cleaned name@token" is valid UTF-8, with the
    clock ahead of the versions already stored, no failure of the
    container engine or the operating system, a password and a random
    source that delivers 44 bytes, [BackupDirectVolume] returns [nil].
    The following [RestoreDirectVolume] of the name
    extracts exactly the archive when the archive has at most 443 bytes.
    When it has more, and the cipher rejects the first 459 bytes of the
    first sealed chunk as a chunk, the restore ends with "failed to write
    backup data: decryption failed" and extracts nothing. *)
Theorem backup_then_restore_encrypted `{crypto.Primitives}
    (l : gmap string storage.content) (archive : list Z)
    (volumeName snapshotName target : string) (volumeInfo volumeInfo' : backup.VolumeInfo)
    (password prompt prompt' : string) (rand : Reader) (created : Z)
    (timestamp : string) (now : Z) (vs : list storage.VersionInfo)
    (response : string + error) (restore : list Z → option error) (force : bool)
    (plen plen' : nat) :
  storage.wf_store l = true →
  snapshotName ≠ ""%string →
  strings.Contains snapshotName "@" = false →
  storage.cleanSnapshotName (storage.cleanSnapshotName snapshotName) =
    storage.cleanSnapshotName snapshotName →
  utf8.ValidString
    (storage.versionedID (storage.cleanSnapshotName snapshotName) timestamp) = true →
  storage.ListVersions l snapshotName = inl vs →
  (∀ v, v ∈ vs → storage.vi_CreatedAt v < now) →
  password ≠ ""%string →
  error_free rand →
  (crypto.SaltSize + crypto.NonceSize ≤ length (stream_bytes rand))%nat →
  force = true ∨ response = inl "y"%string ∨ response = inl "Y"%string →
  (0 < plen)%nat → (0 < plen')%nat →
  ∃ fuel0, ∀ fuel, (fuel0 ≤ fuel)%nat →
    ∃ l',
      backup.BackupDirectVolume fuel plen (Some l)
        (backup.MkBackupEnv (inl true) (inl volumeInfo) None (inl archive) None None true
           password prompt rand created timestamp now)
        volumeName snapshotName = Some (None, Some l') ∧
      ((length archive ≤ 443)%nat →
       ∃ fuel1, ∀ fuel', (fuel1 ≤ fuel')%nat →
         backup.RestoreDirectVolume fuel' (Some l')
           (backup.MkEnv (inl true) (inl volumeInfo') response None password prompt' None
              restore)
           target snapshotName false force plen' =
         Some (backup.Extracted archive
                 (match restore archive with
                  | Some err => Some (ErrWrap "failed to restore volume" err)
                  | None => None
                  end))) ∧
      ((443 < length archive)%nat →
       crypto.Open
         (crypto.DeriveKey password (take crypto.SaltSize (stream_bytes rand)))
         (crypto.er_chunkNonce
            (take crypto.NonceSize (drop crypto.SaltSize (stream_bytes rand))) 0)
         (take 459
            (crypto.Seal
               (crypto.DeriveKey password (take crypto.SaltSize (stream_bytes rand)))
               (crypto.er_chunkNonce
                  (take crypto.NonceSize (drop crypto.SaltSize (stream_bytes rand))) 0)
               (take crypto.ChunkSize archive))) = None →
       ∀ fuel', (0 < fuel')%nat →
         backup.RestoreDirectVolume fuel' (Some l')
           (backup.MkEnv (inl true) (inl volumeInfo') response None password prompt' None
              restore)
           target snapshotName false force plen' =
         Some (backup.CopyFailed []
                 (ErrWrap "failed to write backup data"
                    (ErrWrap "decryption failed" ErrOpen)))).
Proof.
  intros Hwf Hname Hbare Hstable Hvalid Hlist Hclock Hpw Hfree Hrand Hconfirm Hplen
    Hplen'.
  destruct (BackupDirectVolume_encrypted_run plen l volumeInfo archive password prompt
              rand created timestamp now volumeName snapshotName Hpw Hfree Hrand Hplen)
    as [fuel0 Hrun].
  exists fuel0. intros fuel Hfuel.
  destruct (Hrun fuel Hfuel) as (reader & Hread & Hbackup). clear Hrun.
  set (salt := take crypto.SaltSize (stream_bytes rand)) in *.
  set (nonce := take crypto.NonceSize (drop crypto.SaltSize (stream_bytes rand))) in *.
  set (key := crypto.DeriveKey password salt) in *.
  set (bk := storage.MkBackup snapshotName _ reader) in Hbackup.
  destruct (StoreSnapshot_succeeds storage.no_faults storage.no_delete_faults l
              snapshotName bk timestamp now _ eq_refl eq_refl eq_refl eq_refl
              Hname Hread) as [l' Hstore].
  destruct (StoreSnapshot_latest_run _ _ l l' snapshotName bk timestamp now vs
              Hstore Hwf Hbare Hstable Hvalid Hlist Hclock) as (data' & Hread' & Hget).
  unfold bk in Hread'. cbn [storage.b_DataReader] in Hread'.
  rewrite Hread in Hread'. injection Hread' as <-.
  assert (Hstore' : storage.StoreSnapshot l snapshotName bk timestamp now = (None, l'))
    by exact Hstore.
  rewrite Hstore' in Hbackup. exists l'. split; [exact Hbackup |].
  assert (Hsalt : length salt = crypto.SaltSize).
  { unfold salt. rewrite length_take. lia. }
  assert (Hnonce : length nonce = crypto.NonceSize).
  { unfold nonce. rewrite length_take, length_drop. lia. }
  split.
  - intros Hsmall.
    apply (RestoreDirectVolume_small_run l' snapshotName target _ volumeInfo' response
             password prompt' restore force plen' (length archive) archive salt nonce Hget);
      done.
  - intros Hlarge Hopen fuel' Hfuel'.
    apply (RestoreDirectVolume_large_run l' snapshotName target _ volumeInfo' response
             password prompt' None restore force plen' (length archive) fuel' archive
             salt nonce Hget); done.
Qed.

(** The statement at an archive of three bytes under the reference
    cipher. *)
Lemma backup_then_restore_encrypted_witness :
  ∃ fuel0, ∀ fuel, (fuel0 ≤ fuel)%nat →
    ∃ l',
      backup.BackupDirectVolume fuel 4 (Some (∅ : gmap string storage.content))
        (backup.MkBackupEnv (inl true) (inl (backup.MkVolumeInfo "v1" "" "" 0 "local" ""))
           None (inl [10; 20; 30]) None None true "pw" ""
           (bytes_NewReader (replicate 44 7)) 0 "20240101-000000" 5)
        "v1" "b1" = Some (None, Some l') ∧
      ∃ fuel1, ∀ fuel', (fuel1 ≤ fuel')%nat →
        backup.RestoreDirectVolume fuel' (Some l')
          (backup.MkEnv (inl true) (inl (backup.MkVolumeInfo "v2" "" "" 0 "local" ""))
             (inl "n"%string) None "pw" "" None (λ _, None))
          "v2" "b1" false true 4 =
        Some (backup.Extracted [10; 20; 30] None).
Proof.
  destruct (backup_then_restore_encrypted (H := reference_Primitives)
              ∅ [10; 20; 30] "v1" "b1" "v2" (backup.MkVolumeInfo "v1" "" "" 0 "local" "")
              (backup.MkVolumeInfo "v2" "" "" 0 "local" "") "pw" "" ""
              (bytes_NewReader (replicate 44 7)) 0 "20240101-000000" 5 []
              (inl "n"%string) (λ _, None) true 4 4)
    as [fuel0 Hrun].
  - reflexivity.
  - discriminate.
  - reflexivity.
  - reflexivity.
  - reflexivity.
  - vm_compute. reflexivity.
  - intros v Hv. by apply elem_of_nil in Hv.
  - discriminate.
  - repeat constructor.
  - vm_compute. lia.
  - by left.
  - lia.
  - lia.
  - exists fuel0. intros fuel Hfuel.
    destruct (Hrun fuel Hfuel) as (l' & Hb & Hsmall & _).
    exists l'. split; [exact Hb |]. apply Hsmall. simpl. lia.
Defined.

(** ** The delete command and its confirmation *)

Section ClientDelete.
Import strings storage.

Lemma lower_y c : lower c = "y"%char → c = "y"%char ∨ c = "Y"%char.
Proof.
  destruct c as [[] [] [] [] [] [] [] []]; vm_compute; intros E;
    first [discriminate E | by left | by right].
Qed.

Lemma ToLower_y r : ToLower r = "y"%string ↔ r = "y"%string ∨ r = "Y"%string.
Proof.
  split.
  - destruct r as [| c [| c' r]]; simpl; [done | | done].
    intros E. injection E as E. apply lower_y in E as [-> | ->]; [by left | by right].
  - by intros [-> | ->].
Qed.

End ClientDelete.

(** X20.  The delete command never deletes without consent: for every
    backend and every name or versioned id, when [force] is false and the
    answer read from the terminal is not "y" or "Y" (or cannot be read),
    [Client.DeleteSnapshot] leaves the store as it is; it returns [nil],
    or, for a bare name, the error of the listing or "no snapshots found"
    when the name has no version.  When the call is forced, or the answer
    is "y" or "Y" and the check of the versions passes, its result is that
    of [SnapshotStorage.DeleteSnapshot], an error wrapped in "failed to
    delete snapshot". *)
Theorem client_DeleteSnapshot_needs_consent {B : Type} `{storage.Backend B}
    (s : B) (scan_response : string + error) (name : string) :
  ((∀ response, scan_response = inl response →
      response ≠ "y"%string ∧ response ≠ "Y"%string) →
   ∃ err,
     backup.DeleteSnapshot (Some s) scan_response name false = (err, Some s) ∧
     (err = None ∨
      strings.Contains name "@" = false ∧
      ((∃ e, storage.ListVersions s name = inr e ∧
             err = Some (ErrWrap "failed to check versions" e)) ∨
       (storage.ListVersions s name = inl [] ∧
        err = Some (ErrNew "no snapshots found with name"))))) ∧
  (∀ force,
     force = true ∨
     (scan_response = inl "y"%string ∨ scan_response = inl "Y"%string) ∧
     (strings.Contains name "@" = true ∨
      ∃ v vs, storage.ListVersions s name = inl (v :: vs)) →
     backup.DeleteSnapshot (Some s) scan_response name force =
       (match (storage.DeleteSnapshot s name).1 with
        | Some err => Some (ErrWrap "failed to delete snapshot" err)
        | None => None
        end, Some (storage.DeleteSnapshot s name).2)).
Proof.
  split.
  - intros Hrefused. unfold backup.DeleteSnapshot. simpl negb.
    assert (Hno : String.eqb
                    (strings.ToLower (match scan_response with
                                      | inl response => response
                                      | inr _ => "N"%string
                                      end)) "y" = false).
    { apply String.eqb_neq. intros E. apply ToLower_y in E.
      destruct scan_response as [response | e]; [| by destruct E].
      destruct (Hrefused response eq_refl) as [? ?]. by destruct E. }
    destruct (strings.Contains name "@") eqn:Hat; simpl.
    + rewrite Hno. simpl. eexists. split; [done | by left].
    + destruct (storage.ListVersions s name) as [[| v vs] | e] eqn:Hlist.
      * eexists. split; [done |]. right. split; [done |]. by right.
      * rewrite Hno. simpl. eexists. split; [done | by left].
      * eexists. split; [done |]. right. split; [done |]. left. by exists e.
  - intros force Hconsent. unfold backup.DeleteSnapshot.
    destruct Hconsent as [-> | [Hyes Hcheck]].
    + simpl. by destruct (storage.DeleteSnapshot s name) as [[err |] s'].
    + assert (Hyes' : String.eqb
                        (strings.ToLower (match scan_response with
                                          | inl response => response
                                          | inr _ => "N"%string
                                          end)) "y" = true).
      { apply String.eqb_eq, ToLower_y. destruct Hyes as [-> | ->]; [by left | by right]. }
      rewrite Hyes'. rewrite andb_false_r.
      destruct Hcheck as [Hat | (v & vs & Hlist)].
      * rewrite Hat. simpl. rewrite andb_false_r.
        by destruct (storage.DeleteSnapshot s name) as [[err |] s'].
      * rewrite Hlist. destruct (negb force && negb _);
          by destruct (storage.DeleteSnapshot s name) as [[err |] s'].
Qed.

(** ** Stopping and restarting containers around a backup or restore *)

Section Containers.
Import docker backup.

Lemma calm_set_running e id state : calm e → calm (set_running e id state).
Proof. by intros (? & ? & ? & ?). Qed.

Lemma GetContainer_set_running e id state name :
  GetContainer (set_running e id state) name = GetContainer e name.
Proof. done. Qed.

Lemma StopContainer_calm e id state :
  calm e → running e !! id = Some state →
  StopContainer e id = ((state, None), set_running e id false) ∧
  running (set_running e id false) = <[id := false]> (running e).
Proof.
  intros (_ & Hi & Hs & _) Hr. unfold StopContainer, IsContainerRunning.
  rewrite Hi, Hr. destruct state.
  - by rewrite Hs.
  - split; [| done]. f_equal. unfold set_running. destruct e. simpl in *. f_equal.
    by rewrite insert_id.
Qed.

(** The loop of [stopContainers] on an engine that does not fail. *)
Lemma stop_loop_calm names :
  ∀ e stopped resolved,
  calm e →
  Forall2 (λ name container, GetContainer e name = inl container) names resolved →
  (∀ container, container ∈ resolved → is_Some (running e !! c_ID container)) →
  ∃ e' stopped',
    (∀ rest, stop_loop e stopped (names ++ rest) = stop_loop e' stopped' rest) ∧
    calm e' ∧ containers e' = containers e ∧
    (∀ id, running e' !! id =
           if bool_decide (id ∈ map c_ID resolved) then Some false else running e !! id) ∧
    (∀ id, id ∉ map c_ID resolved → stopped' !! id = stopped !! id) ∧
    (NoDup (map c_ID resolved) →
     ∀ id, id ∈ map c_ID resolved → stopped' !! id = running e !! id).
Proof.
  induction names as [| name names IH]; intros e stopped resolved Hcalm Hres Hdom.
  - apply Forall2_nil_inv_l in Hres as ->. exists e, stopped. simpl.
    split_and!; try done. intros _ id Hid. by apply elem_of_nil in Hid.
  - apply Forall2_cons_inv_l in Hres as (c & resolved' & Hget & Hres & ->).
    destruct (Hdom c ltac:(by left)) as [state Hstate].
    destruct (StopContainer_calm e (c_ID c) state Hcalm Hstate) as [Hstop Hrun].
    set (e1 := set_running e (c_ID c) false) in *.
    destruct (IH e1 (<[c_ID c := state]> stopped) resolved') as
      (e' & stopped' & Hloop & Hcalm' & Hcs & Hrun' & Hkeep & Hrec).
    { by apply calm_set_running. }
    { eapply Forall2_impl; [exact Hres |]. intros n c' Hn. exact Hn. }
    { intros c' Hc'. rewrite Hrun.
      destruct (decide (c_ID c' = c_ID c)) as [-> | Hne].
      - rewrite lookup_insert_eq. by eexists.
      - rewrite lookup_insert_ne by done. apply Hdom. by right. }
    exists e', stopped'. split_and!; try done.
    + intros rest. simpl. by rewrite Hget, Hstop, Hloop.
    + intros id. rewrite Hrun', Hrun. simpl map.
      destruct (decide (id = c_ID c)) as [-> | Hne].
      * rewrite (bool_decide_eq_true_2 (c_ID c ∈ c_ID c :: map c_ID resolved'))
          by (by left).
        rewrite lookup_insert_eq. by case_bool_decide.
      * rewrite lookup_insert_ne by done.
        case_bool_decide as H1; case_bool_decide as H2; try done.
        -- exfalso. apply H2. by right.
        -- exfalso. apply elem_of_cons in H2 as [? | ?]; done.
    + intros id Hid. simpl in Hid. rewrite not_elem_of_cons in Hid.
      destruct Hid as [Hne Hid]. rewrite Hkeep by done. by rewrite lookup_insert_ne.
    + intros Hnd id Hid. simpl in Hnd, Hid. apply NoDup_cons in Hnd as [Hfresh Hnd].
      apply elem_of_cons in Hid as [-> | Hid].
      * rewrite Hkeep by done. by rewrite lookup_insert_eq.
      * rewrite (Hrec Hnd id Hid), Hrun. rewrite lookup_insert_ne; [done |].
        intros <-. done.
Qed.

(** The loop of [restartContainers] on an engine that does not fail. *)
Lemma restart_loop_calm (entries : list (string * bool)) :
  ∀ e (errors : list string),
  calm e → NoDup entries.*1 →
  ∃ e',
    foldl (λ (acc : list string * Engine) (entry : string * bool),
             if entry.2 then
               match StartContainer acc.2 entry.1 with
               | (Some _, e') => (acc.1 ++ [entry.1], e')
               | (None, e') => (acc.1, e')
               end
             else acc) (errors, e) entries = (errors, e') ∧
    calm e' ∧ containers e' = containers e ∧
    ∀ id, running e' !! id =
          if bool_decide ((id, true) ∈ entries) then Some true else running e !! id.
Proof.
  induction entries as [| [id0 state] entries IH]; intros e errors Hcalm Hnd.
  - exists e. by split_and!.
  - simpl in Hnd. apply NoDup_cons in Hnd as [Hfresh Hnd]. cbn [foldl fst snd].
    destruct state.
    + pose proof Hcalm as (Hl & Hi & Hs & Hstart).
      assert (Hs1 : StartContainer e id0 = (None, set_running e id0 true))
        by (unfold StartContainer; by rewrite Hstart).
      rewrite Hs1.
      destruct (IH (set_running e id0 true) errors) as (e' & Hfold & Hcalm' & Hcs & Hrun);
        [by apply calm_set_running | done |].
      exists e'. split_and!; try done.
      intros id. rewrite Hrun. simpl.
      destruct (decide (id = id0)) as [-> | Hne].
      * rewrite lookup_insert_eq.
        rewrite (bool_decide_eq_true_2 ((id0, true) ∈ (id0, true) :: entries))
          by (by left).
        by case_bool_decide.
      * rewrite lookup_insert_ne by done.
        case_bool_decide as H1; case_bool_decide as H2; try done.
        -- exfalso. apply H2. by right.
        -- exfalso. apply elem_of_cons in H2 as [? | ?]; [by simplify_eq | done].
    + destruct (IH e errors Hcalm Hnd) as (e' & Hfold & Hcalm' & Hcs & Hrun).
      exists e'. split_and!; try done.
      intros id. rewrite Hrun.
      case_bool_decide as H1; case_bool_decide as H2; try done.
      * exfalso. apply H2. by right.
      * exfalso. apply elem_of_cons in H2 as [? | ?]; [by simplify_eq | done].
Qed.

Lemma restartContainers_calm range e stopped :
  (∀ m : gmap string bool, range m ≡ₚ map_to_list m) →
  calm e →
  ∃ e',
    restartContainers range e stopped = (None, e') ∧
    calm e' ∧ containers e' = containers e ∧
    ∀ id, running e' !! id =
          if bool_decide (stopped !! id = Some true) then Some true else running e !! id.
Proof.
  intros Hrange Hcalm. unfold restartContainers.
  case_bool_decide as Hempty.
  { exists e. split_and!; try done. intros id. subst stopped.
    by rewrite lookup_empty, bool_decide_eq_false_2. }
  destruct (restart_loop_calm (range stopped) e [] Hcalm) as (e' & Hfold & Hc & Hcs & Hrun).
  { rewrite (Hrange stopped). apply NoDup_fst_map_to_list. }
  rewrite Hfold. exists e'. split_and!; try done.
  intros id. rewrite Hrun.
  rewrite (bool_decide_ext ((id, true) ∈ range stopped) (stopped !! id = Some true));
    [done |].
  rewrite (Hrange stopped). apply elem_of_map_to_list.
Qed.

Lemma stopContainers_loop e names : stopContainers e names = stop_loop e ∅ names.
Proof. by destruct names. Qed.

End Containers.

(** X21.  Containers are stopped for the operation and started again.
    On a container engine none of whose calls fails, when the names given
    resolve to containers with pairwise different ids that the engine can
    inspect, [stopContainers] returns without error and leaves each of
    them stopped; [BackupDirectVolumeWithContainers] and
    [RestoreDirectVolumeWithContainers] return what [BackupDirectVolume]
    and [RestoreDirectVolume] return (also when that is an error), and
    afterwards every container runs exactly if it ran before, in whatever
    order the map of stopped containers is visited. *)
Theorem containers_stopped_then_restarted `{crypto.Primitives} {B : Type}
    `{storage.Backend B} (range : gmap string bool → list (string * bool))
    (e : docker.Engine) (names : list string) (resolved : list docker.Container) :
  (∀ m : gmap string bool, range m ≡ₚ map_to_list m) →
  docker.calm e →
  Forall2 (λ name container, docker.GetContainer e name = inl container) names resolved →
  (∀ container, container ∈ resolved →
                is_Some (docker.running e !! docker.c_ID container)) →
  NoDup (map docker.c_ID resolved) →
  (∃ stopped e1,
     backup.stopContainers e names = ((stopped, None), e1) ∧
     (∀ container, container ∈ resolved →
        docker.running e1 !! docker.c_ID container = Some false ∧
        stopped !! docker.c_ID container = docker.running e !! docker.c_ID container) ∧
     (∀ id, id ∉ map docker.c_ID resolved →
        docker.running e1 !! id = docker.running e !! id ∧ stopped !! id = None)) ∧
  (∀ fuel plen (storage : option B) env volumeName snapshotName, ∃ e2,
     backup.BackupDirectVolumeWithContainers range fuel plen storage env e
       volumeName snapshotName names =
       (backup.BackupDirectVolume fuel plen storage env volumeName snapshotName, e2) ∧
     docker.running e2 = docker.running e ∧ docker.containers e2 = docker.containers e) ∧
  (∀ fuel (storage : option B) env volumeName snapshotName dryRun force plen, ∃ e2,
     backup.RestoreDirectVolumeWithContainers range fuel storage env e
       volumeName snapshotName dryRun force plen names =
       (backup.RestoreDirectVolume fuel storage env volumeName snapshotName dryRun force
          plen, e2) ∧
     docker.running e2 = docker.running e ∧ docker.containers e2 = docker.containers e).
Proof.
  intros Hrange Hcalm Hres Hdom Hnd.
  destruct (stop_loop_calm names e ∅ resolved Hcalm Hres Hdom)
    as (e1 & stopped & Hloop & Hcalm1 & Hcs1 & Hrun1 & Hkeep & Hrec).
  specialize (Hloop []). rewrite app_nil_r in Hloop. simpl in Hloop.
  specialize (Hrec Hnd).
  assert (Hstop : backup.stopContainers e names = ((stopped, None), e1))
    by (by rewrite stopContainers_loop).
  destruct (restartContainers_calm range e1 stopped Hrange Hcalm1)
    as (e2 & Hrestart & _ & Hcs2 & Hrun2).
  assert (Hback : docker.running e2 = docker.running e).
  { apply map_eq. intros id. rewrite Hrun2, Hrun1.
    destruct (decide (id ∈ map docker.c_ID resolved)) as [Hin | Hout].
    - rewrite (Hrec id Hin). rewrite (bool_decide_eq_true_2 _ Hin).
      apply list_elem_of_fmap in Hin as (c & -> & Hc).
      destruct (Hdom c Hc) as [[] Hstate]; rewrite Hstate.
      + by rewrite bool_decide_eq_true_2.
      + by rewrite bool_decide_eq_false_2.
    - rewrite (Hkeep id Hout), lookup_empty.
      rewrite (bool_decide_eq_false_2 _ Hout). by rewrite bool_decide_eq_false_2. }
  split_and!.
  - exists stopped, e1. split_and!; [done | |].
    + intros c Hc.
      assert (Hin : docker.c_ID c ∈ map docker.c_ID resolved)
        by (apply list_elem_of_fmap; by exists c).
      split; [| by apply Hrec]. rewrite Hrun1. by rewrite bool_decide_eq_true_2.
    + intros id Hout. split.
      * rewrite Hrun1. by rewrite bool_decide_eq_false_2.
      * by rewrite (Hkeep id Hout), lookup_empty.
  - intros fuel plen storage0 env volumeName snapshotName. exists e2.
    unfold backup.BackupDirectVolumeWithContainers. rewrite Hstop, Hrestart.
    split_and!; [done | done | congruence].
  - intros fuel storage0 env volumeName snapshotName dryRun force plen. exists e2.
    unfold backup.RestoreDirectVolumeWithContainers. rewrite Hstop, Hrestart.
    split_and!; [done | done | congruence].
Qed.

(** The statement at two containers, one running and one not, the first
    named by its name and the second by the beginning of its id, around a
    backup of three bytes into the empty directory. *)
Lemma containers_stopped_then_restarted_witness :
  ∃ e2,
    backup.BackupDirectVolumeWithContainers (H := reference_Primitives)
      map_to_list 1 4 (Some (∅ : gmap string storage.content))
      (backup.MkBackupEnv (inl true) (inl (backup.MkVolumeInfo "v1" "" "" 0 "local" ""))
         None (inl [10; 20; 30]) None None false "" "" [] 0 "20240101-000000" 5)
      (docker.MkEngine
         [docker.MkContainer "aa11" ["/web"]; docker.MkContainer "bb22" ["/db"]]
         None (<["aa11" := true]> (<["bb22" := false]> ∅))
         (λ _, None) (λ _, None) (λ _, None))
      "v1" "b1" ["web"; "bb"] =
      (backup.BackupDirectVolume (H := reference_Primitives) 1 4
         (Some (∅ : gmap string storage.content))
         (backup.MkBackupEnv (inl true)
            (inl (backup.MkVolumeInfo "v1" "" "" 0 "local" ""))
            None (inl [10; 20; 30]) None None false "" "" [] 0 "20240101-000000" 5)
         "v1" "b1", e2) ∧
    docker.running e2 = <["aa11" := true]> (<["bb22" := false]> ∅).
Proof.
  destruct (containers_stopped_then_restarted (H := reference_Primitives)
              (B := gmap string storage.content) map_to_list
              (docker.MkEngine
                 [docker.MkContainer "aa11" ["/web"]; docker.MkContainer "bb22" ["/db"]]
                 None (<["aa11" := true]> (<["bb22" := false]> ∅))
                 (λ _, None) (λ _, None) (λ _, None))
              ["web"; "bb"]
              [docker.MkContainer "aa11" ["/web"]; docker.MkContainer "bb22" ["/db"]])
    as (_ & Hbackup & _).
  - intros m. reflexivity.
  - repeat split.
  - repeat constructor.
  - intros c Hc. apply elem_of_cons in Hc as [-> | Hc].
    + exists true. reflexivity.
    + apply elem_of_cons in Hc as [-> | Hc].
      * exists false. reflexivity.
      * by apply elem_of_nil in Hc.
  - simpl. apply NoDup_cons. split.
    + intros Hin. apply elem_of_cons in Hin as [Hin | Hin]; [discriminate Hin |].
      by apply elem_of_nil in Hin.
    + apply NoDup_singleton.
  - destruct (Hbackup 1%nat 4%nat (Some (∅ : gmap string storage.content))
                (backup.MkBackupEnv (inl true)
                   (inl (backup.MkVolumeInfo "v1" "" "" 0 "local" ""))
                   None (inl [10; 20; 30]) None None false "" "" [] 0
                   "20240101-000000" 5)
                "v1"%string "b1"%string)
      as (e2 & Heq & Hrun & _).
    exists e2. split; [exact Heq | exact Hrun].
Defined.

(** X22.  Containers the wrappers leave stopped.  On an engine whose
    calls do not fail: (1) when the names before an unknown one resolve
    to containers the engine can inspect, [stopContainers] stops those
    and then fails on the unknown name;
    [BackupDirectVolumeWithContainers] returns "failed to stop
    containers", does not run the backup, and starts nothing again, so
    the containers already stopped stay stopped; (2) when two
    of the names given resolve to the same running container, the second
    visit records it as not running and the wrapper does not start it
    again: after the backup the container is stopped. *)
Theorem containers_left_stopped `{crypto.Primitives} {B : Type}
    `{storage.Backend B} (range : gmap string bool → list (string * bool))
    (e : docker.Engine) :
  docker.calm e →
  (∀ names resolved unknown rest err fuel plen (storage : option B) env volumeName
     snapshotName,
     Forall2 (λ name container, docker.GetContainer e name = inl container)
       names resolved →
     (∀ container, container ∈ resolved →
                   is_Some (docker.running e !! docker.c_ID container)) →
     docker.GetContainer e unknown = inr err →
     ∃ e1,
       backup.BackupDirectVolumeWithContainers range fuel plen storage env e
         volumeName snapshotName (names ++ unknown :: rest) =
         (Some (Some (ErrWrap "failed to stop containers"
                        (ErrWrap "container not found" err)), storage), e1) ∧
       (∀ container, container ∈ resolved →
                     docker.running e1 !! docker.c_ID container = Some false) ∧
       (∀ id, id ∉ map docker.c_ID resolved →
              docker.running e1 !! id = docker.running e !! id)) ∧
  (∀ name1 name2 container fuel plen (storage : option B) env volumeName snapshotName,
     (∀ m : gmap string bool, range m ≡ₚ map_to_list m) →
     docker.GetContainer e name1 = inl container →
     docker.GetContainer e name2 = inl container →
     docker.running e !! docker.c_ID container = Some true →
     ∃ e2,
       backup.BackupDirectVolumeWithContainers range fuel plen storage env e
         volumeName snapshotName [name1; name2] =
         (backup.BackupDirectVolume fuel plen storage env volumeName snapshotName, e2) ∧
       docker.running e2 = <[docker.c_ID container := false]> (docker.running e)).
Proof.
  intros Hcalm. split.
  - intros names resolved unknown rest err fuel plen storage0 env volumeName snapshotName
      Hres Hdom Hunknown.
    destruct (stop_loop_calm names e ∅ resolved Hcalm Hres Hdom)
      as (e1 & stopped & Hloop & Hcalm1 & Hcs1 & Hrun1 & _ & _).
    exists e1. split_and!.
    + unfold backup.BackupDirectVolumeWithContainers.
      rewrite stopContainers_loop, Hloop. simpl.
      assert (Hget : docker.GetContainer e1 unknown = inr err).
      { unfold docker.GetContainer in *. destruct Hcalm1 as (-> & _).
        destruct Hcalm as (Hl & _). rewrite Hl in Hunknown. by rewrite Hcs1. }
      by rewrite Hget.
    + intros c Hc. rewrite Hrun1. rewrite bool_decide_eq_true_2; [done |].
      apply list_elem_of_fmap. by exists c.
    + intros id Hout. rewrite Hrun1. by rewrite bool_decide_eq_false_2.
  - intros name1 name2 c fuel plen storage0 env volumeName snapshotName Hrange
      Hget1 Hget2 Hstate.
    destruct (StopContainer_calm e (docker.c_ID c) true Hcalm Hstate) as [Hstop1 Hrun1].
    set (e1 := docker.set_running e (docker.c_ID c) false) in *.
    assert (Hcalm1 : docker.calm e1) by (by apply calm_set_running).
    assert (Hstate1 : docker.running e1 !! docker.c_ID c = Some false)
      by (by rewrite Hrun1, lookup_insert_eq).
    destruct (StopContainer_calm e1 (docker.c_ID c) false Hcalm1 Hstate1)
      as [Hstop2 Hrun2].
    set (e1' := docker.set_running e1 (docker.c_ID c) false) in *.
    assert (Hcalm1' : docker.calm e1') by (by apply calm_set_running).
    assert (Hstop : backup.stopContainers e [name1; name2] =
                    ((<[docker.c_ID c := false]> (<[docker.c_ID c := true]> ∅), None),
                     e1')).
    { unfold backup.stopContainers, backup.stop_loop. rewrite Hget1, Hstop1.
      assert (Hget2' : docker.GetContainer e1 name2 = inl c) by exact Hget2.
      by rewrite Hget2', Hstop2. }
    destruct (restartContainers_calm range e1'
                (<[docker.c_ID c := false]> (<[docker.c_ID c := true]> ∅)) Hrange Hcalm1')
      as (e2 & Hrestart & _ & _ & Hrun).
    exists e2. unfold backup.BackupDirectVolumeWithContainers.
    rewrite Hstop, Hrestart. split; [done |].
    apply map_eq. intros id. rewrite Hrun, Hrun2, Hrun1.
    rewrite insert_insert_eq.
    destruct (decide (id = docker.c_ID c)) as [-> | Hne].
    + rewrite !lookup_insert_eq. by rewrite bool_decide_eq_false_2.
    + rewrite !lookup_insert_ne by done. rewrite lookup_empty.
      by rewrite bool_decide_eq_false_2.
Qed.

(** The statement at an engine with one running container, named twice,
    and at the unknown name "cache". *)
Lemma containers_left_stopped_witness :
  (∀ fuel plen (storage : option (gmap string storage.content)) env volumeName
     snapshotName, ∃ e1,
     backup.BackupDirectVolumeWithContainers (H := reference_Primitives)
       map_to_list fuel plen storage env
       (docker.MkEngine [docker.MkContainer "aa11" ["/web"]] None (<["aa11" := true]> ∅)
          (λ _, None) (λ _, None) (λ _, None))
       volumeName snapshotName ["web"; "cache"] =
       (Some (Some (ErrWrap "failed to stop containers"
                      (ErrWrap "container not found" (ErrNew "container not found"))),
              storage), e1) ∧
     docker.running e1 !! "aa11" = Some false) ∧
  (∀ fuel plen (storage : option (gmap string storage.content)) env volumeName
     snapshotName, ∃ e2,
     backup.BackupDirectVolumeWithContainers (H := reference_Primitives)
       map_to_list fuel plen storage env
       (docker.MkEngine [docker.MkContainer "aa11" ["/web"]] None (<["aa11" := true]> ∅)
          (λ _, None) (λ _, None) (λ _, None))
       volumeName snapshotName ["web"; "aa11"] =
       (backup.BackupDirectVolume (H := reference_Primitives) fuel plen storage env
          volumeName snapshotName, e2) ∧
     docker.running e2 !! "aa11" = Some false).
Proof.
  destruct (containers_left_stopped (H := reference_Primitives)
              (B := gmap string storage.content) map_to_list
              (docker.MkEngine [docker.MkContainer "aa11" ["/web"]] None
                 (<["aa11" := true]> ∅) (λ _, None) (λ _, None) (λ _, None)))
    as [Hfail Htwice].
  - repeat split.
  - split.
    + intros fuel plen storage0 env volumeName snapshotName.
      destruct (Hfail ["web"] [docker.MkContainer "aa11" ["/web"]] "cache" []
                  (ErrNew "container not found") fuel plen storage0 env volumeName
                  snapshotName) as (e1 & Heq & Hstopped & _).
      * repeat constructor.
      * intros c Hc. apply elem_of_cons in Hc as [-> | Hc].
        -- exists true. reflexivity.
        -- by apply elem_of_nil in Hc.
      * reflexivity.
      * exists e1. split; [exact Heq |].
        apply (Hstopped (docker.MkContainer "aa11" ["/web"])). by left.
    + intros fuel plen storage0 env volumeName snapshotName.
      destruct (Htwice "web" "aa11" (docker.MkContainer "aa11" ["/web"]) fuel plen
                  storage0 env volumeName snapshotName) as (e2 & Heq & Hrun).
      * intros m. reflexivity.
      * reflexivity.
      * reflexivity.
      * reflexivity.
      * exists e2. split; [exact Heq |]. rewrite Hrun. reflexivity.
Defined.

(** ** The S3 backend *)

Section S3Facts.
Import strings storage.

Lemma S3Storage_List_omap (s : S3Storage) :
  S3Storage_List s =
    inl (omap (λ obj : string * content,
                 if bool_decide (5 < String.length obj.1)%nat &&
                    String.eqb (substring (String.length obj.1 - 5) 5 obj.1) ".json"
                 then json_Decode obj.2 else None)
           (merge_sort name_le (map_to_list (s3_objects s)))).
Proof.
  unfold S3Storage_List. f_equal.
  generalize (merge_sort name_le (map_to_list (s3_objects s))).
  assert (Hgen : ∀ (objs : list (string * content)) acc,
    foldl (λ backups (obj : string * content),
             if bool_decide (5 < String.length obj.1)%nat &&
                String.eqb (substring (String.length obj.1 - 5) 5 obj.1) ".json" then
               match json_Decode obj.2 with
               | None => backups
               | Some metadata => backups ++ [metadata]
               end
             else backups) acc objs =
    acc ++ omap (λ obj : string * content,
                   if bool_decide (5 < String.length obj.1)%nat &&
                      String.eqb (substring (String.length obj.1 - 5) 5 obj.1) ".json"
                   then json_Decode obj.2 else None) objs).
  { induction objs as [| obj objs IH]; intros acc; simpl.
    - by rewrite app_nil_r.
    - rewrite IH.
      destruct (bool_decide (5 < String.length obj.1)%nat &&
                String.eqb (substring (String.length obj.1 - 5) 5 obj.1) ".json");
        [| done].
      destruct (json_Decode obj.2); [| done]. by rewrite <- app_assoc. }
  intros objs. apply (Hgen objs []).
Qed.

(** The test of the loop of [List]: the key is a nonempty id followed by
    ".json". *)
Lemma metadata_key_iff key :
  bool_decide (5 < String.length key)%nat &&
  String.eqb (substring (String.length key - 5) 5 key) ".json" = true ↔
  ∃ id, id ≠ ""%string ∧ key = id +:+ ".json".
Proof.
  split.
  - intros Htest. apply andb_true_iff in Htest as [Hlen Heq].
    apply bool_decide_eq_true_1 in Hlen.
    assert (Hs : HasSuffix key ".json" = true).
    { unfold HasSuffix. apply andb_true_iff. split; [| exact Heq].
      apply bool_decide_eq_true_2. simpl. lia. }
    apply HasSuffix_inv in Hs. exists (TrimSuffix key ".json"). split; [| done].
    intros Hempty. rewrite Hempty in Hs. rewrite Hs in Hlen. simpl in Hlen. lia.
  - intros (id & Hid & ->). apply andb_true_iff. split.
    + apply bool_decide_eq_true_2. rewrite string_length_app. simpl.
      destruct id; [done | simpl; lia].
    + apply String.eqb_eq. rewrite string_length_app. simpl String.length.
      replace (String.length id + 5 - 5)%nat with (String.length id) by lia.
      clear Hid. induction id as [| c id IH]; [done | exact IH].
Qed.

Lemma S3Storage_Retrieve_other (s s' : S3Storage) id :
  s3_body s' = s3_body s →
  s3_objects s' !! (id +:+ ".json") = s3_objects s !! (id +:+ ".json") →
  s3_objects s' !! (id +:+ ".tar.gz") = s3_objects s !! (id +:+ ".tar.gz") →
  S3Storage_Retrieve s' id = S3Storage_Retrieve s id ∧
  S3Storage_Exists s' id = S3Storage_Exists s id.
Proof.
  intros Hb Hj Hd. unfold S3Storage_Retrieve, S3Storage_Exists. by rewrite Hb, Hj, Hd.
Qed.

End S3Facts.

(** X23.  The S3 backend gives back what was stored.  When the reader of
    a backup delivers [data] without error and no request fails, [Store]
    returns [nil]; afterwards [Exists] of the id is true, [Retrieve] of
    the id returns the body of the data object together with the metadata
    as the JSON encoding keeps it (in every string, each byte that is not
    part of valid UTF-8 replaced by U+FFFD), and [List] holds that
    metadata if the id is not empty; when every string of the metadata is
    valid UTF-8, this is the metadata handed in.  For every other id,
    [Retrieve] and [Exists] answer as before. *)
Theorem S3Storage_Store_then_Retrieve (s : storage.S3Storage)
    (backup : storage.Backup) (data : list Z) :
  storage.read_all (storage.b_DataReader backup) = (data, None) →
  ∃ s',
    storage.S3Storage_Store storage.no_s3_faults s backup = (None, s') ∧
    storage.S3Storage_Exists s' (storage.b_ID backup) = inl true ∧
    storage.S3Storage_Retrieve s' (storage.b_ID backup) =
      inl (storage.MkBackup (storage.b_ID backup)
             (storage.json_roundtrip (storage.b_Metadata backup))
             (storage.s3_body s data)) ∧
    (storage.b_ID backup ≠ ""%string →
     ∃ backups, storage.S3Storage_List s' = inl backups ∧
                storage.json_roundtrip (storage.b_Metadata backup) ∈ backups) ∧
    (storage.valid_metadata (storage.b_Metadata backup) = true →
     storage.json_roundtrip (storage.b_Metadata backup) = storage.b_Metadata backup) ∧
    (∀ id, id ≠ storage.b_ID backup →
       storage.S3Storage_Retrieve s' id = storage.S3Storage_Retrieve s id ∧
       storage.S3Storage_Exists s' id = storage.S3Storage_Exists s id).
Proof.
  intros Hread. unfold storage.S3Storage_Store. rewrite Hread. simpl.
  eexists. split; [reflexivity |].
  pose proof (targz_ne_json (storage.b_ID backup)) as Hne.
  split_and!.
  - unfold storage.S3Storage_Exists, storage.PutObject. simpl.
    rewrite lookup_insert_eq. by rewrite bool_decide_eq_true_2.
  - unfold storage.S3Storage_Retrieve, storage.PutObject. simpl.
    rewrite lookup_insert_eq. simpl.
    rewrite lookup_insert_ne by (intros E; by symmetry in E).
    by rewrite lookup_insert_eq.
  - intros Hid. rewrite S3Storage_List_omap. eexists. split; [reflexivity |].
    apply list_elem_of_omap.
    exists (storage.b_ID backup +:+ ".json",
            storage.Json (storage.json_roundtrip (storage.b_Metadata backup))).
    split.
    + rewrite merge_sort_Permutation. apply elem_of_map_to_list.
      unfold storage.PutObject. simpl. by rewrite lookup_insert_eq.
    + cbn [fst snd].
      assert (Htest : bool_decide
                        (5 < String.length (storage.b_ID backup +:+ ".json"))%nat &&
                      String.eqb
                        (substring
                           (String.length (storage.b_ID backup +:+ ".json") - 5) 5
                           (storage.b_ID backup +:+ ".json")) ".json" = true).
      { apply metadata_key_iff. by exists (storage.b_ID backup). }
      by rewrite Htest.
  - apply json_roundtrip_valid.
  - intros id Hid. destruct (other_id_paths (storage.b_ID backup) id Hid)
      as (H1 & H2 & H3 & H4).
    apply S3Storage_Retrieve_other; [done | |]; unfold storage.PutObject; simpl;
      by rewrite !lookup_insert_ne by done.
Qed.

(** The statement at a backup of three bytes into the empty bucket. *)
Lemma S3Storage_Store_then_Retrieve_witness :
  ∃ s',
    storage.S3Storage_Store storage.no_s3_faults
      (storage.MkS3Storage ∅ bytes_NewReader)
      (storage.MkBackup "b1@20240101-000000"
         (storage.MkMetadata "b1@20240101-000000" "b1" "volume" 3 5 "" "v1" "" ""
            "" "20240101-000000" false)
         (bytes_NewReader [10; 20; 30])) = (None, s') ∧
    storage.S3Storage_Retrieve s' "b1@20240101-000000" =
      inl (storage.MkBackup "b1@20240101-000000"
             (storage.MkMetadata "b1@20240101-000000" "b1" "volume" 3 5 "" "v1" "" ""
                "" "20240101-000000" false)
             (bytes_NewReader [10; 20; 30])).
Proof.
  destruct (S3Storage_Store_then_Retrieve (storage.MkS3Storage ∅ bytes_NewReader)
              (storage.MkBackup "b1@20240101-000000"
                 (storage.MkMetadata "b1@20240101-000000" "b1" "volume" 3 5 "" "v1" ""
                    "" "" "20240101-000000" false)
                 (bytes_NewReader [10; 20; 30]))
              [10; 20; 30] eq_refl) as (s' & Hstore & _ & Hget & _).
  exists s'. split; [exact Hstore | exact Hget].
Defined.

(** X24.  A [Store] of the S3 backend that fails after the upload of the
    data leaves the data in the bucket.  When the reader delivers [data]
    and the upload of the data succeeds, but the encoding or the upload
    of the metadata fails, [Store] returns that error ("failed to marshal
    metadata" or "failed to upload metadata") and removes nothing: the
    object "id.tar.gz" holds the new data, the object "id.json" is as
    before.  So an id that was not stored before is still reported as
    absent by [Exists], with its data left in the bucket, and for an id
    that was stored before [Retrieve] now returns the old metadata with
    the new data. *)
Theorem S3Storage_failed_Store_keeps_data (flt : storage.S3Faults)
    (s : storage.S3Storage) (backup : storage.Backup) (data : list Z) :
  storage.read_all (storage.b_DataReader backup) = (data, None) →
  storage.put_data_err flt = None →
  is_Some (storage.marshal_err flt) ∨ is_Some (storage.put_meta_err flt) →
  ∃ err s',
    storage.S3Storage_Store flt s backup = (Some err, s') ∧
    err = match storage.marshal_err flt with
          | Some cause => ErrWrap "failed to marshal metadata" cause
          | None =>
              match storage.put_meta_err flt with
              | Some cause => ErrWrap "failed to upload metadata" cause
              | None => err
              end
          end ∧
    storage.s3_objects s' !! (storage.b_ID backup +:+ ".tar.gz") =
      Some (storage.Bytes data) ∧
    storage.s3_objects s' !! (storage.b_ID backup +:+ ".json") =
      storage.s3_objects s !! (storage.b_ID backup +:+ ".json") ∧
    storage.S3Storage_Exists s' (storage.b_ID backup) =
      storage.S3Storage_Exists s (storage.b_ID backup) ∧
    (∀ old, storage.S3Storage_Retrieve s (storage.b_ID backup) = inl old →
       storage.S3Storage_Retrieve s' (storage.b_ID backup) =
         inl (storage.MkBackup (storage.b_ID backup) (storage.b_Metadata old)
                (storage.s3_body s data))).
Proof.
  intros Hread Hput Hfail. unfold storage.S3Storage_Store. rewrite Hread, Hput.
  pose proof (targz_ne_json (storage.b_ID backup)) as Hne.
  assert (Hjson :
    storage.s3_objects
      (storage.PutObject s (storage.b_ID backup +:+ ".tar.gz") (storage.Bytes data))
      !! (storage.b_ID backup +:+ ".json") =
    storage.s3_objects s !! (storage.b_ID backup +:+ ".json")).
  { unfold storage.PutObject. simpl.
    by rewrite lookup_insert_ne by (intros E; by symmetry in E). }
  assert (Hdata :
    storage.s3_objects
      (storage.PutObject s (storage.b_ID backup +:+ ".tar.gz") (storage.Bytes data))
      !! (storage.b_ID backup +:+ ".tar.gz") = Some (storage.Bytes data)).
  { unfold storage.PutObject. simpl. by rewrite lookup_insert_eq. }
  assert (Hrest :
    storage.S3Storage_Exists
      (storage.PutObject s (storage.b_ID backup +:+ ".tar.gz") (storage.Bytes data))
      (storage.b_ID backup) = storage.S3Storage_Exists s (storage.b_ID backup) ∧
    ∀ old, storage.S3Storage_Retrieve s (storage.b_ID backup) = inl old →
       storage.S3Storage_Retrieve
         (storage.PutObject s (storage.b_ID backup +:+ ".tar.gz") (storage.Bytes data))
         (storage.b_ID backup) =
         inl (storage.MkBackup (storage.b_ID backup) (storage.b_Metadata old)
                (storage.s3_body s data))).
  { split.
    - unfold storage.S3Storage_Exists. by rewrite Hjson.
    - intros old Hold. unfold storage.S3Storage_Retrieve in *.
      rewrite Hjson, Hdata.
      destruct (storage.s3_objects s !! (storage.b_ID backup +:+ ".json"))
        as [c |]; [| done].
      destruct (storage.json_Decode c) as [m |]; [| done].
      destruct (storage.s3_objects s !! (storage.b_ID backup +:+ ".tar.gz"));
        [| done].
      by simplify_eq. }
  destruct Hrest as [Hexists Hretrieve].
  destruct (storage.marshal_err flt) as [cause |].
  - by eexists _, _.
  - destruct (storage.put_meta_err flt) as [cause |].
    + by eexists _, _.
    + destruct Hfail as [[? ?] | [? ?]]; done.
Qed.

(** The statement at a second backup under an id already stored, the
    upload of whose metadata fails. *)
Lemma S3Storage_failed_Store_keeps_data_witness :
  ∃ err s',
    storage.S3Storage_Store
      (storage.MkS3Faults None None (Some (ErrNew "request failed")))
      (storage.MkS3Storage
         (<["b1.json" := storage.Json
              (storage.MkMetadata "b1" "b1" "volume" 3 5 "" "v1" "" "" "" "" false)]>
            (<["b1.tar.gz" := storage.Bytes [10; 20; 30]]> ∅))
         bytes_NewReader)
      (storage.MkBackup "b1"
         (storage.MkMetadata "b1" "b1" "volume" 2 9 "" "v1" "" "" "" "" false)
         (bytes_NewReader [40; 50])) = (Some err, s') ∧
    storage.S3Storage_Retrieve s' "b1" =
      inl (storage.MkBackup "b1"
             (storage.MkMetadata "b1" "b1" "volume" 3 5 "" "v1" "" "" "" "" false)
             (bytes_NewReader [40; 50])).
Proof.
  destruct (S3Storage_failed_Store_keeps_data
              (storage.MkS3Faults None None (Some (ErrNew "request failed")))
              (storage.MkS3Storage
                 (<["b1.json" := storage.Json
                      (storage.MkMetadata "b1" "b1" "volume" 3 5 "" "v1" "" "" "" ""
                         false)]>
                    (<["b1.tar.gz" := storage.Bytes [10; 20; 30]]> ∅))
                 bytes_NewReader)
              (storage.MkBackup "b1"
                 (storage.MkMetadata "b1" "b1" "volume" 2 9 "" "v1" "" "" "" "" false)
                 (bytes_NewReader [40; 50]))
              [40; 50] eq_refl eq_refl)
    as (err & s' & Hstore & _ & _ & _ & _ & Hold).
  - right. by eexists.
  - exists err, s'. split; [exact Hstore |].
    apply (Hold (storage.MkBackup "b1"
                   (storage.MkMetadata "b1" "b1" "volume" 3 5 "" "v1" "" "" "" "" false)
                   (bytes_NewReader [10; 20; 30]))).
    reflexivity.
Defined.

(** X25.  What the S3 backend lists and deletes.  [List] returns exactly
    the metadata of the objects whose key is a nonempty id followed by
    ".json" and whose content decodes; every other object, also one
    stored under the empty id, is passed over without an error.  [Delete]
    returns [nil] whether or not the id was stored; afterwards [Exists]
    of the id is false, [Retrieve] fails with "failed to retrieve
    metadata", and every other id is answered as before. *)
Theorem S3Storage_List_and_Delete (s : storage.S3Storage) :
  (∃ backups,
     storage.S3Storage_List s = inl backups ∧
     ∀ metadata, metadata ∈ backups ↔
       ∃ id, id ≠ ""%string ∧
             storage.s3_objects s !! (id +:+ ".json") = Some (storage.Json metadata)) ∧
  (∀ id, ∃ s',
     storage.S3Storage_Delete s id = (None, s') ∧
     storage.S3Storage_Exists s' id = inl false ∧
     storage.S3Storage_Retrieve s' id = inr (ErrNew "failed to retrieve metadata") ∧
     ∀ id', id' ≠ id →
       storage.S3Storage_Retrieve s' id' = storage.S3Storage_Retrieve s id' ∧
       storage.S3Storage_Exists s' id' = storage.S3Storage_Exists s id').
Proof.
  split.
  - rewrite S3Storage_List_omap. eexists. split; [reflexivity |].
    intros metadata. rewrite list_elem_of_omap. split.
    + intros ([key c] & Hin & Hsome). cbn [fst snd] in Hsome.
      rewrite merge_sort_Permutation in Hin. apply elem_of_map_to_list in Hin.
      destruct (bool_decide (5 < String.length key)%nat &&
                String.eqb (substring (String.length key - 5) 5 key) ".json")
        eqn:Htest; [| done].
      apply metadata_key_iff in Htest as (id & Hid & ->).
      exists id. split; [done |]. destruct c; simplify_eq/=. done.
    + intros (id & Hid & Hobj).
      exists (id +:+ ".json", storage.Json metadata). split.
      * rewrite merge_sort_Permutation. by apply elem_of_map_to_list.
      * cbn [fst snd].
        assert (Htest : bool_decide (5 < String.length (id +:+ ".json"))%nat &&
                        String.eqb
                          (substring (String.length (id +:+ ".json") - 5) 5
                             (id +:+ ".json")) ".json" = true).
        { apply metadata_key_iff. by exists id. }
        by rewrite Htest.
  - intros id. eexists. split; [reflexivity |]. split_and!.
    + unfold storage.S3Storage_Exists. simpl. rewrite lookup_delete_eq.
      by rewrite bool_decide_eq_false_2 by (by intros [? ?]).
    + unfold storage.S3Storage_Retrieve. simpl. by rewrite lookup_delete_eq.
    + intros id' Hid. destruct (other_id_paths id id' Hid) as (H1 & H2 & H3 & H4).
      apply S3Storage_Retrieve_other; [done | |]; simpl;
        by rewrite !lookup_delete_ne by done.
Qed.

(** ** Resolving a container by name or id *)

Section Resolve.
Import strings docker.

Lemma find_first {A : Type} (f : A → bool) (l : list A) (x : A) :
  List.find f l = Some x ↔
  ∃ pre post, l = pre ++ x :: post ∧ f x = true ∧ ∀ y, y ∈ pre → f y = false.
Proof.
  induction l as [| a l IH]; simpl.
  - split; [done |]. intros (pre & post & Hl & _). by destruct pre.
  - destruct (f a) eqn:Hfa.
    + split.
      * intros [= ->]. exists [], l. split_and!; [done | done |].
        intros y Hy. by apply elem_of_nil in Hy.
      * intros (pre & post & Hl & Hfx & Hpre). destruct pre as [| b pre].
        -- simpl in Hl. by simplify_eq.
        -- simpl in Hl. simplify_eq. rewrite Hpre in Hfa; [done | by left].
    + rewrite IH. split.
      * intros (pre & post & -> & Hfx & Hpre). exists (a :: pre), post.
        split_and!; [done | done |]. intros y Hy.
        apply elem_of_cons in Hy as [-> | Hy]; [done | by apply Hpre].
      * intros (pre & post & Hl & Hfx & Hpre). destruct pre as [| b pre].
        -- simpl in Hl. simplify_eq. by rewrite Hfx in Hfa.
        -- simpl in Hl. simplify_eq. exists pre, post. split_and!; [done | done |].
           intros y Hy. apply Hpre. by right.
Qed.

Lemma find_nothing {A : Type} (f : A → bool) (l : list A) :
  List.find f l = None ↔ ∀ y, y ∈ l → f y = false.
Proof.
  induction l as [| a l IH]; simpl.
  - split; [| done]. intros _ y Hy. by apply elem_of_nil in Hy.
  - destruct (f a) eqn:Hfa.
    + split; [done |]. intros Hall. rewrite Hall in Hfa; [done | by left].
    + rewrite IH. split.
      * intros Hall y Hy. apply elem_of_cons in Hy as [-> | Hy]; [done | by apply Hall].
      * intros Hall y Hy. apply Hall. by right.
Qed.

Lemma matches_iff name container :
  matches name container = true ↔
  (∃ rest, c_ID container = name +:+ rest) ∨
  (∃ containerName, containerName ∈ c_Names container ∧
                    TrimPrefix containerName "/" = name).
Proof.
  unfold matches. rewrite !orb_true_iff, HasPrefix_iff, existsb_exists. split.
  - intros [[Heq | Hpre] | (n & Hin & Hn)].
    + left. apply String.eqb_eq in Heq. exists ""%string. by rewrite append_nil_r.
    + by left.
    + right. exists n. split; [by apply list_elem_of_In | by apply String.eqb_eq].
  - intros [Hpre | (n & Hin & Hn)].
    + left. by right.
    + right. exists n. split; [by apply list_elem_of_In | by apply String.eqb_eq].
Qed.

End Resolve.

(** X26.  Which container a name resolves to.  When the engine lists its
    containers, [GetContainer] returns the first container of the listing
    whose id begins with the name given, or one of whose names, without
    leading "/", is the name; a container listed earlier whose id merely
    begins with the name wins over a later one with exactly that name.
    It returns "container not found" exactly when no container of the
    listing is such a match.  The empty name is the beginning of every
    id: it resolves to the first container listed. *)
Theorem GetContainer_first_match (e : docker.Engine) (name : string) :
  docker.list_err e = None →
  (∀ container,
     docker.GetContainer e name = inl container ↔
     ∃ before after,
       docker.containers e = before ++ container :: after ∧
       docker.matches name container = true ∧
       ∀ other, other ∈ before → docker.matches name other = false) ∧
  (docker.GetContainer e name = inr (ErrNew "container not found") ↔
   ∀ container, container ∈ docker.containers e →
                docker.matches name container = false) ∧
  (∀ container,
     docker.matches name container = true ↔
     (∃ rest, docker.c_ID container = name +:+ rest) ∨
     (∃ containerName, containerName ∈ docker.c_Names container ∧
                       strings.TrimPrefix containerName "/" = name)) ∧
  (∀ first others,
     docker.containers e = first :: others →
     docker.GetContainer e "" = inl first).
Proof.
  intros Hlist. unfold docker.GetContainer. rewrite Hlist. split_and!.
  - intros c. rewrite <- find_first.
    destruct (List.find (docker.matches name) (docker.containers e));
      split; intros E; by simplify_eq.
  - rewrite <- find_nothing.
    destruct (List.find (docker.matches name) (docker.containers e));
      split; intros E; by simplify_eq.
  - apply matches_iff.
  - intros first others ->. simpl.
    assert (Hm : docker.matches "" first = true).
    { apply matches_iff. left. by exists (docker.c_ID first). }
    by rewrite Hm.
Qed.

(** The statement at two containers, the name "db" being the name of the
    second and the beginning of the id of the first. *)
Lemma GetContainer_first_match_witness :
  docker.GetContainer
    (docker.MkEngine
       [docker.MkContainer "db99" ["/web"]; docker.MkContainer "aa11" ["/db"]]
       None ∅ (λ _, None) (λ _, None) (λ _, None)) "db" =
    inl (docker.MkContainer "db99" ["/web"]) ∧
  docker.GetContainer
    (docker.MkEngine
       [docker.MkContainer "db99" ["/web"]; docker.MkContainer "aa11" ["/db"]]
       None ∅ (λ _, None) (λ _, None) (λ _, None)) "" =
    inl (docker.MkContainer "db99" ["/web"]).
Proof.
  destruct (GetContainer_first_match
              (docker.MkEngine
                 [docker.MkContainer "db99" ["/web"]; docker.MkContainer "aa11" ["/db"]]
                 None ∅ (λ _, None) (λ _, None) (λ _, None)) "db" eq_refl)
    as (Hfirst & _ & _ & Hempty).
  split.
  - apply Hfirst. exists [], [docker.MkContainer "aa11" ["/db"]].
    split; [reflexivity |]. split; [reflexivity |].
    intros other Hother. by apply elem_of_nil in Hother.
  - apply (Hempty (docker.MkContainer "db99" ["/web"])
             [docker.MkContainer "aa11" ["/db"]]).
    reflexivity.
Defined.
